(* ===== verification/_CoqProject ===== *)
-Q . S2P
Prelude.v
PyStr.v
Json.v
Scope.v
Models.v
World.v
Sha256.v
Encoding.v
Envelopes.v
Schemas.v
Crypto.v
Cache.v
Locks.v
JsonText.v
OAuthCf.v
Upstream.v
AccessTokens.v
Security.v
AuditLogs.v
OAuthService.v
Refreshing.v
ProxyAuth.v
Credentials.v
Tokens.v
Management.v
Authorizer.v
ListFilter.v
ProxyDns.v
Progress.v
App.v
Server.v
Documented.v
Process.v
Console.v
Statements.v
System.v
Tenancy.v
Caching.v
Transactions.v
Demo.v
Concurrency.v
LocalLocks.v
Witnesses.v
LoginWitnesses.v
ServerWitnesses.v
ApiRuns.v
SystemWitnesses.v
