(* ===== verification/Prelude.v ===== *)
(** * cfproxy: a record-scoped Cloudflare DNS proxy, modelled in Rocq

    cfproxy stands between the users of Cloudflare zones and the Cloudflare
    API. A user stores an upstream credential, mints scoped tokens under it,
    each with rules (zone, record types, name pattern or record ids, allowed
    operations), and hands the tokens out; a client presents such a token to
    the proxy, which decides every DNS request against the rules, forwards what
    is allowed with the real credential, and audits the attempt. The paths
    below are under [src/src/cfproxy/].

    ** The files

    - [Prelude] : exceptions, the [result] monad, shared list lemmas;
    - [PyStr], [Json], [JsonText], [Sha256], [Encoding] : the Python and
      standard-library operations the program uses (strings on code points, the
      idna codec, dynamically typed JSON values, [json.dumps] and [json.loads],
      SHA-256, base64 and URL encoding);
    - [Scope] : [authz/scope.py], the pure predicates: [normalize_fqdn],
      [validate_name_pattern], [name_matches], [match_rules],
      [is_lock_exempt], [merge_patch_image];
    - [Models] : [db/models.py], rows, tables, keys and foreign keys;
    - [World] : the state of a request, the environment (class [Env]), the
      monad [M], the session operations, and the program logic;
    - [Envelopes] : [core/envelopes.py] and [core/cf_errors.py];
    - [Schemas] : [schemas/management.py] and [schemas/cloudflare.py], the
      declared models and the reading of a JSON body into one; what pydantic
      makes of values of another type is the class [Pydantic];
    - [Crypto] : [core/crypto.py]; [Cache] : [cache/redis.py];
      [Locks] : [db/locks.py];
    - [OAuthCf] : [auth/oauth_cf.py], the OpenID client (PKCE, the token
      endpoint, key sets, id tokens); PyJWT is the class [OidcLibs];
    - [Upstream] : [upstream/client.py], all traffic to Cloudflare;
    - [AccessTokens] : the ways [get_valid_access_token] can end;
    - [Refreshing] : several refreshes and consents of one credential at once,
      statement by statement, under its row lock;
    - [AuditLogs] : [services/audit_service.py];
    - [ProxyAuth] : [auth/proxy_auth.py], from a bearer string to the context
      (token row, rules, credential) of a proxied request;
    - [Credentials], [Tokens] : [services/credential_service.py] and
      [services/token_service.py];
    - [Security] : [core/security.py], passwords, session tokens, the current
      user; argon2 and PyJWT are the class [AuthLibs];
    - [OAuthService] : [services/oauth_service.py], the login with Cloudflare;
    - [Management] : [routers/auth.py], [credentials.py], [tokens.py] and
      [audit.py], and the bodies they answer;
    - [Authorizer] : [authz/authorizer.py], the decision on one request;
    - [ListFilter] : [filtering/list_filter.py];
    - [ProxyDns] : [routers/proxy_dns.py], the proxied endpoints;
    - [Progress] : the endpoints when nothing stands in the way;
    - [App] : [main.py], [routers/proxy_verify.py], [routers/proxy_blocked.py]:
      routes, exception handlers, probes;
    - [Server] : a raw request (method, path, query, headers, body) from its
      route through parameters, body and dependencies to its answer; what
      FastAPI reads of a request is the class [Framework], how Starlette
      matches a path the class [Router];
    - [Documented] : the responses the routers declare and the examples of the
      schemas, as data, and that the endpoints answer so;
    - [Process] : the global variables of a process (engine, session factory,
      Redis client) and the modules that imported them;
    - [Console] : [cli/console.py] and [init_db] of [db/session.py];
    - [Statements] : every INSERT, UPDATE and DELETE of the program, as data;
    - [System], [Tenancy] : every call of the program as a step on the shared
      state, and what holds of every state reached;
    - [Caching] : the cache of rules along such steps;
    - [Transactions] : the commits of different calls, landing in any order on
      tables that others have changed meanwhile;
    - [Concurrency] : any number of proxied requests interleaved, one lock
      service, one Cloudflare account;
    - [LocalLocks] : the process-local locks of [db/locks.py], as asyncio
      implements them, with any number of tasks;
    - [ApiRuns] : one request for every documented error;
    - [Demo], [Witnesses], [LoginWitnesses], [ServerWitnesses],
      [SystemWitnesses] : closed environments, and every property with hypotheses applied to one of them.

    ** The model

    An effectful function is a value of [M A = world -> result A * world]. The
    [world] holds the committed tables and the tables as the session sees them,
    Redis, the state of the Cloudflare side, the client singleton, the cached
    key set of the issuer, the locks held, the trace of what was done outside
    (HTTP exchanges, locks taken and released), and the tables after each commit
    (which nothing of the program reads). Every contact with the outside advances a tick, and the
    class [Env] gives, as functions of the tick, all the program does not
    control: the clock, failures of Redis and of the database, the outcome of
    a lock request, random choices, what Cloudflare answers (a state machine of
    its own). Every theorem holds for every environment, unless it names an
    assumption on it. A Python exception is a [Raise]; type errors of
    dynamically typed JSON are modelled, not excluded.

    A statement of the session fails when the database is down; a commit checks
    the constraints of the schema, and an error rolls the session back.
    [DateTime] columns come back as the driver gives them ([column_tz], naive
    or aware), and comparing a naive with an aware value raises. MySQL, as
    [compose.yaml] starts it, compares texts without case and accents: e-mail
    addresses, subjects and labels are compared, and kept unique, through the
    sort key of its collation (the class [Collation], any function); SQLite
    compares them as they are. Ids are uuids in lower case that the program
    makes, and clients send back as they got them: they are compared exactly.

    ** The program logic ([World])

    - [wp m Q w] : the outcome and final state of [m] satisfy [Q];
    - [Keeps R m], [KeepsOk R m] : a frame, every run (every normal run) of [m]
      is related by [R] to the state it started from;
    - [Emits m Q] : every run appends a list of events to the trace that [Q]
      relates to the outcome; [Within E X m] : its events satisfy [E] and its
      exceptions [X];
    - [Returns P m] : what [m] returns satisfies [P].
    The hint databases [keeps], [keeps_ok], [within] and [returns] hold the
    lemmas of each judgement. What every call keeps is proved against an
    interface: a relation that the statements of [Statements] keep one by one
    (the class [Frame]; [FrameMint], [FrameDelete] and [FrameTokens] for the
    calls whose statements it may need together, [FrameTables] where it does
    not) is kept by [receive] and by the console. [steady] of [Cache] is the frame of the
    calls that do not touch the cached rules except by losing them.

    ** The theorems

    - The decision: [match_rules] decides the declarative relation
      [authorised], total on ASCII names; a by-id request is decided as the
      relation [by_id_decision] says; an exempt mutation is always allowed.
    - Confinement of the endpoints: [mutation_confined] bounds everything a
      PATCH, PUT or DELETE can send, with the lock around fetch and forward;
      [create_confined], [get_reveals_only_readable],
      [list_dns_records_scoped] do so for the other endpoints, and
      [mutation_answers] says which answer is given when.
    - Raw requests: whatever arrives, the only requests that change anything at
      Cloudflare come from a proxied call whose token resolved and whose rules
      allow it ([only_authorised_writes]); every answer has the shape of its
      surface ([requests_answered_in_shape]); a management endpoint outside
      login runs only for the active user its session token names
      ([management_needs_user]); a mint request is read back as it was written
      ([mint_request_roundtrip]).
    - Concurrency: a session is one request run in its own environment, an
      execution an interleaving of traces in which locks exclude. A locked
      mutation is still in scope when it is sent, among mutations that are
      locked and spell the record by the same ids
      ([locked_mutation_up_to_date]); an exempt one can overtake it
      ([exempt_rename_overtakes]), and so can a locked one that spells the record
      otherwise ([aliased_rename_overtakes]). The lock service of an execution is what
      MySQL promises; without it the process-local locks are one
      ([local_locks_exclude]), and nobody waits for ever on a free one
      ([no_lost_wakeup]).
    - Authentication: what [resolve_scoped_token] resolves and that it resolves
      everything it should, with the cached rules ([coherent]: an entry under
      the key of a token and its version holds its rules); coherence is an
      invariant of the running system ([cached_rules_never_stale]).
    - Life of a token: mint, rotate and revoke against authentication;
      tenants are separated; no token without a pinned or named rule.
    - Credentials: what is pasted is what authenticates; deletion cascades
      where foreign keys are off and fails where they are on.
    - Delegated tokens: [get_valid_access_token] refines the relation
      [access_token]: at most one request, all or nothing on the tables.
      Under any interleaving of requests and consents, every rotation that is
      stored replaces the very refresh token traded in for it, as long as no
      consent is stored from a stale object ([refresh_chain]); with one, the
      token of the old grant can replace the new one
      ([stale_consent_is_overwritten]). A request that waited for the row lock
      trades in the refresh token the one before it has used
      ([waiter_trades_again]).
    - Transport: everything goes to [https://api.cloudflare.com], stated on the
      characters of the URL, without the client's authentication headers; a
      listing fetches every page once and ends.
    - Supporting components: locks are released on every path, lock names fit,
      the cache never raises nor touches anything else, audit rows are
      appended and only shown to their user.
    - Logins: who logs in with a password or with Cloudflare is who the session
      token names; an id token is accepted only with its signature, nonce and
      hash claims checked now, under a key of a set the issuer answered in this
      run or within the hour ([validate_id_token_sound]; that the process holds
      no other key set, [jwks_fetched], is kept by every call,
      [System.call_keeps_jwks]), an OAuth state only once; what belongs to
      another user answers 404.
    - The documented API: a management endpoint answers with a status, a
      message and the fields its route declares, and lets no exception escape
      that the route documents a status for ([management_answers_documented]);
      [ApiRuns] runs one request for each documented error.
    - The application: every path of the proxy without a newline is routed to
      one of its endpoints, a method outside the five to none but, for HEAD, the
      documentation of the framework ([proxy_routing]).
    - The running system, by induction on the steps of [System.reachable]: a
      token that is not active never authenticates again
      ([revocation_is_permanent]), a token's rules are fixed when it is minted
      ([token_scope_is_fixed]), a token works with a credential of its owner
      ([tenants_stay_apart]), the audit log only grows. Every commit of every
      call is a transaction of the statements of [Statements] and of no others
      ([calls_are_transactions]), and the safety of the tables holds however
      the commits of different calls, computed from stale reads, land on them
      ([interleaved_calls_safe]). An [Evolution] is a preorder on databases kept
      by the statements; one frame lemma per function then carries it through
      every call.
    - Equivalence: [resolve_scoped_token] with its cache is the cache-free
      [resolve_reference]. Progress: an allowed mutation reaches upstream and
      its answer the client ([mutation_goes_through]).

    ** Fuel

    Three kinds of definitions carry fuel. The paging loops
    ([list_all_records], [_fetch_all_zones], [list_credential_zones]) end with
    [OutOfFuel] when it runs out; as many iterations as upstream announces
    pages are enough ([list_all_records_terminates]). The JSON reader is given
    twice the length of its input plus two, and the digits of a number its
    binary size: both are computed from the input, and are enough.

    ** What is not modelled

    How FastAPI reads headers, bodies and path parameters (the class
    [Framework]), what pydantic makes of values outside the declared types (the
    class [Pydantic]), and Starlette's matching of paths (the class [Router],
    with first-match in the order of the routes as its law); what argparse makes
    of abbreviated or malformed arguments; the DDL of [create_all]; how pydantic
    finds the text of a setting; logging. The lengths of [String] columns are not
    checked. Floating-point numbers in JSON are not represented: no payload the
    program inspects has any. The URL of a request is what the program hands to
    httpx ([record_path] and its like, the ids unescaped): what httpx makes of a
    question mark, a number sign or a dot segment in it is not modelled, except
    that [Concurrency] takes as arguments which record a URL addresses. The
    routes FastAPI adds for its own documentation are in the route table, their
    pages are the framework's.

    A handler is modelled one request at a time, with what others do meanwhile in
    the answers of its environment; [System] lets whole calls follow one another,
    [Transactions] lands their commits on tables that others have changed (what
    a call reads between two commits of its own is what it has written),
    [Concurrency] interleaves what the handlers do outside, and [LocalLocks] the
    tasks that wait for a lock. No model interleaves all of these at once. *)

From Stdlib Require Export ZArith NArith Lia.
From stdpp Require Export base decidable option list list_numbers gmap strings.

Set Default Goal Selector "!".
#[export] Set Warnings "-notation-overridden,-clear-no-such-hyp".

(** ** Python strings: sequences of code points *)

Abbreviation pystr := (list N).

(** A literal of the source, as code points. *)
Definition u (s : string) : pystr :=
  (fun c => Ascii.N_of_ascii c) <$> String.list_ascii_of_string s.

Declare Scope py_scope.
Delimit Scope py_scope with py.

(** ** Exceptions

    One constructor per exception class the program raises, catches or lets
    escape. [OutOfFuel] is the only constructor that is not a Python class: it
    marks a [while True] loop cut off by its fuel. *)
(** The [detail] of an [HTTPException]: a text, or a Cloudflare error. *)
Inductive http_detail :=
| DetailText (message : pystr)
| DetailCf (code : Z) (message : pystr).

#[export] Instance http_detail_eq_dec : EqDecision http_detail.
Proof. solve_decision. Defined.

Inductive exn :=
| ValueError (msg : pystr)
| UnicodeError
| JSONDecodeError
| TypeError
| AttributeError
| KeyError
| RuntimeError (msg : pystr)
| NotFoundError (msg : pystr)
| LockUnavailable (msg : pystr)
| IntegrityError
| OperationalError
| ProgrammingError
| MultipleResultsFound
| NoResultFound
| HTTPStatusError (status : Z)
| TransportError
| RedisError
| InvalidToken
| HTTPException (status : Z) (detail : http_detail)
| PyJWTError
| VerifyMismatchError
| InvalidHashError
| StopIteration
| OutOfFuel.

#[export] Instance exn_eq_dec : EqDecision exn.
Proof. solve_decision. Defined.

(** [except ValueError]: [UnicodeError] and [json.JSONDecodeError] are
    subclasses of [ValueError]. *)
Definition is_ValueError (e : exn) : bool :=
  match e with
  | ValueError _ | UnicodeError | JSONDecodeError => true
  | _ => false
  end.

Definition is_NotFoundError (e : exn) : bool :=
  match e with NotFoundError _ => true | _ => false end.

Definition is_LockUnavailable (e : exn) : bool :=
  match e with LockUnavailable _ => true | _ => false end.

(** [except Exception]: everything the program can raise. *)
Definition is_Exception (e : exn) : bool :=
  match e with OutOfFuel => false | _ => true end.

(** ** The result of a pure computation that may raise *)

Inductive result (A : Type) :=
| Ok (a : A)
| Raise (e : exn).
Arguments Ok {A} a.
Arguments Raise {A} e.

#[export] Instance result_eq_dec `{EqDecision A} : EqDecision (result A).
Proof. solve_decision. Defined.

#[export] Instance result_ret : MRet result := @Ok.

#[export] Instance result_bind : MBind result := fun A B f r =>
  match r with Ok a => f a | Raise e => Raise e end.

#[export] Instance result_fmap : FMap result := fun A B f r =>
  match r with Ok a => Ok (f a) | Raise e => Raise e end.

Lemma result_bind_Ok {A B} (r : result A) (f : A -> result B) b :
  r ≫= f = Ok b <-> exists a, r = Ok a /\ f a = Ok b.
Proof. destruct r; naive_solver. Qed.

Lemma result_bind_Raise {A B} (r : result A) (f : A -> result B) e :
  r ≫= f = Raise e <-> r = Raise e \/ exists a, r = Ok a /\ f a = Raise e.
Proof. destruct r; naive_solver. Qed.

(** [mapM] over a list, left to right, stopping at the first exception. *)
Fixpoint result_mapM {A B} (f : A -> result B) (l : list A) : result (list B) :=
  match l with
  | [] => Ok []
  | x :: l' => y ← f x; ys ← result_mapM f l'; Ok (y :: ys)
  end.

Lemma result_mapM_Ok {A B} (f : A -> result B) l l' :
  result_mapM f l = Ok l' <-> Forall2 (fun x y => f x = Ok y) l l'.
Proof.
  revert l'. induction l as [|x l IH]; intros l'; simpl.
  - split; [intros [= <-]; constructor | by intros ->%Forall2_nil_inv_l].
  - rewrite result_bind_Ok. setoid_rewrite result_bind_Ok. setoid_rewrite IH.
    split; [naive_solver|].
    intros (y & ys & ? & ? & ->)%Forall2_cons_inv_l. naive_solver.
Qed.

(** ** Lists *)

Lemma list_find_eq_app {A} `{EqDecision A} (x : A) l1 l2 :
  x ∉ l1 -> list_find (eq x) (l1 ++ x :: l2) = Some (length l1, x).
Proof.
  intros Hx. apply list_find_Some. split_and!; [by apply list_lookup_middle|done|].
  intros j y Hy Hj <-. apply Hx. rewrite lookup_app_l in Hy by done.
  by eapply list_elem_of_lookup_2.
Qed.

(** A list is cut in one way only at the first occurrence of an element. *)
Lemma app_cons_first_inj {A} `{EqDecision A} (x : A) l1 l2 k1 k2 :
  x ∉ l1 -> x ∉ k1 -> l1 ++ x :: l2 = k1 ++ x :: k2 -> l1 = k1 /\ l2 = k2.
Proof.
  intros Hl Hk E. pose proof (list_find_eq_app x l1 l2 Hl) as H1.
  rewrite E, (list_find_eq_app x k1 k2 Hk) in H1. injection H1 as Hlen.
  apply app_inj_1 in E as [-> E]; [|done]. by injection E as ->.
Qed.

Lemma fmap_sublist {A B} (f : A -> B) l1 l2 :
  l1 `sublist_of` l2 -> (f <$> l1) `sublist_of` (f <$> l2).
Proof. induction 1; [constructor|by apply sublist_skip|by apply sublist_cons]. Qed.

(** ** Tactics *)

(** Splits on the innermost boolean test or option match of the goal. *)
Ltac case_if :=
  match goal with
  | |- context [if ?b then _ else _] => destruct b eqn:?
  | H : context [if ?b then _ else _] |- _ => destruct b eqn:?
  end.

(** Turns boolean facts into the propositions they decide. *)
Ltac bool_prop :=
  repeat match goal with
  | H : bool_decide _ = true |- _ => apply bool_decide_eq_true in H
  | H : bool_decide _ = false |- _ => apply bool_decide_eq_false in H
  | H : negb _ = true |- _ => apply negb_true_iff in H
  | H : negb _ = false |- _ => apply negb_false_iff in H
  | H : _ && _ = true |- _ => apply andb_true_iff in H as [? ?]
  | H : _ || _ = false |- _ => apply orb_false_iff in H as [? ?]
  | H : _ || _ = true |- _ => apply orb_true_iff in H
  | H : _ && _ = false |- _ => apply andb_false_iff in H
  end.

(** Two values of one computation are the same. *)
Ltac det_eq :=
  repeat match goal with
  | H1 : ?x = Ok ?a, H2 : ?x = Ok ?b |- _ =>
      rewrite H1 in H2; first [injection H2; clear H2; intros; subst | clear H2]
  end.

