(* ===== verification/PyStr.v ===== *)
(** * Python strings

    The [str] operations the program uses, on code points: [strip], [lower],
    [split], [join], [endswith], [count], [isalnum], [int], [repr], and the
    [idna] codec of the standard library. ASCII behaviour is concrete. What
    depends on the Unicode database (case mapping, [nameprep], Punycode,
    decimal digits, printability of non-ASCII code points) is a parameter, the
    class [Unicode]. *)

From S2P Require Import Prelude.

(** ** The Unicode database *)

Class Unicode := {
  (** [str.lower] of a string with a non-ASCII code point. *)
  u_lower : pystr -> pystr;
  (** [str.upper] of a string with a non-ASCII code point. *)
  u_upper : pystr -> pystr;
  (** [str.isalnum] of one non-ASCII code point. *)
  u_alnum : N -> bool;
  (** the value of a non-ASCII decimal digit. *)
  u_decimal : N -> option Z;
  (** printability of a non-ASCII code point, for [repr]. *)
  u_printable : N -> bool;
  (** [encodings.idna.nameprep], [None] for the [UnicodeError] it raises, and
      the [punycode] codec. *)
  u_nameprep : pystr -> option pystr;
  u_punycode : pystr -> pystr;
  (** [urllib.parse]'s checks of a network location that has brackets or a
      non-ASCII code point. *)
  u_netloc_ok : pystr -> bool;
}.

(** A concrete instance, for evaluation on ASCII input. *)
#[export] Instance ascii_unicode : Unicode | 100 := {|
  u_lower := id; u_upper := id; u_alnum := fun _ => false; u_decimal := fun _ => None;
  u_printable := fun _ => false; u_nameprep := fun _ => None;
  u_punycode := id; u_netloc_ok := fun _ => false
|}.

(** ** Characters *)

Definition is_ascii_char (c : N) : bool := (c <? 128)%N.
Definition is_ascii (s : pystr) : bool := forallb is_ascii_char s.

Definition in_range (lo hi c : N) : bool := (lo <=? c)%N && (c <=? hi)%N.

(** [str.isspace]: the whole table, it is short. *)
Definition is_space (c : N) : bool :=
  in_range 9 13 c || in_range 28 32 c || (c =? 133)%N || (c =? 160)%N
  || (c =? 5760)%N || in_range 8192 8202 c || in_range 8232 8233 c
  || (c =? 8239)%N || (c =? 8287)%N || (c =? 12288)%N.

Definition is_upper_ascii (c : N) : bool := in_range 65 90 c.
Definition is_lower_ascii (c : N) : bool := in_range 97 122 c.
Definition is_digit_ascii (c : N) : bool := in_range 48 57 c.
Definition is_alnum_ascii (c : N) : bool :=
  is_upper_ascii c || is_lower_ascii c || is_digit_ascii c.

Definition lower_char (c : N) : N := if is_upper_ascii c then (c + 32)%N else c.
Definition upper_char (c : N) : N := if is_lower_ascii c then (c - 32)%N else c.

Definition char_dot : N := 46.
Definition char_star : N := 42.
Definition char_underscore : N := 95.
Definition char_colon : N := 58.
Definition char_space : N := 32.

(** ** Trimming *)

Fixpoint drop_while (p : N -> bool) (s : pystr) : pystr :=
  match s with
  | [] => []
  | c :: s' => if p c then drop_while p s' else s
  end.

Definition lstrip_by (p : N -> bool) (s : pystr) : pystr := drop_while p s.
Definition rstrip_by (p : N -> bool) (s : pystr) : pystr :=
  reverse (drop_while p (reverse s)).

(** [s.strip()] and [s.rstrip(chr(c))]. *)
Definition strip (s : pystr) : pystr := rstrip_by is_space (lstrip_by is_space s).
Definition rstrip_char (c : N) (s : pystr) : pystr := rstrip_by (N.eqb c) s.

(** ** Splitting and joining *)

(** [s.split(sep)] for a one-character separator. *)
Fixpoint split_on (sep : N -> bool) (s : pystr) : list pystr :=
  match s with
  | [] => [[]]
  | c :: s' =>
      if sep c then [] :: split_on sep s'
      else match split_on sep s' with
           | w :: ws => (c :: w) :: ws
           | [] => [[c]]
           end
  end.

Definition split (sep : N) (s : pystr) : list pystr := split_on (N.eqb sep) s.

(** [sep.join(ws)]. *)
Fixpoint join (sep : N) (ws : list pystr) : pystr :=
  match ws with
  | [] => []
  | [w] => w
  | w :: ws' => w ++ sep :: join sep ws'
  end.

(** [s.count(chr(c))] and [chr(c) in s]. *)
Definition count_char (c : N) (s : pystr) : nat := length (filter (eq c) s).
Definition has_char (c : N) (s : pystr) : bool := existsb (N.eqb c) s.

Definition startswith (pre s : pystr) : bool := bool_decide (pre `prefix_of` s).
Definition endswith (suf s : pystr) : bool := bool_decide (suf `suffix_of` s).

(** [s.partition(chr(c))]: head, whether the separator occurs, tail. *)
Fixpoint partition_at (c : N) (s : pystr) : pystr * bool * pystr :=
  match s with
  | [] => ([], false, [])
  | x :: s' =>
      if (x =? c)%N then ([], true, s')
      else let '(h, found, t) := partition_at c s' in (x :: h, found, t)
  end.

(** ** Numbers *)

Fixpoint dec_digits (fuel : nat) (n : N) (acc : pystr) : pystr :=
  match fuel with
  | O => acc
  | S fuel' =>
      let acc' := (48 + n mod 10)%N :: acc in
      if (n <? 10)%N then acc' else dec_digits fuel' (n / 10)%N acc'
  end.

(** [str(z)] of an integer; [N.size_nat] bounds the number of digits. *)
Definition str_of_Z (z : Z) : pystr :=
  let n := Z.abs_N z in
  let ds := dec_digits (S (N.size_nat n)) n [] in
  if (z <? 0)%Z then 45%N :: ds else ds.

Definition hex_digit (n : N) : N := if (n <? 10)%N then (48 + n)%N else (87 + n)%N.

(** [int(s)]: surrounding white space, an optional sign, decimal digits with
    single underscores between them; at most 4300 digits (the interpreter's
    default limit). *)
Section py_int.
Context `{Unicode}.

Definition decimal_value (c : N) : option Z :=
  if is_digit_ascii c then Some (Z.of_N c - 48)%Z
  else if is_ascii_char c then None else u_decimal c.

(** [after_digit]: the previous character was a digit. *)
Fixpoint int_digits (after_digit : bool) (s : pystr) (acc : Z) : option Z :=
  match s with
  | [] => if after_digit then Some acc else None
  | c :: s' =>
      if (c =? char_underscore)%N
      then if after_digit then int_digits false s' acc else None
      else match decimal_value c with
           | Some d => int_digits true s' (10 * acc + d)%Z
           | None => None
           end
  end.

Definition int_limit : nat := 4300.

Definition py_int (s : pystr) : result Z :=
  let body := strip s in
  let '(neg, digits) :=
    match body with
    | 45%N :: d => (true, d)
    | 43%N :: d => (false, d)
    | d => (false, d)
    end in
  if (int_limit <? length (filter (fun c => c ≠ char_underscore) digits))%nat
  then Raise (ValueError (u "Exceeds the limit for integer string conversion"))
  else match int_digits false digits 0%Z with
       | Some z => Ok (if neg then - z else z)%Z
       | None => Raise (ValueError (u "invalid literal for int() with base 10"))
       end.
End py_int.

(** ** Methods that look at the Unicode database *)

Section unicode_methods.
Context `{Unicode}.

(** [s.lower()]: CPython's ASCII fast path, then the general case. *)
Definition lower (s : pystr) : pystr :=
  if is_ascii s then lower_char <$> s else u_lower s.

Definition upper (s : pystr) : pystr :=
  if is_ascii s then upper_char <$> s else u_upper s.

Definition isalnum_char (c : N) : bool :=
  if is_ascii_char c then is_alnum_ascii c else u_alnum c.

(** [s.isalnum()]: false on the empty string. *)
Definition isalnum (s : pystr) : bool :=
  match s with [] => false | _ => forallb isalnum_char s end.

Definition hex_fixed (width : nat) (n : N) : pystr :=
  (fun i => hex_digit (N.land (N.shiftr n (4 * N.of_nat i)) 15)) <$> reverse (seq 0 width).

Definition repr_char (quote c : N) : pystr :=
  if (c =? quote)%N || (c =? 92)%N then [92%N; c]
  else if (c =? 9)%N then u "\t"
  else if (c =? 10)%N then u "\n"
  else if (c =? 13)%N then u "\r"
  else if (c <? 32)%N || (c =? 127)%N then u "\x" ++ hex_fixed 2 c
  else if is_ascii_char c || u_printable c then [c]
  else if (c <? 256)%N then u "\x" ++ hex_fixed 2 c
  else if (c <? 65536)%N then u "\u" ++ hex_fixed 4 c
  else u "\U" ++ hex_fixed 8 c.

(** [repr(s)], the [!r] conversion of an f-string. *)
Definition repr (s : pystr) : pystr :=
  let quote := if has_char 39 s && negb (has_char 34 s) then 34%N else 39%N in
  [quote] ++ concat (repr_char quote <$> s) ++ [quote].

(** ** The [idna] codec ([encodings/idna.py]) *)

Definition idna_label_length (label : pystr) : result pystr :=
  if ((0 <? length label) && (length label <? 64))%nat
  then Ok label else Raise UnicodeError.

Definition ace_prefix : pystr := u "xn--".

(** [ToASCII]. *)
Definition to_ascii (label : pystr) : result pystr :=
  if is_ascii label then idna_label_length label
  else
    prepped ← match u_nameprep label with Some p => Ok p | None => Raise UnicodeError end;
    if is_ascii prepped then idna_label_length prepped
    else if startswith ace_prefix (lower prepped) then Raise UnicodeError
    else
      let puny := ace_prefix ++ u_punycode prepped in
      if (length puny <? 64)%nat then Ok puny else Raise UnicodeError.

(** The label separators of RFC 3490: [.], and the ideographic, fullwidth
    and halfwidth full stops. *)
Definition is_idna_dot (c : N) : bool :=
  (c =? 46)%N || (c =? 12290)%N || (c =? 65294)%N || (c =? 65377)%N.

(** The ASCII fast path of [Codec.encode]: every label but the last is
    non-empty, every label is shorter than 64. *)
Fixpoint ascii_labels_ok (labels : list pystr) : bool :=
  match labels with
  | [] => true
  | [l] => (length l <? 64)%nat
  | l :: ls => (0 <? length l)%nat && (length l <? 64)%nat && ascii_labels_ok ls
  end.

(** [result.extend(b".")] is guarded by [if result], so no dot is written
    while the output is still empty. *)
Definition idna_append (out label : pystr) : pystr :=
  match out with [] => label | _ => out ++ char_dot :: label end.

(** [s.encode("idna").decode("ascii")]. *)
Definition encode_idna (s : pystr) : result pystr :=
  if bool_decide (s = []) then Ok []
  else if is_ascii s then
    if ascii_labels_ok (split char_dot s) then Ok s else Raise UnicodeError
  else
    let labels := split_on is_idna_dot s in
    let trailing := bool_decide (last labels = Some []) in
    let labels' := if trailing then take (length labels - 1) labels else labels in
    encoded ← result_mapM to_ascii labels';
    Ok (foldl idna_append [] encoded ++ (if trailing then [char_dot] else [])).
End unicode_methods.

(** [s.encode()]: UTF-8; a lone surrogate cannot be encoded. *)
Definition utf8_char (c : N) : result (list N) :=
  if (c <? 128)%N then Ok [c]
  else if (c <? 2048)%N then
    Ok [N.lor 192 (N.shiftr c 6); N.lor 128 (N.land c 63)]
  else if in_range 55296 57343 c then Raise UnicodeError
  else if (c <? 65536)%N then
    Ok [N.lor 224 (N.shiftr c 12); N.lor 128 (N.land (N.shiftr c 6) 63);
        N.lor 128 (N.land c 63)]
  else
    Ok [N.lor 240 (N.shiftr c 18); N.lor 128 (N.land (N.shiftr c 12) 63);
        N.lor 128 (N.land (N.shiftr c 6) 63); N.lor 128 (N.land c 63)].

Definition encode_utf8 (s : pystr) : result (list N) :=
  bs ← result_mapM utf8_char s; Ok (concat bs).

(** ** Laws of splitting and joining *)

Lemma split_on_not_nil sep s : split_on sep s ≠ [].
Proof. destruct s as [|c s]; simpl; [done|]. case_if; [done|]. by destruct (split_on sep s). Qed.

Lemma split_on_cons_sep sep c s : sep c = true -> split_on sep (c :: s) = [] :: split_on sep s.
Proof. simpl. by intros ->. Qed.

Lemma split_on_cons_char sep c s w ws :
  sep c = false -> split_on sep s = w :: ws -> split_on sep (c :: s) = (c :: w) :: ws.
Proof. simpl. by intros -> ->. Qed.

(** Splitting distributes over a separator in the middle. *)
Lemma split_on_app sep a c b :
  sep c = true -> split_on sep (a ++ c :: b) = split_on sep a ++ split_on sep b.
Proof.
  intros Hc. induction a as [|x a IH]; simpl; [by rewrite Hc|].
  rewrite IH. destruct (sep x); [done|].
  pose proof (split_on_not_nil sep a). by destruct (split_on sep a).
Qed.

(** No label of a split contains a separator. *)
Lemma split_on_free sep s : Forall (Forall (fun c => sep c = false)) (split_on sep s).
Proof.
  induction s as [|c s IH]; simpl; [by repeat constructor|].
  destruct (sep c) eqn:E; [by repeat constructor|].
  destruct (split_on sep s); [by repeat constructor|].
  inversion IH; subst. by repeat constructor.
Qed.

Lemma split_on_atom sep w :
  Forall (fun c => sep c = false) w -> split_on sep w = [w].
Proof. induction 1 as [|c w Hc _ IH]; simpl; [done|]. by rewrite Hc, IH. Qed.

Lemma join_split c s : join c (split c s) = s.
Proof.
  unfold split. induction s as [|x s IH]; simpl; [done|].
  pose proof (split_on_not_nil (N.eqb c) s) as Hne.
  destruct (c =? x)%N eqn:E.
  - apply N.eqb_eq in E as ->. destruct (split_on _ s); [done|]. simpl in *. by rewrite IH.
  - destruct (split_on _ s) as [|w ws]; [done|]. simpl in *.
    destruct ws; simpl in *; by rewrite <- IH.
Qed.

Lemma split_join c ws :
  ws ≠ [] -> Forall (Forall (fun x => N.eqb c x = false)) ws -> split c (join c ws) = ws.
Proof.
  unfold split. intros Hne H. induction H as [|w ws Hw Hws IH]; [done|].
  destruct ws as [|w' ws]; simpl; [by apply split_on_atom|].
  rewrite split_on_app by apply N.eqb_refl.
  rewrite (split_on_atom _ w Hw). simpl. f_equal. by apply IH.
Qed.

Lemma split_inj c s t : split c s = split c t -> s = t.
Proof. intros E. by rewrite <- (join_split c s), <- (join_split c t), E. Qed.

(** A name [a ++ "." ++ b] has the labels of [a] and then those of [b]. *)
Lemma split_app c a b : split c (a ++ c :: b) = split c a ++ split c b.
Proof. apply split_on_app, N.eqb_refl. Qed.

(** The labels of a concatenation: the last label of [a] and the first of [b]
    are glued together. *)
Lemma split_on_app_gen sep a b :
  exists init w w' rest, split_on sep a = init ++ [w] /\ split_on sep b = w' :: rest /\
    split_on sep (a ++ b) = init ++ (w ++ w') :: rest.
Proof.
  induction a as [|c a (init & w & w' & rest & Ha & Hb & Hab)]; simpl.
  - pose proof (split_on_not_nil sep b). destruct (split_on sep b) as [|w' rest]; [done|].
    by exists [], [], w', rest.
  - rewrite Ha, Hab. destruct (sep c).
    + by exists ([] :: init), w, w', rest.
    + destruct init as [|x init]; simpl.
      * by exists [], (c :: w), w', rest.
      * by exists ((c :: x) :: init), w, w', rest.
Qed.

Lemma split_on_Forall (P : N -> Prop) sep s : Forall P s -> Forall (Forall P) (split_on sep s).
Proof.
  induction 1 as [|c s Hc _ IH]; simpl; [by repeat constructor|].
  destruct (sep c); [by constructor|].
  destruct (split_on sep s); [by repeat constructor|].
  inversion IH; subst. by repeat constructor.
Qed.

Lemma join_Forall (P : N -> Prop) c ws :
  P c -> Forall (Forall P) ws -> Forall P (join c ws).
Proof.
  intros Hc. induction 1 as [|w ws Hw _ IH]; simpl; [done|].
  destruct ws; [done|]. apply Forall_app. by split; [|constructor].
Qed.

Lemma join_snoc c ws w : ws ≠ [] -> join c (ws ++ [w]) = join c ws ++ c :: w.
Proof.
  induction ws as [|w' ws IH]; [done|]. intros _. simpl.
  destruct ws as [|w'' ws]; [done|]. simpl in *. rewrite IH by done. by rewrite <- app_assoc.
Qed.

(** ** Laws of trimming *)

Lemma drop_while_suffix p s : drop_while p s `suffix_of` s.
Proof.
  induction s as [|c s IH]; simpl; [done|].
  case_if; [by apply suffix_cons_r | done].
Qed.

Lemma drop_while_head p s c s' : drop_while p s = c :: s' -> p c = false.
Proof. induction s; simpl; [done|]. case_if; naive_solver. Qed.

Lemma drop_while_id p s : (forall c s', s = c :: s' -> p c = false) -> drop_while p s = s.
Proof. destruct s as [|c s]; simpl; [done|]. intros H. by rewrite (H c s eq_refl). Qed.

Lemma rstrip_by_id p s : (forall s' c, s = s' ++ [c] -> p c = false) -> rstrip_by p s = s.
Proof.
  intros H. unfold rstrip_by. rewrite drop_while_id; [apply reverse_involutive|].
  intros c s' E. apply (H (reverse s') c). rewrite <- (reverse_involutive s), E.
  by rewrite reverse_cons.
Qed.

Lemma rstrip_by_last p s s' c : rstrip_by p s = s' ++ [c] -> p c = false.
Proof.
  unfold rstrip_by. intros E. apply (drop_while_head p (reverse s) c (reverse s')).
  by rewrite <- (reverse_involutive (drop_while _ _)), E, reverse_app.
Qed.

Lemma rstrip_by_prefix p s : rstrip_by p s `prefix_of` s.
Proof.
  unfold rstrip_by. rewrite prefix_suffix_reverse, reverse_involutive.
  apply drop_while_suffix.
Qed.

(** ** Laws of decimal notation *)

(** What a string of decimal digits denotes, and an optional minus sign. *)
Definition dec_step (a c : N) : N := (10 * a + (c - 48))%N.
Definition dec_value (s : pystr) : Z :=
  match s with
  | [] => 0
  | c :: ds =>
      if (c =? 45)%N then - Z.of_N (foldl dec_step 0%N ds) else Z.of_N (foldl dec_step 0%N s)
  end.

Lemma dec_digits_Forall fuel n acc :
  Forall (fun c => is_digit_ascii c = true) acc ->
  Forall (fun c => is_digit_ascii c = true) (dec_digits fuel n acc).
Proof.
  revert n acc. induction fuel as [|fuel IH]; intros n acc Hacc; simpl; [done|].
  assert (Hd : Forall (fun c => is_digit_ascii c = true) ((48 + n mod 10)%N :: acc)).
  { constructor; [|done]. pose proof (N.mod_lt n 10 ltac:(done)).
    generalize dependent (n mod 10)%N. intros d Hd. apply andb_true_iff. split; apply N.leb_le; lia. }
  destruct (n <? 10)%N; [done | by apply IH].
Qed.

Lemma dec_digits_value fuel n acc :
  (n < 10 ^ N.of_nat fuel)%N ->
  foldl dec_step 0%N (dec_digits fuel n acc) = foldl dec_step n acc.
Proof.
  revert n acc. induction fuel as [|fuel IH]; intros n acc Hn; [simpl in *; f_equal; lia|].
  cbn [dec_digits]. pose proof (N.div_mod n 10 ltac:(done)).
  destruct (n <? 10)%N eqn:E.
  - apply N.ltb_lt in E. cbn [foldl]. f_equal. unfold dec_step.
    rewrite N.mod_small by done. clear. rewrite N.mul_0_r, N.add_0_l. lia.
  - rewrite IH.
    + cbn [foldl]. f_equal. unfold dec_step. revert H.
      generalize (n / 10)%N (n mod 10)%N. intros q r E1. rewrite E1. lia.
    + apply N.Div0.div_lt_upper_bound. rewrite Nat2N.inj_succ, N.pow_succ_r' in Hn. lia.
Qed.

Lemma N_size_bound n : (n < 10 ^ N.of_nat (S (N.size_nat n)))%N.
Proof.
  pose proof (N.size_gt n) as Hs.
  assert (Hsz : N.size n = N.of_nat (N.size_nat n)) by (clear; destruct n as [|p]; [done|]; induction p; simpl in *; lia).
  rewrite Hsz in Hs.
  eapply N.lt_le_trans; [exact Hs|].
  transitivity (10 ^ N.of_nat (N.size_nat n))%N; [apply N.pow_le_mono_l; lia|].
  apply N.pow_le_mono_r; lia.
Qed.

Definition digits_of (z : Z) : pystr := dec_digits (S (N.size_nat (Z.abs_N z))) (Z.abs_N z) [].

Lemma str_of_Z_digits z :
  str_of_Z z = if (z <? 0)%Z then 45%N :: digits_of z else digits_of z.
Proof. done. Qed.

Lemma digits_of_digit z : Forall (fun c => is_digit_ascii c = true) (digits_of z).
Proof. by apply dec_digits_Forall. Qed.

Lemma dec_value_str_of_Z z : dec_value (str_of_Z z) = z.
Proof.
  rewrite str_of_Z_digits.
  assert (Hv : foldl dec_step 0%N (digits_of z) = Z.abs_N z)
    by (unfold digits_of; by rewrite dec_digits_value by apply N_size_bound).
  destruct (z <? 0)%Z eqn:E; [apply Z.ltb_lt in E | apply Z.ltb_ge in E].
  - cbn [dec_value N.eqb Pos.eqb]. rewrite Hv. lia.
  - transitivity (Z.of_N (foldl dec_step 0%N (digits_of z))); [|rewrite Hv; lia].
    pose proof (digits_of_digit z) as Hd. unfold dec_value.
    destruct (digits_of z) as [|c ds]; [done|]. inversion Hd as [|?? Hc]; subst.
    destruct (c =? 45)%N eqn:E45; [|done]. by apply N.eqb_eq in E45 as ->.
Qed.

#[export] Instance str_of_Z_inj : Inj (=) (=) str_of_Z.
Proof. intros a b E. by rewrite <- (dec_value_str_of_Z a), E, dec_value_str_of_Z. Qed.

(** No character of a decimal numeral is a colon. *)
Lemma str_of_Z_no_colon z : char_colon ∉ str_of_Z z.
Proof.
  rewrite str_of_Z_digits. intros Hin.
  assert (Hd : char_colon ∈ digits_of z) by (destruct (z <? 0)%Z; set_solver).
  pose proof (digits_of_digit z) as Hall. rewrite Forall_forall in Hall.
  by specialize (Hall _ Hd).
Qed.

(** ** Characters and encodings *)

Lemma has_char_free c s : has_char c s = false <-> Forall (fun x => N.eqb c x = false) s.
Proof.
  unfold has_char. induction s as [|x s IH]; simpl; [by split|].
  by rewrite orb_false_iff, IH, Forall_cons.
Qed.

(** A string with a separator has at least two labels. *)
Lemma has_char_split c s :
  has_char c s = true -> exists a b rest, split c s = a :: b :: rest.
Proof.
  unfold has_char, split. induction s as [|x s IH]; simpl; [done|].
  destruct (c =? x)%N; simpl.
  - intros _. pose proof (split_on_not_nil (N.eqb c) s). destruct (split_on _ s); [done|]. eauto.
  - intros Hs. destruct (IH Hs) as (a & b & rest & ->). eauto.
Qed.

(** ASCII text is its own encoding. *)
Lemma encode_utf8_ascii s : is_ascii s = true -> exists bs, encode_utf8 s = Ok bs.
Proof.
  intros Hs. unfold encode_utf8.
  assert (Hm : exists l, result_mapM utf8_char s = Ok l).
  { unfold is_ascii in Hs. induction s as [|c s IH]; simpl in *; [by eexists|].
    apply andb_true_iff in Hs as [Hc Hs]. destruct (IH Hs) as [l Hl].
    assert (Hu : utf8_char c = Ok [c]) by (unfold utf8_char; unfold is_ascii_char in Hc; by rewrite Hc).
    rewrite Hu. simpl. rewrite Hl. by eexists. }
  destruct Hm as [l ->]. by eexists.
Qed.
