(* ===== verification/Json.v ===== *)
(** * JSON values and Python dicts

    Values produced by [json.loads] and the dynamically typed operations the
    program applies to them: [.get], truthiness, [==], iteration and
    comparison with an integer, each raising the exception Python raises on a
    value of the wrong type. Numbers are integers: no payload the program
    inspects carries a fraction. A [dict] is an association list in insertion
    order with distinct keys. *)

From S2P Require Import Prelude PyStr.

Unset Elimination Schemes.

Inductive json :=
| JNull
| JBool (b : bool)
| JNum (n : Z)
| JStr (s : pystr)
| JArr (l : list json)
| JObj (d : list (pystr * json)).

Set Elimination Schemes.

Section json_ind.
Variable P : json -> Prop.
Hypothesis Pnull : P JNull.
Hypothesis Pbool : forall b, P (JBool b).
Hypothesis Pnum : forall n, P (JNum n).
Hypothesis Pstr : forall s, P (JStr s).
Hypothesis Parr : forall l, Forall P l -> P (JArr l).
Hypothesis Pobj : forall d, Forall (fun kv => P kv.2) d -> P (JObj d).

Fixpoint json_ind (j : json) : P j :=
  match j with
  | JNull => Pnull
  | JBool b => Pbool b
  | JNum n => Pnum n
  | JStr s => Pstr s
  | JArr l => Parr l ((fix go l : Forall P l :=
      match l with
      | [] => Forall_nil_2 _
      | x :: l' => Forall_cons_2 _ _ _ (json_ind x) (go l')
      end) l)
  | JObj d => Pobj d ((fix go d : Forall (fun kv => P kv.2) d :=
      match d with
      | [] => Forall_nil_2 _
      | kv :: d' => Forall_cons_2 _ _ _ (json_ind kv.2) (go d')
      end) d)
  end.
End json_ind.

(** ** Dicts *)

Section dict.
Context {V : Type}.
Implicit Types d : list (pystr * V).

(** [d.get(k)], as an option. *)
Fixpoint dict_get (k : pystr) d : option V :=
  match d with
  | [] => None
  | (k', v) :: d' => if bool_decide (k = k') then Some v else dict_get k d'
  end.

(** [d[k] = v]: in place when the key is there, at the end otherwise. *)
Fixpoint dict_set (k : pystr) (v : V) d : list (pystr * V) :=
  match d with
  | [] => [(k, v)]
  | (k', v') :: d' =>
      if bool_decide (k = k') then (k, v) :: d' else (k', v') :: dict_set k v d'
  end.

(** [d.setdefault(k, v)]. *)
Definition dict_setdefault (k : pystr) (v : V) d : list (pystr * V) :=
  match dict_get k d with Some _ => d | None => dict_set k v d end.

(** [d.pop(k, None)]: what remains. *)
Definition dict_del (k : pystr) d : list (pystr * V) :=
  filter (fun kv => kv.1 ≠ k) d.

(** [d.update(d')]. *)
Definition dict_update d d' : list (pystr * V) :=
  foldl (fun acc kv => dict_set kv.1 kv.2 acc) d d'.

Lemma dict_get_set_eq k v d : dict_get k (dict_set k v d) = Some v.
Proof.
  induction d as [|[k' v'] d IH]; simpl; [by rewrite bool_decide_true|].
  case_bool_decide; simpl; [by rewrite bool_decide_true|].
  by rewrite bool_decide_false.
Qed.

Lemma dict_get_set_ne k k' v d : k ≠ k' -> dict_get k (dict_set k' v d) = dict_get k d.
Proof.
  intros Hne. induction d as [|[k1 v1] d IH]; simpl; [by rewrite bool_decide_false|].
  destruct (decide (k' = k1)) as [<-|Hk].
  - rewrite bool_decide_true by done. simpl. by rewrite bool_decide_false.
  - rewrite (bool_decide_false (k' = k1)) by done. simpl. by rewrite IH.
Qed.

Lemma dict_get_Some_elem k v d : dict_get k d = Some v -> (k, v) ∈ d.
Proof.
  induction d as [|[k' v'] d IH]; simpl; [done|].
  case_bool_decide; [intros [= ->]; subst; left | right; auto].
Qed.

Lemma dict_get_del_eq k d : dict_get k (dict_del k d) = None.
Proof.
  induction d as [|[k' v'] d IH]; simpl; [done|]. unfold dict_del in *.
  rewrite filter_cons. simpl. case_decide; simpl; [|done].
  by rewrite bool_decide_false.
Qed.
End dict.

(** ** Dynamically typed operations *)

(** [bool(j)]. *)
Definition truthy (j : json) : bool :=
  match j with
  | JNull => false
  | JBool b => b
  | JNum n => negb (n =? 0)%Z
  | JStr s => negb (bool_decide (s = []))
  | JArr l => match l with [] => false | _ => true end
  | JObj d => match d with [] => false | _ => true end
  end.

(** [a or b]. *)
Definition py_or (a b : json) : json := if truthy a then a else b.

(** [j is None]. *)
Definition is_none (j : json) : bool := match j with JNull => true | _ => false end.

Definition is_dict (j : json) : bool := match j with JObj _ => true | _ => false end.

(** [j.get(k, default)]: only a dict has the method. *)
Definition py_get_default (j : json) (k : pystr) (default : json) : result json :=
  match j with
  | JObj d => Ok (from_option id default (dict_get k d))
  | _ => Raise AttributeError
  end.

(** [j.get(k)]. *)
Definition py_get (j : json) (k : pystr) : result json := py_get_default j k JNull.

(** [j[k]]: a missing key of a dict is a [KeyError]; every other value is not
    subscriptable by a string. *)
Definition py_getitem (j : json) (k : pystr) : result json :=
  match j with
  | JObj d => match dict_get k d with Some v => Ok v | None => Raise KeyError end
  | _ => Raise TypeError
  end.

(** [a == b]. [True == 1] and [False == 0] hold in Python; dict equality does
    not see the order of the keys. *)
Fixpoint py_eqb (a b : json) {struct a} : bool :=
  match a, b with
  | JNull, JNull => true
  | JBool x, JBool y => Bool.eqb x y
  | JBool x, JNum y => (Z.b2z x =? y)%Z
  | JNum x, JBool y => (x =? Z.b2z y)%Z
  | JNum x, JNum y => (x =? y)%Z
  | JStr x, JStr y => bool_decide (x = y)
  | JArr x, JArr y =>
      (fix go (x y : list json) {struct x} : bool :=
         match x, y with
         | [], [] => true
         | v :: x', w :: y' => py_eqb v w && go x' y'
         | _, _ => false
         end) x y
  | JObj x, JObj y =>
      (length x =? length y)%nat &&
      (fix go (x : list (pystr * json)) : bool :=
         match x with
         | [] => true
         | (k, v) :: x' =>
             match dict_get k y with
             | Some w => py_eqb v w && go x'
             | None => false
             end
         end) x
  | _, _ => false
  end.

(** [j in l] for a list of strings. *)
Definition in_strs (j : json) (l : list pystr) : bool :=
  match j with JStr s => bool_decide (s ∈ l) | _ => false end.

(** [for x in j]: lists, the keys of a dict, the characters of a string. *)
Definition py_iter (j : json) : result (list json) :=
  match j with
  | JArr l => Ok l
  | JObj d => Ok ((fun kv => JStr kv.1) <$> d)
  | JStr s => Ok ((fun c => JStr [c]) <$> s)
  | _ => Raise TypeError
  end.

(** [n >= j] for an integer [n]. *)
Definition int_ge (n : Z) (j : json) : result bool :=
  match j with
  | JNum m => Ok (m <=? n)%Z
  | JBool b => Ok (Z.b2z b <=? n)%Z
  | _ => Raise TypeError
  end.

(** An optional column or argument as a value. *)
Definition of_opt_str (o : option pystr) : json :=
  match o with Some s => JStr s | None => JNull end.

Lemma py_eqb_str s j : py_eqb (JStr s) j = true <-> j = JStr s.
Proof. destruct j; simpl; rewrite ?bool_decide_eq_true; naive_solver. Qed.

Lemma in_strs_Some j l : in_strs j l = true <-> exists s, j = JStr s /\ s ∈ l.
Proof. destruct j; simpl; rewrite ?bool_decide_eq_true; naive_solver. Qed.

Lemma truthy_JStr s : truthy (JStr s) = true <-> s ≠ [].
Proof. simpl. by rewrite negb_true_iff, bool_decide_eq_false. Qed.

(** The exceptions of the dynamically typed operations. *)
Lemma py_get_default_raises j k v e : py_get_default j k v = Raise e -> e = AttributeError.
Proof. destruct j; simpl; congruence. Qed.

Lemma py_getitem_cases j k e : py_getitem j k = Raise e -> e = KeyError \/ e = TypeError.
Proof. destruct j; simpl; repeat case_match; intros [= <-]; auto. Qed.
