(* ===== verification/Scope.v ===== *)
(** * DNS-record scope matching ([authz/scope.py])

    Name canonicalisation, wildcard matching, the predicate [match_rules] that
    decides every proxied operation, and the lock exemption. Everything is
    pure; a Python exception is a [Raise]. *)

From S2P Require Import Prelude PyStr Json.

(** The attributes of a [ScopeRule] the predicates read. *)
Record rule := Rule {
  zone_id : pystr;
  name_pattern : option pystr;
  name_match : pystr;
  record_types : list pystr;
  record_ids : option (list pystr);
  allow_read : bool;
  allow_create : bool;
  allow_write : bool;
  allow_delete : bool;
}.

#[export] Instance rule_eq_dec : EqDecision rule.
Proof. solve_decision. Defined.

Inductive need := Read | Create | Write | Delete.

#[export] Instance need_eq_dec : EqDecision need.
Proof. solve_decision. Defined.

Section scope.
Context `{Unicode}.

Definition normalize_fqdn (name : pystr) : result pystr :=
  let stripped := lower (rstrip_char char_dot (strip name)) in
  if bool_decide (stripped = []) then Ok stripped
  else encode_idna stripped.

(** [zone] or a name below it. *)
Definition in_zone (zone name : pystr) : bool :=
  bool_decide (name = zone) || endswith (char_dot :: zone) name.

Definition validate_name_pattern (pattern name_match zone_name : pystr) : result unit :=
  if negb (bool_decide (name_match ∈ [u "exact"; u "wildcard"]))
  then Raise (ValueError (u "unknown name_match: " ++ repr name_match))
  else
    zone ← normalize_fqdn zone_name;
    if bool_decide (name_match = u "exact") then
      if has_char char_star pattern
      then Raise (ValueError (u "exact name_pattern must not contain '*'"))
      else
        candidate ← (if bool_decide (pattern = u "@") then Ok zone
                     else normalize_fqdn pattern);
        if negb (bool_decide (candidate = zone))
           && negb (endswith (char_dot :: zone) candidate)
        then Raise (ValueError (u "name_pattern " ++ repr pattern
               ++ u " does not end in zone " ++ repr zone_name))
        else Ok tt
    else if negb (count_char char_star pattern =? 1)%nat
    then Raise (ValueError (u "wildcard name_pattern must contain exactly one '*'"))
    else
      let labels := split char_dot pattern in
      match list_find (fun label => has_char char_star label = true) labels with
      | None => Raise StopIteration
      | Some (star_index, label) =>
          if negb (bool_decide (label = [char_star]))
          then Raise (ValueError (u "'*' must occupy a whole label, got " ++ repr label))
          else
            let remainder_labels := take star_index labels ++ drop (S star_index) labels in
            let remainder := join char_dot remainder_labels in
            remainder_norm ← (if bool_decide (remainder = []) then Ok []
                              else normalize_fqdn remainder);
            if negb (bool_decide (remainder_norm = zone))
               && negb (endswith (char_dot :: zone) remainder_norm)
            then Raise (ValueError (u "wildcard name_pattern " ++ repr pattern
                   ++ u " does not end in zone " ++ repr zone_name))
            else Ok tt
      end.

(** The loop over [enumerate(zip(pattern_labels, target_labels))]. *)
Fixpoint labels_match (star_index i : nat) (pattern_labels target_labels : list pystr) : bool :=
  match pattern_labels, target_labels with
  | p :: ps, t :: ts =>
      if (i =? star_index)%nat then labels_match star_index (S i) ps ts
      else if negb (bool_decide (p = t)) then false
      else labels_match star_index (S i) ps ts
  | _, _ => true
  end.

Definition name_matches (pattern name_match target : pystr) : result bool :=
  canonical_pattern ← normalize_fqdn pattern;
  canonical_target ← normalize_fqdn target;
  if bool_decide (name_match = u "exact")
  then Ok (bool_decide (canonical_pattern = canonical_target))
  else if bool_decide (name_match = u "wildcard") then
    let pattern_labels := split char_dot canonical_pattern in
    let target_labels := split char_dot canonical_target in
    match list_find (eq [char_star]) pattern_labels with
    | None => Ok false
    | Some (star_index, _) =>
        if negb (length pattern_labels =? length target_labels)%nat then Ok false
        else Ok (labels_match star_index 0 pattern_labels target_labels)
    end
  else Ok false.

(** The four [if need == ... and rule.allow_...] tests. *)
Definition allows (r : rule) (n : need) : bool :=
  match n with
  | Read => allow_read r
  | Create => allow_create r
  | Write => allow_write r
  | Delete => allow_delete r
  end.

(** [if rule.record_ids: if record_id is None or record_id not in ...]. *)
Definition pinned_out (r : rule) (record_id : json) : bool :=
  match record_ids r with
  | Some ((_ :: _) as ids) =>
      match record_id with
      | JNull => true
      | _ => negb (in_strs record_id ids)
      end
  | _ => false
  end.

(** [if rule.name_pattern is not None: ...]: whether the rule is skipped. *)
Definition name_out (r : rule) (normalized_name : option pystr) : result bool :=
  match name_pattern r with
  | None => Ok false
  | Some pattern =>
      match normalized_name with
      | None => Ok true
      | Some n => matches ← name_matches pattern (name_match r) n; Ok (negb matches)
      end
  end.

Fixpoint match_rules_loop (rules : list rule) (zone : pystr)
    (normalized_name : option pystr) (rtype record_id : json) (n : need) : result bool :=
  match rules with
  | [] => Ok false
  | r :: rules' =>
      let continue := match_rules_loop rules' zone normalized_name rtype record_id n in
      if negb (bool_decide (zone_id r = zone)) then continue
      else if negb (bool_decide (u "*" ∈ record_types r) || in_strs rtype (record_types r))
      then continue
      else if pinned_out r record_id then continue
      else
        skip ← name_out r normalized_name;
        if (skip : bool) then continue
        else if allows r n then Ok true
        else continue
  end.

(** [normalize_fqdn(name) if name else None] for a value of any type. *)
Definition normalized (name : json) : result (option pystr) :=
  if truthy name then
    match name with
    | JStr s => Some <$> normalize_fqdn s
    | _ => Raise AttributeError
    end
  else Ok None.

Definition match_rules (rules : list rule) (zone : pystr)
    (name rtype record_id : json) (n : need) : result bool :=
  normalized_name ← normalized name;
  match_rules_loop rules zone normalized_name rtype record_id n.

Fixpoint is_lock_exempt (rules : list rule) (zone : pystr)
    (path_record_id : json) (op : need) : bool :=
  match rules with
  | [] => false
  | r :: rules' =>
      let continue := is_lock_exempt rules' zone path_record_id op in
      if negb (bool_decide (zone_id r = zone)) then continue
      else if bool_decide (is_Some (name_pattern r)) then continue
      else if negb (bool_decide (record_types r = [u "*"])) then continue
      else
        match record_ids r with
        | Some ids =>
            if negb (in_strs path_record_id ids) then continue
            else if allows r op then true else continue
        | None => continue
        end
  end.

Definition merge_patch_image (pre body : json) : result (json * json) :=
  pre_name ← py_get pre (u "name");
  post_name ← py_get_default body (u "name") pre_name;
  pre_type ← py_get pre (u "type");
  post_type ← py_get_default body (u "type") pre_type;
  Ok (post_name, post_type).

(** ** What a rule grants

    The declarative reading of the loop: the condition under which one rule
    authorises an operation on a record whose normalised name is [name]. *)
Record grants (r : rule) (zone : pystr) (name : option pystr)
    (rtype record_id : json) (n : need) : Prop := Grants {
  grants_zone : zone_id r = zone;
  grants_type : u "*" ∈ record_types r \/ exists t, rtype = JStr t /\ t ∈ record_types r;
  grants_pin : forall ids, record_ids r = Some ids -> ids ≠ [] ->
    exists rid, record_id = JStr rid /\ rid ∈ ids;
  grants_name : forall p, name_pattern r = Some p ->
    exists nm, name = Some nm /\ name_matches p (name_match r) nm = Ok true;
  grants_flag : allows r n = true;
}.

(** A rule whose pattern can be compared with every comparable name. *)
Definition rule_total (r : rule) : Prop :=
  forall p, name_pattern r = Some p -> exists c, normalize_fqdn p = Ok c.

(** The rule that justifies a lock exemption. *)
Record exempts (r : rule) (zone rid : pystr) (op : need) : Prop := Exempts {
  exempts_zone : zone_id r = zone;
  exempts_pattern : name_pattern r = None;
  exempts_types : record_types r = [u "*"];
  exempts_pin : exists ids, record_ids r = Some ids /\ rid ∈ ids;
  exempts_flag : allows r op = true;
}.

Lemma pinned_out_false r record_id :
  pinned_out r record_id = false <->
  (forall ids, record_ids r = Some ids -> ids ≠ [] ->
    exists rid, record_id = JStr rid /\ rid ∈ ids).
Proof.
  unfold pinned_out. destruct (record_ids r) as [[|i ids]|]; [naive_solver| |naive_solver].
  split.
  - intros E ids' [= <-] _. apply in_strs_Some.
    destruct (in_strs record_id (i :: ids)); [done|]. by destruct record_id.
  - intros Hpin. destruct (Hpin _ eq_refl) as (rid & -> & Hin); [done|].
    apply negb_false_iff, in_strs_Some. eauto.
Qed.

Lemma name_out_false r name :
  name_out r name = Ok false <->
  (forall p, name_pattern r = Some p ->
    exists nm, name = Some nm /\ name_matches p (name_match r) nm = Ok true).
Proof.
  unfold name_out. destruct (name_pattern r) as [p|]; [|by split].
  destruct name as [nm|]; [|split; [done|]; intros Hall; by destruct (Hall _ eq_refl) as (? & ? & ?)].
  split.
  - intros (b & Hb & [= Hneg])%result_bind_Ok p' [= <-]. exists nm. split; [done|].
    by apply negb_false_iff in Hneg as ->.
  - intros Hall. destruct (Hall _ eq_refl) as (? & [= <-] & ->). done.
Qed.

Lemma type_test rtype r :
  bool_decide (u "*" ∈ record_types r) || in_strs rtype (record_types r) = true <->
  u "*" ∈ record_types r \/ exists t, rtype = JStr t /\ t ∈ record_types r.
Proof. by rewrite orb_true_iff, bool_decide_eq_true, in_strs_Some. Qed.

(** *** The loop decides [grants] *)

Lemma match_rules_loop_true rules zone name rtype rid n :
  match_rules_loop rules zone name rtype rid n = Ok true ->
  exists r, r ∈ rules /\ grants r zone name rtype rid n.
Proof.
  induction rules as [|r rules IH]; simpl; [done|].
  assert (Hrec : match_rules_loop rules zone name rtype rid n = Ok true ->
    exists r', r' ∈ r :: rules /\ grants r' zone name rtype rid n).
  { intros (r' & ? & ?)%IH. exists r'. split; [by right | done]. }
  destruct (bool_decide (zone_id r = zone)) eqn:Hz; simpl; [|done].
  destruct (_ || _) eqn:Ht; simpl; [|done].
  destruct (pinned_out r rid) eqn:Hp; [done|].
  destruct (name_out r name) as [[]|] eqn:Hn; simpl; [done| |done].
  destruct (allows r n) eqn:Hf; [|done]. intros _. exists r. split; [left|].
  split; [by apply bool_decide_eq_true_1 in Hz | by apply type_test | by apply pinned_out_false
    | by apply name_out_false | done].
Qed.

Lemma match_rules_loop_false rules zone name rtype rid n r :
  match_rules_loop rules zone name rtype rid n = Ok false ->
  r ∈ rules -> ~ grants r zone name rtype rid n.
Proof.
  induction rules as [|r' rules IH]; simpl; [by intros _ ?%not_elem_of_nil|].
  intros Hloop [->|Hin]%elem_of_cons [Hz Ht Hp Hn Hf].
  - rewrite bool_decide_true in Hloop by done. apply type_test in Ht. rewrite Ht in Hloop.
    apply pinned_out_false in Hp. rewrite Hp in Hloop.
    apply name_out_false in Hn. rewrite Hn in Hloop. simpl in Hloop. by rewrite Hf in Hloop.
  - apply IH; [|done|by split].
    revert Hloop. repeat (case_if; [done|]).
    destruct (name_out r' name) as [[]|]; simpl; [done| |done]. by case_if.
Qed.

Lemma match_rules_loop_raise rules zone name rtype rid n e :
  match_rules_loop rules zone name rtype rid n = Raise e ->
  exists r p nm, r ∈ rules /\ name_pattern r = Some p /\ name = Some nm /\
    name_matches p (name_match r) nm = Raise e.
Proof.
  induction rules as [|r rules IH]; simpl; [done|].
  assert (Hrec : match_rules_loop rules zone name rtype rid n = Raise e ->
    exists r' p nm, r' ∈ r :: rules /\ name_pattern r' = Some p /\ name = Some nm /\
      name_matches p (name_match r') nm = Raise e).
  { intros (r' & p & nm & ? & ?)%IH. exists r', p, nm. split; [by right | done]. }
  repeat (case_if; [done|]).
  unfold name_out. destruct (name_pattern r) as [p|] eqn:Hp; simpl.
  - destruct name as [nm|]; simpl; [|done].
    destruct (name_matches p (name_match r) nm) as [b|e'] eqn:Hm; simpl.
    + destruct b; simpl; [|done]. by case_if.
    + intros [= ->]. exists r, p, nm. by repeat split; try done; left.
  - by case_if.
Qed.

Lemma name_matches_total p m nm c c' :
  normalize_fqdn p = Ok c -> normalize_fqdn nm = Ok c' ->
  exists b, name_matches p m nm = Ok b.
Proof.
  intros Hp Hn. unfold name_matches. rewrite Hp, Hn. simpl.
  destruct (list_find _ _) as [[]|]; repeat case_if; by eexists.
Qed.

(** *** Exceptions *)

Definition name_error (e : exn) : Prop := e = UnicodeError \/ e = AttributeError.

Lemma to_ascii_labels_raise labels e :
  result_mapM to_ascii labels = Raise e -> e = UnicodeError.
Proof.
  induction labels as [|l ls IH]; simpl; [done|].
  intros [Hl|(? & _ & [Hls|(? & _ & [=])]%result_bind_Raise)]%result_bind_Raise; [|by apply IH].
  unfold to_ascii, idna_label_length in Hl. revert Hl.
  case_if; [case_if; congruence|]. destruct (u_nameprep l); simpl; [|congruence].
  repeat case_if; congruence.
Qed.

Lemma normalize_raises s e : normalize_fqdn s = Raise e -> e = UnicodeError.
Proof.
  unfold normalize_fqdn. generalize (lower (rstrip_char char_dot (strip s))). intros t.
  case_bool_decide; [done|]. unfold encode_idna. rewrite bool_decide_false by done.
  case_if; [case_if; congruence|].
  intros [Hm|(? & _ & [=])]%result_bind_Raise. by eapply to_ascii_labels_raise.
Qed.

Lemma name_matches_raises p m n e : name_matches p m n = Raise e -> e = UnicodeError.
Proof.
  unfold name_matches.
  intros [?|(cp & _ & [?|(ct & _ & Hm)]%result_bind_Raise)]%result_bind_Raise;
    [by eapply normalize_raises..|]. revert Hm. repeat case_match; congruence.
Qed.

(** The only exceptions of the predicate: a name the codec rejects, and a
    truthy name that is not a string. *)
Lemma match_rules_raises rules zone name rtype rid n e :
  match_rules rules zone name rtype rid n = Raise e -> name_error e.
Proof.
  intros [Hn|(nm & _ & Hl)]%result_bind_Raise.
  - unfold normalized in Hn. destruct (truthy name); [|done]. destruct name; try by right; congruence.
    destruct (normalize_fqdn s) eqn:Es; [done|]. injection Hn as <-. left. by eapply normalize_raises.
  - apply match_rules_loop_raise in Hl as (? & ? & ? & _ & _ & _ & Hm). left.
    by eapply name_matches_raises.
Qed.

Lemma merge_raises pre body e : merge_patch_image pre body = Raise e -> e = AttributeError.
Proof.
  unfold merge_patch_image, py_get.
  intros [?|(? & _ & [?|(? & _ & [?|(? & _ & [?|(? & _ & [=])]%result_bind_Raise)]%result_bind_Raise)]%result_bind_Raise)]%result_bind_Raise;
    by eapply py_get_default_raises.
Qed.

(** *** Wildcards *)

Lemma labels_match_spec star i ps ts :
  length ps = length ts ->
  labels_match star i ps ts = true <->
  (forall k p t, ps !! k = Some p -> ts !! k = Some t -> i + k ≠ star -> p = t).
Proof.
  revert i ts. induction ps as [|p ps IH]; intros i [|t ts] Hlen; try done.
  simpl in Hlen. injection Hlen as Hlen. simpl.
  assert (Hshift : (forall k p t, ps !! k = Some p -> ts !! k = Some t -> S i + k ≠ star -> p = t) <->
    (forall k p' t', (p :: ps) !! S k = Some p' -> (t :: ts) !! S k = Some t' ->
      i + S k ≠ star -> p' = t')).
  { simpl. split; intros Hall k p' t' Hp' Ht' Hne; apply (Hall k); auto; lia. }
  destruct (i =? star)%nat eqn:E; [|case_if].
  - apply Nat.eqb_eq in E as ->. rewrite (IH (S star) ts) by done. rewrite Hshift.
    split; [|by intros Hall k; apply (Hall (S k))].
    intros Hall [|k] p' t'; [lia|]. by apply Hall.
  - split; [done|]. intros Hall. apply Nat.eqb_neq in E.
    bool_prop. exfalso. apply Heqb. apply (Hall 0 p t); [done..|lia].
  - bool_prop. subst t. rewrite (IH (S i) ts) by done. rewrite Hshift.
    split; [|by intros Hall k; apply (Hall (S k))].
    intros Hall [|k] p' t'; [by intros [= ->] [= ->]|]. by apply Hall.
Qed.

(** The labels of a pattern with its star label replaced by [l]. *)
Lemma labels_match_insert star ps ts s :
  ps !! star = Some s ->
  length ps = length ts /\ labels_match star 0 ps ts = true <->
  exists l, ts = <[star := l]> ps.
Proof.
  intros Hs. split.
  - intros [Hlen Hm]. pose proof (proj1 (labels_match_spec star 0 ps ts Hlen) Hm) as Hall.
    assert (Hlt : star < length ps) by (by apply lookup_lt_Some in Hs).
    destruct (lookup_lt_is_Some_2 ts star) as [l Hl]; [lia|].
    exists l. apply list_eq. intros k. destruct (decide (k = star)) as [->|Hk].
    + by rewrite list_lookup_insert_eq.
    + rewrite list_lookup_insert_ne by done.
      destruct (ps !! k) as [p|] eqn:Hp.
      * destruct (lookup_lt_is_Some_2 ts k) as [t Ht]; [apply lookup_lt_Some in Hp; lia|].
        rewrite Ht. f_equal. symmetry. by apply (Hall k p t).
      * apply lookup_ge_None in Hp. apply lookup_ge_None. lia.
  - intros [l ->]. rewrite length_insert. split; [done|].
    apply labels_match_spec; [by rewrite length_insert|].
    intros k p t Hp Ht Hk. rewrite list_lookup_insert_ne in Ht by lia. congruence.
Qed.

(** *** Canonical names *)

(** An ASCII name without white space, in lower case, without a trailing
    dot, with labels the codec accepts: a fixed point of [normalize_fqdn]. *)
Record canonical (s : pystr) : Prop := Canonical {
  canonical_ascii : is_ascii s = true;
  canonical_space : Forall (fun c => is_space c = false) s;
  canonical_lower : Forall (fun c => is_upper_ascii c = false) s;
  canonical_dot : forall s' c, s = s' ++ [c] -> c ≠ char_dot;
  canonical_labels : ascii_labels_ok (split char_dot s) = true;
}.

Lemma strip_id s : Forall (fun c => is_space c = false) s -> strip s = s.
Proof.
  intros Hs. unfold strip, lstrip_by. rewrite drop_while_id; [apply rstrip_by_id|].
  - intros s' c ->. apply Forall_app in Hs as [_ Hc]. by inversion Hc.
  - intros c s' ->. by inversion Hs.
Qed.

Lemma lower_id s :
  is_ascii s = true -> Forall (fun c => is_upper_ascii c = false) s -> lower s = s.
Proof.
  intros Ha Hs. unfold lower. rewrite Ha.
  induction Hs as [|c s Hc Hs IH]; [done|]. simpl in *. bool_prop.
  unfold lower_char. rewrite Hc. f_equal. by apply IH.
Qed.

Lemma rstrip_dot_id s :
  (forall s' c, s = s' ++ [c] -> c ≠ char_dot) -> rstrip_char char_dot s = s.
Proof.
  intros Hd. apply rstrip_by_id. intros s' c ->. apply N.eqb_neq.
  intros <-. by eapply Hd.
Qed.

Lemma canonical_normalize s : canonical s -> normalize_fqdn s = Ok s.
Proof.
  intros [Ha Hs Hl Hd Hk]. unfold normalize_fqdn.
  rewrite (strip_id s Hs), (rstrip_dot_id s Hd), (lower_id s Ha Hl).
  case_bool_decide; [done|]. unfold encode_idna.
  by rewrite bool_decide_false, Ha, Hk.
Qed.

Lemma is_ascii_app a b : is_ascii (a ++ b) = is_ascii a && is_ascii b.
Proof. apply forallb_app. Qed.

Lemma is_ascii_prefix a b : a `prefix_of` b -> is_ascii b = true -> is_ascii a = true.
Proof. intros [k ->]. rewrite is_ascii_app. by intros [? ?]%andb_true_iff. Qed.

Lemma is_ascii_suffix a b : a `suffix_of` b -> is_ascii b = true -> is_ascii a = true.
Proof. intros [k ->]. rewrite is_ascii_app. by intros [? ?]%andb_true_iff. Qed.

Lemma lower_char_ascii c : is_ascii_char c = true -> is_ascii_char (lower_char c) = true.
Proof.
  unfold is_ascii_char, lower_char, is_upper_ascii, in_range. intros Hc%N.ltb_lt.
  case_if; apply N.ltb_lt; [bool_prop; apply N.leb_le in H0, H1 |]; lia.
Qed.

Lemma lower_char_idem c : is_upper_ascii (lower_char c) = false.
Proof.
  unfold lower_char. destruct (is_upper_ascii c) eqn:E; [|done].
  unfold is_upper_ascii, in_range in *. bool_prop. apply N.leb_le in H0, H1.
  apply andb_false_iff. right. apply N.leb_gt. lia.
Qed.

Lemma lower_char_space c : is_space c = false -> is_space (lower_char c) = false.
Proof.
  unfold lower_char. destruct (is_upper_ascii c) eqn:E; [|done]. intros _.
  unfold is_upper_ascii, is_space, in_range in *. bool_prop. apply N.leb_le in H0, H1.
  repeat (apply orb_false_iff; split);
    first [ apply N.eqb_neq; lia | apply andb_false_iff; right; apply N.leb_gt; lia
          | apply andb_false_iff; left; apply N.leb_gt; lia ].
Qed.

Lemma lower_char_dot c : lower_char c = char_dot -> c = char_dot.
Proof.
  unfold lower_char. case_if; [|done]. unfold is_upper_ascii, in_range, char_dot in *.
  bool_prop. apply N.leb_le in H0, H1. lia.
Qed.

(** [normalize_fqdn] of an ASCII name: trimmed, in lower case, and accepted
    by the codec's label check. *)
Lemma normalize_ascii s c :
  is_ascii s = true -> normalize_fqdn s = Ok c ->
  c = lower_char <$> rstrip_char char_dot (strip s) /\
  (c = [] \/ ascii_labels_ok (split char_dot c) = true).
Proof.
  intros Ha. unfold normalize_fqdn.
  assert (Ht : is_ascii (rstrip_char char_dot (strip s)) = true).
  { eapply is_ascii_prefix; [apply rstrip_by_prefix|].
    eapply is_ascii_prefix; [apply rstrip_by_prefix|].
    eapply is_ascii_suffix; [apply drop_while_suffix | done]. }
  unfold lower. rewrite Ht. case_bool_decide as Hnil; [by intros [= <-]; split; [|left]|].
  unfold encode_idna. rewrite bool_decide_false by done.
  assert (is_ascii (lower_char <$> rstrip_char char_dot (strip s)) = true) as ->.
  { apply forallb_forall. intros x Hx. apply list_elem_of_In, list_elem_of_fmap in Hx as (y & -> & Hy).
    apply lower_char_ascii. unfold is_ascii in Ht. rewrite forallb_forall in Ht.
    by apply Ht, list_elem_of_In. }
  case_if; [|done]. intros [= <-]. by split; [|right].
Qed.

Lemma normalize_ascii_labels s c :
  is_ascii s = true -> normalize_fqdn s = Ok c -> ascii_labels_ok (split char_dot c) = true.
Proof. intros Ha Hn. by destruct (normalize_ascii s c Ha Hn) as [_ [->|?]]. Qed.

Lemma normalize_is_ascii s c :
  is_ascii s = true -> normalize_fqdn s = Ok c -> is_ascii c = true.
Proof.
  intros Ha Hn. destruct (normalize_ascii s c Ha Hn) as [-> _].
  apply forallb_forall. intros x Hx.
  apply list_elem_of_In, list_elem_of_fmap in Hx as (y & -> & Hy).
  apply lower_char_ascii. unfold is_ascii in Ha. rewrite forallb_forall in Ha.
  apply Ha, list_elem_of_In. unfold strip in Hy.
  eapply elem_of_prefix in Hy; [|apply rstrip_by_prefix].
  eapply elem_of_prefix in Hy; [|apply rstrip_by_prefix].
  destruct (drop_while_suffix is_space s) as [k E]. unfold lstrip_by in Hy.
  rewrite E. apply elem_of_app. by right.
Qed.

Lemma normalize_is_canonical s c :
  is_ascii s = true -> Forall (fun x => is_space x = false) s ->
  normalize_fqdn s = Ok c -> canonical c.
Proof.
  intros Ha Hs Hn. pose proof (normalize_ascii_labels s c Ha Hn) as Hlab.
  pose proof (normalize_is_ascii s c Ha Hn) as Hasc.
  destruct (normalize_ascii s c Ha Hn) as [-> _]. rewrite (strip_id s Hs) in *.
  split; [done| | | |done].
  - apply Forall_fmap. destruct (rstrip_by_prefix (N.eqb char_dot) s) as [k E].
    rewrite E in Hs. apply Forall_app in Hs as [Hs _].
    eapply Forall_impl; [exact Hs|]. intros x. apply lower_char_space.
  - apply Forall_fmap, Forall_forall. intros x _. apply lower_char_idem.
  - intros s' c E ->. apply fmap_app_inv in E as (t & t' & -> & Ht' & Hr).
    destruct t' as [|x [|]]; try done. injection Ht' as Hx.
    apply rstrip_by_last in Hr. symmetry in Hx. apply lower_char_dot in Hx as ->.
    by rewrite N.eqb_refl in Hr.
Qed.

Lemma ascii_labels_snoc init w :
  ascii_labels_ok (init ++ [w]) = true <->
  Forall (fun l => 0 < length l < 64) init /\ length w < 64.
Proof.
  induction init as [|l init IH]; simpl.
  - rewrite Nat.ltb_lt. naive_solver.
  - transitivity (0 < length l < 64 /\ ascii_labels_ok (init ++ [w]) = true).
    + destruct init; simpl; rewrite !andb_true_iff, !Nat.ltb_lt; done.
    + rewrite IH, Forall_cons. naive_solver.
Qed.

(** A prefix of an acceptable name is acceptable. *)
Lemma ascii_labels_prefix a b :
  a `prefix_of` b -> ascii_labels_ok (split char_dot b) = true ->
  ascii_labels_ok (split char_dot a) = true.
Proof.
  intros [k ->]. destruct (split_on_app_gen (N.eqb char_dot) a k)
    as (init & w & w' & rest & Ha & _ & Hab).
  unfold split. rewrite Ha, Hab.
  destruct rest as [|x rest _] using rev_ind.
  - rewrite !ascii_labels_snoc, length_app. intuition lia.
  - rewrite app_comm_cons, app_assoc, !ascii_labels_snoc.
    rewrite Forall_app, Forall_cons, length_app. intuition lia.
Qed.

Lemma strip_prefix_of_tail s :
  (forall c s', s = c :: s' -> is_space c = false) -> strip s `prefix_of` s.
Proof.
  intros Hh. unfold strip, lstrip_by. rewrite (drop_while_id is_space s) by done.
  apply rstrip_by_prefix.
Qed.

(** A normalised ASCII name can be normalised again: trimming only shortens
    it, so no label becomes too long or empty in the middle. *)
Lemma normalize_again s c :
  is_ascii s = true -> normalize_fqdn s = Ok c -> exists c', normalize_fqdn c = Ok c'.
Proof.
  intros Ha Hn. pose proof (normalize_ascii_labels s c Ha Hn) as Hlab.
  pose proof (normalize_is_ascii s c Ha Hn) as Hasc.
  unfold normalize_fqdn. set (t := rstrip_char char_dot (strip c)).
  assert (Ht : t `prefix_of` c).
  { etrans; [apply rstrip_by_prefix|]. apply strip_prefix_of_tail.
    intros x c' ->. destruct (normalize_ascii s _ Ha Hn) as [E _].
    destruct (rstrip_char char_dot (strip s)) as [|y r] eqn:Er; [done|].
    injection E as -> _. apply lower_char_space. unfold strip in Er.
    destruct (rstrip_by_prefix (N.eqb char_dot) (rstrip_by is_space (lstrip_by is_space s))) as [k1 E1].
    destruct (rstrip_by_prefix is_space (lstrip_by is_space s)) as [k2 E2].
    unfold rstrip_char in Er. rewrite Er in E1. rewrite E1 in E2.
    by apply (drop_while_head is_space s y ((r ++ k1) ++ k2)). }
  assert (Hlt : lower t = t).
  { apply lower_id; [by eapply is_ascii_prefix|].
    destruct (normalize_ascii s c Ha Hn) as [E _]. rewrite E in Ht.
    destruct Ht as [k Hk]. assert (Hall : Forall (fun c => is_upper_ascii c = false) (t ++ k)).
    { rewrite <- Hk. apply Forall_fmap, Forall_forall. intros x _. apply lower_char_idem. }
    by apply Forall_app in Hall as [? _]. }
  rewrite Hlt. case_bool_decide; [by eexists|]. unfold encode_idna.
  rewrite bool_decide_false by done. rewrite (is_ascii_prefix t c Ht Hasc).
  rewrite (ascii_labels_prefix t c Ht Hlab). by eexists.
Qed.

(** What a token may do: some rule of it grants the operation on the record
    with these (dynamically typed) attributes. *)
Definition authorised (rules : list rule) (zone : pystr) (name rtype record_id : json)
    (n : need) : Prop :=
  exists nm, normalized name = Ok nm /\
    exists r, r ∈ rules /\ grants r zone nm rtype record_id n.

Lemma match_rules_authorised rules zone name rtype rid n b :
  match_rules rules zone name rtype rid n = Ok b ->
  (b = true <-> authorised rules zone name rtype rid n).
Proof.
  intros (nm & Hnm & Hloop)%result_bind_Ok. destruct b; (split; [intros E | intros Ha]); try done.
  - exists nm. split; [done|]. by apply match_rules_loop_true.
  - destruct Ha as (nm' & Hnm' & r & Hin & Hg). rewrite Hnm in Hnm'. injection Hnm' as <-.
    by destruct (match_rules_loop_false _ _ _ _ _ _ r Hloop Hin).
Qed.

(** More rules never take an authorisation away, their order is irrelevant. *)
#[export] Instance authorised_proper :
  Proper ((≡ₚ) ==> eq ==> eq ==> eq ==> eq ==> eq ==> iff) authorised.
Proof.
  intros l1 l2 Hl ? ? -> ? ? -> ? ? -> ? ? -> ? ? ->. unfold authorised.
  by setoid_rewrite Hl.
Qed.

(** ** Properties *)

(** C8: [match_rules] decides the declarative grant: whenever it returns, it
    returns true exactly when some rule of the token grants the operation
    on the record (its zone, type, id pin, name pattern and flag all agree). *)
Theorem match_rules_decides rules zone name rtype rid n b :
  match_rules rules zone name rtype rid n = Ok b ->
  exists nm, normalized name = Ok nm /\
    (b = true <-> exists r, r ∈ rules /\ grants r zone nm rtype rid n).
Proof.
  intros (nm & Hnm & Hloop)%result_bind_Ok. exists nm. split; [done|].
  destruct b; split; try done.
  - intros _. by apply match_rules_loop_true.
  - intros (r & Hin & Hg). by destruct (match_rules_loop_false _ _ _ _ _ _ r Hloop Hin).
Qed.

(** [match_rules] returns (it raises nothing) on an ASCII name the IDNA
    codec accepts, when every pattern of the token is accepted too. *)
Theorem match_rules_total rules zone s c rtype rid n :
  (forall r, r ∈ rules -> rule_total r) ->
  is_ascii s = true -> normalize_fqdn s = Ok c ->
  exists b, match_rules rules zone (JStr s) rtype rid n = Ok b.
Proof.
  intros Hr Ha Hn. unfold match_rules, normalized. destruct (truthy (JStr s)); simpl.
  - rewrite Hn. simpl.
    destruct (match_rules_loop rules zone (Some c) rtype rid n) as [b|e] eqn:E; [by eexists|].
    apply match_rules_loop_raise in E as (r & p & nm & Hin & Hp & [= <-] & Hm).
    destruct (Hr r Hin p Hp) as [cp Hcp]. destruct (normalize_again s c Ha Hn) as [c' Hc'].
    destruct (name_matches_total p (name_match r) c cp c' Hcp Hc') as [b Hb]. congruence.
  - destruct (match_rules_loop rules zone None rtype rid n) as [b|e] eqn:E; [by eexists|].
    by apply match_rules_loop_raise in E as (r & p & nm & _ & _ & [=] & _).
Qed.

Lemma is_lock_exempt_exempts rules zone rid op :
  is_lock_exempt rules zone (JStr rid) op = true <->
  exists r, r ∈ rules /\ exempts r zone rid op.
Proof.
  induction rules as [|r rules IH]; [split; [done|by intros (? & ?%not_elem_of_nil & _)]|].
  assert (Hcons : (exists r', r' ∈ r :: rules /\ exempts r' zone rid op) <->
    exempts r zone rid op \/ is_lock_exempt rules zone (JStr rid) op = true).
  { rewrite IH. setoid_rewrite elem_of_cons. naive_solver. }
  rewrite Hcons. simpl.
  destruct (decide (zone_id r = zone)) as [Hz|Hz];
    [rewrite (bool_decide_true _ Hz) | rewrite (bool_decide_false _ Hz)]; simpl;
    [|split; [by right | by intros [[]|]]].
  destruct (name_pattern r) as [p|] eqn:Hp; simpl.
  { split; [by right | by intros [[]|]; [congruence|]]. }
  destruct (decide (record_types r = [u "*"])) as [Ht|Ht];
    [rewrite (bool_decide_true _ Ht) | rewrite (bool_decide_false _ Ht)]; cbn [negb];
    [|split; [by right | by intros [[]|]]].
  destruct (record_ids r) as [ids|] eqn:Hi;
    [|split; [by right | by intros [[_ _ _ (? & ? & _) _]|]; [congruence|]]].
  case_bool_decide as Hin; cbn [negb];
    [|split; [by right | intros [[_ _ _ (? & ? & ?) _]|]; [congruence|done]]].
  destruct (allows r op) eqn:Hf;
    [split; [|done]; intros _; left; by split; eauto | split; [by right|]].
  by intros [[_ _ _ _ ?]|]; [congruence|].
Qed.

Lemma exempts_grants r zone rid op name rtype :
  exempts r zone rid op -> grants r zone name rtype (JStr rid) op.
Proof.
  intros [Hz Hp Ht (ids & Hi & Hin) Hf]. split; [done|left|..|done].
  - rewrite Ht. by left.
  - rewrite Hi. intros ids' [= <-] _. eauto.
  - by rewrite Hp.
Qed.

(** When a mutation is exempt, every (name, type) the predicate can decide on
    is granted by the same token: no rename of that record escapes. *)
Lemma lock_exempt_escape_proof rules zone rid op name rtype b :
  is_lock_exempt rules zone (JStr rid) op = true ->
  match_rules rules zone name rtype (JStr rid) op = Ok b -> b = true.
Proof.
  intros (r & Hin & Hex)%is_lock_exempt_exempts (nm & Hnm & Hloop)%result_bind_Ok.
  destruct b; [done|].
  destruct (match_rules_loop_false _ _ _ _ _ _ r Hloop Hin).
  by apply exempts_grants.
Qed.

(** A rule pinned to record ids never grants a create, which names none. *)
Lemma grants_create_unpinned r zone name rtype :
  grants r zone name rtype JNull Create -> record_ids r = None \/ record_ids r = Some [].
Proof.
  intros Hg. destruct (record_ids r) as [[|i ids]|] eqn:Ei; [by right| |by left].
  by destruct (grants_pin _ _ _ _ _ _ Hg (i :: ids) Ei) as (? & [=] & _).
Qed.

(** A wildcard pattern matches exactly the names with the same labels, its
    first star label replaced by one label: the star never crosses a dot, so
    neither the apex nor a deeper name matches. *)
Lemma name_matches_wildcard pattern target :
  name_matches pattern (u "wildcard") target = Ok true <->
  exists cp ct before after l,
    normalize_fqdn pattern = Ok cp /\ normalize_fqdn target = Ok ct /\
    split char_dot cp = before ++ [char_star] :: after /\ ([char_star] ∉ before) /\
    split char_dot ct = before ++ l :: after.
Proof.
  unfold name_matches. rewrite result_bind_Ok. setoid_rewrite result_bind_Ok.
  rewrite (bool_decide_false (u "wildcard" = u "exact")), bool_decide_true by done.
  split.
  - intros (cp & Hcp & ct & Hct & Hm). exists cp, ct.
    destruct (list_find _ _) as [[i x]|] eqn:Hf; [|done].
    apply list_find_Some in Hf as (Hi & <- & Hmin).
    case_if; [done|]. injection Hm as Hm. bool_prop. apply Nat.eqb_eq in Heqb.
    destruct (proj1 (labels_match_insert i _ _ _ Hi) (conj Heqb Hm)) as [l Hl].
    exists (take i (split char_dot cp)), (drop (S i) (split char_dot cp)), l.
    assert (i < length (split char_dot cp)) by by apply lookup_lt_Some in Hi.
    split_and!; [done|done|by rewrite take_drop_middle| |].
    + intros (k & Hk)%list_elem_of_lookup. apply lookup_take_Some in Hk as [Hk Hlt].
      by eapply Hmin.
    + by rewrite Hl, insert_take_drop.
  - intros (cp & ct & before & after & l & Hcp & Hct & Hp & Hb & Ht).
    exists cp. split; [done|]. exists ct. split; [done|].
    assert (Hf : list_find (eq [char_star]) (split char_dot cp) = Some (length before, [char_star]))
      by (rewrite Hp; by apply list_find_eq_app).
    rewrite Hf. destruct (proj2 (labels_match_insert (length before) (split char_dot cp)
      (split char_dot ct) [char_star] ltac:(rewrite Hp; by apply list_lookup_middle)))
      as [Hlen Hm].
    { exists l. rewrite Ht, Hp, insert_app_r_alt, Nat.sub_diag by done. done. }
    rewrite <- Hlen, Nat.eqb_refl. simpl. by rewrite Hm.
Qed.

(** *** Zone confinement *)

Lemma endswith_labels zone n :
  endswith (char_dot :: zone) n = true <->
  exists pre, pre ≠ [] /\ split char_dot n = pre ++ split char_dot zone.
Proof.
  unfold endswith. rewrite bool_decide_eq_true. split.
  - intros [k ->]. exists (split char_dot k). split; [apply split_on_not_nil|].
    apply split_app.
  - intros (pre & Hne & E). exists (join char_dot pre).
    apply (split_inj char_dot). rewrite E, split_app. f_equal. symmetry.
    apply split_join; [done|].
    pose proof (split_on_free (N.eqb char_dot) n) as Hfree.
    unfold split in E. rewrite E in Hfree. by apply Forall_app in Hfree as [? _].
Qed.

Lemma in_zone_labels zone n :
  in_zone zone n = true <-> exists pre, split char_dot n = pre ++ split char_dot zone.
Proof.
  unfold in_zone. rewrite orb_true_iff, bool_decide_eq_true, endswith_labels. split.
  - intros [->|(pre & _ & E)]; [by exists []|by exists pre].
  - intros [[|w pre] E]; [left; by apply (split_inj char_dot)|right; by exists (w :: pre)].
Qed.

(** An exact pattern accepted for a zone, other than the apex shorthand
    [@], only ever matches the zone itself or names below it. *)
Theorem exact_pattern_confined pattern zone_name zone target :
  validate_name_pattern pattern (u "exact") zone_name = Ok tt ->
  normalize_fqdn zone_name = Ok zone -> pattern ≠ u "@" ->
  name_matches pattern (u "exact") target = Ok true ->
  exists ct, normalize_fqdn target = Ok ct /\ in_zone zone ct = true.
Proof.
  unfold validate_name_pattern, name_matches. intros Hv Hz Hat Hm.
  rewrite bool_decide_true in Hv by (by left). simpl in Hv. rewrite Hz in Hv. simpl in Hv.
  destruct (has_char _ _); [done|]. rewrite bool_decide_false in Hv by done.
  apply result_bind_Ok in Hm as (cp & Hcp & (ct & Hct & Hm)%result_bind_Ok).
  rewrite bool_decide_true in Hm by done. injection Hm as <-%bool_decide_eq_true_1.
  exists cp. split; [done|]. rewrite Hcp in Hv. simpl in Hv. unfold in_zone.
  destruct (bool_decide (cp = zone)); [done|]. simpl in *. by destruct (endswith _ _).
Qed.

(** Canonical names, label by label. *)
Definition char_ok (c : N) : Prop :=
  is_ascii_char c = true /\ is_space c = false /\ is_upper_ascii c = false.

Definition label_ok (l : pystr) : Prop := 0 < length l < 64 /\ Forall char_ok l.

Lemma canonical_split s : canonical s -> s ≠ [] -> Forall label_ok (split char_dot s).
Proof.
  intros [Ha Hs Hl Hd Hk] Hne.
  assert (Hc : Forall char_ok s).
  { apply Forall_forall. intros c Hc. rewrite Forall_forall in Hs, Hl.
    split_and!; [|by apply Hs|by apply Hl].
    unfold is_ascii in Ha. rewrite forallb_forall in Ha. by apply Ha, list_elem_of_In. }
  apply (split_on_Forall _ (N.eqb char_dot)) in Hc. change (split_on (N.eqb char_dot) s)
    with (split char_dot s) in Hc.
  destruct (split char_dot s) as [|w init _] eqn:E using rev_ind; [done|].
  apply ascii_labels_snoc in Hk as [Hinit Hw]. apply Forall_app in Hc as [Hc Hcw].
  apply Forall_app. split.
  - apply Forall_forall. intros l Hin. rewrite Forall_forall in Hc, Hinit.
    split; [by apply Hinit | by apply Hc].
  - inversion Hcw as [|?? Hcw' _]; subst. constructor; [split; [|done]|constructor].
    destruct w as [|c w]; simpl in *; [|lia]. exfalso.
    assert (Hj : s = join char_dot (init ++ [[]])) by by rewrite <- E, join_split.
    destruct init as [|x init]; [by apply Hne|].
    rewrite join_snoc in Hj by done. by eapply Hd.
Qed.

Lemma canonical_join ws : ws ≠ [] -> Forall label_ok ws ->
  Forall (Forall (fun x => N.eqb char_dot x = false)) ws -> canonical (join char_dot ws).
Proof.
  intros Hne Hws Hfree.
  assert (Hc : Forall char_ok (join char_dot ws)).
  { apply join_Forall; [done|]. eapply Forall_impl; [exact Hws|]. by intros l [_ ?]. }
  split.
  - apply forallb_forall. intros c Hin%list_elem_of_In. rewrite Forall_forall in Hc. by apply Hc.
  - eapply Forall_impl; [exact Hc|]. by intros c (_ & ? & _).
  - eapply Forall_impl; [exact Hc|]. by intros c (_ & _ & ?).
  - intros s' c E ->. destruct ws as [|w ws _] using rev_ind; [done|].
    apply Forall_app in Hws as [_ Hw]. inversion Hw as [|?? [Hlen _] _]; subst.
    apply Forall_app in Hfree as [_ Hfw]. inversion Hfw as [|?? Hfw' _]; subst.
    assert (Hsuf : exists t, join char_dot (ws ++ [w]) = t ++ w).
    { destruct ws; [by exists []|]. rewrite join_snoc by done.
      eexists. by rewrite cons_middle, app_assoc. }
    destruct Hsuf as [t Ht]. rewrite Ht in E.
    destruct w as [|c w _] using rev_ind; [simpl in Hlen; lia|].
    rewrite app_assoc in E. apply app_inj_tail in E as [_ ->].
    apply Forall_app in Hfw' as [_ Hx]. inversion Hx as [|?? Hx' _]. done.
  - rewrite split_join by done. destruct ws as [|w ws _] using rev_ind; [done|].
    apply ascii_labels_snoc. apply Forall_app in Hws as [Hws Hw].
    inversion Hw as [|?? [? _] _]; subst. split; [|lia].
    eapply Forall_impl; [exact Hws|]. by intros l [? _].
Qed.

Lemma has_char_elem c s : has_char c s = true <-> c ∈ s.
Proof.
  unfold has_char. rewrite existsb_exists. setoid_rewrite N.eqb_eq.
  rewrite list_elem_of_In. naive_solver.
Qed.

(** What an accepted wildcard pattern looks like: its star label, and the
    zone test passed by the other labels. *)
Lemma validate_wildcard_inv pattern zone_name zone :
  validate_name_pattern pattern (u "wildcard") zone_name = Ok tt ->
  normalize_fqdn zone_name = Ok zone ->
  exists before after, split char_dot pattern = before ++ [char_star] :: after /\
    ([char_star] ∉ before) /\
    (join char_dot (before ++ after) = [] /\ in_zone zone [] = true \/
     exists c, normalize_fqdn (join char_dot (before ++ after)) = Ok c /\ in_zone zone c = true).
Proof.
  unfold validate_name_pattern. intros Hv Hz.
  rewrite bool_decide_true in Hv by (right; by left). simpl in Hv. rewrite Hz in Hv. simpl in Hv.
  destruct (count_char _ _ =? 1)%nat; [|done]. simpl in Hv.
  destruct (list_find _ _) as [[i l]|] eqn:Hf; [|done].
  apply list_find_Some in Hf as (Hi & _ & Hmin).
  case_bool_decide as Hl; [subst l|done]. simpl in Hv.
  set (ls := split char_dot pattern) in *.
  exists (take i ls), (drop (S i) ls). split_and!; [by rewrite take_drop_middle| |].
  { intros (k & Hk)%list_elem_of_lookup. apply lookup_take_Some in Hk as [Hk Hlt].
    by eapply Hmin. }
  unfold in_zone. case_bool_decide as Hj.
  - left. split; [done|]. simpl in Hv. destruct (bool_decide ([] = zone)); [done|].
    simpl in *. by destruct (endswith _ _).
  - right. destruct (normalize_fqdn _) as [c|]; [|done]. exists c. split; [done|].
    simpl in Hv. destruct (bool_decide (c = zone)); [done|]. simpl in *. by destruct (endswith _ _).
Qed.

(** Removing the star label of a canonical pattern leaves a canonical name. *)
Lemma canonical_remainder pattern before after :
  canonical pattern -> split char_dot pattern = before ++ [char_star] :: after ->
  before ++ after ≠ [] ->
  split char_dot (join char_dot (before ++ after)) = before ++ after /\
  normalize_fqdn (join char_dot (before ++ after)) = Ok (join char_dot (before ++ after)).
Proof.
  intros Hc Hs Hne. assert (Hp : pattern ≠ []) by (intros ->; by destruct before as [|? []]).
  pose proof (canonical_split pattern Hc Hp) as Hok.
  pose proof (split_on_free (N.eqb char_dot) pattern) as Hfree.
  change (split_on _ pattern) with (split char_dot pattern) in Hfree. rewrite Hs in *.
  apply Forall_app in Hok as [Hb [_ Ha]%Forall_cons].
  apply Forall_app in Hfree as [Hfb [_ Hfa]%Forall_cons].
  assert (Forall label_ok (before ++ after)) by by apply Forall_app.
  assert (Forall (Forall (fun x => N.eqb char_dot x = false)) (before ++ after))
    by by apply Forall_app.
  split; [by apply split_join | by apply canonical_normalize, canonical_join].
Qed.

(** C39: a canonical wildcard pattern accepted for a zone, whose star stands
    left of the zone's own labels, only ever matches names strictly below
    the zone. *)
Theorem wildcard_pattern_confined pattern zone_name zone target before after :
  canonical pattern ->
  validate_name_pattern pattern (u "wildcard") zone_name = Ok tt ->
  normalize_fqdn zone_name = Ok zone ->
  split char_dot pattern = before ++ [char_star] :: after -> [char_star] ∉ before ->
  length (split char_dot zone) <= length after ->
  name_matches pattern (u "wildcard") target = Ok true ->
  exists ct, normalize_fqdn target = Ok ct /\ endswith (char_dot :: zone) ct = true.
Proof.
  intros Hc Hv Hz Hs Hb Hlen Hm.
  apply name_matches_wildcard in Hm as (cp & ct & b1 & a1 & l & Hcp & Hct & Hs1 & Hb1 & Ht).
  rewrite (canonical_normalize _ Hc) in Hcp. injection Hcp as <-.
  rewrite Hs in Hs1. apply app_cons_first_inj in Hs1 as [<- <-]; [|done..].
  destruct (validate_wildcard_inv _ _ _ Hv Hz) as (b2 & a2 & Hs2 & Hb2 & Hzone).
  rewrite Hs in Hs2. apply app_cons_first_inj in Hs2 as [<- <-]; [|done..].
  assert (Hpos : 0 < length (split char_dot zone)).
  { pose proof (split_on_not_nil (N.eqb char_dot) zone). unfold split.
    destruct (split_on _ zone); simpl; [done|lia]. }
  assert (Hne : before ++ after ≠ []) by (destruct before, after; simpl in *; (done || lia)).
  destruct (canonical_remainder _ _ _ Hc Hs Hne) as [Hsr Hnr].
  assert (Hin : in_zone zone (join char_dot (before ++ after)) = true).
  { destruct Hzone as [[-> ?]|(c & Hn & ?)]; [done|]. congruence. }
  apply in_zone_labels in Hin as [pre Hpre]. rewrite Hsr in Hpre.
  exists ct. split; [done|]. apply endswith_labels.
  exists (before ++ l :: take (length after - length (split char_dot zone)) after).
  split; [by destruct before|]. rewrite Ht, <- app_assoc. simpl. do 2 f_equal.
  rewrite <- (take_drop (length after - length (split char_dot zone)) after) at 1.
  f_equal. transitivity (drop (length pre) (before ++ after)).
  - rewrite drop_app, (drop_ge before); apply (f_equal length) in Hpre;
      rewrite !length_app in Hpre; [|lia]. simpl. f_equal. lia.
  - by rewrite Hpre, drop_app_length.
Qed.

(** On ASCII names without white space [normalize_fqdn] yields canonical
    names and is idempotent, so the second normalisation inside
    [name_matches] does not change what [match_rules] compares. *)
Theorem normalize_idempotent s c :
  is_ascii s = true -> Forall (fun x => is_space x = false) s ->
  normalize_fqdn s = Ok c -> canonical c /\ normalize_fqdn c = Ok c.
Proof.
  intros Ha Hs Hn. pose proof (normalize_is_canonical s c Ha Hs Hn) as Hc.
  split; [done|]. by apply canonical_normalize.
Qed.

(** [normalize_fqdn] is not idempotent in general: white space before the
    trailing dots survives the first pass and is trimmed by the second, so
    [match_rules] grants a create for a name that is not the one it
    authorises against. *)
Theorem normalize_not_idempotent :
  let granted := Rule (u "z") (Some (u "home.example.com")) (u "exact") [u "*"] None
    false true false false in
  normalize_fqdn (u "home.example.com. .") = Ok (u "home.example.com. ") /\
  name_matches (u "home.example.com") (u "exact") (u "home.example.com. .") = Ok false /\
  match_rules [granted] (u "z") (JStr (u "home.example.com. .")) (JStr (u "A")) JNull Create
    = Ok true.
Proof. by vm_compute. Qed.

(** The apex shorthand [@] is accepted by the validator for every zone
    whose name the codec accepts, but the matcher compares it literally: it
    matches no name but [@] itself, hence never the apex. *)
Theorem at_pattern_never_matches_apex zone_name zone target :
  normalize_fqdn zone_name = Ok zone ->
  validate_name_pattern (u "@") (u "exact") zone_name = Ok tt /\
  (name_matches (u "@") (u "exact") target = Ok true ->
    normalize_fqdn target = Ok (u "@")).
Proof.
  intros Hz. split.
  - unfold validate_name_pattern. rewrite bool_decide_true by (by left). simpl.
    rewrite Hz. simpl. by rewrite bool_decide_true.
  - intros (cp & Hcp & (ct & Hct & Hm)%result_bind_Ok)%result_bind_Ok.
    rewrite bool_decide_true in Hm by done. injection Hm as <-%bool_decide_eq_true_1.
    rewrite Hct. f_equal. by injection Hcp.
Qed.

(** A star placed inside the zone's labels is accepted although the
    pattern does not end in the zone, and it matches a name outside it. *)
Theorem star_inside_zone_accepted :
  validate_name_pattern (u "example.*.com") (u "wildcard") (u "example.com") = Ok tt /\
  name_matches (u "example.*.com") (u "wildcard") (u "example.evil.com") = Ok true /\
  in_zone (u "example.com") (u "example.evil.com") = false.
Proof. by vm_compute. Qed.
End scope.
