(* ===== verification/Models.v ===== *)
(** * Rows, tables and schema constraints ([db/models.py])

    One record per ORM class, a database as its tables in insertion order, and
    the constraints the engine checks when a session is flushed: primary keys,
    unique columns, and foreign keys (which only MySQL enforces here: SQLite
    leaves them off unless asked). The columns a person fills in (e-mail
    addresses, the subject a login came with, labels) are compared and kept
    unique as the collation of the database does; ids, which the program
    generates, are compared exactly. A [DateTime] column stores the wall clock
    of the value written to it, in microseconds, and no time zone. *)

From S2P Require Import Prelude PyStr Json Scope.

(** ** [datetime] *)

Definition second : Z := 1000000.

(** A wall clock and, for an aware value, its offset from UTC. *)
Record datetime := DT { dt_wall : Z; dt_tz : option Z }.

#[export] Instance datetime_eq_dec : EqDecision datetime.
Proof. solve_decision. Defined.

(** [a < b]: comparing a naive with an aware value is a [TypeError]. *)
Definition dt_lt (a b : datetime) : result bool :=
  match dt_tz a, dt_tz b with
  | None, None => Ok (dt_wall a <? dt_wall b)%Z
  | Some x, Some y => Ok (dt_wall a - x <? dt_wall b - y)%Z
  | _, _ => Raise TypeError
  end.

(** [d + timedelta(microseconds=n)]. *)
Definition dt_add (d : datetime) (n : Z) : datetime := DT (dt_wall d + n) (dt_tz d).

(** ** Rows *)

Record User := {
  u_id : pystr;
  u_email : option pystr;
  u_password_hash : option pystr;
  u_auth_provider : pystr;
  u_cf_sub : option pystr;
  u_is_active : bool;
  u_created_at : Z;
  u_updated_at : Z;
}.

Record UpstreamCredential := {
  uc_id : pystr;
  uc_user_id : pystr;
  uc_label : pystr;
  uc_cred_type : pystr;
  uc_secret_enc : option pystr;
  uc_access_token_enc : option pystr;
  uc_refresh_token_enc : option pystr;
  uc_token_expires_at : option Z;
  uc_oauth_scopes : option pystr;
  uc_key_version : Z;
  uc_cred_version : Z;
  uc_cf_account_email : option pystr;
  uc_verify_status : option pystr;
  uc_verified_at : option Z;
  uc_created_at : Z;
}.

Record ScopedToken := {
  st_id : pystr;
  st_user_id : pystr;
  st_upstream_credential_id : pystr;
  st_name : pystr;
  st_lookup_id : pystr;
  st_token_prefix : pystr;
  st_token_hash : pystr;
  st_version : Z;
  st_status : pystr;
  st_expires_at : option Z;
  st_last_used_at : option Z;
  st_created_at : Z;
  st_revoked_at : option Z;
}.

(** [sr_rule] holds the columns the scope predicates read. *)
Record ScopeRule := {
  sr_id : pystr;
  sr_scoped_token_id : pystr;
  sr_rule : rule;
  sr_content_lock : option pystr;
  sr_created_at : Z;
}.

Record AuditLog := {
  al_id : pystr;
  al_ts : Z;
  al_user_id : option pystr;
  al_scoped_token_id : option pystr;
  al_token_prefix : option pystr;
  al_method : pystr;
  al_path : pystr;
  al_zone_id : option pystr;
  al_record_id : option pystr;
  al_record_name : json;
  al_record_type : json;
  al_pre_image : json;
  al_post_image : json;
  al_decision : pystr;
  al_deny_reason : option pystr;
  al_upstream_status : option Z;
  al_client_ip : option pystr;
  al_latency_ms : option Z;
}.

Record SchemaVersion := { sv_version : Z; sv_applied_at : Z }.

#[export] Instance User_eq_dec : EqDecision User.
Proof. solve_decision. Defined.
#[export] Instance UpstreamCredential_eq_dec : EqDecision UpstreamCredential.
Proof. solve_decision. Defined.
#[export] Instance ScopedToken_eq_dec : EqDecision ScopedToken.
Proof. solve_decision. Defined.
#[export] Instance ScopeRule_eq_dec : EqDecision ScopeRule.
Proof. solve_decision. Defined.

(** ** Tables *)

Record database := Database {
  users : list User;
  credentials : list UpstreamCredential;
  tokens : list ScopedToken;
  rules : list ScopeRule;
  audits : list AuditLog;
  schema_versions : list SchemaVersion;
}.

Definition empty_database : database := Database [] [] [] [] [] [].

Definition set_users (f : list User -> list User) (d : database) : database :=
  Database (f (users d)) (credentials d) (tokens d) (rules d) (audits d) (schema_versions d).
Definition set_credentials (f : list UpstreamCredential -> list UpstreamCredential)
    (d : database) : database :=
  Database (users d) (f (credentials d)) (tokens d) (rules d) (audits d) (schema_versions d).
Definition set_tokens (f : list ScopedToken -> list ScopedToken) (d : database) : database :=
  Database (users d) (credentials d) (f (tokens d)) (rules d) (audits d) (schema_versions d).
Definition set_rules (f : list ScopeRule -> list ScopeRule) (d : database) : database :=
  Database (users d) (credentials d) (tokens d) (f (rules d)) (audits d) (schema_versions d).
Definition set_audits (f : list AuditLog -> list AuditLog) (d : database) : database :=
  Database (users d) (credentials d) (tokens d) (rules d) (f (audits d)) (schema_versions d).
Definition set_schema_versions (f : list SchemaVersion -> list SchemaVersion)
    (d : database) : database :=
  Database (users d) (credentials d) (tokens d) (rules d) (audits d) (f (schema_versions d)).

(** [UPDATE ... WHERE]: the rows satisfying [p] are rewritten by [f]. *)
Definition update_where {A} (p : A -> bool) (f : A -> A) (l : list A) : list A :=
  (fun x => if p x then f x else x) <$> l.

(** A row that is not selected is neither added nor lost, when an update keeps
    the rows it makes among the selected. *)
Lemma update_where_others {A} (p : A -> bool) (f : A -> A) l y :
  (forall x, p x = true -> p (f x) = true) -> p y = false -> y ∈ update_where p f l <-> y ∈ l.
Proof.
  intros Hf Hy. unfold update_where. rewrite list_elem_of_fmap. split.
  - intros (x & -> & Hx). destruct (p x) eqn:Ex; [by rewrite Hf in Hy|done].
  - intros Hin. exists y. by rewrite Hy.
Qed.

(** [SELECT ... WHERE]. *)
Definition select_where {A} (p : A -> bool) (l : list A) : list A :=
  filter (fun x => p x = true) l.

(** [DELETE ... WHERE]. *)
Definition delete_where {A} (p : A -> bool) (l : list A) : list A :=
  filter (fun x => p x = false) l.

(** [Result.scalar_one_or_none()] and [Result.scalar_one()]. *)
Definition scalar_one_or_none {A} (l : list A) : result (option A) :=
  match l with
  | [] => Ok None
  | [x] => Ok (Some x)
  | _ => Raise MultipleResultsFound
  end.

Definition scalar_one {A} (l : list A) : result A :=
  match l with
  | [] => Raise NoResultFound
  | [x] => Ok x
  | _ => Raise MultipleResultsFound
  end.

(** ** Constraints *)

Inductive dialect := MySQL | SQLite.

#[export] Instance dialect_eq_dec : EqDecision dialect.
Proof. solve_decision. Defined.

(** The collation of MySQL (the one [compose.yaml] starts it with folds case and
    accents): the sort key by which it compares two strings. SQLite compares
    them as they are. *)
Class Collation := collation_key : pystr -> pystr.

Definition column_key `{Collation} (dia : dialect) (s : pystr) : pystr :=
  match dia with MySQL => collation_key s | SQLite => s end.

(** [column == value] in a WHERE. *)
Definition column_eq `{Collation} (dia : dialect) (a b : pystr) : bool :=
  bool_decide (column_key dia a = column_key dia b).

Lemma column_eq_refl `{Collation} dia a : column_eq dia a a = true.
Proof. by apply bool_decide_eq_true_2. Qed.

(** The same on a nullable column: [NULL] equals nothing. *)
Definition column_is `{Collation} (dia : dialect) (c : option pystr) (v : pystr) : bool :=
  match c with Some s => column_eq dia s v | None => false end.

Lemma column_is_Some `{Collation} dia c v :
  column_is dia c v = true <-> exists s, c = Some s /\ column_eq dia s v = true.
Proof. destruct c; naive_solver. Qed.

Definition distinct {A} `{EqDecision A} (l : list A) : bool := bool_decide (NoDup l).

(** [NULL]s never collide in a unique column. *)
Definition distinct_opt {A} `{EqDecision A} (l : list (option A)) : bool :=
  bool_decide (NoDup (omap id l)).

Definition refers (fk : pystr) (ids : list pystr) : bool := bool_decide (fk ∈ ids).

Definition keys_ok (d : database) : bool :=
  distinct (u_id <$> users d) && distinct_opt (u_email <$> users d)
  && distinct_opt (u_cf_sub <$> users d)
  && distinct (uc_id <$> credentials d)
  && distinct ((fun c => (uc_user_id c, uc_label c)) <$> credentials d)
  && distinct (st_id <$> tokens d) && distinct (st_lookup_id <$> tokens d)
  && distinct (st_token_hash <$> tokens d)
  && distinct (sr_id <$> rules d) && distinct (al_id <$> audits d)
  && distinct (sv_version <$> schema_versions d).

Definition foreign_keys_ok (d : database) : bool :=
  forallb (fun c => refers (uc_user_id c) (u_id <$> users d)) (credentials d)
  && forallb (fun t => refers (st_user_id t) (u_id <$> users d)
                && refers (st_upstream_credential_id t) (uc_id <$> credentials d)) (tokens d)
  && forallb (fun r => refers (sr_scoped_token_id r) (st_id <$> tokens d)) (rules d).

(** The unique columns whose values the collation folds. *)
Definition collated_keys_ok `{Collation} (d : database) : bool :=
  distinct_opt (fmap collation_key ∘ u_email <$> users d)
  && distinct_opt (fmap collation_key ∘ u_cf_sub <$> users d)
  && distinct ((fun c => (uc_user_id c, collation_key (uc_label c))) <$> credentials d).

Definition constraints_ok `{Collation} (dia : dialect) (d : database) : bool :=
  keys_ok d && match dia with MySQL => collated_keys_ok d && foreign_keys_ok d | SQLite => true end.

(** ** Selecting by a key *)

Lemma select_where_unique {A K} `{EqDecision K} (f : A -> K) (l : list A) (x : A) :
  NoDup (f <$> l) -> x ∈ l -> select_where (fun y => bool_decide (f y = f x)) l = [x].
Proof.
  unfold select_where. induction l as [|y l IH]; [by intros _ ?%elem_of_nil|].
  rewrite fmap_cons, NoDup_cons. intros [Hy Hnd] Hx. rewrite filter_cons.
  apply elem_of_cons in Hx as [->|Hx].
  - rewrite bool_decide_true, decide_True by done. f_equal.
    match goal with |- ?fl = [] => destruct fl as [|z zs] eqn:E; [done|exfalso] end.
    assert (Hz : z ∈ z :: zs) by left. rewrite <- E in Hz.
    apply list_elem_of_filter in Hz as [Heq%bool_decide_eq_true_1 Hz].
    apply Hy. rewrite <- Heq. by apply list_elem_of_fmap_2.
  - rewrite decide_False; [by apply IH|]. intros Heq%bool_decide_eq_true_1.
    apply Hy. rewrite Heq. by apply list_elem_of_fmap_2.
Qed.

Lemma keys_ok_tokens d :
  keys_ok d = true -> NoDup (st_id <$> tokens d) /\ NoDup (st_lookup_id <$> tokens d) /\
    NoDup (uc_id <$> credentials d).
Proof.
  unfold keys_ok, distinct. rewrite !andb_true_iff, !bool_decide_eq_true. intuition.
Qed.

Lemma keys_ok_users d :
  keys_ok d = true -> NoDup (u_id <$> users d) /\ NoDup (omap id (u_email <$> users d)).
Proof.
  unfold keys_ok, distinct, distinct_opt. rewrite !andb_true_iff, !bool_decide_eq_true. intuition.
Qed.

Lemma constraints_keys `{Collation} dia d : constraints_ok dia d = true -> keys_ok d = true.
Proof. unfold constraints_ok. by intros [? _]%andb_true_iff. Qed.

Lemma NoDup_fmap_inj {A K} (f : A -> K) (l : list A) x y :
  NoDup (f <$> l) -> x ∈ l -> y ∈ l -> f x = f y -> x = y.
Proof.
  induction l as [|z l IH]; [by intros _ ?%elem_of_nil|].
  rewrite fmap_cons, NoDup_cons, !elem_of_cons. intros [Hz Hnd] [->|Hx] [->|Hy] E; auto.
  - destruct Hz. rewrite E. by apply list_elem_of_fmap_2.
  - destruct Hz. rewrite <- E. by apply list_elem_of_fmap_2.
Qed.

Lemma scalar_one_or_none_Some {A} (p : A -> bool) l x :
  scalar_one_or_none (select_where p l) = Ok (Some x) -> x ∈ l /\ p x = true.
Proof.
  unfold select_where. destruct (filter _ l) as [|y [|]] eqn:E; try done. intros [= ->].
  assert (x ∈ filter (fun x => p x = true) l) as Hx by (rewrite E; left).
  by apply list_elem_of_filter in Hx as [? ?].
Qed.
