(* ===== verification/World.v ===== *)
(** * The world a request runs in

    The state the program reads and writes (database, session, Redis,
    upstream, in-process singletons, held locks, trace of outside actions), the
    environment it does not control (class [Env]), the state-and-exception
    monad [M] of every effectful function, and the weakest-precondition
    calculus used to reason about it. *)

From S2P Require Import Prelude PyStr Json Scope Models.

(** ** Settings ([config.py]) *)

Record Settings := {
  db_url : pystr;
  redis_url : pystr;
  proxy_secret_key : pystr;
  upstream_base_url : pystr;
  cf_oauth_issuer : pystr;
  cf_oauth_client_id : pystr;
  cf_oauth_client_secret : pystr;
  cf_oauth_redirect_uri : pystr;
  cf_oauth_base_scopes : pystr;
  cf_oauth_dns_scope : pystr;
  token_brand : pystr;
  jwt_secret : pystr;
  jwt_ttl_seconds : Z;
  oauth_state_ttl : Z;
  rules_cache_ttl : Z;
  access_token_skew : Z;
  web_concurrency : Z;
}.

(** The settings when the environment gives the three that have no default. *)
Definition settings_with (url key secret : pystr) : Settings := {|
  db_url := url;
  redis_url := u "redis://localhost:6379/0";
  proxy_secret_key := key;
  upstream_base_url := u "https://api.cloudflare.com";
  cf_oauth_issuer := u "https://dash.cloudflare.com";
  cf_oauth_client_id := [];
  cf_oauth_client_secret := [];
  cf_oauth_redirect_uri := [];
  cf_oauth_base_scopes := u "openid offline_access";
  cf_oauth_dns_scope := [];
  token_brand := u "cfsx";
  jwt_secret := secret;
  jwt_ttl_seconds := 86400;
  oauth_state_ttl := 600;
  rules_cache_ttl := 300;
  access_token_skew := 60;
  web_concurrency := 4;
|}.

Definition default_settings : Settings := settings_with [] [] [].

(** [Settings()]: one variable of the environment, or line of [.env], per
    field. How pydantic finds the text of a field and reads an integer out of
    it are arguments; [None] is its validation error. *)
Section loading.
Context (environ : pystr -> option pystr) (int_of_text : pystr -> option Z).

Definition text_setting (name default : pystr) : pystr := from_option id default (environ name).
Definition int_setting (name : pystr) (default : Z) : option Z :=
  match environ name with Some t => int_of_text t | None => Some default end.

Definition Settings_of_environ : option Settings :=
  url ← environ (u "db_url");
  key ← environ (u "proxy_secret_key");
  secret ← environ (u "jwt_secret");
  let defaults := settings_with url key secret in
  jwt_ttl ← int_setting (u "jwt_ttl_seconds") (jwt_ttl_seconds defaults);
  state_ttl ← int_setting (u "oauth_state_ttl") (oauth_state_ttl defaults);
  rules_ttl ← int_setting (u "rules_cache_ttl") (rules_cache_ttl defaults);
  skew ← int_setting (u "access_token_skew") (access_token_skew defaults);
  concurrency ← int_setting (u "web_concurrency") (web_concurrency defaults);
  Some {|
    db_url := url;
    redis_url := text_setting (u "redis_url") (redis_url defaults);
    proxy_secret_key := key;
    upstream_base_url := text_setting (u "upstream_base_url") (upstream_base_url defaults);
    cf_oauth_issuer := text_setting (u "cf_oauth_issuer") (cf_oauth_issuer defaults);
    cf_oauth_client_id := text_setting (u "cf_oauth_client_id") (cf_oauth_client_id defaults);
    cf_oauth_client_secret :=
      text_setting (u "cf_oauth_client_secret") (cf_oauth_client_secret defaults);
    cf_oauth_redirect_uri :=
      text_setting (u "cf_oauth_redirect_uri") (cf_oauth_redirect_uri defaults);
    cf_oauth_base_scopes :=
      text_setting (u "cf_oauth_base_scopes") (cf_oauth_base_scopes defaults);
    cf_oauth_dns_scope := text_setting (u "cf_oauth_dns_scope") (cf_oauth_dns_scope defaults);
    token_brand := text_setting (u "token_brand") (token_brand defaults);
    jwt_secret := secret;
    jwt_ttl_seconds := jwt_ttl;
    oauth_state_ttl := state_ttl;
    rules_cache_ttl := rules_ttl;
    access_token_skew := skew;
    web_concurrency := concurrency;
  |}.

(** The three secrets and addresses without a default are the only settings an
    operator has to give. *)
Lemma settings_required :
  (is_Some Settings_of_environ ->
   is_Some (environ (u "db_url")) /\ is_Some (environ (u "proxy_secret_key")) /\
   is_Some (environ (u "jwt_secret"))) /\
  (forall url key secret,
   (forall name, environ name =
      if bool_decide (name = u "db_url") then Some url
      else if bool_decide (name = u "proxy_secret_key") then Some key
      else if bool_decide (name = u "jwt_secret") then Some secret else None) ->
   Settings_of_environ = Some (settings_with url key secret)).
Proof.
  split.
  - unfold Settings_of_environ. intros [s Hs].
    destruct (environ (u "db_url")), (environ (u "proxy_secret_key")), (environ (u "jwt_secret"));
      naive_solver.
  - intros url key secret He. unfold Settings_of_environ, text_setting, int_setting.
    by rewrite !He.
Qed.
End loading.

(** ** HTTP *)

Record http_request := HttpRequest {
  hq_method : pystr;
  hq_url : pystr;
  hq_headers : list (pystr * pystr);
  hq_params : option (list (pystr * json));
  hq_content : option (list N);
  hq_data : option (list (pystr * pystr));
}.

(** [hs_json] is the parsed body, [None] when it is not JSON. *)
Record http_response := HttpResponse { hs_status : Z; hs_json : option json }.

(** ** Environment

    What the program calls but does not define, as functions of the number of
    outside actions performed so far (the tick): the clock, failures of Redis
    and of the database, the outcome of a lock request, randomness; the
    Cloudflare side as a state machine of its own, [None] when the exchange
    fails ([httpx.HTTPError]); the Fernet cipher; and the
    time zone the database driver attaches to a loaded [DateTime] column. *)
Class Env := {
  #[global] env_unicode :: Unicode;
  env_dialect : dialect;
  #[global] env_collation :: Collation;
  env_settings : Settings;
  cf_state : Type;
  cf_request : http_request -> cf_state -> option http_response * cf_state;
  clock : nat -> Z;
  monotonic : nat -> Z;
  redis_down : nat -> bool;
  db_down : nat -> bool;
  lock_granted : nat -> pystr -> bool;
  random_index : nat -> N -> N;
  random_bytes : nat -> nat -> list N;
  new_uuid : nat -> pystr;
  fernet_encrypt : nat -> pystr -> pystr;
  fernet_decrypt : pystr -> option pystr;
  column_tz : option Z;
}.

(** A cached value, [None] when the stored bytes are not JSON, and the time it
    expires, in microseconds. *)
Record redis_entry := RedisEntry { re_value : option json; re_expires : option Z }.

(** Actions seen from outside. *)
Inductive event :=
| EvHttp (req : http_request) (res : result http_response)
| EvLock (name : pystr)
| EvUnlock (name : pystr).

Section world.
Context `{Env}.

Record world := World {
  w_tick : nat;
  (** committed tables, and the tables as the open session sees them *)
  w_db : database;
  w_sess : database;
  w_redis : gmap pystr redis_entry;
  w_cf : cf_state;
  (** the [_cf_client] singleton: the base URL it was opened with *)
  w_client : option pystr;
  (** [_jwks_cache] and [_jwks_cache_fetched_at] of the OAuth client *)
  w_jwks : json * Z;
  w_locks : list pystr;
  w_trace : list event;
  (** the committed tables after each commit, in order; nothing reads them *)
  w_commits : list database;
}.

Definition M (A : Type) : Type := world -> result A * world.
End world.
Arguments world {_}.
Arguments M {_} A.
Arguments World {_}.

(** ** The monad *)

Section monad.
Context `{Env}.

#[export] Instance M_ret : MRet M := fun A a w => (Ok a, w).

#[export] Instance M_bind : MBind M := fun A B f m w =>
  match m w with
  | (Ok a, w') => f a w'
  | (Raise e, w') => (Raise e, w')
  end.

#[export] Instance M_fmap : FMap M := fun A B f m w =>
  match m w with
  | (Ok a, w') => (Ok (f a), w')
  | (Raise e, w') => (Raise e, w')
  end.

Definition raise {A} (e : exn) : M A := fun w => (Raise e, w).
Definition lift {A} (r : result A) : M A := fun w => (r, w).
Definition gets {A} (f : world -> A) : M A := fun w => (Ok (f w), w).
Definition modify (f : world -> world) : M unit := fun w => (Ok tt, f w).

(** [try: m except <p>: h]. *)
Definition try_except {A} (m : M A) (p : exn -> bool) (h : exn -> M A) : M A := fun w =>
  match m w with
  | (Raise e, w') => if p e then h e w' else (Raise e, w')
  | r => r
  end.

(** [try: m finally: f]: an exception of [f] replaces the outcome. *)
Definition try_finally {A} (m : M A) (f : M unit) : M A := fun w =>
  let '(r, w') := m w in
  match f w' with
  | (Ok _, w'') => (r, w'')
  | (Raise e, w'') => (Raise e, w'')
  end.

(** [for x in l: ...]. *)
Fixpoint for_each {A} (l : list A) (f : A -> M unit) : M unit :=
  match l with
  | [] => mret tt
  | x :: l' => f x ≫= fun _ => for_each l' f
  end.

Definition set_tick (f : nat -> nat) (w : world) : world :=
  World (f (w_tick w)) (w_db w) (w_sess w) (w_redis w) (w_cf w) (w_client w) (w_jwks w) (w_locks w) (w_trace w) (w_commits w).
Definition set_db (d : database) (w : world) : world :=
  World (w_tick w) d (w_sess w) (w_redis w) (w_cf w) (w_client w) (w_jwks w) (w_locks w) (w_trace w)
    (w_commits w ++ [d]).
Definition set_sess (f : database -> database) (w : world) : world :=
  World (w_tick w) (w_db w) (f (w_sess w)) (w_redis w) (w_cf w) (w_client w) (w_jwks w) (w_locks w) (w_trace w) (w_commits w).
Definition set_redis (f : gmap pystr redis_entry -> gmap pystr redis_entry) (w : world) : world :=
  World (w_tick w) (w_db w) (w_sess w) (f (w_redis w)) (w_cf w) (w_client w) (w_jwks w) (w_locks w) (w_trace w) (w_commits w).
Definition set_cf (c : cf_state) (w : world) : world :=
  World (w_tick w) (w_db w) (w_sess w) (w_redis w) c (w_client w) (w_jwks w) (w_locks w) (w_trace w) (w_commits w).
Definition set_client (c : option pystr) (w : world) : world :=
  World (w_tick w) (w_db w) (w_sess w) (w_redis w) (w_cf w) c (w_jwks w) (w_locks w) (w_trace w) (w_commits w).
Definition set_jwks (j : json * Z) (w : world) : world :=
  World (w_tick w) (w_db w) (w_sess w) (w_redis w) (w_cf w) (w_client w) j (w_locks w) (w_trace w) (w_commits w).
Definition set_locks (f : list pystr -> list pystr) (w : world) : world :=
  World (w_tick w) (w_db w) (w_sess w) (w_redis w) (w_cf w) (w_client w) (w_jwks w) (f (w_locks w)) (w_trace w) (w_commits w).
Definition emit (e : event) (w : world) : world :=
  World (w_tick w) (w_db w) (w_sess w) (w_redis w) (w_cf w) (w_client w) (w_jwks w) (w_locks w) (w_trace w ++ [e]) (w_commits w).

(** One more outside action: its number. *)
Definition tick : M nat := fun w => (Ok (w_tick w), set_tick S w).

(** [datetime.now(UTC)]. *)
Definition now : M datetime := t ← tick; mret (DT (clock t) (Some 0%Z)).

(** A [DateTime] column read back from the database. *)
Definition load_datetime (z : Z) : datetime := DT z column_tz.

(** ** The database session *)

(** A statement: it fails when the database does. *)
Definition db_query {A} (f : database -> A) : M A :=
  t ← tick;
  if db_down t then raise OperationalError else gets (fun w => f (w_sess w)).

(** [session.execute] of an UPDATE: sent at once, visible to the session. *)
Definition db_execute (f : database -> database) : M unit :=
  t ← tick;
  if db_down t then raise OperationalError else modify (set_sess f).

(** [session.add], attribute assignment on a loaded row, [session.delete]:
    pending until a flush. *)
Definition sess_modify (f : database -> database) : M unit := modify (set_sess f).

(** The session is rolled back to the committed tables. *)
Definition rollback : M unit := modify (fun w => set_sess (fun _ => w_db w) w).

(** A new session ([get_session], [Sessionmaker()]): it sees the committed
    tables. *)
Definition open_session : M unit := rollback.

(** [session.flush()]: the pending rows are sent and checked. *)
Definition flush : M unit :=
  t ← tick;
  if db_down t then rollback ≫= fun _ => raise OperationalError
  else
    ok ← gets (fun w => constraints_ok env_dialect (w_sess w));
    if (ok : bool) then mret tt
    else rollback ≫= fun _ => raise IntegrityError.

(** [session.commit()]. *)
Definition commit : M unit :=
  flush ≫= fun _ => modify (fun w => set_db (w_sess w) w).

(** ** HTTP *)

Definition http (req : http_request) : M http_response := fun w =>
  let '(answer, c) := cf_request req (w_cf w) in
  let res := match answer with Some r => Ok r | None => Raise TransportError end in
  (res, emit (EvHttp req res) (set_cf c (set_tick S w))).

(** [response.json()]. *)
Definition response_json (r : http_response) : result json :=
  match hs_json r with Some j => Ok j | None => Raise JSONDecodeError end.

(** [response.raise_for_status()]: httpx raises unless the status is 2xx. *)
Definition raise_for_status (r : http_response) : result unit :=
  if (200 <=? hs_status r)%Z && (hs_status r <=? 299)%Z then Ok tt
  else Raise (HTTPStatusError (hs_status r)).

Lemma raise_for_status_Ok r a : raise_for_status r = Ok a -> (200 <= hs_status r <= 299)%Z.
Proof.
  unfold raise_for_status. destruct (_ && _) eqn:E; [|done].
  apply andb_true_iff in E as [?%Z.leb_le ?%Z.leb_le]. by split.
Qed.
End monad.

(** ** Weakest preconditions *)

Section wp.
Context `{Env}.

Definition wp {A} (m : M A) (Q : result A -> world -> Prop) (w : world) : Prop :=
  Q (m w).1 (m w).2.

(** The continuation of a bind, as a postcondition. *)
Definition on_ok {A B} (f : A -> M B) (Q : result B -> world -> Prop)
    (r : result A) (w : world) : Prop :=
  match r with Ok a => wp (f a) Q w | Raise e => Q (Raise e) w end.

Lemma wp_ret {A} (a : A) Q w : wp (mret a) Q w <-> Q (Ok a) w.
Proof. done. Qed.

Lemma wp_bind {A B} (m : M A) (f : A -> M B) Q w :
  wp (m ≫= f) Q w <-> wp m (on_ok f Q) w.
Proof. unfold wp, mbind, M_bind, on_ok. by destruct (m w) as [[]]. Qed.

Lemma wp_mono {A} (m : M A) (Q Q' : result A -> world -> Prop) w :
  wp m Q w -> (forall r w', Q r w' -> Q' r w') -> wp m Q' w.
Proof. unfold wp. auto. Qed.

Lemma wp_raise {A} e (Q : result A -> world -> Prop) w : wp (raise e) Q w <-> Q (Raise e) w.
Proof. done. Qed.

Lemma wp_lift {A} (r : result A) Q w : wp (lift r) Q w <-> Q r w.
Proof. done. Qed.

Lemma wp_gets {A} (f : world -> A) Q w : wp (gets f) Q w <-> Q (Ok (f w)) w.
Proof. done. Qed.

Lemma wp_modify f Q w : wp (modify f) Q w <-> Q (Ok tt) (f w).
Proof. done. Qed.

Lemma wp_try {A} (m : M A) p h Q w :
  wp (try_except m p h) Q w <->
  wp m (fun r w' => match r with
                    | Raise e => if p e then wp (h e) Q w' else Q (Raise e) w'
                    | Ok a => Q (Ok a) w'
                    end) w.
Proof. unfold wp, try_except. destruct (m w) as [[] ?]; simpl; [done|]. by case_if. Qed.

Lemma wp_finally {A} (m : M A) f Q w :
  wp (try_finally m f) Q w <->
  wp m (fun r w' => wp f (fun r' w'' =>
    match r' with Ok _ => Q r w'' | Raise e => Q (Raise e) w'' end) w') w.
Proof. unfold wp, try_finally. destruct (m w) as [r w']; simpl. by destruct (f w') as [[] ?]. Qed.

(** What a run returns is what its weakest precondition says. *)
Lemma wp_run {A} (m : M A) Q w r w' : wp m Q w -> m w = (r, w') -> Q r w'.
Proof. unfold wp. by intros HQ E; rewrite E in HQ. Qed.
End wp.

(** ** Relations kept by a computation

    [Keeps R m]: whatever the world and whatever the outcome, an exception
    included, the worlds before and after [m] are related by [R]. For a
    preorder [R] it composes along the control structures. *)
Section keeps.
Context `{Env}.

Definition Keeps (R : relation world) {A} (m : M A) : Prop := forall w, R w (m w).2.

Context (R : relation world) `{!PreOrder R}.

Lemma keeps_ret {A} (a : A) : Keeps R (mret a).
Proof. by intros w. Qed.
Lemma keeps_raise {A} e : Keeps R (raise (A:=A) e).
Proof. by intros w. Qed.
Lemma keeps_lift {A} (r : result A) : Keeps R (lift r).
Proof. by intros w. Qed.
Lemma keeps_gets {A} (f : world -> A) : Keeps R (gets f).
Proof. by intros w. Qed.
Lemma keeps_bind {A B} (m : M A) (f : A -> M B) :
  Keeps R m -> (forall a, Keeps R (f a)) -> Keeps R (m ≫= f).
Proof.
  intros Hm Hf w. specialize (Hm w). unfold mbind, M_bind.
  destruct (m w) as [[a|e] w']; [|done]. by etrans; [exact Hm | apply Hf].
Qed.
Lemma keeps_fmap {A B} (m : M A) (f : A -> B) : Keeps R m -> Keeps R (f <$> m).
Proof. intros Hm w. specialize (Hm w). unfold fmap, M_fmap. by destruct (m w) as [[] ?]. Qed.
Lemma keeps_try {A} (m : M A) p h :
  Keeps R m -> (forall e, Keeps R (h e)) -> Keeps R (try_except m p h).
Proof.
  intros Hm Hh w. specialize (Hm w). unfold try_except.
  destruct (m w) as [[a|e] w']; [done|]. case_if; [|done].
  by etrans; [exact Hm | apply Hh].
Qed.
Lemma keeps_finally {A} (m : M A) f : Keeps R m -> Keeps R f -> Keeps R (try_finally m f).
Proof.
  intros Hm Hf w. specialize (Hm w). unfold try_finally.
  destruct (m w) as [r w']. specialize (Hf w').
  destruct (f w') as [[] w'']; simpl in *; by etrans.
Qed.
Lemma keeps_for_each {A} (l : list A) f :
  (forall x, x ∈ l -> Keeps R (f x)) -> Keeps R (for_each l f).
Proof.
  induction l as [|x l IH]; simpl; [intros; apply keeps_ret|].
  intros Hf. apply keeps_bind; [apply Hf; left|]. intros _.
  apply IH. intros y Hy. apply Hf. by right.
Qed.
Lemma keeps_modify f : (forall w, R w (f w)) -> Keeps R (modify f).
Proof. intros Hf w. apply Hf. Qed.

Lemma keeps_wp {A} (m : M A) w : Keeps R m -> wp m (fun _ w' => R w w') w.
Proof. intros Hm. apply Hm. Qed.

Lemma keeps_wp_and {A} (m : M A) Q w :
  Keeps R m -> wp m Q w -> wp m (fun r w' => R w w' /\ Q r w') w.
Proof. intros Hm HQ. by split; [apply Hm|]. Qed.
End keeps.

Create HintDb keeps.
#[export] Hint Resolve keeps_ret keeps_raise keeps_lift keeps_gets keeps_fmap : keeps.

(** Proves [Keeps R m] along the structure of [m]: the control structures by
    the lemmas above, a named computation by a hint of the database [keeps],
    an atomic update by showing that it is in [R]. *)
Ltac keeps_step :=
  lazymatch goal with
  | |- forall _, _ => intros ?
  | |- Keeps _ (mbind _ _) => apply keeps_bind
  | |- Keeps _ (fmap _ _) => apply keeps_fmap
  | |- Keeps _ (mret _) => apply keeps_ret
  | |- Keeps _ (raise _) => apply keeps_raise
  | |- Keeps _ (lift _) => apply keeps_lift
  | |- Keeps _ (gets _) => apply keeps_gets
  | |- Keeps _ (try_except _ _ _) => apply keeps_try
  | |- Keeps _ (try_finally _ _) => apply keeps_finally
  | |- Keeps _ (for_each _ _) => apply keeps_for_each
  | |- Keeps _ (match ?x with _ => _ end) => destruct x
  | |- Keeps _ (let _ := _ in _) => cbv zeta
  end.

Ltac solve_keeps :=
  repeat first [ solve [eauto with keeps typeclass_instances nocore] | keeps_step ].

(** ** What a computation emits

    [Emits m Q]: from every world, [m] only appends to the trace, and the
    appended events [l] and the outcome [r] satisfy [Q l r]. *)
Section emits.
Context `{Env}.

Definition Emits {A} (m : M A) (Q : list event -> result A -> Prop) : Prop :=
  forall w, exists l, w_trace (m w).2 = w_trace w ++ l /\ Q l (m w).1.

Lemma emits_mono {A} (m : M A) (P Q : list event -> result A -> Prop) :
  Emits m P -> (forall l r, P l r -> Q l r) -> Emits m Q.
Proof. intros Hm HPQ w. destruct (Hm w) as (l & ? & ?). eauto. Qed.

Lemma emits_ext {A} (m m' : M A) Q : (forall w, m w = m' w) -> Emits m' Q -> Emits m Q.
Proof. intros E Hm w. rewrite E. apply Hm. Qed.

(** A computation that leaves the trace alone. *)
Lemma emits_silent {A} (m : M A) Q :
  (forall w, w_trace (m w).2 = w_trace w /\ Q [] (m w).1) -> Emits m Q.
Proof. intros Hm w. destruct (Hm w) as [E HQ]. exists []. by rewrite app_nil_r. Qed.

Lemma emits_bind {A B} (m : M A) (f : A -> M B) P Q :
  Emits m P ->
  (forall l e, P l (Raise e) -> Q l (Raise e)) ->
  (forall a l, P l (Ok a) -> Emits (f a) (fun l' r => Q (l ++ l') r)) ->
  Emits (m ≫= f) Q.
Proof.
  intros Hm He Hf w. destruct (Hm w) as (l & E & HP). unfold mbind, M_bind.
  destruct (m w) as [[a|e] w1]; simpl in *; [|by exists l; auto].
  destruct (Hf a l HP w1) as (l' & E' & HQ). exists (l ++ l').
  by rewrite E', E, <- app_assoc.
Qed.

Lemma emits_fmap {A B} (m : M A) (f : A -> B) (P : list event -> result A -> Prop)
    (Q : list event -> result B -> Prop) :
  Emits m P ->
  (forall l e, P l (Raise e) -> Q l (Raise e)) ->
  (forall a l, P l (Ok a) -> Q l (Ok (f a))) ->
  Emits (f <$> m) Q.
Proof.
  intros Hm He Hf w. destruct (Hm w) as (l & E & HP). unfold fmap, M_fmap.
  destruct (m w) as [[a|e] w1]; simpl in *; exists l; auto.
Qed.

Lemma emits_try {A} (m : M A) p h P Q :
  Emits m P ->
  (forall l a, P l (Ok a) -> Q l (Ok a)) ->
  (forall l e, P l (Raise e) -> p e = false -> Q l (Raise e)) ->
  (forall l e, P l (Raise e) -> p e = true -> Emits (h e) (fun l' r => Q (l ++ l') r)) ->
  Emits (try_except m p h) Q.
Proof.
  intros Hm Ha He Hh w. destruct (Hm w) as (l & E & HP). unfold try_except.
  destruct (m w) as [[a|e] w1]; simpl in *; [by exists l; auto|].
  destruct (p e) eqn:Hp; simpl; [|by exists l; auto].
  destruct (Hh l e HP Hp w1) as (l' & E' & HQ). exists (l ++ l').
  by rewrite E', E, <- app_assoc.
Qed.

Lemma emits_finally {A} (m : M A) f P (Q : list event -> result A -> Prop) :
  Emits m P ->
  (forall l r, P l r -> Emits f (fun l' r' =>
    match r' with Ok _ => Q (l ++ l') r | Raise e => Q (l ++ l') (Raise e) end)) ->
  Emits (try_finally m f) Q.
Proof.
  intros Hm Hf w. destruct (Hm w) as (l & E & HP). unfold try_finally.
  destruct (m w) as [r w1]; simpl in *.
  destruct (Hf l r HP w1) as (l' & E' & HQ).
  destruct (f w1) as [[] w2]; simpl in *; exists (l ++ l'); by rewrite E', E, <- app_assoc.
Qed.

Lemma emits_ret {A} (a : A) (Q : list event -> result A -> Prop) : Q [] (Ok a) -> Emits (mret a) Q.
Proof. intros HQ. by apply emits_silent. Qed.
Lemma emits_raise {A} e (Q : list event -> result A -> Prop) : Q [] (Raise e) -> Emits (raise e) Q.
Proof. intros HQ. by apply emits_silent. Qed.
Lemma emits_lift {A} (r : result A) (Q : list event -> result A -> Prop) : Q [] r -> Emits (lift r) Q.
Proof. intros HQ. by apply emits_silent. Qed.

Lemma emits_lift_bind {A B} (r : result A) (f : A -> M B) (Q : list event -> result B -> Prop) :
  (forall e, r = Raise e -> Q [] (Raise e)) -> (forall a, r = Ok a -> Emits (f a) Q) ->
  Emits (lift r ≫= f) Q.
Proof.
  intros He Hf w. destruct r as [a|e]; [by apply Hf|]. exists []. rewrite app_nil_r. split; [done|by apply He].
Qed.

(** Upstream may answer [r] to [rq]. *)
Definition answered (rq : http_request) (r : http_response) : Prop :=
  exists s, (cf_request rq s).1 = Some r.

Lemma emits_http rq (Q : list event -> result http_response -> Prop) :
  (forall r, answered rq r -> Q [EvHttp rq (Ok r)] (Ok r)) ->
  Q [EvHttp rq (Raise TransportError)] (Raise TransportError) ->
  Emits (http rq) Q.
Proof.
  intros Hok Hno w. unfold http. destruct (cf_request rq (w_cf w)) as [[r|] c] eqn:E; simpl.
  - eexists. split; [done|]. apply Hok. exists (w_cf w). by rewrite E.
  - by eexists.
Qed.

(** A computation whose events and exceptions stay within two classes. *)
Definition Within (E : event -> Prop) (X : exn -> Prop) {A} (m : M A) : Prop :=
  Emits m (fun l r => Forall E l /\ forall e, r = Raise e -> X e).

Context (E : event -> Prop) (X : exn -> Prop).

Lemma within_ret {A} (a : A) : Within E X (mret a).
Proof. by apply emits_ret. Qed.
Lemma within_raise {A} e : X e -> Within E X (raise (A:=A) e).
Proof. intros HX. apply emits_raise. split; [done|]. by intros ? [= <-]. Qed.
Lemma within_lift {A} (r : result A) : (forall e, r = Raise e -> X e) -> Within E X (lift r).
Proof. intros HX. by apply emits_lift. Qed.
Lemma within_gets {A} (f : world -> A) : Within E X (gets f).
Proof. by apply emits_silent. Qed.
Lemma within_modify f : (forall w, w_trace (f w) = w_trace w) -> Within E X (modify f).
Proof. intros Hf. apply emits_silent. intros w. split; [apply Hf|done]. Qed.
Lemma within_tick : Within E X tick.
Proof. by apply emits_silent. Qed.

Lemma within_bind {A B} (m : M A) (f : A -> M B) :
  Within E X m -> (forall a, Within E X (f a)) -> Within E X (m ≫= f).
Proof.
  intros Hm Hf. eapply emits_bind; [exact Hm| |].
  - intros l e [Hl He]. split; [done|]. intros e' [= ->]. by apply He.
  - intros a l [Hl _]. eapply emits_mono; [apply Hf|].
    intros l' r [Hl' Hr]. split; [by apply Forall_app|done].
Qed.
Lemma within_fmap {A B} (m : M A) (f : A -> B) : Within E X m -> Within E X (f <$> m).
Proof.
  intros Hm. eapply emits_fmap; [exact Hm| |]; intros ? l [Hl He]; (split; [done|]).
  - intros e' [= ->]. by apply He.
  - done.
Qed.
Lemma within_finally {A} (m : M A) f :
  Within E X m -> Within E X f -> Within E X (try_finally m f).
Proof.
  intros Hm Hf. eapply emits_finally; [exact Hm|].
  intros l r [Hl Hr]. eapply emits_mono; [exact Hf|].
  intros l' [] [Hl' Hr']; (split; [by apply Forall_app|]); [done|].
  intros e' [= ->]. by apply Hr'.
Qed.
Lemma within_for_each {A} (l : list A) f :
  (forall x, x ∈ l -> Within E X (f x)) -> Within E X (for_each l f).
Proof.
  induction l as [|x l IH]; simpl; [intros; apply within_ret|].
  intros Hf. apply within_bind; [apply Hf; left|]. intros _.
  apply IH. intros y Hy. apply Hf. by right.
Qed.
End emits.

Lemma within_mono `{Env} (E E' : event -> Prop) (X X' : exn -> Prop) {A} (m : M A) :
  Within E X m -> (forall e, E e -> E' e) -> (forall e, X e -> X' e) -> Within E' X' m.
Proof.
  intros Hm HE HX. eapply emits_mono; [exact Hm|]. intros l r [Hl Hr].
  split; [by eapply Forall_impl | eauto].
Qed.

(** [except Exception] over a computation that does not run out of fuel. *)
Lemma within_try `{Env} (E : event -> Prop) (X Y : exn -> Prop) {A} (m : M A) p h :
  Within E Y m -> (forall e, Y e -> p e = false -> X e) ->
  (forall e, Y e -> p e = true -> Within E X (h e)) -> Within E X (try_except m p h).
Proof.
  intros Hm He Hh. eapply emits_try; [exact Hm| | |].
  - by intros l a [Hl _].
  - intros l e [Hl HY] Hp. split; [done|]. intros e' [= <-]. eauto.
  - intros l e [Hl HY] Hp. eapply emits_mono; [apply Hh; eauto|].
    intros l' r [? ?]. by split; [apply Forall_app|].
Qed.

Definition any_exn (_ : exn) : Prop := True.
Definition python_exn (e : exn) : Prop := is_Exception e = true.
(** Anything but a refused lock and a cut-off loop. *)
Definition plain_exn (e : exn) : Prop := is_Exception e && negb (is_LockUnavailable e) = true.

Lemma within_any `{Env} E {A} (m : M A) : Within E python_exn m -> Within E any_exn m.
Proof. intros Hm. by eapply within_mono. Qed.

Lemma py_getitem_raises j k e : py_getitem j k = Raise e -> plain_exn e.
Proof. by intros [->| ->]%py_getitem_cases. Qed.

(** No event at all. *)
Definition no_event (_ : event) : Prop := False.

(** A request that changes no zone: a GET, or a POST of form data to the token
    endpoint. *)
Definition read_only_request (rq : http_request) : Prop :=
  hq_method rq = u "GET" \/ hq_method rq = u "POST" /\ is_Some (hq_data rq).
Definition read_only_event (e : event) : Prop :=
  match e with EvHttp rq _ => read_only_request rq | _ => False end.

(** Any other request may change a zone. *)
Definition write_event (e : event) : Prop :=
  match e with EvHttp rq _ => ~ read_only_request rq | _ => False end.
Definition quiet (l : list event) : Prop := Forall (fun e => ~ write_event e) l.

Lemma read_only_quiet l : Forall read_only_event l -> quiet l.
Proof. intros Hl. eapply Forall_impl; [exact Hl|]. by intros [] ? ?. Qed.

Create HintDb within.
#[export] Hint Resolve within_ret within_gets within_tick : within.
#[export] Hint Resolve within_any | 5 : within.

Ltac within_step :=
  lazymatch goal with
  | |- forall _, _ => intros ?
  | |- Within _ _ (mbind _ _) => apply within_bind
  | |- Within _ _ (fmap _ _) => apply within_fmap
  | |- Within _ _ (mret _) => apply within_ret
  | |- Within _ _ (raise _) => apply within_raise; try done
  | |- Within _ _ (lift _) => apply within_lift
  | |- Within _ _ (gets _) => apply within_gets
  | |- Within _ _ (modify _) => apply within_modify; [done]
  | |- Within _ _ (try_finally _ _) => apply within_finally
  | |- Within _ _ (for_each _ _) => apply within_for_each
  | |- Within _ _ (match ?x with _ => _ end) => destruct x
  | |- Within _ _ (let _ := _ in _) => cbv zeta
  | |- any_exn _ => exact I
  end.

Ltac solve_within := repeat first [ solve [eauto with within nocore] | within_step ].

Section world_within.
Context `{Env}.
Implicit Types E : event -> Prop.

Lemma within_now E X : Within E X now.
Proof. unfold now. solve_within. Qed.
Lemma within_db_query {A} (f : database -> A) E : Within E python_exn (db_query f).
Proof. unfold db_query. solve_within. Qed.
Lemma within_db_execute f E : Within E python_exn (db_execute f).
Proof. unfold db_execute. solve_within. Qed.
Lemma within_sess_modify f E X : Within E X (sess_modify f).
Proof. unfold sess_modify. solve_within. Qed.
Lemma within_rollback E X : Within E X rollback.
Proof. unfold rollback. solve_within. Qed.
Hint Resolve within_rollback : within.
Lemma within_flush E : Within E python_exn flush.
Proof. unfold flush. solve_within. Qed.
Hint Resolve within_flush : within.
Lemma within_commit E : Within E python_exn commit.
Proof. unfold commit. solve_within. Qed.
End world_within.
#[export] Hint Resolve within_now within_db_query within_db_execute within_sess_modify
  within_rollback within_flush within_commit : within.

(** ** Frames *)

Section frames.
Context `{Env}.

(** The database, committed and in the session, is left as it is. *)
Definition same_db (w w' : world) : Prop :=
  w_db w' = w_db w /\ w_sess w' = w_sess w /\ w_commits w' = w_commits w.
(** The committed database and the cache are left as they are. *)
Definition same_store (w w' : world) : Prop := w_db w' = w_db w /\ w_redis w' = w_redis w.

#[export] Instance same_db_preorder : PreOrder same_db.
Proof. split; [done|]. intros w1 w2 w3 (? & ? & ?) (? & ? & ?). split_and!; by etrans. Qed.
#[export] Instance same_store_preorder : PreOrder same_store.
Proof. split; [by split|]. intros w1 w2 w3 [] []. split; by etrans. Qed.

Lemma keeps_tick_db : Keeps same_db tick.
Proof. by intros w. Qed.
Lemma keeps_http_db rq : Keeps same_db (http rq).
Proof. intros w. unfold http. by destruct (cf_request rq (w_cf w)). Qed.
Hint Resolve keeps_tick_db : keeps.
Lemma keeps_now_db : Keeps same_db now.
Proof. unfold now. solve_keeps. Qed.
Lemma keeps_db_query_db {A} (f : database -> A) : Keeps same_db (db_query f).
Proof. unfold db_query. solve_keeps. Qed.

(** Time does not run backwards. *)
Definition later (w w' : world) : Prop := w_tick w <= w_tick w'.
#[export] Instance later_preorder : PreOrder later.
Proof. unfold later. split; [by intros w|]. intros w1 w2 w3. lia. Qed.

(** *** The key set of the login issuer *)

(** The GET of the key set ([fetch_jwks]). *)
Definition jwks_request : http_request :=
  HttpRequest (u "GET") (cf_oauth_issuer env_settings ++ u "/.well-known/jwks.json") [] None None None.

(** Some of the events [l] is a success that answers [j] to [rq]. *)
Definition answered_in (l : list event) (rq : http_request) (j : json) : Prop :=
  exists r, EvHttp rq (Ok r) ∈ l /\ (200 <= hs_status r <= 299)%Z /\ hs_json r = Some j.

(** At some point up to [w]; between [w] and [w']. *)
Definition answered_to (w : world) : http_request -> json -> Prop := answered_in (w_trace w).
Definition answered_since (w w' : world) : http_request -> json -> Prop :=
  answered_in (drop (length (w_trace w)) (w_trace w')).

(** What [_jwks_cache] holds was answered by the issuer at the recorded time. *)
Definition jwks_fetched (w : world) : Prop :=
  (w_jwks w).1 = JNull \/
  exists t, t < w_tick w /\ (w_jwks w).2 = monotonic t /\ answered_to w jwks_request (w_jwks w).1.

(** Time passes, the trace grows, and the cached key set is still the issuer's. *)
Definition jwks_kept (w w' : world) : Prop :=
  w_tick w <= w_tick w' /\ w_trace w `prefix_of` w_trace w' /\ (jwks_fetched w -> jwks_fetched w').

#[export] Instance jwks_kept_preorder : PreOrder jwks_kept.
Proof.
  split; [by intros w; split_and!|].
  intros w1 w2 w3 (T1 & P1 & F1) (T2 & P2 & F2). split_and!; [lia|by etrans|auto].
Qed.

Lemma answered_incl l l' rq j : l ⊆ l' -> answered_in l rq j -> answered_in l' rq j.
Proof. intros Hl (r & Hin & Hr). exists r. split; [by apply Hl|done]. Qed.
Lemma answered_mono w w' rq j : w_trace w `prefix_of` w_trace w' -> answered_to w rq j -> answered_to w' rq j.
Proof. intros [l E]. apply answered_incl. rewrite E. intros e ?. by apply elem_of_app; left. Qed.
Lemma answered_since_to w w' rq j : answered_since w w' rq j -> answered_to w' rq j.
Proof. apply answered_incl, subseteq_drop. Qed.
Lemma answered_since_mono w w1 w' rq j :
  w_trace w `prefix_of` w_trace w1 -> answered_since w1 w' rq j -> answered_since w w' rq j.
Proof.
  intros [l E]. apply answered_incl. rewrite E, length_app, <- drop_drop. apply subseteq_drop.
Qed.

Lemma jwks_kept_same w w' :
  w_jwks w' = w_jwks w -> w_tick w <= w_tick w' -> w_trace w `prefix_of` w_trace w' -> jwks_kept w w'.
Proof.
  intros Ej Ht Hp. split_and!; [done..|]. unfold jwks_fetched. rewrite Ej.
  intros [Hn|(t & Hlt & Hm & Ha)]; [by left|right]. exists t. split_and!; [lia|done|by eapply answered_mono].
Qed.

Lemma jwks_kept_modify f :
  (forall w, w_jwks (f w) = w_jwks w /\ w_tick (f w) = w_tick w /\ w_trace (f w) = w_trace w) ->
  Keeps jwks_kept (modify f).
Proof. intros Hf w. destruct (Hf w) as (Ej & Et & Er). apply jwks_kept_same; [done|simpl; lia|simpl; by rewrite Er]. Qed.
Lemma jwks_kept_tick : Keeps jwks_kept tick.
Proof. intros w. apply jwks_kept_same; [done|simpl; lia|done]. Qed.
Lemma jwks_kept_http rq : Keeps jwks_kept (http rq).
Proof.
  intros w. unfold http. destruct (cf_request rq (w_cf w)).
  apply jwks_kept_same; [done|simpl; lia|simpl; by apply prefix_app_r].
Qed.
Hint Resolve jwks_kept_tick : keeps.
Lemma jwks_kept_db_query {A} (f : database -> A) : Keeps jwks_kept (db_query f).
Proof. unfold db_query. solve_keeps. Qed.
End frames.
#[export] Hint Resolve jwks_kept_tick jwks_kept_http jwks_kept_db_query : keeps.
#[export] Hint Extern 3 (Keeps jwks_kept (modify _)) => by apply jwks_kept_modify : keeps.
#[export] Hint Resolve keeps_tick_db keeps_http_db keeps_now_db keeps_db_query_db : keeps.

(** ** Inverting a run *)

Section runs.
Context `{Env}.

Lemma M_bind_Ok {A B} (m : M A) (f : A -> M B) w b w' :
  (m ≫= f) w = (Ok b, w') <-> exists a w1, m w = (Ok a, w1) /\ f a w1 = (Ok b, w').
Proof.
  unfold mbind, M_bind. destruct (m w) as [[a|e] w1].
  - split; [by eauto|]. by intros (? & ? & [= <- <-] & ?).
  - split; [done|]. by intros (? & ? & [=] & _).
Qed.

Lemma lift_Ok {A} (r : result A) w a w' : lift r w = (Ok a, w') <-> r = Ok a /\ w' = w.
Proof. unfold lift. split; [by intros [= -> ->] | by intros [-> ->]]. Qed.

Lemma ret_Ok {A} (x : A) w a w' : mret (M:=M) x w = (Ok a, w') <-> a = x /\ w' = w.
Proof. unfold mret, M_ret. split; [by intros [= -> ->] | by intros [-> ->]]. Qed.

Lemma raise_Ok {A} e w (a : A) w' : raise e w = (Ok a, w') <-> False.
Proof. done. Qed.

Lemma db_query_Ok {A} (f : database -> A) w a w' :
  db_query f w = (Ok a, w') <-> db_down (w_tick w) = false /\ a = f (w_sess w) /\ w' = set_tick S w.
Proof.
  unfold db_query, mbind, M_bind, tick. destruct (db_down _).
  - split; [done | by intros [[=] _]].
  - unfold gets. split; [by intros [= <- <-] | by intros (_ & -> & ->)].
Qed.

(** Running forwards. *)
Lemma bind_step {A B} (m : M A) (f : A -> M B) w a w1 :
  m w = (Ok a, w1) -> (m ≫= f) w = f a w1.
Proof. unfold mbind, M_bind. by intros ->. Qed.

Lemma bind_raise {A B} (m : M A) (f : A -> M B) w e w1 :
  m w = (Raise e, w1) -> (m ≫= f) w = (Raise e, w1).
Proof. unfold mbind, M_bind. by intros ->. Qed.

Lemma bind_ext {A B} (m : M A) (f g : A -> M B) w :
  (forall a w1, f a w1 = g a w1) -> (m ≫= f) w = (m ≫= g) w.
Proof. intros E. unfold mbind, M_bind. by destruct (m w) as [[a|e] w1]; [apply E|]. Qed.

Lemma db_query_up {A} (f : database -> A) w :
  db_down (w_tick w) = false -> db_query f w = (Ok (f (w_sess w)), set_tick S w).
Proof. intros Hup. by apply db_query_Ok. Qed.

(** A commit, whichever way it ends. *)
Lemma commit_Ok w a w' :
  commit w = (Ok a, w') <->
  db_down (w_tick w) = false /\ constraints_ok env_dialect (w_sess w) = true /\
  w' = set_db (w_sess w) (set_tick S w).
Proof.
  unfold commit, flush, tick, rollback, gets, modify, raise, mbind, M_bind.
  destruct (db_down (w_tick w)); simpl; [by split; [|intros [[=] _]]|].
  destruct (constraints_ok _ _); simpl; [|by split; [|intros (_ & [=] & _)]].
  destruct a. split; [by intros [= <-] | by intros (_ & _ & ->)].
Qed.

Lemma commit_Raise w e w' :
  commit w = (Raise e, w') -> w_db w' = w_db w /\ w_sess w' = w_db w.
Proof.
  unfold commit, flush, tick, rollback, gets, modify, raise, mbind, M_bind.
  destruct (db_down (w_tick w)); simpl; [by intros [= <- <-]|].
  destruct (constraints_ok _ _); simpl; by intros [= <- <-].
Qed.

Lemma commit_violation w :
  db_down (w_tick w) = false -> constraints_ok env_dialect (w_sess w) = false ->
  exists w', commit w = (Raise IntegrityError, w') /\ w_db w' = w_db w /\ w_sess w' = w_db w.
Proof.
  intros Hup Hc. unfold commit, flush, tick, rollback, gets, modify, raise, mbind, M_bind.
  rewrite Hup. simpl. rewrite Hc. simpl. by eexists.
Qed.

Lemma flush_Ok w a w' :
  flush w = (Ok a, w') <->
  db_down (w_tick w) = false /\ constraints_ok env_dialect (w_sess w) = true /\ w' = set_tick S w.
Proof.
  unfold flush, tick, rollback, gets, modify, raise, mbind, M_bind.
  destruct (db_down (w_tick w)); simpl; [by split; [|intros [[=] _]]|].
  destruct (constraints_ok _ _); simpl; [|by split; [|intros (_ & [=] & _)]].
  destruct a. split; [by intros [= <-] | by intros (_ & _ & ->)].
Qed.

Lemma sess_modify_Ok f w a w' : sess_modify f w = (Ok a, w') <-> w' = set_sess f w.
Proof. unfold sess_modify, modify. destruct a. split; [by intros [= <-]|by intros ->]. Qed.

Lemma now_Ok w n w' :
  now w = (Ok n, w') <-> n = DT (clock (w_tick w)) (Some 0%Z) /\ w' = set_tick S w.
Proof. unfold now, tick, mbind, M_bind. split; [by intros [= <- <-] | by intros [-> ->]]. Qed.
End runs.

(** Takes a successful run apart, step by step. *)
Ltac inv_run :=
  repeat match goal with
  | H : (_ ≫= _) _ = (Ok _, _) |- _ => apply M_bind_Ok in H as (? & ? & ? & ?)
  | H : lift _ _ = (Ok _, _) |- _ => apply lift_Ok in H as [? ->]
  | H : mret _ _ = (Ok _, _) |- _ => apply ret_Ok in H as [? ->]; simplify_eq
  | H : raise _ _ = (Ok _, _) |- _ => by apply raise_Ok in H
  | H : db_query _ _ = (Ok _, _) |- _ => apply db_query_Ok in H as (? & -> & ->)
  | H : commit _ = (Ok _, _) |- _ => apply commit_Ok in H as (? & ? & ->)
  | H : flush _ = (Ok _, _) |- _ => apply flush_Ok in H as (? & ? & ->)
  | H : sess_modify _ _ = (Ok _, _) |- _ => apply sess_modify_Ok in H as ->
  | H : now _ = (Ok _, _) |- _ => apply now_Ok in H as [-> ->]
  end.

(** ** Relations kept by a successful run

    [KeepsOk R m]: as [Keeps], for the runs of [m] that return. *)
Section keeps_ok.
Context `{Env}.

Definition KeepsOk (R : relation world) {A} (m : M A) : Prop :=
  forall w a w', m w = (Ok a, w') -> R w w'.

Context (R : relation world) `{!PreOrder R}.

Lemma keeps_keeps_ok {A} (m : M A) : Keeps R m -> KeepsOk R m.
Proof. intros Hm w a w' E. specialize (Hm w). by rewrite E in Hm. Qed.
Lemma keeps_ok_bind {A B} (m : M A) (f : A -> M B) :
  KeepsOk R m -> (forall a, KeepsOk R (f a)) -> KeepsOk R (m ≫= f).
Proof. intros Hm Hf w b w' (a & w1 & E1 & E2)%M_bind_Ok. etrans; [by eapply Hm | by eapply Hf]. Qed.
Lemma keeps_ok_raise {A} e : KeepsOk R (raise (A:=A) e).
Proof. by intros w a w' E. Qed.
Lemma keeps_ok_ret {A} (a : A) : KeepsOk R (mret a).
Proof. apply keeps_keeps_ok, keeps_ret, _. Qed.
Lemma keeps_ok_lift {A} (r : result A) : KeepsOk R (lift r).
Proof. apply keeps_keeps_ok, keeps_lift, _. Qed.
Lemma keeps_ok_modify f : (forall w, R w (f w)) -> KeepsOk R (modify f).
Proof. intros Hf. by apply keeps_keeps_ok, keeps_modify. Qed.
Lemma keeps_ok_for_each {A} (l : list A) f :
  (forall x, x ∈ l -> KeepsOk R (f x)) -> KeepsOk R (for_each l f).
Proof.
  induction l as [|x l IH]; simpl; [intros; apply keeps_ok_ret|].
  intros Hf. apply keeps_ok_bind; [apply Hf; left|]. intros _.
  apply IH. intros y Hy. apply Hf. by right.
Qed.
End keeps_ok.

Create HintDb keeps_ok.

Ltac keeps_ok_step :=
  lazymatch goal with
  | |- forall _, _ => intros ?
  | |- KeepsOk _ (mbind _ _) => apply keeps_ok_bind; [apply _| |]
  | |- KeepsOk _ (mret _) => apply keeps_ok_ret, _
  | |- KeepsOk _ (raise _) => apply keeps_ok_raise
  | |- KeepsOk _ (lift _) => apply keeps_ok_lift, _
  | |- KeepsOk _ (for_each _ _) => apply keeps_ok_for_each; [apply _|]
  | |- KeepsOk _ (match ?x with _ => _ end) => destruct x
  | |- KeepsOk _ (let _ := _ in _) => cbv zeta
  end.

Ltac solve_keeps_ok := repeat first [ solve [eauto with keeps_ok nocore] | keeps_ok_step ].

(** ** What a computation returns

    [Returns P m]: every value returned by a run of [m] satisfies [P]. *)
Section returns.
Context `{Env}.

Definition Returns {A} (P : A -> Prop) (m : M A) : Prop :=
  forall w a w', m w = (Ok a, w') -> P a.

Lemma returns_ret {A} (P : A -> Prop) a : P a -> Returns P (mret a).
Proof. by intros HP w b w' [-> _]%ret_Ok. Qed.
Lemma returns_raise {A} (P : A -> Prop) e : Returns P (raise e).
Proof. by intros w a w' E. Qed.
Lemma returns_bind {A B} (P : B -> Prop) (m : M A) (f : A -> M B) :
  (forall a, Returns P (f a)) -> Returns P (m ≫= f).
Proof. intros Hf w b w' (a & w1 & _ & E)%M_bind_Ok. by eapply Hf. Qed.
Lemma returns_try {A} (P : A -> Prop) (m : M A) p h :
  Returns P m -> (forall e, Returns P (h e)) -> Returns P (try_except m p h).
Proof.
  intros Hm Hh w a w'. unfold try_except. destruct (m w) as [[b|e] w1] eqn:E.
  - intros [= -> ->]. by eapply Hm.
  - case_if; [apply Hh|done].
Qed.
End returns.

Ltac returns_step :=
  lazymatch goal with
  | |- forall _, _ => intros ?
  | |- Returns _ (mbind _ _) => apply returns_bind
  | |- Returns _ (mret _) => apply returns_ret
  | |- Returns _ (raise _) => apply returns_raise
  | |- Returns _ (try_except _ _ _) => apply returns_try
  | |- Returns _ (match ?x with _ => _ end) => destruct x
  | |- Returns _ (let _ := _ in _) => cbv zeta
  end.

Ltac solve_returns := repeat first [ solve [eauto with returns nocore] | returns_step ].

Create HintDb returns.
