(* ===== verification/Sha256.v ===== *)
(** * [hashlib.sha256(...).hexdigest()]

    FIPS 180-4 on bytes, with 32-bit words as [N] and their wrap-around written
    out. Used for token hashes and for lock names. *)

From S2P Require Import Prelude PyStr.

Definition word_mask : N := 4294967295.
Definition add32 (a b : N) : N := N.land (a + b) word_mask.
Definition rotr (n : N) (x : N) : N :=
  N.lor (N.shiftr x n) (N.land (N.shiftl x (32 - n)) word_mask).
Definition not32 (x : N) : N := N.lxor x word_mask.

Definition ch (x y z : N) : N := N.lxor (N.land x y) (N.land (not32 x) z).
Definition maj (x y z : N) : N := N.lxor (N.lxor (N.land x y) (N.land x z)) (N.land y z).
Definition big_sigma0 (x : N) : N := N.lxor (N.lxor (rotr 2 x) (rotr 13 x)) (rotr 22 x).
Definition big_sigma1 (x : N) : N := N.lxor (N.lxor (rotr 6 x) (rotr 11 x)) (rotr 25 x).
Definition small_sigma0 (x : N) : N := N.lxor (N.lxor (rotr 7 x) (rotr 18 x)) (N.shiftr x 3).
Definition small_sigma1 (x : N) : N := N.lxor (N.lxor (rotr 17 x) (rotr 19 x)) (N.shiftr x 10).

(** The constants are the first 32 bits of the fractional parts of the roots of
    the first primes: the largest [r] with [r ^ k <= p * 2 ^ (32 k)], found bit
    by bit, modulo [2 ^ 32]. *)
Definition primes : list N :=
  filter (fun p => Forall (fun d => p mod d <> 0)%N (N.of_nat <$> seq 2 (N.to_nat p - 2)))
    (N.of_nat <$> seq 2 310).

Fixpoint root_bits (fuel : nat) (k target acc : N) : N :=
  match fuel with
  | O => acc
  | S bit =>
      let acc' := (acc + 2 ^ N.of_nat bit)%N in
      root_bits bit k target (if (acc' ^ k <=? target)%N then acc' else acc)
  end.

Definition root_fraction (k p : N) : N :=
  N.land (root_bits 40 k (p * 2 ^ (32 * k)) 0) word_mask.

Definition round_constants : list N :=
  Eval vm_compute in root_fraction 3 <$> primes.

(** The eight working variables. *)
Record state := State { sa : N; sb : N; sc : N; sd : N; se : N; sf : N; sg : N; sh : N }.

Definition initial_state : state :=
  Eval vm_compute in
  let h i := default 0%N ((root_fraction 2 <$> primes) !! i) in
  State (h 0) (h 1) (h 2) (h 3) (h 4) (h 5) (h 6) (h 7).

Definition round (s : state) (k w : N) : state :=
  let t1 := add32 (add32 (add32 (add32 (sh s) (big_sigma1 (se s))) (ch (se s) (sf s) (sg s))) k) w in
  let t2 := add32 (big_sigma0 (sa s)) (maj (sa s) (sb s) (sc s)) in
  State (add32 t1 t2) (sa s) (sb s) (sc s) (add32 (sd s) t1) (se s) (sf s) (sg s).

(** The message schedule as a window of sixteen words. *)
Definition next_word (window : list N) : N :=
  let w i := default 0%N (window !! i) in
  add32 (add32 (add32 (small_sigma1 (w 14)) (w 9)) (small_sigma0 (w 1))) (w 0).

Fixpoint rounds (ks window : list N) (s : state) : state :=
  match ks with
  | [] => s
  | k :: ks' =>
      rounds ks' (drop 1 window ++ [next_word window]) (round s k (default 0%N (head window)))
  end.

Definition compress (s : state) (block : list N) : state :=
  let r := rounds round_constants block s in
  State (add32 (sa s) (sa r)) (add32 (sb s) (sb r)) (add32 (sc s) (sc r)) (add32 (sd s) (sd r))
        (add32 (se s) (se r)) (add32 (sf s) (sf r)) (add32 (sg s) (sg r)) (add32 (sh s) (sh r)).

(** Big-endian words of a byte string whose length is a multiple of four. *)
Fixpoint words (bs : list N) : list N :=
  match bs with
  | b0 :: b1 :: b2 :: b3 :: bs' =>
      N.lor (N.shiftl b0 24) (N.lor (N.shiftl b1 16) (N.lor (N.shiftl b2 8) b3)) :: words bs'
  | _ => []
  end.

Fixpoint blocks (fuel : nat) (ws : list N) : list (list N) :=
  match fuel with
  | O => []
  | S fuel' =>
      match ws with
      | [] => []
      | _ => take 16 ws :: blocks fuel' (drop 16 ws)
      end
  end.

Definition pad (bs : list N) : list N :=
  let len := length bs in
  let zeros := Z.to_nat ((55 - Z.of_nat len) mod 64) in
  let bits := (8 * N.of_nat len)%N in
  bs ++ [128%N] ++ replicate zeros 0%N
     ++ ((fun i => N.land (N.shiftr bits (8 * N.of_nat i)) 255) <$> reverse (seq 0 8)).

Definition sha256 (bs : list N) : state :=
  let ws := words (pad bs) in
  foldl compress initial_state (blocks (length ws) ws).

Definition hexdigest (bs : list N) : pystr :=
  let s := sha256 bs in
  concat (hex_fixed 8 <$> [sa s; sb s; sc s; sd s; se s; sf s; sg s; sh s]).

(** The test vectors of the standard. *)
Example sha256_empty : hexdigest [] =
  u "e3b0c44298fc1c149afbf4c8996fb92427ae41e4649b934ca495991b7852b855".
Proof. by vm_compute. Qed.

Example sha256_abc : hexdigest (u "abc") =
  u "ba7816bf8f01cfea414140de5dae2223b00361a396177a9cb410ff61f20015ad".
Proof. by vm_compute. Qed.

Example sha256_two_blocks :
  hexdigest (u "abcdbcdecdefdefgefghfghighijhijkijkljklmklmnlmnomnopnopq") =
  u "248d6a61d20638b8e5c026930c3e6039a33ce45964ff2167f6ecedd419db06c1".
Proof. by vm_compute. Qed.

(** A digest is sixty-four hexadecimal digits. *)
Lemma length_hex_fixed n x : length (hex_fixed n x) = n.
Proof. unfold hex_fixed. by rewrite length_fmap, length_reverse, length_seq. Qed.

Lemma length_hex_words n l : length (concat (hex_fixed n <$> l)) = n * length l.
Proof.
  induction l as [|x l IH]; [simpl; lia|].
  rewrite fmap_cons, concat_cons, length_app, length_hex_fixed, IH. simpl. lia.
Qed.

Lemma length_hexdigest bs : length (hexdigest bs) = 64.
Proof. unfold hexdigest. by rewrite length_hex_words. Qed.

Lemma hex_digit_ascii n : (n < 16)%N -> is_ascii_char (hex_digit n) = true.
Proof.
  intros Hn. unfold hex_digit, is_ascii_char. apply N.ltb_lt.
  destruct (n <? 10)%N; lia.
Qed.

Lemma hex_fixed_ascii k n : is_ascii (hex_fixed k n) = true.
Proof.
  unfold is_ascii. apply forallb_forall. intros c Hc%list_elem_of_In.
  apply list_elem_of_fmap in Hc as (i & -> & _). apply hex_digit_ascii.
  change 15%N with (N.ones 4). rewrite N.land_ones. by apply N.mod_lt.
Qed.

Lemma hexdigest_ascii bs : is_ascii (hexdigest bs) = true.
Proof.
  unfold hexdigest, is_ascii. apply forallb_forall.
  intros c (s & Hs & Hc)%in_concat. apply list_elem_of_In, list_elem_of_fmap in Hs as (x & -> & _).
  pose proof (hex_fixed_ascii 8 x) as Ha. unfold is_ascii in Ha. rewrite forallb_forall in Ha.
  by apply Ha.
Qed.

(** Only its length and its alphabet matter to the proofs below. *)
#[global] Opaque hexdigest.
