(* ===== verification/Encoding.v ===== *)
(** * Encodings of the standard library

    [base64.urlsafe_b64encode] without padding, [urllib.parse.urlencode], and
    the bytes of a SHA-256 digest. *)

From S2P Require Import Prelude PyStr Sha256.

(** ** Digests *)

Definition word_bytes (w : N) : list N :=
  (fun i => N.land (N.shiftr w (8 * i)) 255) <$> [3; 2; 1; 0]%N.

Definition digest (bs : list N) : list N :=
  let s := sha256 bs in
  concat (word_bytes <$> [sa s; sb s; sc s; sd s; se s; sf s; sg s; sh s]).

(** ** base64url *)

Definition base64url_alphabet : pystr :=
  u "ABCDEFGHIJKLMNOPQRSTUVWXYZabcdefghijklmnopqrstuvwxyz0123456789-_".

Definition base64url_char (n : N) : N := default 0%N (base64url_alphabet !! N.to_nat (N.land n 63)).

(** Three bytes are four characters; [rstrip(b"=")] leaves two or three for a
    rest of one or two bytes. *)
Fixpoint base64url (bs : list N) : pystr :=
  match bs with
  | a :: b :: c :: bs' =>
      let n := (a * 65536 + b * 256 + c)%N in
      base64url_char (N.shiftr n 18) :: base64url_char (N.shiftr n 12) ::
      base64url_char (N.shiftr n 6) :: base64url_char n :: base64url bs'
  | [a; b] =>
      let n := (a * 1024 + b * 4)%N in
      [base64url_char (N.shiftr n 12); base64url_char (N.shiftr n 6); base64url_char n]
  | [a] => let n := (a * 16)%N in [base64url_char (N.shiftr n 6); base64url_char n]
  | [] => []
  end.

(** ** Query strings *)

(** [quote_plus] on one byte. *)
Definition quote_byte (b : N) : pystr :=
  if is_alnum_ascii b || bool_decide (b ∈ u "_.-~") then [b]
  else if (b =? 32)%N then u "+"
  else let hex n := if (n <? 10)%N then (48 + n)%N else (55 + n)%N in
       [37%N; hex (N.shiftr b 4); hex (N.land b 15)].

Definition quote_plus (s : pystr) : result pystr :=
  bs ← encode_utf8 s; Ok (concat (quote_byte <$> bs)).

Fixpoint urlencode (params : list (pystr * pystr)) : result pystr :=
  match params with
  | [] => Ok []
  | (k, v) :: params' =>
      k' ← quote_plus k;
      v' ← quote_plus v;
      rest ← urlencode params';
      Ok (k' ++ u "=" ++ v' ++ match params' with [] => [] | _ => u "&" ++ rest end)
  end.

(** ** Facts *)

Example pkce_rfc7636 :
  base64url (digest (u "dBjftJeZ4CVP-mB92K27uhbUJU1p1r_wW1gFWFOEjXk")) =
  u "E9Melhoa2OwvFrEMTJguCHaoeK1t8URWbuGJSstw-cM".
Proof. by vm_compute. Qed.

Example urlencode_example :
  urlencode [(u "a b", u "x/y&z"); (u "c", u "~d")] = Ok (u "a+b=x%2Fy%26z&c=~d").
Proof. by vm_compute. Qed.

Lemma base64url_char_in n : base64url_char n ∈ base64url_alphabet.
Proof.
  unfold base64url_char.
  destruct (base64url_alphabet !! N.to_nat (N.land n 63)) as [c|] eqn:E; [by eapply list_elem_of_lookup_2|].
  exfalso. apply lookup_ge_None in E. change (length base64url_alphabet) with 64%nat in E.
  rewrite (N.land_ones n 6 : N.land n 63 = _) in E.
  pose proof (N.mod_lt n (2 ^ 6) ltac:(done)). change (2 ^ 6)%N with 64%N in *. lia.
Qed.

(** Every character is of the URL-safe alphabet. *)
Lemma base64url_safe bs : Forall (fun c => c ∈ base64url_alphabet) (base64url bs).
Proof.
  assert (H : forall n bs, length bs <= n -> Forall (fun c => c ∈ base64url_alphabet) (base64url bs)).
  { intros n. induction n as [|n IH]; intros [|a [|b [|c l]]] Hl; simpl in Hl; try lia;
      simpl; repeat (constructor; [apply base64url_char_in|]); try constructor. apply IH. lia. }
  by eapply H.
Qed.

Lemma length_word_bytes w : length (word_bytes w) = 4.
Proof. done. Qed.

Lemma length_digest bs : length (digest bs) = 32.
Proof. done. Qed.

(** Unfolding it blows up; the virtual machine still computes it. *)
#[global] Opaque digest.
