(* ===== verification/Envelopes.v ===== *)
(** * Response envelopes and Cloudflare error codes
    ([core/envelopes.py], [core/cf_errors.py]) *)

From S2P Require Import Prelude PyStr Json.

Definition TOKEN_VALID : Z := 10000.
Definition TOKEN_INVALID : Z := 1000.
Definition RECORD_NOT_FOUND : Z := 81044.
Definition FORBIDDEN : Z := 9109.
Definition ROUTE_NOT_FOUND : Z := 7003.
Definition INTERNAL : Z := 1000.

(** A [JSONResponse]. *)
Record response := JSONResponse { status_code : Z; content : json }.

(** [{status, message, data}], the management envelope. *)
Definition make_response (status : Z) (message : pystr) (data : json) : response :=
  JSONResponse status (JObj [
    (u "status", JNum status);
    (u "message", JStr message);
    (u "data", data)]).

Definition make_cf_response (result : json) (status : Z) (messages : json)
    (result_info : option json) : response :=
  let base := [
    (u "success", JBool true);
    (u "errors", JArr []);
    (u "messages", py_or messages (JArr []));
    (u "result", result)] in
  JSONResponse status (JObj
    match result_info with
    | Some info => dict_set (u "result_info") info base
    | None => base
    end).

(** [make_cf_response(result)], the other arguments at their defaults. *)
Definition cf_ok (result : json) : response := make_cf_response result 200 JNull None.

Definition make_cf_error (status code : Z) (message : pystr) : response :=
  JSONResponse status (JObj [
    (u "success", JBool false);
    (u "errors", JArr [JObj [(u "code", JNum code); (u "message", JStr message)]]);
    (u "messages", JArr []);
    (u "result", JNull)]).

(** Whether a response is a Cloudflare envelope, and what it says. *)
Definition cf_success (r : response) : option bool :=
  match content r with
  | JObj d => match dict_get (u "success") d with Some (JBool b) => Some b | _ => None end
  | _ => None
  end.

Definition cf_result (r : response) : json :=
  match content r with
  | JObj d => default JNull (dict_get (u "result") d)
  | _ => JNull
  end.
