(* ===== verification/Schemas.v ===== *)
(** * The schemas ([schemas/management.py], [schemas/cloudflare.py])

    The declared models as records, and the reading of a JSON value into one:
    which fields are required, which have a default, what each accepts.
    pydantic turns some other JSON values into a boolean, an integer or a
    datetime too (its lax mode): those are the class [Pydantic]. A model reads
    an object and ignores the keys it does not declare; those of
    [schemas/cloudflare.py] keep them. *)

From S2P Require Import Prelude PyStr Json Models.

(** ** Fields *)

(** What pydantic makes of a JSON value that is not of the declared type. *)
Class Pydantic := {
  other_bool : json -> option bool;
  other_int : json -> option Z;
  lax_datetime : json -> option datetime;
}.

Section fields.
Context `{Pydantic}.

Definition as_bool (j : json) : option bool :=
  match j with JBool b => Some b | _ => other_bool j end.
Definition as_int (j : json) : option Z :=
  match j with JNum n => Some n | _ => other_int j end.
Definition as_text (j : json) : option pystr := match j with JStr s => Some s | _ => None end.
Definition as_list {A} (rd : json -> option A) (j : json) : option (list A) :=
  match j with JArr l => mapM rd l | _ => None end.
Definition nullable {A} (rd : json -> option A) (j : json) : option (option A) :=
  match j with JNull => Some None | _ => Some <$> rd j end.
Definition as_model {A} (rd : list (pystr * json) -> option A) (j : json) : option A :=
  match j with JObj d => rd d | _ => None end.

(** A required field, and a field with a default. *)
Definition required {A} (rd : json -> option A) (k : pystr) (d : list (pystr * json)) : option A :=
  dict_get k d ≫= rd.
Definition optional {A} (rd : json -> option A) (a : A) (k : pystr) (d : list (pystr * json))
    : option A :=
  match dict_get k d with Some j => rd j | None => Some a end.
End fields.

(** ** Request bodies ([schemas/management.py]) *)

Record RegisterRequest := Register { rr_email : pystr; rr_password : pystr }.
Record LoginRequest := Login { lr_email : pystr; lr_password : pystr }.

Record UpstreamCredentialCreateRequest := CredentialCreate {
  cc_label : pystr; cc_cred_type : pystr;
  cc_api_token : option pystr; cc_global_key : option pystr; cc_cf_account_email : option pystr }.

Record ScopeRuleRequest := RuleRequest {
  sq_zone_id : pystr; sq_name_pattern : option pystr; sq_name_match : pystr;
  sq_record_types : list pystr; sq_record_ids : option (list pystr);
  sq_allow_read : bool; sq_allow_create : bool; sq_allow_write : bool; sq_allow_delete : bool;
  sq_content_lock : option pystr }.

Record ScopedTokenCreateRequest := TokenCreate {
  tc_name : pystr; tc_upstream_credential_id : pystr; tc_expires_at : option datetime;
  tc_scope_rules : list ScopeRuleRequest }.

Section requests.
Context `{Pydantic}.

Definition RegisterRequest_of : json -> option RegisterRequest := as_model (fun d =>
  email ← required as_text (u "email") d;
  password ← required as_text (u "password") d;
  Some (Register email password)).

Definition LoginRequest_of : json -> option LoginRequest := as_model (fun d =>
  email ← required as_text (u "email") d;
  password ← required as_text (u "password") d;
  Some (Login email password)).

Definition UpstreamCredentialCreateRequest_of : json -> option UpstreamCredentialCreateRequest :=
  as_model (fun d =>
  label ← required as_text (u "label") d;
  cred_type ← required as_text (u "cred_type") d;
  api_token ← optional (nullable as_text) None (u "api_token") d;
  global_key ← optional (nullable as_text) None (u "global_key") d;
  email ← optional (nullable as_text) None (u "cf_account_email") d;
  Some (CredentialCreate label cred_type api_token global_key email)).

Definition ScopeRuleRequest_of : json -> option ScopeRuleRequest := as_model (fun d =>
  zone_id ← required as_text (u "zone_id") d;
  name_pattern ← optional (nullable as_text) None (u "name_pattern") d;
  name_match ← optional as_text (u "exact") (u "name_match") d;
  record_types ← required (as_list as_text) (u "record_types") d;
  record_ids ← optional (nullable (as_list as_text)) None (u "record_ids") d;
  allow_read ← optional as_bool true (u "allow_read") d;
  allow_create ← optional as_bool false (u "allow_create") d;
  allow_write ← optional as_bool false (u "allow_write") d;
  allow_delete ← optional as_bool false (u "allow_delete") d;
  content_lock ← optional (nullable as_text) None (u "content_lock") d;
  Some (RuleRequest zone_id name_pattern name_match record_types record_ids
          allow_read allow_create allow_write allow_delete content_lock)).

Definition ScopedTokenCreateRequest_of : json -> option ScopedTokenCreateRequest :=
  as_model (fun d =>
  name ← required as_text (u "name") d;
  credential ← required as_text (u "upstream_credential_id") d;
  expires_at ← optional (nullable lax_datetime) None (u "expires_at") d;
  scope_rules ← required (as_list ScopeRuleRequest_of) (u "scope_rules") d;
  Some (TokenCreate name credential expires_at scope_rules)).
End requests.

(** ** Cloudflare payloads ([schemas/cloudflare.py]) *)

(** The keys a model does not declare. *)
Definition extras (declared : list pystr) (d : list (pystr * json)) : list (pystr * json) :=
  filter (fun kv => kv.1 ∉ declared) d.

Record CloudflareDNSRecord := CfRecord {
  dr_id : pystr; dr_zone_id : pystr; dr_zone_name : option pystr; dr_type : pystr;
  dr_name : pystr; dr_content : pystr; dr_ttl : option Z; dr_proxied : option bool;
  dr_created_on : option pystr; dr_modified_on : option pystr;
  dr_extra : list (pystr * json) }.

Record CloudflareResultInfo := CfResultInfo {
  cri_page : Z; cri_per_page : Z; cri_count : Z; cri_total_count : Z; cri_total_pages : Z }.

Record CloudflareMessage := CfMessage {
  cm_code : Z; cm_message : pystr; cm_extra : list (pystr * json) }.

Record CloudflareError := CfError {
  ce_code : Z; ce_message : pystr; ce_extra : list (pystr * json) }.

Record CloudflareEnvelope := CfEnvelope {
  cfe_success : bool; cfe_errors : list CloudflareError; cfe_messages : list CloudflareMessage;
  cfe_result : json; cfe_result_info : option CloudflareResultInfo;
  cfe_extra : list (pystr * json) }.

Section cloudflare.
Context `{Pydantic}.

Definition CloudflareDNSRecord_of : json -> option CloudflareDNSRecord := as_model (fun d =>
  id ← required as_text (u "id") d;
  zone_id ← required as_text (u "zone_id") d;
  zone_name ← optional (nullable as_text) None (u "zone_name") d;
  type ← required as_text (u "type") d;
  name ← required as_text (u "name") d;
  content ← required as_text (u "content") d;
  ttl ← optional (nullable as_int) None (u "ttl") d;
  proxied ← optional (nullable as_bool) None (u "proxied") d;
  created_on ← optional (nullable as_text) None (u "created_on") d;
  modified_on ← optional (nullable as_text) None (u "modified_on") d;
  Some (CfRecord id zone_id zone_name type name content ttl proxied created_on modified_on
    (extras [u "id"; u "zone_id"; u "zone_name"; u "type"; u "name"; u "content"; u "ttl";
             u "proxied"; u "created_on"; u "modified_on"] d))).

Definition CloudflareResultInfo_of : json -> option CloudflareResultInfo := as_model (fun d =>
  page ← required as_int (u "page") d;
  per_page ← required as_int (u "per_page") d;
  count ← required as_int (u "count") d;
  total_count ← required as_int (u "total_count") d;
  total_pages ← required as_int (u "total_pages") d;
  Some (CfResultInfo page per_page count total_count total_pages)).

Definition CloudflareMessage_of : json -> option CloudflareMessage := as_model (fun d =>
  code ← required as_int (u "code") d;
  message ← required as_text (u "message") d;
  Some (CfMessage code message (extras [u "code"; u "message"] d))).

Definition CloudflareError_of : json -> option CloudflareError := as_model (fun d =>
  code ← required as_int (u "code") d;
  message ← required as_text (u "message") d;
  Some (CfError code message (extras [u "code"; u "message"] d))).

Definition CloudflareEnvelope_of : json -> option CloudflareEnvelope := as_model (fun d =>
  success ← required as_bool (u "success") d;
  errors ← optional (as_list CloudflareError_of) [] (u "errors") d;
  messages ← optional (as_list CloudflareMessage_of) [] (u "messages") d;
  result ← optional Some JNull (u "result") d;
  result_info ← optional (nullable CloudflareResultInfo_of) None (u "result_info") d;
  Some (CfEnvelope success errors messages result result_info
    (extras [u "success"; u "errors"; u "messages"; u "result"; u "result_info"] d))).
End cloudflare.

(** ** What a client sends *)

Definition json_opt {A} (f : A -> json) (o : option A) : json :=
  match o with Some x => f x | None => JNull end.
Definition json_texts (l : list pystr) : json := JArr (JStr <$> l).

Definition ScopeRuleRequest_json (r : ScopeRuleRequest) : json := JObj [
  (u "zone_id", JStr (sq_zone_id r)); (u "name_pattern", json_opt JStr (sq_name_pattern r));
  (u "name_match", JStr (sq_name_match r)); (u "record_types", json_texts (sq_record_types r));
  (u "record_ids", json_opt json_texts (sq_record_ids r));
  (u "allow_read", JBool (sq_allow_read r)); (u "allow_create", JBool (sq_allow_create r));
  (u "allow_write", JBool (sq_allow_write r)); (u "allow_delete", JBool (sq_allow_delete r));
  (u "content_lock", json_opt JStr (sq_content_lock r))].

Definition ScopedTokenCreateRequest_json (iso : datetime -> pystr) (r : ScopedTokenCreateRequest)
    : json := JObj [
  (u "name", JStr (tc_name r)); (u "upstream_credential_id", JStr (tc_upstream_credential_id r));
  (u "expires_at", json_opt (fun d => JStr (iso d)) (tc_expires_at r));
  (u "scope_rules", JArr (ScopeRuleRequest_json <$> tc_scope_rules r))].

(** ** Laws *)

Lemma as_list_fmap {A B} (f : A -> json) (g : json -> option B) (l : list A) (k : list B) :
  Forall2 (fun x y => g (f x) = Some y) l k -> as_list g (JArr (f <$> l)) = Some k.
Proof.
  simpl. induction 1 as [|x y l k Hxy _ IH]; [done|]. rewrite fmap_cons. simpl.
  rewrite Hxy. simpl. change (g <$> (f <$> l)) with (g <$> (f <$> l)). by rewrite IH.
Qed.

Lemma as_list_same {A} (f : A -> json) (g : json -> option A) (l : list A) :
  (forall x, g (f x) = Some x) -> as_list g (JArr (f <$> l)) = Some l.
Proof. intros Hfg. apply as_list_fmap. induction l; constructor; auto. Qed.

Lemma as_list_texts l : as_list as_text (json_texts l) = Some l.
Proof. by apply as_list_same. Qed.

Lemma nullable_opt {A} (f : A -> json) (g : json -> option A) o :
  (forall x, g (f x) = Some x) -> (forall x, f x ≠ JNull) -> nullable g (json_opt f o) = Some o.
Proof.
  intros Hfg Hn. destruct o as [x|]; [|done]. simpl. unfold nullable.
  destruct (f x) eqn:E; [by destruct (Hn x)|..]; by rewrite <- E, Hfg.
Qed.

Lemma required_step {A B} (rd : json -> option A) k d j a (f : A -> option B) :
  dict_get k d = Some j -> rd j = Some a -> (required rd k d ≫= f) = f a.
Proof. unfold required. intros -> E. cbn. by rewrite E. Qed.

Lemma optional_step {A B} (rd : json -> option A) b k d j a (f : A -> option B) :
  dict_get k d = Some j -> rd j = Some a -> (optional rd b k d ≫= f) = f a.
Proof. unfold optional. intros -> E. by rewrite E. Qed.

(** Reads one field that is there. *)
Ltac read_field :=
  (erewrite required_step || erewrite optional_step);
  [|reflexivity|solve [reflexivity | eauto using as_list_texts, nullable_opt with schemas]].

Lemma nullable_text o : nullable as_text (json_opt JStr o) = Some o.
Proof. by apply nullable_opt. Qed.
Lemma nullable_texts o : nullable (as_list as_text) (json_opt json_texts o) = Some o.
Proof. apply nullable_opt; [apply as_list_texts|done]. Qed.

Create HintDb schemas.
#[export] Hint Resolve nullable_text nullable_texts as_list_texts : schemas.

Lemma rule_roundtrip `{Pydantic} r : ScopeRuleRequest_of (ScopeRuleRequest_json r) = Some r.
Proof.
  destruct r as [z np nm ts ids ar ac aw ad cl].
  unfold ScopeRuleRequest_of, ScopeRuleRequest_json, as_model. cbn [sq_zone_id sq_name_pattern
    sq_name_match sq_record_types sq_record_ids sq_allow_read sq_allow_create sq_allow_write
    sq_allow_delete sq_content_lock]. by repeat read_field.
Qed.

(** ** Properties *)

(** C35: what a client states in a mint request is what the handler receives: a
    request that spells out every field is read back as it was, as long as a
    datetime is read back from its text. *)
Theorem mint_request_roundtrip `{Pydantic} (iso : datetime -> pystr) r :
  (forall d, lax_datetime (JStr (iso d)) = Some d) ->
  ScopedTokenCreateRequest_of (ScopedTokenCreateRequest_json iso r) = Some r.
Proof.
  intros Hiso. destruct r as [name credential expires rs].
  assert (He : nullable lax_datetime (json_opt (fun d => JStr (iso d)) expires) = Some expires)
    by by apply nullable_opt.
  assert (Hr : as_list ScopeRuleRequest_of (JArr (ScopeRuleRequest_json <$> rs)) = Some rs)
    by (apply as_list_same, rule_roundtrip).
  unfold ScopedTokenCreateRequest_of, ScopedTokenCreateRequest_json, as_model.
  cbn [tc_name tc_upstream_credential_id tc_expires_at tc_scope_rules]. by repeat read_field.
Qed.
