(* ===== verification/Crypto.v ===== *)
(** * Secrets and scoped-token strings ([core/crypto.py])

    The Fernet cipher is the environment's; SHA-256 and the token layout
    [brand_lookupid_secret] are concrete. *)

From S2P Require Import Prelude PyStr Json Scope Models World Sha256.

Definition _TOKEN_ALPHABET : pystr :=
  u "ABCDEFGHIJKLMNOPQRSTUVWXYZabcdefghijklmnopqrstuvwxyz0123456789".
Definition _LOOKUP_ID_LEN : nat := 16.
Definition _SECRET_LEN : nat := 40.

Definition hash_token (full : pystr) : result pystr :=
  bs ← encode_utf8 full; Ok (hexdigest bs).

(** [hmac.compare_digest] on [str] operands accepts ASCII only. *)
Definition compare_digest (a b : pystr) : result bool :=
  if is_ascii a && is_ascii b then Ok (bool_decide (a = b)) else Raise TypeError.

Definition verify_token (full token_hash : pystr) : result bool :=
  digest ← hash_token full; compare_digest digest token_hash.

Record generated := Generated {
  g_lookup_id : pystr;
  g_secret : pystr;
  g_full : pystr;
  g_token_hash : pystr;
  g_token_prefix : pystr;
}.

Section crypto.
Context `{Env}.

(** [secrets.choice(seq)]: an element at a random index below the length. *)
Definition secrets_choice (alphabet : pystr) : M N :=
  t ← tick;
  let n := N.of_nat (length alphabet) in
  mret (default 0%N (alphabet !! N.to_nat (random_index t n mod n))).

Fixpoint _generate_random_string (length : nat) : M pystr :=
  match length with
  | O => mret []
  | S length' =>
      c ← secrets_choice _TOKEN_ALPHABET;
      s ← _generate_random_string length';
      mret (c :: s)
  end.

Definition encrypt_secret (plaintext : pystr) : M pystr :=
  _ ← lift (encode_utf8 plaintext);
  t ← tick;
  mret (fernet_encrypt t plaintext).

(** [None] has no [encode]; a forged or foreign ciphertext is an
    [InvalidToken]. *)
Definition decrypt_secret (ciphertext : option pystr) : result pystr :=
  match ciphertext with
  | None => Raise AttributeError
  | Some c =>
      match fernet_decrypt c with
      | Some p => Ok p
      | None => Raise InvalidToken
      end
  end.

Definition generate_scoped_token : M generated :=
  let brand := token_brand env_settings in
  lookup_id ← _generate_random_string _LOOKUP_ID_LEN;
  secret ← _generate_random_string _SECRET_LEN;
  let full := brand ++ u "_" ++ lookup_id ++ u "_" ++ secret in
  token_hash ← lift (hash_token full);
  mret (Generated lookup_id secret full token_hash (brand ++ u "_" ++ take 6 lookup_id)).

Definition parse_scoped_token (full : pystr) : option (pystr * pystr) :=
  match split char_underscore full with
  | [_; lookup_id; secret] =>
      if negb (length lookup_id =? _LOOKUP_ID_LEN)%nat
         || negb (length secret =? _SECRET_LEN)%nat then None
      else if negb (isalnum lookup_id) || negb (isalnum secret) then None
      else Some (lookup_id, secret)
  | _ => None
  end.
End crypto.

(** ** Random strings *)

Definition in_alphabet (c : N) : Prop := c ∈ _TOKEN_ALPHABET.

Lemma in_alphabet_alnum c : in_alphabet c -> is_alnum_ascii c = true /\ c ≠ char_underscore.
Proof.
  assert (Hall : forallb (fun c => is_alnum_ascii c && negb (c =? char_underscore)%N)
                   _TOKEN_ALPHABET = true) by by vm_compute.
  rewrite forallb_forall in Hall. intros Hc%list_elem_of_In.
  apply Hall, andb_true_iff in Hc as [? Hn%negb_true_iff%N.eqb_neq]. done.
Qed.

Lemma is_alnum_ascii_ascii c : is_alnum_ascii c = true -> is_ascii_char c = true.
Proof.
  unfold is_alnum_ascii, is_upper_ascii, is_lower_ascii, is_digit_ascii, in_range, is_ascii_char.
  rewrite !orb_true_iff, !andb_true_iff, !N.leb_le, N.ltb_lt. lia.
Qed.

Section crypto_laws.
Context `{Env}.

Lemma secrets_choice_run w :
  exists c, secrets_choice _TOKEN_ALPHABET w = (Ok c, set_tick S w) /\ in_alphabet c.
Proof.
  unfold secrets_choice, mbind, M_bind, tick, mret, M_ret. eexists. split; [done|].
  set (n := N.to_nat _).
  assert (Hn : n < length _TOKEN_ALPHABET).
  { unfold n. change (length _TOKEN_ALPHABET) with 62.
    pose proof (N.mod_lt (random_index (w_tick w) 62) 62 ltac:(done)) as Hm.
    revert Hm. change (N.of_nat 62) with 62%N. generalize (random_index (w_tick w) 62 mod 62)%N. lia. }
  apply lookup_lt_is_Some in Hn as [c Hc]. rewrite Hc. by eapply list_elem_of_lookup_2.
Qed.

Lemma generate_random_string_run k w :
  exists s, _generate_random_string k w = (Ok s, set_tick (Nat.add k) w) /\
    length s = k /\ Forall in_alphabet s.
Proof.
  revert w. induction k as [|k IH]; intros w; simpl.
  - exists []. split; [by destruct w|done].
  - destruct (secrets_choice_run w) as (c & Ec & Hc).
    destruct (IH (set_tick S w)) as (s & Es & Hlen & Hs).
    unfold mbind, M_bind. rewrite Ec, Es. exists (c :: s). split; [|by split; [simpl; lia|constructor]].
    unfold mret, M_ret, set_tick. simpl. by rewrite Nat.add_succ_r.
Qed.

(** Minting a token string: everything but the two random parts is fixed. *)
Lemma generate_scoped_token_run w :
  is_ascii (token_brand env_settings) = true ->
  exists l s h, let brand := token_brand env_settings in
    let full := brand ++ u "_" ++ l ++ u "_" ++ s in
    generate_scoped_token w =
      (Ok (Generated l s full h (brand ++ u "_" ++ take 6 l)), set_tick (fun n => 40 + (16 + n)) w) /\
    hash_token full = Ok h /\ length l = 16 /\ length s = 40 /\
    Forall in_alphabet l /\ Forall in_alphabet s.
Proof.
  intros Hb. unfold generate_scoped_token.
  destruct (generate_random_string_run _LOOKUP_ID_LEN w) as (l & El & Hl & Fl).
  destruct (generate_random_string_run _SECRET_LEN (set_tick (Nat.add _LOOKUP_ID_LEN) w))
    as (s & Es & Hs & Fs).
  unfold mbind, M_bind. rewrite El, Es. unfold lift, mret, M_ret.
  set (full := token_brand env_settings ++ _).
  assert (Hfull : is_ascii full = true).
  { unfold full, is_ascii in *. rewrite !forallb_app, Hb.
    assert (Hal : forall x, Forall in_alphabet x -> forallb is_ascii_char x = true).
    { intros x Hx. apply forallb_forall. intros c Hc%list_elem_of_In. rewrite Forall_forall in Hx.
      by apply is_alnum_ascii_ascii, in_alphabet_alnum, Hx. }
    by rewrite (Hal l), (Hal s). }
  destruct (encode_utf8_ascii full Hfull) as [bs Hbs].
  assert (Hh : hash_token full = Ok (hexdigest bs)) by (unfold hash_token; by rewrite Hbs).
  rewrite Hh. exists l, s, (hexdigest bs). split_and!; done.
Qed.

Lemma alphabet_free s :
  Forall in_alphabet s -> Forall (fun c => N.eqb char_underscore c = false) s.
Proof.
  intros Hs. eapply Forall_impl; [exact Hs|]. intros c Hc. apply N.eqb_neq.
  by apply not_eq_sym, in_alphabet_alnum.
Qed.

Lemma alphabet_isalnum s : s ≠ [] -> Forall in_alphabet s -> isalnum s = true.
Proof.
  intros Hne Hs. unfold isalnum. destruct s as [|c0 s0]; [done|]. apply forallb_forall.
  intros c Hc%list_elem_of_In. rewrite Forall_forall in Hs.
  apply Hs, in_alphabet_alnum in Hc as [Hc _]. unfold isalnum_char.
  by rewrite is_alnum_ascii_ascii.
Qed.

(** The layout is read back: a brand without underscore, sixteen and forty
    characters of the alphabet. *)
Lemma parse_layout brand l s :
  Forall (fun c => N.eqb char_underscore c = false) brand ->
  length l = 16 -> length s = 40 -> Forall in_alphabet l -> Forall in_alphabet s ->
  parse_scoped_token (brand ++ u "_" ++ l ++ u "_" ++ s) = Some (l, s).
Proof.
  intros Hb Hl Hs Fl Fs. unfold parse_scoped_token, split.
  change (u "_") with [char_underscore]. simpl.
  rewrite !split_on_app by apply N.eqb_refl.
  rewrite !split_on_atom by (done || by apply alphabet_free). simpl.
  rewrite Hl, Hs. simpl. rewrite !alphabet_isalnum; [done| |done| |done]; by intros ->.
Qed.

Lemma verify_token_hash full h : hash_token full = Ok h -> verify_token full h = Ok true.
Proof.
  intros Hh. unfold verify_token. rewrite Hh. simpl. unfold compare_digest.
  unfold hash_token in Hh. apply result_bind_Ok in Hh as (bs & _ & [= <-]).
  rewrite hexdigest_ascii. simpl. by rewrite bool_decide_true.
Qed.
End crypto_laws.

(** ** Properties *)

Section crypto_properties.
Context `{Env}.

(** A freshly generated token can be used: it is read back into the
    lookup id and the secret it was made of, and it verifies against the hash
    that is stored in its place, provided the configured brand has no
    underscore. *)
Theorem generated_token_roundtrip w :
  is_ascii (token_brand env_settings) = true ->
  has_char char_underscore (token_brand env_settings) = false ->
  exists g w', generate_scoped_token w = (Ok g, w') /\
    parse_scoped_token (g_full g) = Some (g_lookup_id g, g_secret g) /\
    verify_token (g_full g) (g_token_hash g) = Ok true /\
    length (g_lookup_id g) = 16 /\ length (g_secret g) = 40.
Proof.
  intros Ha Hu. destruct (generate_scoped_token_run w Ha) as (l & s & h & E & Hh & Hl & Hs & Fl & Fs).
  do 2 eexists. split; [exact E|]. simpl. split_and!; [|by apply verify_token_hash|done..].
  apply parse_layout; try done. by apply has_char_free.
Qed.

(** With an underscore in the configured brand no token the proxy mints
    is ever accepted: every one of them fails to parse. *)
Theorem underscore_brand_unusable w :
  is_ascii (token_brand env_settings) = true ->
  has_char char_underscore (token_brand env_settings) = true ->
  exists g w', generate_scoped_token w = (Ok g, w') /\ parse_scoped_token (g_full g) = None.
Proof.
  intros Ha Hu. destruct (generate_scoped_token_run w Ha) as (l & s & h & E & Hh & Hl & Hs & Fl & Fs).
  do 2 eexists. split; [exact E|]. simpl. unfold parse_scoped_token, split.
  change (u "_") with [char_underscore]. simpl.
  rewrite !split_on_app by apply N.eqb_refl.
  apply has_char_split in Hu as (a & b & rest & Hsp). unfold split in Hsp. rewrite Hsp. simpl.
  rewrite !(split_on_atom _ l), !(split_on_atom _ s) by by apply alphabet_free.
  by destruct rest as [|? []].
Qed.

(** What parses as a token is a lookup id of sixteen and a secret of forty
    alphanumeric characters, between the underscores of the string. *)
Theorem parse_scoped_token_shape full l s :
  parse_scoped_token full = Some (l, s) ->
  exists brand, full = brand ++ u "_" ++ l ++ u "_" ++ s /\
    has_char char_underscore brand = false /\
    length l = 16 /\ length s = 40 /\ isalnum l = true /\ isalnum s = true.
Proof.
  unfold parse_scoped_token. intros Hp.
  destruct (split char_underscore full) as [|brand [|l' [|s' []]]] eqn:E; try done.
  do 2 (case_if; [done|]). injection Hp as -> ->.
  apply orb_false_iff in Heqb as [Hl%negb_false_iff%Nat.eqb_eq Hs%negb_false_iff%Nat.eqb_eq].
  apply orb_false_iff in Heqb0 as [?%negb_false_iff ?%negb_false_iff].
  exists brand. split_and!; try done.
  - rewrite <- (join_split char_underscore full), E. done.
  - pose proof (split_on_free (N.eqb char_underscore) full) as Hf. unfold split in E.
    rewrite E in Hf. inversion Hf as [|?? Hb]; subst. by apply has_char_free.
Qed.
End crypto_properties.
