(* ===== verification/Cache.v ===== *)
(** * The Redis accelerator ([cache/redis.py])

    Every helper swallows a Redis failure: a read yields [None], a write does
    nothing. A value is stored with [json.dumps] and read with [json.loads],
    which are inverse on the values the program caches, so an entry holds the
    JSON value itself. *)

From S2P Require Import Prelude PyStr Json Scope Models World.

Section cache.
Context `{Env}.

(** *** The Redis commands *)

(** Every command is an outside action that may fail. *)
Definition redis_command {A} (f : nat -> M A) : M A :=
  t ← tick; if redis_down t then raise RedisError else f t.

Definition live (t : nat) (e : redis_entry) : bool :=
  match re_expires e with Some x => (clock t <? x)%Z | None => true end.

Definition lookup_live (t : nat) (key : pystr) (r : gmap pystr redis_entry) : option redis_entry :=
  match r !! key with
  | Some e => if live t e then Some e else None
  | None => None
  end.

Definition redis_get (key : pystr) : M (option redis_entry) :=
  redis_command (fun t => gets (fun w => lookup_live t key (w_redis w))).

(** [SET key value EX ttl]: the server rejects a non-positive [ttl]. *)
Definition redis_set (key : pystr) (value : json) (ttl : Z) : M unit :=
  redis_command (fun t =>
    if (ttl <=? 0)%Z then raise RedisError
    else modify (set_redis (<[key := RedisEntry (Some value) (Some (clock t + ttl * second)%Z)]>))).

Definition redis_delete (keys : list pystr) : M unit :=
  redis_command (fun _ => modify (set_redis (fun r => foldr delete r keys))).

Definition redis_getdel (key : pystr) : M (option redis_entry) :=
  redis_command (fun t =>
    e ← gets (fun w => lookup_live t key (w_redis w));
    _ ← modify (set_redis (delete key));
    mret e).

(** [INCR]: an absent counter counts from zero; the expiry is kept. *)
Definition redis_incr (key : pystr) : M Z :=
  redis_command (fun t =>
    e ← gets (fun w => lookup_live t key (w_redis w));
    match e with
    | None =>
        _ ← modify (set_redis (<[key := RedisEntry (Some (JNum 1)) None]>)); mret 1%Z
    | Some e =>
        match re_value e with
        | Some (JNum n) =>
            _ ← modify (set_redis (<[key := RedisEntry (Some (JNum (n + 1))) (re_expires e)]>));
            mret (n + 1)%Z
        | _ => raise RedisError
        end
    end).

Definition redis_expire (key : pystr) (seconds : Z) : M unit :=
  redis_command (fun t => modify (set_redis
    (alter (fun e => RedisEntry (re_value e) (Some (clock t + seconds * second)%Z)) key))).

(** *** The helpers *)

Definition swallow {A} (m : M A) (fallback : A) : M A :=
  try_except m is_Exception (fun _ => mret fallback).

(** [JNull] is Python's [None]. *)
Definition cache_get_json (key : pystr) : M json :=
  raw ← swallow (redis_get key) None;
  match raw with
  | None => mret JNull
  | Some e => match re_value e with Some j => mret j | None => mret JNull end
  end.

Definition cache_set_json (key : pystr) (value : json) (ttl : Z) : M unit :=
  swallow (redis_set key value ttl) tt.

Definition cache_del (keys : list pystr) : M unit :=
  match keys with
  | [] => mret tt
  | _ => swallow (redis_delete keys) tt
  end.

Definition rate_limit_incr (key : pystr) (window : Z) : M Z :=
  swallow (
    count ← redis_incr key;
    if (count =? 1)%Z then (_ ← redis_expire key window; mret count) else mret count) 0%Z.
End cache.

(** *** Keys *)

Definition rules_key (lookup_id : pystr) (version : Z) : pystr :=
  u "rules:" ++ lookup_id ++ u ":" ++ str_of_Z version.
Definition oauth_at_key (cred_id : pystr) : pystr := u "oauth_at:" ++ cred_id.
Definition zones_key (cred_id : pystr) : pystr := u "zones:" ++ cred_id.
Definition oauth_state_key (state : pystr) : pystr := u "oauth_state:" ++ state.

(** ** Failures never escape *)

Definition no_exn (_ : exn) : Prop := False.

Section cache_laws.
Context `{Env}.

Lemma within_redis_command {A} (f : nat -> M A) E :
  (forall t, Within E python_exn (f t)) -> Within E python_exn (redis_command f).
Proof. intros Hf. unfold redis_command. solve_within. Qed.

Lemma within_redis_get key E : Within E python_exn (redis_get key).
Proof. apply within_redis_command. solve_within. Qed.
Lemma within_redis_set key v ttl E : Within E python_exn (redis_set key v ttl).
Proof. apply within_redis_command. solve_within. Qed.
Lemma within_redis_delete keys E : Within E python_exn (redis_delete keys).
Proof. apply within_redis_command. solve_within. Qed.
Lemma within_redis_incr key E : Within E python_exn (redis_incr key).
Proof. apply within_redis_command. solve_within. Qed.
Lemma within_redis_expire key s E : Within E python_exn (redis_expire key s).
Proof. apply within_redis_command. solve_within. Qed.

Lemma within_swallow {A} (m : M A) a E X :
  Within E python_exn m -> Within E X (swallow m a).
Proof.
  intros Hm. eapply within_try; [exact Hm| |].
  - intros e He. unfold python_exn in He. congruence.
  - intros. apply within_ret.
Qed.
Hint Resolve within_swallow within_redis_get within_redis_set within_redis_delete
  within_redis_incr within_redis_expire : within.

Lemma within_cache_get key E X : Within E X (cache_get_json key).
Proof. unfold cache_get_json. solve_within. Qed.
Lemma within_cache_set key v ttl E X : Within E X (cache_set_json key v ttl).
Proof. unfold cache_set_json. solve_within. Qed.
Lemma within_cache_del keys E X : Within E X (cache_del keys).
Proof. unfold cache_del. solve_within. Qed.
Lemma within_rate_limit key window E X : Within E X (rate_limit_incr key window).
Proof. unfold rate_limit_incr. apply within_swallow. solve_within. Qed.
End cache_laws.
#[export] Hint Resolve within_swallow within_redis_get within_redis_set within_cache_get
  within_cache_set within_cache_del within_rate_limit : within.

(** ** Keys never collide *)

Lemma rules_key_inj l1 v1 l2 v2 : rules_key l1 v1 = rules_key l2 v2 -> l1 = l2 /\ v1 = v2.
Proof.
  unfold rules_key. intros [= E]. apply (f_equal reverse) in E.
  rewrite !reverse_app, !reverse_cons, <- !app_assoc in E. simpl in E.
  apply app_cons_first_inj in E as [Ev El].
  - split; [by apply (inj reverse) | by apply (inj str_of_Z), (inj reverse)].
  - rewrite elem_of_reverse. apply str_of_Z_no_colon.
  - rewrite elem_of_reverse. apply str_of_Z_no_colon.
Qed.

Section cache_db.
Context `{Env}.

Lemma keeps_redis_command_db {A} (f : nat -> M A) :
  (forall t, Keeps same_db (f t)) -> Keeps same_db (redis_command f).
Proof. intros Hf. unfold redis_command. solve_keeps. Qed.
Hint Extern 4 (Keeps same_db (modify _)) => apply keeps_modify; [by intros] : keeps.

Lemma keeps_redis_get_db key : Keeps same_db (redis_get key).
Proof. apply keeps_redis_command_db. solve_keeps. Qed.
Lemma keeps_redis_set_db key v ttl : Keeps same_db (redis_set key v ttl).
Proof. apply keeps_redis_command_db. solve_keeps. Qed.
Lemma keeps_redis_delete_db keys : Keeps same_db (redis_delete keys).
Proof. apply keeps_redis_command_db. intros. by apply keeps_modify. Qed.
Lemma keeps_redis_incr_db key : Keeps same_db (redis_incr key).
Proof. apply keeps_redis_command_db. solve_keeps. Qed.
Lemma keeps_redis_expire_db key s : Keeps same_db (redis_expire key s).
Proof. apply keeps_redis_command_db. intros. by apply keeps_modify. Qed.
Lemma keeps_swallow_db {A} (m : M A) a : Keeps same_db m -> Keeps same_db (swallow m a).
Proof. intros Hm. apply keeps_try; [apply _|done|]. intros. apply keeps_ret, _. Qed.
Hint Resolve keeps_swallow_db keeps_redis_get_db keeps_redis_set_db keeps_redis_delete_db
  keeps_redis_incr_db keeps_redis_expire_db : keeps.

Lemma keeps_cache_get_db key : Keeps same_db (cache_get_json key).
Proof. unfold cache_get_json. solve_keeps. Qed.
Lemma keeps_cache_set_db key v ttl : Keeps same_db (cache_set_json key v ttl).
Proof. unfold cache_set_json. solve_keeps. Qed.
Lemma keeps_cache_del_db keys : Keeps same_db (cache_del keys).
Proof. unfold cache_del. solve_keeps. Qed.
Lemma keeps_rate_limit_db key window : Keeps same_db (rate_limit_incr key window).
Proof. unfold rate_limit_incr. apply keeps_swallow_db. solve_keeps. Qed.
End cache_db.
#[export] Hint Resolve keeps_swallow_db keeps_redis_get_db keeps_redis_set_db keeps_cache_get_db
  keeps_cache_set_db keeps_cache_del_db keeps_rate_limit_db : keeps.

Section cache_contents.
Context `{Env}.

(** Deleting keys only ever removes entries. *)
Lemma cache_del_subset keys w k e :
  w_redis (cache_del keys w).2 !! k = Some e -> w_redis w !! k = Some e.
Proof.
  unfold cache_del. destruct keys as [|k0 ks]; [done|].
  unfold swallow, try_except, redis_delete, redis_command, mbind, M_bind, tick.
  destruct (redis_down _); simpl; [done|].
  intros [_ Hl]%lookup_delete_Some. revert Hl. induction ks as [|k' ks IH]; simpl; [done|].
  by intros [_ ?]%lookup_delete_Some; apply IH.
Qed.
End cache_contents.

(** ** What leaves the cached rules alone *)

Section steady.
Context `{Env}.

(** Cached rules may only be lost. *)
Definition rules_lost (r r' : gmap pystr redis_entry) : Prop :=
  forall l v e, r' !! rules_key l v = Some e -> r !! rules_key l v = Some e.

(** Time passes, the tables are left as they are, no cached rules are new, and
    the cached key set is still the issuer's. *)
Definition steady (w w' : world) : Prop :=
  same_db w w' /\ jwks_kept w w' /\ rules_lost (w_redis w) (w_redis w').

#[export] Instance steady_preorder : PreOrder steady.
Proof.
  split; [intros w; split_and!; [done|done|by intros l v e]|].
  intros w1 w2 w3 (S1 & T1 & L1) (S2 & T2 & L2). split_and!; [by etrans..|]. intros l v e He. by apply L1, L2.
Qed.

Lemma steady_ticks w w' : steady w w' -> w_tick w <= w_tick w'.
Proof. by intros (_ & [Ht _] & _). Qed.
Lemma steady_same w w' :
  same_db w w' -> w_tick w <= w_tick w' -> w_jwks w' = w_jwks w -> w_trace w `prefix_of` w_trace w' ->
  rules_lost (w_redis w) (w_redis w') -> steady w w'.
Proof. intros Hs Ht Hj Hp Hl. split_and!; [done|by apply jwks_kept_same|done]. Qed.
Lemma rules_lost_refl r : rules_lost r r.
Proof. by intros l v e. Qed.
Lemma steady_modify f : (forall w, steady w (f w)) -> Keeps steady (modify f).
Proof. intros Hf w. apply Hf. Qed.
Lemma steady_tick : Keeps steady tick.
Proof. intros w. split_and!; [done|apply jwks_kept_tick|by intros l v e]. Qed.
Hint Resolve steady_tick : keeps.
Lemma steady_http rq : Keeps steady (http rq).
Proof.
  intros w. split; [apply keeps_http_db|split; [apply jwks_kept_http|]]. unfold http.
  destruct (cf_request rq (w_cf w)) as [[r|] c]; apply rules_lost_refl.
Qed.
Lemma steady_db_query {A} (f : database -> A) : Keeps steady (db_query f).
Proof. unfold db_query. solve_keeps. Qed.
Lemma steady_swallow {A} (m : M A) a : Keeps steady m -> Keeps steady (swallow m a).
Proof. intros Hm. apply keeps_try; [apply _|done|]. intros. apply keeps_ret, _. Qed.
Lemma steady_redis_command {A} (f : nat -> M A) :
  (forall t, Keeps steady (f t)) -> Keeps steady (redis_command f).
Proof. intros Hf. unfold redis_command. solve_keeps. Qed.

Lemma rules_lost_delete k r : rules_lost r (delete k r).
Proof. by intros l v e [_ He]%lookup_delete_Some. Qed.

(** A key of another kind. *)
Definition other_key (k : pystr) : Prop := forall l v, k ≠ rules_key l v.

Lemma other_oauth_at id : other_key (oauth_at_key id).
Proof. by intros l v. Qed.
Lemma other_zones id : other_key (zones_key id).
Proof. by intros l v. Qed.
Lemma other_oauth_state s : other_key (oauth_state_key s).
Proof. by intros l v. Qed.

Lemma steady_redis_get key : Keeps steady (redis_get key).
Proof. apply steady_redis_command. solve_keeps. Qed.
Lemma steady_redis_set key v ttl : other_key key -> Keeps steady (redis_set key v ttl).
Proof.
  intros Hk. apply steady_redis_command. intros t. destruct (ttl <=? 0)%Z; [solve_keeps|].
  apply steady_modify. intros w. apply steady_same; [done|simpl; lia|done|done|]. intros l x e He. simpl in He.
  rewrite lookup_insert_ne in He by apply Hk. done.
Qed.
Lemma steady_redis_delete keys : Keeps steady (redis_delete keys).
Proof.
  apply steady_redis_command. intros t. apply steady_modify. intros w. apply steady_same; [done|simpl; lia|done|done|].
  simpl. induction keys as [|k ks IH]; [apply rules_lost_refl|]. intros l v e He. simpl in He.
  apply rules_lost_delete in He. by apply IH.
Qed.
Lemma steady_redis_getdel key : Keeps steady (redis_getdel key).
Proof.
  apply steady_redis_command. intros t. apply keeps_bind; [apply _|solve_keeps|]. intros e.
  apply keeps_bind; [apply _| |solve_keeps]. apply steady_modify. intros w.
  apply steady_same; [done|simpl; lia|done|done|]. apply rules_lost_delete.
Qed.
Hint Resolve steady_swallow steady_redis_get steady_redis_set steady_redis_delete : keeps.

Lemma steady_cache_get key : Keeps steady (cache_get_json key).
Proof. unfold cache_get_json. solve_keeps. Qed.
Lemma steady_cache_set key v ttl : other_key key -> Keeps steady (cache_set_json key v ttl).
Proof. intros Hk. unfold cache_set_json. solve_keeps. Qed.
Lemma steady_cache_del keys : Keeps steady (cache_del keys).
Proof. unfold cache_del. solve_keeps. Qed.
End steady.

(** ** Properties *)

Section cache_properties.
Context `{Env}.

(** A run that returns a value and leaves database and trace alone. *)
Definition harmless {A} (m : M A) : Prop :=
  forall w, exists a w', m w = (Ok a, w') /\ same_db w w' /\ w_trace w' = w_trace w.

Lemma harmless_intro {A} (m : M A) :
  Within no_event no_exn m -> Keeps same_db m -> harmless m.
Proof.
  intros Hw Hk w. destruct (Hw w) as (l & E & Hl & He). specialize (Hk w).
  destruct (m w) as [[a|e] w'] eqn:Em; [|by destruct (He e eq_refl)].
  exists a, w'. split_and!; [done|done|]. simpl in *. rewrite E.
  destruct l as [|ev l]; [apply app_nil_r|]. by inversion Hl.
Qed.

(** The cache is only an accelerator: whatever Redis does, every helper
    returns (a miss is [None], a failed write is nothing) and touches
    neither the database nor the outside world. *)
Theorem cache_helpers_harmless key value ttl keys window :
  harmless (cache_get_json key) /\ harmless (cache_set_json key value ttl) /\
  harmless (cache_del keys) /\ harmless (rate_limit_incr key window).
Proof. split_and!; apply harmless_intro; eauto with within keeps. Qed.

(** A value written while Redis is up is read back until its time to live
    is over, and is a miss afterwards or while Redis is down. *)
Theorem cache_set_get key value ttl w :
  (0 < ttl)%Z -> redis_down (w_tick w) = false ->
  (cache_get_json key (cache_set_json key value ttl w).2).1 =
    Ok (if redis_down (S (w_tick w)) then JNull
        else if (clock (S (w_tick w)) <? clock (w_tick w) + ttl * second)%Z then value else JNull).
Proof.
  intros Httl Hup. apply Z.leb_gt in Httl.
  unfold cache_set_json, swallow, try_except, redis_set, redis_command, mbind, M_bind, tick.
  rewrite Hup, Httl. simpl.
  unfold cache_get_json, swallow, try_except, redis_get, redis_command, mbind, M_bind, tick. simpl.
  destruct (redis_down (S (w_tick w))); [done|]. unfold gets, lookup_live. simpl.
  rewrite lookup_insert_eq. unfold live. simpl. by destruct (_ <? _)%Z.
Qed.
End cache_properties.
