(* ===== verification/Locks.v ===== *)
(** * Advisory and row locks ([db/locks.py]) *)

From S2P Require Import Prelude PyStr Json Scope Models World Sha256.

Section locks.
Context `{Env}.

(** [engine.connect()]. *)
Definition engine_connect : M unit :=
  t ← tick; if db_down t then raise OperationalError else mret tt.

Definition hold (name : pystr) : M unit :=
  _ ← modify (set_locks (cons name)); modify (emit (EvLock name)).

Definition unhold (name : pystr) : M unit :=
  _ ← modify (set_locks (delete_where (fun n => bool_decide (n = name))));
  modify (emit (EvUnlock name)).

Definition lock_message (name : pystr) : pystr :=
  u "Could not acquire advisory lock '" ++ name ++ u "'".

(** [async with advisory_lock(conn, name): body]. On MySQL both statements
    go to the server: [GET_LOCK] answers 1 or a falsy value; when
    [RELEASE_LOCK] fails the connection is gone and the server has dropped
    the lock, but the error replaces the outcome of the body. Elsewhere a
    process-local lock is awaited with a timeout and its release cannot
    fail. *)
Definition advisory_lock {A} (name : pystr) (body : M A) : M A :=
  match env_dialect with
  | MySQL =>
      t ← tick;
      if db_down t then raise OperationalError
      else if negb (lock_granted t name) then raise (LockUnavailable (lock_message name))
      else
        _ ← hold name;
        try_finally body (
          t' ← tick;
          _ ← unhold name;
          if db_down t' then raise OperationalError else mret tt)
  | SQLite =>
      t ← tick;
      if negb (lock_granted t name) then raise (LockUnavailable (lock_message name))
      else
        _ ← hold name;
        try_finally body (unhold name)
  end.

(** A [SELECT] and whether it carries [FOR UPDATE]. *)
Record select (A : Type) := Select { sel_query : database -> A; sel_for_update : bool }.

Definition with_row_lock {A} (stmt : select A) : select A :=
  match env_dialect with
  | MySQL => Select A (sel_query A stmt) true
  | SQLite => stmt
  end.
End locks.

Definition mutation_lock_name (zone_id record_id : pystr) : result pystr :=
  bs ← encode_utf8 (zone_id ++ u ":" ++ record_id);
  Ok (u "m" ++ take 60 (hexdigest bs)).

(** ** Laws *)

Section lock_laws.
Context `{Env}.

(** What a locked section emits: nothing when the lock is refused, else the
    events of the body between the acquisition and the release. *)
Lemma emits_advisory_lock {A} name (body : M A) P Q :
  Emits body P ->
  Q [] (Raise (LockUnavailable (lock_message name))) ->
  Q [] (Raise OperationalError) ->
  (forall l r, P l r -> Q (EvLock name :: l ++ [EvUnlock name]) r) ->
  (forall l r, P l r -> Q (EvLock name :: l ++ [EvUnlock name]) (Raise OperationalError)) ->
  Emits (advisory_lock name body) Q.
Proof.
  intros Hb Hno Hdown Hok Hlost w. unfold advisory_lock.
  pose proof (Hb (set_locks (cons name) (emit (EvLock name) (set_tick S w)))) as (l & E & HP).
  unfold mbind, M_bind, tick, raise, hold, try_finally, unhold, modify.
  destruct env_dialect; simpl; (try (destruct (db_down _); simpl; [by exists []; rewrite app_nil_r|]));
    (destruct (lock_granted _ _); simpl; [|by exists []; rewrite app_nil_r]);
    unfold set_locks, emit, set_tick in *; simpl in *;
    destruct (body _) as [r w2]; simpl in *; (try (destruct (db_down (w_tick w2)); simpl));
    (exists (EvLock name :: l ++ [EvUnlock name]); rewrite E, <- !app_assoc; split; [done|by eauto]).
Qed.

(** A relation kept by the body and by the bookkeeping of the lock. *)
Lemma keeps_advisory_lock {A} (R : relation world) `{!PreOrder R} name (body : M A) :
  Keeps R tick -> (forall f w, R w (set_locks f w)) -> (forall e w, R w (emit e w)) ->
  Keeps R body -> Keeps R (advisory_lock name body).
Proof.
  intros Ht Hl He Hb. assert (forall f, Keeps R (modify f) <-> forall w, R w (f w)) as Hm by done.
  assert (Keeps R (hold name)) by (unfold hold; apply keeps_bind; [done|by apply Hm|intros; by apply Hm]).
  assert (Keeps R (unhold name)) by (unfold unhold; apply keeps_bind; [done|by apply Hm|intros; by apply Hm]).
  unfold advisory_lock. destruct env_dialect; solve_keeps.
Qed.

Lemma within_engine_connect E : Within E python_exn engine_connect.
Proof. unfold engine_connect. solve_within. Qed.
End lock_laws.
#[export] Hint Resolve within_engine_connect : within.

Lemma lock_name_raises zone record e : mutation_lock_name zone record = Raise e -> e = UnicodeError.
Proof.
  unfold mutation_lock_name. intros [Hu|(bs & _ & [=])]%result_bind_Raise. unfold encode_utf8 in Hu.
  apply result_bind_Raise in Hu as [Hu|(? & _ & [=])].
  induction (zone ++ _) as [|c s IH]; simpl in Hu; [done|].
  apply result_bind_Raise in Hu as [Hc|(? & _ & [Hs|(? & _ & [=])]%result_bind_Raise)]; auto.
  unfold utf8_char in Hc. repeat case_if; congruence.
Qed.

(** ** Properties *)

(** A lock name has 61 characters whatever the zone and the record, so it
    fits MySQL's limit of 64; it is a function of the two ids only, and the
    only way to have none is a lone surrogate in an id. *)
Theorem lock_name_fits zone record :
  (forall n, mutation_lock_name zone record = Ok n -> length n = 61 /\ length n <= 64) /\
  (forall e, mutation_lock_name zone record = Raise e -> e = UnicodeError).
Proof.
  split; [|apply lock_name_raises]. unfold mutation_lock_name.
  intros n (bs & _ & E)%result_bind_Ok.
  assert (n = u "m" ++ take 60 (hexdigest bs)) as -> by congruence.
  rewrite length_app, length_take, length_hexdigest. simpl. lia.
Qed.

Section lock_properties.
Context `{Env}.

(** A locked section either does not run its body (the lock is refused or
    the database is down) and leaves locks and trace alone, or runs it
    exactly once between the acquisition and the release of the named lock,
    which happens on every path, an exception of the body included. *)
Theorem advisory_lock_brackets {A} name (body : M A) w r w' :
  advisory_lock name body w = (r, w') ->
  (r = Raise (LockUnavailable (lock_message name)) \/ r = Raise OperationalError) /\
    w_trace w' = w_trace w /\ w_locks w' = w_locks w \/
  exists w1 rb w2, body w1 = (rb, w2) /\
    w_locks w1 = name :: w_locks w /\ w_trace w1 = w_trace w ++ [EvLock name] /\
    w_db w1 = w_db w /\ w_sess w1 = w_sess w /\
    w_locks w' = delete_where (fun n => bool_decide (n = name)) (w_locks w2) /\
    w_trace w' = w_trace w2 ++ [EvUnlock name] /\
    w_db w' = w_db w2 /\ w_sess w' = w_sess w2 /\
    (r = rb \/ env_dialect = MySQL /\ r = Raise OperationalError).
Proof.
  unfold advisory_lock, mbind, M_bind, tick, raise, hold, try_finally, unhold, modify.
  destruct env_dialect; simpl.
  - destruct (db_down (w_tick w)); simpl; [intros [= <- <-]; left; by auto|].
    destruct (lock_granted _ _); simpl; [|intros [= <- <-]; left; by auto].
    destruct (body _) as [rb w2] eqn:Eb; simpl.
    destruct (db_down (w_tick w2)); simpl; intros [= <- <-]; right;
      (eexists _, rb, w2; split; [exact Eb|]; simpl; split_and!; by auto).
  - destruct (lock_granted _ _); simpl; [|intros [= <- <-]; left; by auto].
    destruct (body _) as [rb w2] eqn:Eb; simpl. intros [= <- <-]. right.
    eexists _, rb, w2. split; [exact Eb|]. simpl. split_and!; by auto.
Qed.

(** A lock that is unavailable was refused when it was asked for, unless the
    body says so itself. *)
Lemma advisory_lock_refused {A} name (body : M A) w e w' :
  advisory_lock name body w = (Raise e, w') -> is_LockUnavailable e = true ->
  (exists t, w_tick w <= t /\ t < w_tick w' /\ lock_granted t name = false) \/
  exists w1 w2, body w1 = (Raise e, w2).
Proof.
  unfold advisory_lock, mbind, M_bind, tick, raise, hold, try_finally, unhold, modify.
  destruct env_dialect; simpl.
  - destruct (db_down (w_tick w)); simpl; [by intros [= <- <-]|].
    destruct (lock_granted _ _) eqn:Eg; simpl.
    + destruct (body _) as [rb w2] eqn:Eb; simpl.
      destruct (db_down (w_tick w2)); simpl; [by intros [= <- <-]|]. intros [= -> <-]. right. eauto.
    + intros [= <- <-] _. left. exists (w_tick w). simpl. auto with lia.
  - destruct (lock_granted _ _) eqn:Eg; simpl.
    + destruct (body _) as [rb w2] eqn:Eb; simpl. intros [= -> <-]. right. eauto.
    + intros [= <- <-] _. left. exists (w_tick w). simpl. auto with lia.
Qed.
End lock_properties.
