(* ===== verification/JsonText.v ===== *)
(** * JSON text: [json.dumps] and [json.loads]

    The textual form of a value, with the separators and the ASCII escapes of
    [json.dumps]'s defaults, and a recursive-descent reader. Integers only: a
    number with a fraction or an exponent is rejected by the reader. *)

From S2P Require Import Prelude PyStr Json.

(** ** Writing *)

Definition uescape (c : N) : pystr := u "\u" ++ hex_fixed 4 c.

Definition quote_char (c : N) : pystr :=
  if (c =? 34)%N then [92; 34]%N
  else if (c =? 92)%N then [92; 92]%N
  else if (c =? 10)%N then u "\n"
  else if (c =? 13)%N then u "\r"
  else if (c =? 9)%N then u "\t"
  else if (c =? 12)%N then u "\f"
  else if (c =? 8)%N then u "\b"
  else if in_range 32 126 c then [c]
  else if (c <? 65536)%N then uescape c
  else
    let c' := (c - 65536)%N in
    uescape (55296 + N.shiftr c' 10) ++ uescape (56320 + N.land c' 1023).

Definition quote_str (s : pystr) : pystr := [34%N] ++ concat (quote_char <$> s) ++ [34%N].

Fixpoint join_with (sep : pystr) (l : list pystr) : pystr :=
  match l with
  | [] => []
  | [x] => x
  | x :: l' => x ++ sep ++ join_with sep l'
  end.

Fixpoint json_dumps (j : json) : pystr :=
  match j with
  | JNull => u "null"
  | JBool true => u "true"
  | JBool false => u "false"
  | JNum n => str_of_Z n
  | JStr s => quote_str s
  | JArr l => u "[" ++ join_with (u ", ") (map json_dumps l) ++ u "]"
  | JObj d =>
      u "{" ++ join_with (u ", ")
                 (map (fun '(k, v) => quote_str k ++ u ": " ++ json_dumps v) d) ++ u "}"
  end.

(** ** Reading *)

Definition is_json_space (c : N) : bool :=
  (c =? 32)%N || (c =? 9)%N || (c =? 10)%N || (c =? 13)%N.

Definition skip_ws (s : pystr) : pystr := drop_while is_json_space s.

Definition hex_value (c : N) : option N :=
  if in_range 48 57 c then Some (c - 48)%N
  else if in_range 97 102 c then Some (c - 87)%N
  else if in_range 65 70 c then Some (c - 55)%N
  else None.

Definition hex4 (a b c d : N) : option N :=
  a ← hex_value a; b ← hex_value b; c ← hex_value c; d ← hex_value d;
  Some (4096 * a + 256 * b + 16 * c + d)%N.

Definition simple_escape (c : N) : option N :=
  if (c =? 34)%N || (c =? 92)%N || (c =? 47)%N then Some c
  else if (c =? 98)%N then Some 8%N
  else if (c =? 102)%N then Some 12%N
  else if (c =? 110)%N then Some 10%N
  else if (c =? 114)%N then Some 13%N
  else if (c =? 116)%N then Some 9%N
  else None.

(** The characters up to the closing quote, and what follows it. A high
    surrogate escape followed by a low one is one code point. *)
Fixpoint parse_chars (s : pystr) : option (pystr * pystr) :=
  match s with
  | [] => None
  | 34%N :: s' => Some ([], s')
  | 92%N :: 117%N :: a :: b :: c :: d :: s' =>
      hi ← hex4 a b c d;
      let single := '(cs, rest) ← parse_chars s'; Some (hi :: cs, rest) in
      if in_range 55296 56319 hi then
        match s' with
        | 92%N :: 117%N :: a' :: b' :: c' :: d' :: s'' =>
            lo ← hex4 a' b' c' d';
            if in_range 56320 57343 lo then
              '(cs, rest) ← parse_chars s'';
              Some ((65536 + N.lor (N.shiftl (hi - 55296) 10) (lo - 56320))%N :: cs, rest)
            else single
        | _ => single
        end
      else single
  | 92%N :: e :: s' =>
      c ← simple_escape e; '(cs, rest) ← parse_chars s'; Some (c :: cs, rest)
  | c :: s' =>
      if (c <? 32)%N || (c =? 92)%N then None
      else '(cs, rest) ← parse_chars s'; Some (c :: cs, rest)
  end.

Fixpoint parse_digits (s : pystr) (acc : Z) : Z * pystr :=
  match s with
  | c :: s' => if is_digit_ascii c then parse_digits s' (10 * acc + (Z.of_N c - 48))%Z else (acc, s)
  | [] => (acc, s)
  end.

Definition parse_number (s : pystr) : option (Z * pystr) :=
  let fraction_free rest :=
    match rest with
    | c :: _ => negb ((c =? 46)%N || (c =? 101)%N || (c =? 69)%N)
    | [] => true
    end in
  let magnitude s :=
    match s with
    | 48%N :: s' => Some (0%Z, s')
    | c :: s' => if is_digit_ascii c then Some (parse_digits s 0%Z) else None
    | [] => None
    end in
  match s with
  | 45%N :: s' =>
      '(n, rest) ← magnitude s'; if fraction_free rest then Some (- n, rest)%Z else None
  | _ => '(n, rest) ← magnitude s; if fraction_free rest then Some (n, rest) else None
  end.

Definition parse_word (w : pystr) (j : json) (s : pystr) : option (json * pystr) :=
  if startswith w s then Some (j, drop (length w) s) else None.

(** [fuel] bounds the nesting plus the number of items; the length of the text
    is enough. *)
Fixpoint parse_value (fuel : nat) (s : pystr) : option (json * pystr) :=
  match fuel with
  | O => None
  | S fuel' =>
      match skip_ws s with
      | 34%N :: s' => '(cs, rest) ← parse_chars s'; Some (JStr cs, rest)
      | 91%N :: s' =>
          match skip_ws s' with
          | 93%N :: rest => Some (JArr [], rest)
          | _ => '(l, rest) ← parse_items fuel' s'; Some (JArr l, rest)
          end
      | 123%N :: s' =>
          match skip_ws s' with
          | 125%N :: rest => Some (JObj [], rest)
          | _ => '(d, rest) ← parse_members fuel' s'; Some (JObj (dict_update [] d), rest)
          end
      | 110%N :: _ => parse_word (u "null") JNull (skip_ws s)
      | 116%N :: _ => parse_word (u "true") (JBool true) (skip_ws s)
      | 102%N :: _ => parse_word (u "false") (JBool false) (skip_ws s)
      | t => '(n, rest) ← parse_number t; Some (JNum n, rest)
      end
  end
with parse_items (fuel : nat) (s : pystr) : option (list json * pystr) :=
  match fuel with
  | O => None
  | S fuel' =>
      '(j, s1) ← parse_value fuel' s;
      match skip_ws s1 with
      | 93%N :: rest => Some ([j], rest)
      | 44%N :: s2 => '(l, rest) ← parse_items fuel' s2; Some (j :: l, rest)
      | _ => None
      end
  end
with parse_members (fuel : nat) (s : pystr) : option (list (pystr * json) * pystr) :=
  match fuel with
  | O => None
  | S fuel' =>
      match skip_ws s with
      | 34%N :: s1 =>
          '(k, s2) ← parse_chars s1;
          match skip_ws s2 with
          | 58%N :: s3 =>
              '(j, s4) ← parse_value fuel' s3;
              match skip_ws s4 with
              | 125%N :: rest => Some ([(k, j)], rest)
              | 44%N :: s5 => '(d, rest) ← parse_members fuel' s5; Some ((k, j) :: d, rest)
              | _ => None
              end
          | _ => None
          end
      | _ => None
      end
  end.

Definition json_loads (s : pystr) : result json :=
  match parse_value (S (S (2 * length s))) s with
  | Some (j, rest) => match skip_ws rest with [] => Ok j | _ => Raise JSONDecodeError end
  | None => Raise JSONDecodeError
  end.

Example json_loads_dumps_example :
  let j := JObj [(u "email", JStr (u "a\b@x")); (u "key", JArr [JNum (-120); JNull; JBool true; JStr [128512%N; 233%N]])] in
  json_loads (json_dumps j) = Ok j.
Proof. by vm_compute. Qed.

(** ** What is written is read back *)

(** A Unicode scalar value: a code point that is not a surrogate. *)
Definition scalar (c : N) : bool :=
  (c <? 1114112)%N && negb (in_range 55296 57343 c).

Lemma hex_value_digit n : (n < 16)%N -> hex_value (hex_digit n) = Some n.
Proof.
  intros Hn. assert (Hin : n ∈ N.of_nat <$> seq 0 16).
  { apply list_elem_of_fmap. exists (N.to_nat n). split; [lia|]. apply elem_of_seq. lia. }
  revert Hin. simpl. rewrite !elem_of_cons, elem_of_nil. intuition (subst; done).
Qed.

Lemma nibble_lt c k : (N.land (N.shiftr c k) 15 < 16)%N.
Proof. change 15%N with (N.ones 4). rewrite N.land_ones. by apply N.mod_lt. Qed.

Lemma nibbles c : (c < 65536)%N ->
  (4096 * N.land (N.shiftr c 12) 15 + 256 * N.land (N.shiftr c 8) 15
   + 16 * N.land (N.shiftr c 4) 15 + N.land (N.shiftr c 0) 15 = c)%N.
Proof.
  intros Hc. change 15%N with (N.ones 4). rewrite !N.land_ones, !N.shiftr_div_pow2.
  change (2 ^ 12)%N with (16 * 16 * 16)%N. change (2 ^ 8)%N with (16 * 16)%N.
  change (2 ^ 4)%N with 16%N. change (2 ^ 0)%N with 1%N. rewrite N.div_1_r.
  rewrite <- !N.Div0.div_div.
  pose proof (N.div_mod c 16 ltac:(done)) as H0.
  pose proof (N.div_mod (c / 16) 16 ltac:(done)) as H1.
  pose proof (N.div_mod (c / 16 / 16) 16 ltac:(done)) as H2.
  pose proof (N.div_mod (c / 16 / 16 / 16) 16 ltac:(done)) as H3.
  assert (H4 : (c / 16 / 16 / 16 / 16 = 0)%N).
  { rewrite !N.Div0.div_div. apply N.div_small. done. }
  rewrite H4 in H3. revert H0 H1 H2 H3.
  generalize (c / 16 / 16 / 16 mod 16)%N (c / 16 / 16 / 16)%N (c / 16 / 16 mod 16)%N
    (c / 16 / 16)%N (c / 16 mod 16)%N (c / 16)%N (c mod 16)%N. intros. lia.
Qed.

Lemma uescape_chars c : uescape c =
  [92; 117; hex_digit (N.land (N.shiftr c 12) 15); hex_digit (N.land (N.shiftr c 8) 15);
   hex_digit (N.land (N.shiftr c 4) 15); hex_digit (N.land (N.shiftr c 0) 15)]%N.
Proof. done. Qed.

Lemma hex4_uescape c : (c < 65536)%N ->
  hex4 (hex_digit (N.land (N.shiftr c 12) 15)) (hex_digit (N.land (N.shiftr c 8) 15))
    (hex_digit (N.land (N.shiftr c 4) 15)) (hex_digit (N.land (N.shiftr c 0) 15)) = Some c.
Proof.
  intros Hc. unfold hex4. rewrite !hex_value_digit by apply nibble_lt. simpl.
  f_equal. by apply nibbles.
Qed.

(** The escape of a character of the basic plane. *)
Lemma parse_chars_escape c s :
  (c < 65536)%N -> in_range 55296 56319 c = false ->
  parse_chars (uescape c ++ s) = '(cs, rest) ← parse_chars s; Some (c :: cs, rest).
Proof.
  intros Hc Hs. rewrite uescape_chars. cbn [app parse_chars].
  rewrite hex4_uescape by done. simpl. by rewrite Hs.
Qed.

(** Two escapes make one character of another plane. *)
Lemma parse_chars_pair c s :
  (65536 <= c)%N -> (c < 1114112)%N ->
  parse_chars (uescape (55296 + N.shiftr (c - 65536) 10) ++
               uescape (56320 + N.land (c - 65536) 1023) ++ s) =
  '(cs, rest) ← parse_chars s; Some (c :: cs, rest).
Proof.
  intros Hlo Hhi. set (d := (c - 65536)%N).
  assert (Hh : (N.shiftr d 10 < 1024)%N).
  { rewrite N.shiftr_div_pow2. apply N.Div0.div_lt_upper_bound. change (2 ^ 10)%N with 1024%N. lia. }
  assert (Hl : (N.land d 1023 < 1024)%N).
  { change 1023%N with (N.ones 10). rewrite N.land_ones. by apply N.mod_lt. }
  rewrite !uescape_chars. cbn [app parse_chars]. rewrite hex4_uescape by lia.
  rewrite hex4_uescape by lia. cbn [mbind option_bind].
  assert (in_range 55296 56319 (55296 + N.shiftr d 10) = true) as ->
    by (apply andb_true_iff; split; apply N.leb_le; lia).
  assert (in_range 56320 57343 (56320 + N.land d 1023) = true) as ->
    by (apply andb_true_iff; split; apply N.leb_le; lia).
  replace (55296 + N.shiftr d 10 - 55296)%N with (N.shiftr d 10) by lia.
  replace (56320 + N.land d 1023 - 56320)%N with (N.land d 1023) by lia.
  assert (N.lor (N.shiftl (N.shiftr d 10) 10) (N.land d 1023) = d) as ->.
  { change 1023%N with (N.ones 10). rewrite <- N.ldiff_ones_r. apply N.lor_ldiff_and. }
  replace (65536 + d)%N with c by lia. done.
Qed.

(** A printable character stands for itself. *)
Lemma parse_chars_plain c s :
  in_range 32 126 c = true -> (c =? 34)%N = false -> (c =? 92)%N = false ->
  parse_chars (c :: s) = '(cs, rest) ← parse_chars s; Some (c :: cs, rest).
Proof.
  intros Hr H1 H2. assert (Hin : c ∈ N.of_nat <$> seq 32 95).
  { apply andb_true_iff in Hr as [Hlo%N.leb_le Hhi%N.leb_le].
    apply list_elem_of_fmap. exists (N.to_nat c). split; [lia|]. apply elem_of_seq. lia. }
  clear Hr. revert Hin. vm_compute seq. cbn [fmap list_fmap].
  repeat (intros [->|Hin]%elem_of_cons; [done|revert Hin]). by intros ?%elem_of_nil.
Qed.

(** One written character is read back, whatever follows. *)
Lemma parse_chars_quote c s :
  scalar c = true ->
  parse_chars (quote_char c ++ s) = '(cs, rest) ← parse_chars s; Some (c :: cs, rest).
Proof.
  unfold scalar. intros [Hmax%N.ltb_lt Hsur%negb_true_iff]%andb_true_iff. unfold quote_char.
  destruct (c =? 34)%N eqn:E1; [by apply N.eqb_eq in E1 as ->|].
  destruct (c =? 92)%N eqn:E2; [by apply N.eqb_eq in E2 as ->|].
  destruct (c =? 10)%N eqn:E3; [by apply N.eqb_eq in E3 as ->|].
  destruct (c =? 13)%N eqn:E4; [by apply N.eqb_eq in E4 as ->|].
  destruct (c =? 9)%N eqn:E5; [by apply N.eqb_eq in E5 as ->|].
  destruct (c =? 12)%N eqn:E6; [by apply N.eqb_eq in E6 as ->|].
  destruct (c =? 8)%N eqn:E7; [by apply N.eqb_eq in E7 as ->|].
  destruct (in_range 32 126 c) eqn:E8; [by apply parse_chars_plain|].
  destruct (c <? 65536)%N eqn:E9; [apply N.ltb_lt in E9 | apply N.ltb_ge in E9].
  - apply parse_chars_escape; [done|]. unfold in_range in *. apply andb_false_iff.
    apply andb_false_iff in Hsur as [?|?%N.leb_gt]; [by left|right]. apply N.leb_gt. lia.
  - rewrite <- app_assoc. by apply parse_chars_pair.
Qed.

Lemma parse_chars_quoted s rest :
  Forall (fun c => scalar c = true) s ->
  parse_chars (concat (quote_char <$> s) ++ 34%N :: rest) = Some (s, rest).
Proof.
  induction 1 as [|c s Hc _ IH]; [done|].
  rewrite fmap_cons, concat_cons, <- app_assoc, parse_chars_quote by done. by rewrite IH.
Qed.

Lemma parse_value_quoted fuel s rest :
  Forall (fun c => scalar c = true) s ->
  parse_value (S fuel) (quote_str s ++ rest) = Some (JStr s, rest).
Proof.
  intros Hs. unfold quote_str. rewrite <- !app_assoc. cbn [app parse_value skip_ws drop_while is_json_space].
  simpl. by rewrite parse_chars_quoted.
Qed.

(** An object with two text fields survives being written and read. *)
Lemma dumps_loads_pair k1 v1 k2 v2 :
  Forall (fun c => scalar c = true) k1 -> Forall (fun c => scalar c = true) v1 ->
  Forall (fun c => scalar c = true) k2 -> Forall (fun c => scalar c = true) v2 -> k1 ≠ k2 ->
  json_loads (json_dumps (JObj [(k1, JStr v1); (k2, JStr v2)])) =
    Ok (JObj [(k1, JStr v1); (k2, JStr v2)]).
Proof.
  intros Hk1 Hv1 Hk2 Hv2 Hne. unfold json_loads.
  set (text := json_dumps _).
  assert (Htext : text = [123; 34]%N ++ concat (quote_char <$> k1) ++ 34%N :: [58; 32; 34]%N ++
    concat (quote_char <$> v1) ++ 34%N :: [44; 32; 34]%N ++ concat (quote_char <$> k2) ++
    34%N :: [58; 32; 34]%N ++ concat (quote_char <$> v2) ++ 34%N :: [125]%N).
  { unfold text. cbn [json_dumps map join_with]. unfold quote_str.
    change (u "{") with [123%N]. change (u "}") with [125%N]. change (u ", ") with [44%N; 32%N].
    change (u ": ") with [58%N; 32%N]. by rewrite <- !app_assoc. }
  assert (Hlen : exists n, 2 * length text = S (S (S n))).
  { exists (2 * length text - 3). rewrite Htext, !length_app. simpl. lia. }
  destruct Hlen as [n ->]. rewrite Htext. clear text Htext.
  cbn [app]. cbn [parse_value skip_ws drop_while is_json_space N.eqb Pos.eqb orb].
  cbn [parse_members skip_ws drop_while is_json_space N.eqb Pos.eqb orb].
  rewrite parse_chars_quoted by done. cbn -[parse_chars]. rewrite parse_chars_quoted by done.
  cbn -[parse_chars]. rewrite parse_chars_quoted by done. cbn -[parse_chars].
  rewrite parse_chars_quoted by done. cbn -[parse_chars]. by rewrite bool_decide_false by congruence.
Qed.
