(* ===== verification/OAuthCf.v ===== *)
(** * The Cloudflare OAuth client ([auth/oauth_cf.py])

    PKCE, the authorize URL, the token endpoint, the JWKS cache and the
    validation of id tokens. What PyJWT does (headers, RSA keys, signature and
    registered claims) is the class
    [OidcLibs]. The text of a [PyJWTError] is only logged and is left out. *)

From S2P Require Import Prelude PyStr Json Scope Models World Sha256 Encoding Crypto.

Section oauth_cf.
Context `{Env}.

(** The POST to [/oauth2/token] that both grants share. *)
Definition post_token (data : list (pystr * pystr)) : M json :=
  response ← http (HttpRequest (u "POST")
    (cf_oauth_issuer env_settings ++ u "/oauth2/token") [] None None (Some data));
  _ ← lift (raise_for_status response);
  lift (response_json response).

Definition exchange_code (code code_verifier : pystr) : M json :=
  post_token [
    (u "grant_type", u "authorization_code");
    (u "code", code);
    (u "redirect_uri", cf_oauth_redirect_uri env_settings);
    (u "client_id", cf_oauth_client_id env_settings);
    (u "client_secret", cf_oauth_client_secret env_settings);
    (u "code_verifier", code_verifier)].

Definition refresh_access_token (refresh_token : pystr) : M json :=
  post_token [
    (u "grant_type", u "refresh_token");
    (u "refresh_token", refresh_token);
    (u "client_id", cf_oauth_client_id env_settings);
    (u "client_secret", cf_oauth_client_secret env_settings)].
End oauth_cf.

(** [jwt.get_unverified_header], [RSAAlgorithm.from_jwk],
    [jwt.decode(token, key, algorithms=["RS256"], audience, issuer, leeway,
    options={"require": ["exp", "iat"]})] at a time, and [str] of a JSON value. *)
Class OidcLibs := {
  rsa_key : Type;
  unverified_header : json -> result json;
  rsa_from_jwk : json -> result rsa_key;
  rs256_decode : Z -> json -> rsa_key -> pystr -> pystr -> Z -> result json;
  py_str : json -> pystr;
}.

Section oidc.
Context `{Env, OidcLibs}.

(** [secrets.token_urlsafe(n)]. *)
Definition token_urlsafe (n : nat) : M pystr := t ← tick; mret (base64url (random_bytes t n)).

Definition make_pkce : M (pystr * pystr) :=
  verifier ← token_urlsafe 64;
  bs ← lift (encode_utf8 verifier);
  mret (verifier, base64url (digest bs)).

Definition build_authorize_url (state nonce code_challenge : pystr) : result pystr :=
  let scopes := match cf_oauth_dns_scope env_settings with
                | [] => cf_oauth_base_scopes env_settings
                | dns => cf_oauth_base_scopes env_settings ++ u " " ++ dns
                end in
  query ← urlencode [
    (u "response_type", u "code");
    (u "client_id", cf_oauth_client_id env_settings);
    (u "redirect_uri", cf_oauth_redirect_uri env_settings);
    (u "scope", scopes);
    (u "state", state);
    (u "nonce", nonce);
    (u "code_challenge", code_challenge);
    (u "code_challenge_method", u "S256")];
  Ok (cf_oauth_issuer env_settings ++ u "/oauth2/auth?" ++ query).

Definition _JWKS_CACHE_TTL_SECONDS : Z := 3600.

(** A GET outside the pinned client. *)
Definition plain_get (url : pystr) (headers : list (pystr * pystr)) : M json :=
  response ← http (HttpRequest (u "GET") url headers None None None);
  _ ← lift (raise_for_status response);
  lift (response_json response).

Definition fetch_jwks : M json :=
  t ← tick;
  cache ← gets w_jwks;
  let '(jwks, fetched_at) := cache in
  if negb (is_none jwks)
     && (monotonic t - fetched_at <? _JWKS_CACHE_TTL_SECONDS * second)%Z
  then mret jwks
  else
    jwks ← plain_get (cf_oauth_issuer env_settings ++ u "/.well-known/jwks.json") [];
    _ ← modify (set_jwks (jwks, monotonic t));
    mret jwks.

Definition clear_jwks_cache : M unit := modify (set_jwks (JNull, 0%Z)).

(** [[k for k in keys if kid is None or k.get("kid") == kid]]. *)
Fixpoint matching_keys (kid : json) (keys : list json) : result (list json) :=
  match keys with
  | [] => Ok []
  | k :: keys' =>
      keep ← (if is_none kid then Ok true
              else id ← py_get k (u "kid"); Ok (py_eqb id kid));
      rest ← matching_keys kid keys';
      Ok (if (keep : bool) then k :: rest else rest)
  end.

Definition jwks_matches (kid : json) : M (list json) :=
  jwks ← fetch_jwks;
  lift (keys ← py_get_default jwks (u "keys") (JArr []); ks ← py_iter keys; matching_keys kid ks).

Definition _resolve_signing_key (kid : json) : M rsa_key :=
  matches ← jwks_matches kid;
  matches ← match matches with
            | [] => _ ← clear_jwks_cache; jwks_matches kid
            | _ => mret matches
            end;
  match matches with
  | [] => raise PyJWTError
  | k :: _ => lift (rsa_from_jwk k)
  end.

(** [value] is a JSON value: only a string has [encode]. *)
Definition _compute_oidc_hash (value alg : json) : result pystr :=
  if py_eqb alg (JStr (u "RS256")) then
    match value with
    | JStr s => if is_ascii s then Ok (base64url (take 16 (digest s))) else Raise UnicodeError
    | _ => Raise AttributeError
    end
  else Raise PyJWTError.

(** One turn of the loop over [at_hash] and [c_hash]. *)
Definition check_hash_claim (claims alg : json) (hash_claim : pystr) (source : json) : result unit :=
  claim_value ← py_get claims hash_claim;
  match claim_value with
  | JNull => Ok tt
  | JStr ((_ :: _) as v) =>
      match source with
      | JNull => Raise PyJWTError
      | _ =>
          expected ← _compute_oidc_hash source alg;
          same ← compare_digest expected v;
          if (same : bool) then Ok tt
          else Raise PyJWTError
      end
  | _ => Raise PyJWTError
  end.

Definition validate_id_token (id_token nonce access_token code : json) : M json :=
  header ← lift (unverified_header id_token);
  alg ← lift (py_get header (u "alg"));
  if negb (py_eqb alg (JStr (u "RS256")))
  then raise PyJWTError
  else
    kid ← lift (py_get header (u "kid"));
    signing_key ← _resolve_signing_key kid;
    t ← tick;
    claims ← lift (rs256_decode (clock t) id_token signing_key (cf_oauth_client_id env_settings)
                     (cf_oauth_issuer env_settings) (access_token_skew env_settings));
    claimed ← lift (py_get claims (u "nonce"));
    if negb (py_eqb claimed nonce) then raise PyJWTError
    else
      _ ← lift (check_hash_claim claims alg (u "at_hash") access_token);
      _ ← lift (check_hash_claim claims alg (u "c_hash") code);
      mret claims.

Definition fetch_userinfo (access_token : pystr) : M json :=
  plain_get (cf_oauth_issuer env_settings ++ u "/oauth2/userinfo")
    [(u "Authorization", u "Bearer " ++ access_token)].

(** One element of the scope list, as a string. *)
Definition scope_literal (item : json) : pystr :=
  match item with
  | JStr s => s
  | JObj d =>
      py_str (py_or (py_or (default JNull (dict_get (u "scope") d))
                           (default JNull (dict_get (u "name") d))) item)
  | _ => py_str item
  end.

Definition discover_dns_scope : M (list pystr) :=
  body ← plain_get (upstream_base_url env_settings ++ u "/client/v4/oauth/scopes") [];
  result ← lift (if is_dict body then py_get_default body (u "result") (JArr []) else Ok body);
  items ← lift (py_iter result);
  mret (scope_literal <$> items).
End oidc.

Section oauth_cf_laws.
Context `{Env}.

Lemma within_http rq (E : event -> Prop) :
  (forall res, E (EvHttp rq res)) -> Within E any_exn (http rq).
Proof. intros HE. apply emits_http; intros; (split; [by constructor|done]). Qed.

Lemma within_refresh_access_token t : Within read_only_event any_exn (refresh_access_token t).
Proof.
  unfold refresh_access_token, post_token. apply within_bind.
  - apply within_http. intros res. right. split; [done|]. by eexists.
  - solve_within.
Qed.
End oauth_cf_laws.
#[export] Hint Resolve within_refresh_access_token : within.

(** ** Properties *)

(** [at_hash] and [c_hash]: absent, or the left half of the digest of the
    value they vouch for. *)
Definition hash_claim_ok (claims : json) (name : pystr) (source : json) : Prop :=
  py_get claims name = Ok JNull \/
  exists s, source = JStr s /\ is_ascii s = true /\
    py_get claims name = Ok (JStr (base64url (take 16 (digest s)))).

Section oidc_properties.
Context `{Env, OidcLibs}.

(** The key of the set a token's key id picks: the first one that carries it,
    and simply the first one for a token that names none. *)
Definition picks (kid : json) (keys : list json) (k : json) : Prop :=
  (kid = JNull /\ head keys = Some k) \/
  (kid ≠ JNull /\ k ∈ keys /\ exists id, py_get k (u "kid") = Ok id /\ py_eqb id kid = true).

Lemma matching_keys_head kid keys k ks : matching_keys kid keys = Ok (k :: ks) -> picks kid keys k.
Proof.
  unfold picks. revert k ks. induction keys as [|k' keys IH]; intros k ks; [done|]. simpl.
  destruct (is_none kid) eqn:En.
  - destruct kid; try done. simpl. intros (rest & _ & [= -> _])%result_bind_Ok. by left.
  - assert (Hn : kid ≠ JNull) by by intros ->.
    intros (b & (id & Hid & [= Hb])%result_bind_Ok & (rest & Hrest & [= Hks])%result_bind_Ok)%result_bind_Ok.
    right. split; [done|]. destruct b.
    + injection Hks as -> _. split; [by left|by exists id].
    + subst rest. destruct (IH _ _ Hrest) as [[-> _]|(_ & Hin & Hc)]; [done|]. split; [by right|done].
Qed.

(** A key set that may be used in a run from [w] to [w']: the issuer's key set
    address answered it with a success, in this run or less than an hour before
    it is looked up. *)
Definition issuer_keys (w w' : world) (jwks : json) : Prop :=
  answered_since w w' jwks_request jwks \/
  answered_to w jwks_request jwks /\ jwks = (w_jwks w).1 /\
  exists t, w_tick w <= t /\ t < w_tick w' /\
    (monotonic t - (w_jwks w).2 < _JWKS_CACHE_TTL_SECONDS * second)%Z.

(** The key a token may be checked against. *)
Definition known_key (w w' : world) (kid k : json) : Prop :=
  exists jwks keys ks, issuer_keys w w' jwks /\
    py_get_default jwks (u "keys") (JArr []) = Ok keys /\ py_iter keys = Ok ks /\ picks kid ks k.

Lemma plain_get_Ok url hs w j w' :
  plain_get url hs w = (Ok j, w') ->
  answered_since w w' (HttpRequest (u "GET") url hs None None None) j /\
  w_trace w `prefix_of` w_trace w' /\ w_tick w' = S (w_tick w) /\ w_jwks w' = w_jwks w.
Proof.
  intros (r & w1 & Hr & (x & w2 & [Hs ->]%lift_Ok & [Hj ->]%lift_Ok)%M_bind_Ok)%M_bind_Ok.
  unfold http in Hr. destruct (cf_request _ _) as [[a|] c] eqn:Ec; [|done]. injection Hr as -> <-.
  simpl. split_and!; [|by apply prefix_app_r|done|done].
  exists r. split_and!; [simpl; rewrite drop_app_length; by left|by eapply raise_for_status_Ok..|].
  unfold response_json in Hj. destruct (hs_json r); [congruence|done].
Qed.

Lemma plain_get_kept url hs : Keeps jwks_kept (plain_get url hs).
Proof. unfold plain_get. solve_keeps. Qed.

Lemma clear_jwks_kept : Keeps jwks_kept clear_jwks_cache.
Proof. intros w. split_and!; [simpl; lia|done|by left]. Qed.

Lemma fetch_jwks_kept : Keeps jwks_kept fetch_jwks.
Proof.
  intros w. unfold fetch_jwks, tick, gets, modify, mbind, M_bind. destruct (w_jwks w) as [j at_] eqn:Ej. simpl.
  rewrite Ej. destruct (_ && _).
  { apply jwks_kept_same; [done|simpl; lia|done]. }
  match goal with |- context [plain_get ?url ?hs _] =>
    pose proof (plain_get_Ok url hs (set_tick S w)) as Hg; pose proof (plain_get_kept url hs (set_tick S w)) as Hk end.
  destruct (plain_get _ _ (set_tick S w)) as [[k|e] w1]; simpl in *;
    (etrans; [apply (jwks_kept_tick w)|]); [|exact Hk].
  destruct (Hg _ _ eq_refl) as (Ha%answered_since_to & Hp & Ht & _). split_and!; [simpl; lia|done|].
  intros _. right. exists (w_tick w). split_and!; [simpl; lia|done|done].
Qed.

Lemma fetch_jwks_Ok w jwks w' :
  jwks_fetched w -> fetch_jwks w = (Ok jwks, w') -> is_none jwks = true \/ issuer_keys w w' jwks.
Proof.
  intros Hinv (t & w1 & Ht & (cache & w2 & Hc & Hrun)%M_bind_Ok)%M_bind_Ok.
  injection Ht as <- <-. injection Hc as <- <-. simpl in Hrun. destruct (w_jwks w) as [j at_] eqn:Ej.
  destruct (_ && _) eqn:Euse.
  - apply ret_Ok in Hrun as [-> ->]. apply andb_true_iff in Euse as [Hn Hage%Z.ltb_lt].
    destruct Hinv as [Hnull|(t0 & Hlt & Hm & Ha)]; rewrite Ej in *; simpl in *; [by left; subst|right; right].
    rewrite Ej. split_and!; [done..|]. exists (w_tick w). split_and!; [lia|simpl; lia|done].
  - apply M_bind_Ok in Hrun as (j' & w2 & Hget & ([] & w3 & Hm & [-> ->]%ret_Ok)%M_bind_Ok).
    injection Hm as <-. apply plain_get_Ok in Hget as (Ha & _). right. by left.
Qed.

Lemma jwks_matches_kept kid : Keeps jwks_kept (jwks_matches kid).
Proof. unfold jwks_matches. pose proof fetch_jwks_kept. solve_keeps. Qed.

Lemma jwks_matches_Ok kid w k ks w' :
  jwks_fetched w -> jwks_matches kid w = (Ok (k :: ks), w') -> known_key w w' kid k.
Proof.
  intros Hinv (jwks & w1 & Hj & [Hk ->]%lift_Ok)%M_bind_Ok.
  apply result_bind_Ok in Hk as (keys & Hkeys & (l & Hl & Hm)%result_bind_Ok).
  apply (fetch_jwks_Ok _ _ _ Hinv) in Hj as [Hn|Hj]; [by destruct jwks|].
  exists jwks, keys, l. split_and!; [done..|by eapply matching_keys_head].
Qed.

(** A look-up begun later, the cache dropped, is one of the whole run. *)
Lemma known_key_later w w1 w' kid k :
  jwks_kept w w1 -> known_key (set_jwks (JNull, 0%Z) w1) w' kid k -> known_key w w' kid k.
Proof.
  intros (_ & Hp & _) (jwks & keys & ks & Hi & Hkeys & Hrest). exists jwks, keys, ks. split; [|done].
  destruct Hi as [Hi|(_ & -> & _)]; [|done]. left. by eapply answered_since_mono.
Qed.

Lemma resolve_signing_key_Ok kid w key w' :
  jwks_fetched w -> _resolve_signing_key kid w = (Ok key, w') ->
  exists k, known_key w w' kid k /\ rsa_from_jwk k = Ok key.
Proof.
  intros Hinv (m1 & w1 & H1 & (m2 & w2 & H2 & Hrun)%M_bind_Ok)%M_bind_Ok.
  destruct m2 as [|k m2]; [done|]. apply lift_Ok in Hrun as [Hk ->].
  exists k. split; [|done]. destruct m1 as [|k1 m1].
  - apply M_bind_Ok in H2 as ([] & w3 & Hclear & H2). injection Hclear as <-.
    pose proof (jwks_matches_kept kid w) as Hkept. rewrite H1 in Hkept.
    eapply known_key_later; [exact Hkept|]. eapply jwks_matches_Ok; [by left|done].
  - apply ret_Ok in H2 as [[= -> ->] ->]. by eapply jwks_matches_Ok.
Qed.

Lemma known_key_tick w w' kid k : known_key w w' kid k -> known_key w (set_tick S w') kid k.
Proof.
  intros (jwks & keys & ks & Hi & Hrest). exists jwks, keys, ks. split; [|done].
  destruct Hi as [Hi|(Ha & Ej & t & Hge & Hlt & Hage)]; [by left|right].
  split_and!; [done..|]. exists t. simpl. split_and!; [done|lia|done].
Qed.

Lemma resolve_signing_key_kept kid : Keeps jwks_kept (_resolve_signing_key kid).
Proof. unfold _resolve_signing_key. pose proof jwks_matches_kept. pose proof clear_jwks_kept. solve_keeps. Qed.

Lemma check_hash_claim_Ok claims alg name source :
  py_eqb alg (JStr (u "RS256")) = true ->
  check_hash_claim claims alg name source = Ok tt -> hash_claim_ok claims name source.
Proof.
  intros Ha (v & Hv & Hc)%result_bind_Ok. unfold hash_claim_ok. rewrite Hv.
  destruct v as [| | |[|c s]| |]; try done; [by left|]. right.
  destruct source as [| | |t| |]; try done; apply result_bind_Ok in Hc as (e & He & Hc);
    unfold _compute_oidc_hash in He; rewrite Ha in He; try done.
  destruct (is_ascii t) eqn:Et; [|done]. injection He as <-.
  apply result_bind_Ok in Hc as (b & Hb & Hc). unfold compare_digest in Hb.
  destruct (_ && _); [|done]. injection Hb as Hb. destruct b; [|done].
  apply bool_decide_eq_true_1 in Hb. exists t. split_and!; [done|done|by rewrite Hb].
Qed.

End oidc_properties.
