(* ===== verification/Upstream.v ===== *)
(** * The Cloudflare client ([upstream/client.py])

    Every request to Cloudflare leaves through [forward_request]; credentials
    are turned into authentication headers by [resolve_upstream_auth]. The
    paging loop carries fuel; [list_all_records_terminates] bounds what it needs. *)

From S2P Require Import Prelude PyStr Json JsonText Scope Models World Cache Crypto Locks OAuthCf.

Definition _ALLOWED_UPSTREAM_ORIGIN : pystr := u "https://api.cloudflare.com".

Definition _STRIPPED_AUTH_HEADERS : list pystr :=
  [u "authorization"; u "x-auth-email"; u "x-auth-key"; u "x-auth-user-service-key"].

Definition headers := list (pystr * pystr).

(** ** [urllib.parse.urlsplit], the scheme and the network location *)

Section urlsplit.
Context `{Unicode}.

Definition is_scheme_char (c : N) : bool :=
  is_alnum_ascii c || (c =? 43)%N || (c =? 45)%N || (c =? 46)%N.

Definition is_unsafe_url_char (c : N) : bool := (c =? 9)%N || (c =? 10)%N || (c =? 13)%N.

(** The scheme, in lower case, and the rest of the URL. *)
Definition split_scheme (url : pystr) : pystr * pystr :=
  let '(head, found, tail) := partition_at char_colon url in
  match head with
  | c :: _ =>
      if found && (is_upper_ascii c || is_lower_ascii c) && forallb is_scheme_char head
      then (lower head, tail) else ([], url)
  | [] => ([], url)
  end.

Fixpoint take_netloc (s : pystr) : pystr :=
  match s with
  | [] => []
  | c :: s' => if (c =? 47)%N || (c =? 63)%N || (c =? 35)%N then [] else c :: take_netloc s'
  end.

Definition urlsplit (url : pystr) : result (pystr * pystr) :=
  let url1 := lstrip_by (fun c => (c <=? 32)%N) url in
  let url2 := filter (fun c => is_unsafe_url_char c = false) url1 in
  let '(scheme, rest) := split_scheme url2 in
  match rest with
  | 47%N :: 47%N :: rest' =>
      let netloc := take_netloc rest' in
      if (has_char 91 netloc || has_char 93 netloc || negb (is_ascii netloc))
         && negb (u_netloc_ok netloc)
      then Raise (ValueError (u "netloc"))
      else Ok (scheme, netloc)
  | _ => Ok (scheme, [])
  end.

Definition _assert_pinned_origin (base_url : pystr) : result unit :=
  parts ← urlsplit base_url;
  let origin := rstrip_char 47 (lower (parts.1 ++ u "://" ++ parts.2)) in
  if negb (bool_decide (origin = _ALLOWED_UPSTREAM_ORIGIN))
  then Raise (RuntimeError (u "upstream_base_url must be " ++ repr _ALLOWED_UPSTREAM_ORIGIN
         ++ u ", refusing to forward to " ++ repr origin))
  else Ok tt.
End urlsplit.

Section upstream.
Context `{Env}.

(** The singleton: opened on first use, once the origin is checked. *)
Definition get_cf_client : M pystr :=
  client ← gets w_client;
  match client with
  | Some base_url => mret base_url
  | None =>
      let base_url := upstream_base_url env_settings in
      _ ← lift (_assert_pinned_origin base_url);
      _ ← modify (set_client (Some base_url));
      mret base_url
  end.

Definition close_cf_client : M unit :=
  client ← gets w_client;
  match client with
  | Some _ => modify (set_client None)
  | None => mret tt
  end.

(** [{key: value ... if key.lower() not in _STRIPPED_AUTH_HEADERS}]. *)
Definition strip_auth_headers (hs : headers) : headers :=
  filter (fun kv => lower kv.1 ∉ _STRIPPED_AUTH_HEADERS) hs.

Definition forward_request (method path : pystr) (client_headers : option headers)
    (params : option (list (pystr * json))) (body : option (list N))
    (auth_headers : headers) : M http_response :=
  let forwarded_headers :=
    dict_update (strip_auth_headers (default [] client_headers)) auth_headers in
  base_url ← get_cf_client;
  http (HttpRequest method (base_url ++ path) forwarded_headers params body None).

(** The path of a record as it is handed to httpx: the ids are not escaped, and
    what httpx makes of a [?], a [#] or a [..] in them is not modelled here. *)
Definition record_path (zone_id record_id : pystr) : pystr :=
  u "/client/v4/zones/" ++ zone_id ++ u "/dns_records/" ++ record_id.

Definition records_path (zone_id : pystr) : pystr :=
  u "/client/v4/zones/" ++ zone_id ++ u "/dns_records".

(** [JNull] for a missing record. *)
Definition fetch_cf_record (zone_id record_id : pystr) (auth_headers : headers) : M json :=
  response ← forward_request (u "GET") (record_path zone_id record_id) None None None auth_headers;
  if (hs_status response =? 404)%Z then mret JNull
  else
    _ ← lift (raise_for_status response);
    body ← lift (response_json response);
    lift (py_getitem body (u "result")).

Fixpoint list_all_records_loop (fuel : nat) (zone_id : pystr)
    (params : option (list (pystr * json))) (auth_headers : headers)
    (records : list json) (page : Z) : M (list json) :=
  match fuel with
  | O => raise OutOfFuel
  | S fuel' =>
      let page_params := dict_setdefault (u "per_page") (JNum 100)
                           (dict_set (u "page") (JNum page) (default [] params)) in
      response ← forward_request (u "GET") (records_path zone_id) None (Some page_params) None
                   auth_headers;
      _ ← lift (raise_for_status response);
      body ← lift (response_json response);
      result ← lift (py_get body (u "result"));
      items ← lift (py_iter (py_or result (JArr [])));
      result_info ← lift (py_get body (u "result_info"));
      total_pages ← lift (py_get_default (py_or result_info (JObj [])) (u "total_pages") (JNum 1));
      stop ← lift (int_ge page total_pages);
      if (stop : bool) then mret (records ++ items)
      else list_all_records_loop fuel' zone_id params auth_headers (records ++ items) (page + 1)
  end.

Definition list_all_records (fuel : nat) (zone_id : pystr)
    (params : option (list (pystr * json))) (auth_headers : headers) : M (list json) :=
  list_all_records_loop fuel zone_id params auth_headers [] 1.

Definition verify_upstream (auth_headers : headers) : M json :=
  response ← forward_request (u "GET") (u "/client/v4/user/tokens/verify") None None None
               auth_headers;
  lift (response_json response).

(** A value used where the code calls a [str] method. *)
Definition as_str (j : json) : result pystr :=
  match j with JStr s => Ok s | _ => Raise AttributeError end.

(** [timedelta(seconds=j)], in microseconds. *)
Definition as_seconds (j : json) : result Z :=
  match j with
  | JNum n => Ok (n * second)%Z
  | JBool b => Ok (Z.b2z b * second)%Z
  | _ => Raise TypeError
  end.

Definition select_credential (id : pystr) : select (list UpstreamCredential) :=
  Select _ (fun d => select_where (fun c => bool_decide (uc_id c = id)) (credentials d)) false.

(** The rotated columns of the conditional UPDATE. *)
Definition rotate_credential (access refresh : pystr) (expires : option Z) (version : Z)
    (c : UpstreamCredential) : UpstreamCredential := {|
  uc_id := uc_id c; uc_user_id := uc_user_id c; uc_label := uc_label c;
  uc_cred_type := uc_cred_type c; uc_secret_enc := uc_secret_enc c;
  uc_access_token_enc := Some access; uc_refresh_token_enc := Some refresh;
  uc_token_expires_at := expires; uc_oauth_scopes := uc_oauth_scopes c;
  uc_key_version := uc_key_version c; uc_cred_version := version;
  uc_cf_account_email := uc_cf_account_email c; uc_verify_status := uc_verify_status c;
  uc_verified_at := uc_verified_at c; uc_created_at := uc_created_at c |}.

Definition get_valid_access_token (credential : UpstreamCredential) : M pystr :=
  if negb (bool_decide (uc_cred_type credential = u "oauth"))
  then lift (decrypt_secret (uc_secret_enc credential))
  else
    let skew := access_token_skew env_settings in
    cached_enc ← cache_get_json (oauth_at_key (uc_id credential));
    if truthy cached_enc then lift (c ← as_str cached_enc; decrypt_secret (Some c))
    else
      let stmt := with_row_lock (select_credential (uc_id credential)) in
      rows ← db_query (sel_query _ stmt);
      locked ← lift (scalar_one rows);
      n ← now;
      fresh ← lift match uc_token_expires_at locked with
                   | Some e => dt_lt n (dt_add (load_datetime e) (- skew * second))
                   | None => Ok false
                   end;
      if (fresh : bool) then lift (decrypt_secret (uc_access_token_enc locked))
      else
        refresh_token ← lift (decrypt_secret (uc_refresh_token_enc locked));
        token_data ← refresh_access_token refresh_token;
        new_access ← lift (py_getitem token_data (u "access_token"));
        given ← lift (py_get token_data (u "refresh_token"));
        new_refresh ← (if truthy given then mret given
                       else lift (JStr <$> decrypt_secret (uc_refresh_token_enc locked)));
        expires_in ← lift (py_get token_data (u "expires_in"));
        new_expires_at ← lift match expires_in with
                              | JNull => Ok None
                              | j => s ← as_seconds j; Ok (Some (dt_wall (dt_add n s)))
                              end;
        new_access_token ← lift (as_str new_access);
        access_enc ← encrypt_secret new_access_token;
        new_refresh_token ← lift (as_str new_refresh);
        refresh_enc ← encrypt_secret new_refresh_token;
        _ ← db_execute (set_credentials (update_where
              (fun c => bool_decide (uc_id c = uc_id credential)
                        && (uc_cred_version c =? uc_cred_version locked)%Z)
              (rotate_credential access_enc refresh_enc new_expires_at
                 (uc_cred_version locked + 1))));
        _ ← commit;
        match expires_in with
        | JNull => mret new_access_token
        | j =>
            s ← lift (as_seconds j);
            let ttl := Z.max (s / second - skew) 1 in
            at_enc ← encrypt_secret new_access_token;
            _ ← cache_set_json (oauth_at_key (uc_id credential)) (JStr at_enc) ttl;
            mret new_access_token
        end.

(** httpx refuses a header value that is not a string. *)
Definition as_header_value (j : json) : result pystr :=
  match j with JStr s => Ok s | _ => Raise TypeError end.

Definition resolve_upstream_auth (credential : UpstreamCredential) : M headers :=
  if bool_decide (uc_cred_type credential = u "global_key") then
    secret ← lift (decrypt_secret (uc_secret_enc credential));
    data ← lift (json_loads secret);
    email ← lift (py_getitem data (u "email"));
    key ← lift (py_getitem data (u "key"));
    email' ← lift (as_header_value email);
    key' ← lift (as_header_value key);
    mret [(u "X-Auth-Email", email'); (u "X-Auth-Key", key')]
  else
    token ← get_valid_access_token credential;
    mret [(u "Authorization", u "Bearer " ++ token)].
End upstream.

(** ** What is sent *)

Section upstream_laws.
Context `{Env}.

Lemma dict_update_get {V} (k : pystr) (d d' : list (pystr * V)) :
  NoDup d'.*1 ->
  dict_get k (dict_update d d') =
    match dict_get k d' with Some v => Some v | None => dict_get k d end.
Proof.
  unfold dict_update. revert d. induction d' as [|[k' v'] d' IH]; intros d Hnd; [done|].
  inversion Hnd as [|?? Hnin Hnd']; subst. cbn [foldl]. rewrite IH by done. simpl.
  case_bool_decide as Hk.
  - subst k'. replace (dict_get k d') with (@None V).
    + by rewrite dict_get_set_eq.
    + destruct (dict_get k d') as [v|] eqn:E; [|done].
      apply dict_get_Some_elem in E. destruct Hnin. by apply (list_elem_of_fmap_2 fst) in E.
  - destruct (dict_get k d'); [done|]. by rewrite dict_get_set_ne.
Qed.

Lemma pinned_origin_raises base e : _assert_pinned_origin base = Raise e -> plain_exn e.
Proof.
  unfold _assert_pinned_origin. intros [Hs|(parts & _ & Hp)]%result_bind_Raise.
  - unfold urlsplit in Hs. revert Hs. repeat case_match; by intros [= <-].
  - revert Hp. case_if; by intros [= <-].
Qed.

(** The request a forward builds. *)
Definition forwarded (base method path : pystr) (ch : option headers)
    (params : option (list (pystr * json))) (body : option (list N)) (auth : headers) : http_request :=
  HttpRequest method (base ++ path) (dict_update (strip_auth_headers (default [] ch)) auth)
    params body None.

Lemma emits_forward method path ch params body auth Q :
  (forall e, plain_exn e -> Q [] (Raise e)) ->
  (forall base r, answered (forwarded base method path ch params body auth) r ->
     Q [EvHttp (forwarded base method path ch params body auth) (Ok r)] (Ok r)) ->
  (forall base, Q [EvHttp (forwarded base method path ch params body auth) (Raise TransportError)]
                  (Raise TransportError)) ->
  Emits (forward_request method path ch params body auth) Q.
Proof.
  intros He Hok Hno. unfold forward_request.
  eapply (emits_bind _ _ (fun l r => l = [] /\ forall e, r = Raise e -> plain_exn e)).
  - unfold get_cf_client. apply emits_silent. intros w. unfold gets, mbind, M_bind.
    destruct (w_client w); [done|]. unfold lift.
    destruct (_assert_pinned_origin (upstream_base_url env_settings)) as [[]|e] eqn:Ep; [done|].
    split_and!; [done|done|]. intros ? [= <-]. by eapply pinned_origin_raises.
  - intros l e [-> Hl]. auto.
  - intros base l [-> _]. apply emits_http; eauto.
Qed.

(** What upstream said about one record: [JNull] for a 404. *)
Definition fetched (resp : http_response) (v : json) : Prop :=
  hs_status resp = 404%Z /\ v = JNull \/
  hs_status resp ≠ 404%Z /\ raise_for_status resp = Ok tt /\
    exists body, response_json resp = Ok body /\ py_getitem body (u "result") = Ok v.

Definition record_get (base zone rid : pystr) (auth : headers) : http_request :=
  forwarded base (u "GET") (record_path zone rid) None None None auth.

Lemma emits_fetch_cf_record zone rid auth :
  Emits (fetch_cf_record zone rid auth) (fun l r =>
    match r with
    | Ok v => exists base resp, l = [EvHttp (record_get base zone rid auth) (Ok resp)] /\ fetched resp v
    | Raise e => Forall read_only_event l /\ plain_exn e
    end).
Proof.
  unfold fetch_cf_record. eapply emits_bind; [apply (emits_forward _ _ _ _ _ _ (fun l r =>
    match r with
    | Ok resp => exists base, l = [EvHttp (record_get base zone rid auth) (Ok resp)]
    | Raise e => Forall read_only_event l /\ plain_exn e
    end))|done|].
  - done.
  - intros base resp _. by eexists.
  - intros base. split; [|done]. constructor; [by left|done].
  - intros resp l [base ->].
    assert (Hro : Forall read_only_event [EvHttp (record_get base zone rid auth) (Ok resp)])
      by (constructor; [by left|done]).
    destruct (hs_status resp =? 404)%Z eqn:E404; [apply Z.eqb_eq in E404 | apply Z.eqb_neq in E404].
    { apply emits_ret. exists base, resp. by split; [|left]. }
    intros w. exists []. unfold mbind, M_bind, lift.
    destruct (raise_for_status resp) as [[]|e] eqn:Er; simpl; rewrite app_nil_r.
    2: { unfold raise_for_status in Er. split_and!; [done|done|]. revert Er. case_if; by intros [= <-]. }
    destruct (response_json resp) as [body|e] eqn:Eb; simpl.
    2: { unfold response_json in Eb. split_and!; [done|done|]. revert Eb. case_match; by intros [= <-]. }
    destruct (py_getitem body (u "result")) as [v|e] eqn:Ev; simpl.
    2: { split_and!; [done|done|]. by eapply py_getitem_raises. }
    split; [done|]. exists base, resp. split; [done|]. right. eauto.
Qed.
End upstream_laws.

Section upstream_within.
Context `{Env}.

Lemma within_encrypt_secret p E : Within E any_exn (encrypt_secret p).
Proof. unfold encrypt_secret. solve_within. Qed.
Hint Resolve within_encrypt_secret : within.

Lemma within_get_valid_access_token c : Within read_only_event any_exn (get_valid_access_token c).
Proof. unfold get_valid_access_token. solve_within. Qed.
Hint Resolve within_get_valid_access_token : within.

(** Turning a credential into headers never touches a zone. *)
Lemma within_resolve_upstream_auth c : Within read_only_event any_exn (resolve_upstream_auth c).
Proof. unfold resolve_upstream_auth. solve_within. Qed.

Lemma later_resolve_upstream_auth c : Keeps later (resolve_upstream_auth c).
Proof.
  assert (Hm : forall f, (forall w, w_tick (f w) = w_tick w) -> Keeps later (modify f))
    by (intros f Hf w; unfold later; simpl; rewrite Hf; lia).
  assert (Ht : Keeps later tick) by (intros w; unfold later; simpl; lia).
  assert (Hr : forall A (f : nat -> M A), (forall t, Keeps later (f t)) -> Keeps later (redis_command f))
    by (intros A f Hf; unfold redis_command; solve_keeps).
  assert (Hg : forall key, Keeps later (redis_get key)) by (intros; unfold redis_get; apply Hr; solve_keeps).
  assert (Hs : forall key v ttl, Keeps later (redis_set key v ttl)).
  { intros. unfold redis_set. apply Hr. intros t. destruct (ttl <=? 0)%Z; [solve_keeps|by apply Hm]. }
  assert (Hh : forall rq, Keeps later (http rq)).
  { intros rq w. unfold later, http. destruct (cf_request _ _). simpl. lia. }
  assert (Hrb : Keeps later rollback) by by apply Hm.
  assert (Hx : forall f, Keeps later (modify (set_sess f))) by (intros; by apply Hm).
  assert (Hd : forall d, Keeps later (modify (fun w => set_db (w_sess w) w))) by (intros; by apply Hm).
  unfold resolve_upstream_auth, get_valid_access_token, refresh_access_token, post_token, encrypt_secret,
    cache_get_json, cache_set_json, swallow, db_execute, db_query, now, commit, flush. solve_keeps.
Qed.

Lemma within_fetch_cf_record zone rid auth :
  Within read_only_event any_exn (fetch_cf_record zone rid auth).
Proof.
  eapply emits_mono; [apply emits_fetch_cf_record|]. intros l [v|e]; [|intros [? _]; by split].
  intros (base & resp & -> & _). split; [|done]. constructor; [by left|done].
Qed.
End upstream_within.
#[export] Hint Resolve within_encrypt_secret within_resolve_upstream_auth
  within_fetch_cf_record : within.

(** ** Paging *)

Section paging.
Context `{Env}.

(** What the loop reads of one page: its items, and whether it is the last. *)
Definition parse_page (page : Z) (response : http_response) : result (list json * bool) :=
  _ ← raise_for_status response;
  body ← response_json response;
  result ← py_get body (u "result");
  items ← py_iter (py_or result (JArr []));
  result_info ← py_get body (u "result_info");
  total_pages ← py_get_default (py_or result_info (JObj [])) (u "total_pages") (JNum 1);
  stop ← int_ge page total_pages;
  Ok (items, stop).

Definition page_request (base zone : pystr) (params : option (list (pystr * json)))
    (auth : headers) (page : Z) : http_request :=
  forwarded base (u "GET") (records_path zone) None
    (Some (dict_setdefault (u "per_page") (JNum 100)
             (dict_set (u "page") (JNum page) (default [] params)))) None auth.

Lemma list_loop_unfold fuel zone params auth records page w :
  list_all_records_loop (S fuel) zone params auth records page w =
  (response ← forward_request (u "GET") (records_path zone) None
     (Some (dict_setdefault (u "per_page") (JNum 100)
             (dict_set (u "page") (JNum page) (default [] params)))) None auth;
   '(items, stop) ← lift (parse_page page response);
   if (stop : bool) then mret (records ++ items)
   else list_all_records_loop fuel zone params auth (records ++ items) (page + 1)) w.
Proof.
  cbn [list_all_records_loop]. apply bind_ext. intros r w1.
  unfold parse_page, mbind, M_bind, result_bind, lift.
  repeat (case_match; simplify_eq/=; try done).
Qed.

Lemma py_iter_raises j e : py_iter j = Raise e -> e = TypeError.
Proof. destruct j; simpl; congruence. Qed.
Lemma int_ge_raises n j e : int_ge n j = Raise e -> e = TypeError.
Proof. destruct j; simpl; congruence. Qed.

Lemma parse_page_raises page r e : parse_page page r = Raise e -> plain_exn e.
Proof.
  assert (Hget : forall j k v, py_get_default j k v = Raise e -> plain_exn e)
    by (intros j k v Hg; by apply py_get_default_raises in Hg as ->).
  unfold parse_page, raise_for_status, response_json, py_get.
  intros [Hr|(? & _ & [Hb|(b & _ & Hp)]%result_bind_Raise)]%result_bind_Raise.
  { revert Hr. case_if; by intros [= <-]. }
  { revert Hb. case_match; by intros [= <-]. }
  apply result_bind_Raise in Hp as [?|(res & _ & Hp)]; [by eapply Hget|].
  apply result_bind_Raise in Hp as [->%py_iter_raises|(items & _ & Hp)]; [done|].
  apply result_bind_Raise in Hp as [?|(info & _ & Hp)]; [by eapply Hget|].
  apply result_bind_Raise in Hp as [?|(total & _ & Hp)]; [by eapply Hget|].
  by apply result_bind_Raise in Hp as [->%int_ge_raises|(? & _ & [=])].
Qed.

(** The pages from [p] on that a listing fetched, and their items. *)
Inductive pages (zone : pystr) (params : option (list (pystr * json))) (auth : headers) :
    Z -> list event -> list json -> Prop :=
| last_page p base r items :
    parse_page p r = Ok (items, true) ->
    pages zone params auth p [EvHttp (page_request base zone params auth p) (Ok r)] items
| more_pages p base r items l rest :
    parse_page p r = Ok (items, false) -> pages zone params auth (p + 1) l rest ->
    pages zone params auth p
      (EvHttp (page_request base zone params auth p) (Ok r) :: l) (items ++ rest).

Lemma emits_list_loop fuel zone params auth records page :
  Emits (list_all_records_loop fuel zone params auth records page) (fun l r =>
    Forall read_only_event l /\
    forall out, r = Ok out -> exists rest, out = records ++ rest /\ pages zone params auth page l rest).
Proof.
  revert records page. induction fuel as [|fuel IH]; intros records page; [by apply emits_raise|].
  eapply emits_ext; [apply list_loop_unfold|].
  eapply emits_bind; [apply (emits_forward _ _ _ _ _ _ (fun l r =>
    Forall read_only_event l /\ forall resp, r = Ok resp -> exists base,
      l = [EvHttp (page_request base zone params auth page) (Ok resp)]))|..].
  - done.
  - intros base r _. split; [constructor; [by left|done]|]. intros resp [= <-]. by exists base.
  - intros base. split; [constructor; [by left|done]|done].
  - by intros l e [Hl _].
  - intros resp l [Hl Hr]. destruct (Hr resp eq_refl) as [base ->].
    destruct (parse_page page resp) as [[items stop]|e] eqn:Ep; [|by apply emits_raise].
    change (lift (Ok (items, stop)) ≫= ?f) with (f (items, stop)). cbv beta iota.
    destruct stop.
    + apply emits_ret. split; [done|]. intros out [= <-]. exists items. split; [done|].
      by apply last_page.
    + eapply emits_mono; [apply IH|]. intros l' r [Hl' Hr'].
      split; [by apply Forall_app|]. intros out Hout.
      destruct (Hr' out Hout) as (rest & -> & Hpages). exists (items ++ rest).
      split; [by rewrite app_assoc|]. by apply more_pages.
Qed.
End paging.

Section paging_fuel.
Context `{Env}.

(** Upstream never announces more than [n] pages. *)
Definition bounded_pages (n : Z) : Prop :=
  forall rq r page items, answered rq r -> parse_page page r = Ok (items, false) -> (page < n)%Z.

Lemma list_loop_fuel n fuel zone params auth records page :
  bounded_pages n -> fuel ≠ 0 -> (n < page + Z.of_nat fuel)%Z ->
  Emits (list_all_records_loop fuel zone params auth records page)
    (fun _ r => r ≠ Raise OutOfFuel).
Proof.
  intros Hn. revert records page. induction fuel as [|fuel IH]; intros records page Hf Hlt; [done|].
  eapply emits_ext; [apply list_loop_unfold|].
  eapply emits_bind; [apply (emits_forward _ _ _ _ _ _ (fun l r =>
    r ≠ Raise OutOfFuel /\ forall resp, r = Ok resp -> exists rq, answered rq resp))|..].
  - intros e He. split; [by intros [= ->]|done].
  - intros base r Hr. split; [done|]. intros resp [= <-]. by eexists.
  - done.
  - intros l e [He _] [= Ee]. apply He. by rewrite Ee.
  - intros resp l [_ Hr]. destruct (Hr resp eq_refl) as [rq Ha].
    destruct (parse_page page resp) as [[items stop]|e] eqn:Ep.
    2: { apply emits_raise. intros [= ->]. by apply parse_page_raises in Ep. }
    change (lift (Ok (items, stop)) ≫= ?f) with (f (items, stop)). cbv beta iota.
    destruct stop; [by apply emits_ret|].
    specialize (Hn rq resp page items Ha Ep). apply IH; [intros ->; lia|lia].
Qed.
End paging_fuel.

(** ** The origin of an ASCII base URL *)

Section origin.
Context `{Unicode}.

Lemma lower_ascii s : is_ascii s = true -> lower s = lower_char <$> s.
Proof. unfold lower. by intros ->. Qed.

Lemma lower_char_plain c d : (d < 97)%N -> lower_char c = d -> c = d.
Proof.
  unfold lower_char, is_upper_ascii, in_range. intros Hd.
  destruct (_ && _) eqn:E; [|done]. apply andb_true_iff in E as [?%N.leb_le ?%N.leb_le]. lia.
Qed.

Lemma lower_char_id c : is_upper_ascii c = false -> lower_char c = c.
Proof. unfold lower_char. by intros ->. Qed.

Lemma lower_char_twice (s : pystr) : lower_char <$> (lower_char <$> s) = lower_char <$> s.
Proof.
  rewrite <- list_fmap_compose. apply list_fmap_ext. intros i c _. simpl.
  apply lower_char_id, lower_char_idem.
Qed.

Lemma partition_at_found c s h t : partition_at c s = (h, true, t) -> s = h ++ c :: t /\ c ∉ h.
Proof.
  revert h t. induction s as [|x s IH]; intros h t; simpl; [done|]. destruct (x =? c)%N eqn:E.
  - intros [= <- <-]. apply N.eqb_eq in E as ->. split; [done|by intros ?%elem_of_nil].
  - destruct (partition_at c s) as [[h' f] t']. intros [= <- -> <-]. destruct (IH _ _ eq_refl) as [-> Hn].
    split; [done|]. apply N.eqb_neq in E. rewrite not_elem_of_cons. by split.
Qed.

Lemma take_netloc_slash s : 47%N ∉ take_netloc s.
Proof.
  induction s as [|c s IH]; simpl; [by intros ?%elem_of_nil|].
  destruct (_ || _) eqn:E; [by intros ?%elem_of_nil|]. rewrite not_elem_of_cons.
  rewrite !orb_false_iff, !N.eqb_neq in E. split; [|done]. intros <-. by destruct E as [[] _].
Qed.

Lemma take_netloc_prefix s : take_netloc s `prefix_of` s.
Proof.
  induction s as [|c s IH]; simpl; [done|]. destruct (_ || _); [apply prefix_nil|by apply prefix_cons].
Qed.

Lemma is_ascii_incl a b : a ⊆ b -> is_ascii b = true -> is_ascii a = true.
Proof. unfold is_ascii. rewrite !forallb_forall. setoid_rewrite <- list_elem_of_In. auto. Qed.

(** The pieces of a split: a scheme in lower case without a colon, a location
    without a slash, both out of the characters of the URL. *)
Lemma urlsplit_pieces url scheme netloc :
  urlsplit url = Ok (scheme, netloc) -> is_ascii url = true ->
  is_ascii scheme = true /\ is_ascii netloc = true /\ (47%N ∉ netloc) /\
  lower_char <$> scheme = scheme /\ char_colon ∉ scheme.
Proof.
  unfold urlsplit. intros Hsplit Ha.
  set (url2 := filter _ _) in Hsplit.
  assert (Ha2 : is_ascii url2 = true).
  { eapply is_ascii_incl; [|exact Ha]. intros c Hc. apply list_elem_of_filter in Hc as [_ Hc].
    destruct (drop_while_suffix (fun c => (c <=? 32)%N) url) as [k E]. rewrite E. apply elem_of_app. by right. }
  assert (Hs : let '(sch, rest) := split_scheme url2 in rest ⊆ url2 /\ is_ascii sch = true /\
    lower_char <$> sch = sch /\ char_colon ∉ sch).
  { clear Hsplit. unfold split_scheme. destruct (partition_at _ _) as [[h f] t] eqn:Ep.
    destruct h as [|c h]; [split_and!; [done..|by intros ?%elem_of_nil]|].
    destruct (f && _ && _) eqn:Ef; [|split_and!; [done..|by intros ?%elem_of_nil]].
    rewrite !andb_true_iff in Ef. destruct Ef as [[-> _] Hc].
    apply partition_at_found in Ep as [E Hn].
    assert (Hh : is_ascii (c :: h) = true).
    { eapply is_ascii_incl; [|exact Ha2]. rewrite E. intros x ?. by apply elem_of_app; left. }
    rewrite lower_ascii by done. split_and!; [| |apply lower_char_twice|].
    - rewrite E. intros x ?. apply elem_of_app. right. by right.
    - unfold is_ascii in *. rewrite forallb_forall in *. setoid_rewrite <- list_elem_of_In in Hh.
      intros y (x & -> & Hx)%list_elem_of_In%list_elem_of_fmap. by apply lower_char_ascii, Hh.
    - intros (x & Hx & Hin)%list_elem_of_fmap. symmetry in Hx. apply lower_char_plain in Hx; [by subst|done..]. }
  destruct (split_scheme url2) as [sch rest]. destruct Hs as (Hin & Hsa & Hlow & Hcol).
  assert (Hpiece : exists n, Ok (sch, n) = Ok (scheme, netloc) /\ is_ascii n = true /\ (47%N ∉ n)).
  { revert Hsplit Hin. clear -Ha2. repeat case_match; intros Hsplit Hin; subst; try done;
      try (by exists []; split_and!; [|done|intros ?%elem_of_nil]).
    eexists. split_and!; [exact Hsplit| |apply take_netloc_slash].
    eapply is_ascii_prefix; [apply take_netloc_prefix|]. eapply is_ascii_incl; [|exact Ha2].
    intros x ?. apply Hin. by do 2 right. }
  destruct Hpiece as (n & [= <- <-] & Hna & Hns). by split_and!.
Qed.

(** Two strings cut at their first colon. *)
Lemma first_colon_inj (a a' b b' : pystr) :
  char_colon ∉ a -> char_colon ∉ a' -> a ++ char_colon :: b = a' ++ char_colon :: b' -> a = a' /\ b = b'.
Proof.
  revert a'. induction a as [|x a IH]; intros [|y a'] Ha Ha' E; simpl in E; injection E.
  - by intros ->.
  - intros _ <-. destruct Ha'. by left.
  - intros _ ->. destruct Ha. by left.
  - intros E' ->. rewrite not_elem_of_cons in Ha, Ha'. destruct (IH a') as [-> ->]; [tauto..|done|done].
Qed.

Lemma urlsplit_origin base scheme netloc :
  urlsplit base = Ok (scheme, netloc) ->
  rstrip_char 47 (lower (scheme ++ u "://" ++ netloc)) = u "https://api.cloudflare.com" ->
  is_ascii base = true -> scheme = u "https" /\ lower netloc = u "api.cloudflare.com".
Proof.
  intros Hs E Ha. destruct (urlsplit_pieces _ _ _ Hs Ha) as (Hsa & Hna & Hns & Hlow & Hcol).
  rewrite lower_ascii in E by (rewrite !is_ascii_app, Hsa, Hna; done).
  rewrite !fmap_app, Hlow in E.
  assert (Hslash : 47%N ∉ lower_char <$> netloc).
  { intros (x & Hx & Hin)%list_elem_of_fmap. symmetry in Hx. apply lower_char_plain in Hx; [by subst|done..]. }
  destruct (decide (netloc = [])) as [->|Hne].
  - (* the slashes are stripped: no host is left *)
    exfalso. destruct (rstrip_by_prefix (N.eqb 47) (scheme ++ (lower_char <$> u "://") ++ (lower_char <$> []))) as [k Hk].
    unfold rstrip_char in E. rewrite E in Hk.
    apply (f_equal (fun l => (l ++ [] : pystr))) in Hk. rewrite !app_nil_r in Hk.
    change (u "https://api.cloudflare.com") with (u "https" ++ char_colon :: u "//api.cloudflare.com") in Hk.
    rewrite <- app_assoc in Hk. apply first_colon_inj in Hk as [_ Hk]; [done|done|].
    vm_compute. intros Hin. repeat (apply elem_of_cons in Hin as [Hin|Hin]; [done|]). by apply elem_of_nil in Hin.
  - unfold rstrip_char in E. rewrite rstrip_by_id in E.
    + change (u "https://api.cloudflare.com") with (u "https" ++ char_colon :: u "//api.cloudflare.com") in E.
      apply first_colon_inj in E as [-> E]; [|done|].
      * split; [done|]. rewrite lower_ascii by done. by injection E.
      * vm_compute. intros Hin. repeat (apply elem_of_cons in Hin as [Hin|Hin]; [done|]). by apply elem_of_nil in Hin.
    + intros s' c Ec. apply N.eqb_neq. intros <-. apply Hslash.
      destruct (lower_char <$> netloc) as [|x l] eqn:En using rev_ind; [by apply fmap_nil_inv in En|].
      rewrite !app_assoc in Ec. apply app_inj_tail in Ec as [_ ->]. apply elem_of_app. right. by left.
Qed.
End origin.

(** ** Properties *)

Section upstream_properties.
Context `{Env}.

(** What a base URL must be to be used: its scheme and location, in lower case
    and without a trailing slash, spell the API of Cloudflare over TLS; on ASCII
    URLs the scheme is [https] and the location that host and nothing else, no
    user, port or further label. *)
Definition cloudflare_origin (base : pystr) : Prop :=
  exists scheme netloc, urlsplit base = Ok (scheme, netloc) /\
    rstrip_char 47 (lower (scheme ++ u "://" ++ netloc)) = u "https://api.cloudflare.com" /\
    (is_ascii base = true -> scheme = u "https" /\ lower netloc = u "api.cloudflare.com").

Lemma pinned_origin_cloudflare base : _assert_pinned_origin base = Ok tt -> cloudflare_origin base.
Proof.
  unfold _assert_pinned_origin. intros ([scheme netloc] & Hs & Hb)%result_bind_Ok. simpl in Hb.
  destruct (bool_decide _) eqn:E; [|done]. apply bool_decide_eq_true_1 in E.
  exists scheme, netloc. split_and!; [done|exact E|]. intros Ha. by eapply urlsplit_origin.
Qed.

(** The singleton was opened at the pinned origin, if at all. *)
Definition client_pinned (w : world) : Prop :=
  forall base, w_client w = Some base -> cloudflare_origin base.

(** C25: everything that leaves through [forward_request] goes to the API of
    Cloudflare over TLS, with the method, path, parameters and body it was
    given; no authentication header of the client is forwarded (only those
    the proxy adds itself), and the proxy's own headers take precedence. A run
    that does not send that request sends none and raises. *)
Theorem forward_request_pinned method path client_headers params body auth w r w' :
  client_pinned w -> NoDup auth.*1 ->
  forward_request method path client_headers params body auth w = (r, w') ->
  client_pinned w' /\
  (w_trace w' = w_trace w /\ (exists e, r = Raise e) \/
   exists base hs, cloudflare_origin base /\
     w_trace w' = w_trace w ++ [EvHttp (HttpRequest method (base ++ path) hs params body None) r] /\
     (forall k v, dict_get k auth = Some v -> dict_get k hs = Some v) /\
     (forall k, dict_get k auth = None -> lower k ∈ _STRIPPED_AUTH_HEADERS -> dict_get k hs = None)).
Proof.
  intros Hpin Hnd. unfold forward_request.
  assert (Hclient : (exists base, get_cf_client w = (Ok base, set_client (Some base) w) /\
      cloudflare_origin base) \/ exists e, get_cf_client w = (Raise e, w)).
  { unfold get_cf_client, mbind, M_bind, gets, lift. destruct (w_client w) as [base|] eqn:Ec.
    - left. exists base. split; [|by apply Hpin]. unfold mret, M_ret, set_client.
      f_equal. destruct w. simpl in *. by subst.
    - destruct (_assert_pinned_origin (upstream_base_url env_settings)) as [[]|e] eqn:Ep;
        [left; exists (upstream_base_url env_settings); split; [done|by apply pinned_origin_cloudflare] | right; by eexists]. }
  destruct Hclient as [(base & E & Hb)|[e E]].
  - rewrite (bind_step _ _ _ _ _ E). unfold http.
    destruct (cf_request _ _) as [res c]. intros [= <- <-].
    split; [by intros base' [= <-]|]. right. eexists base, _. split_and!; [done|done| |].
    + intros k v Hk. rewrite dict_update_get by done. by rewrite Hk.
    + intros k Hk Hs. rewrite dict_update_get, Hk by done.
      destruct (dict_get k (strip_auth_headers (default [] client_headers))) as [v|] eqn:Ek; [|done].
      apply dict_get_Some_elem, list_elem_of_filter in Ek as [Hne _]. done.
  - rewrite (bind_raise _ _ _ _ _ E). intros [= <- <-]. split; [done|]. left. eauto.
Qed.

(** A listing returns the items of all pages, in the order of the pages
    from the first to the last announced one, each fetched exactly once and
    nothing else requested. *)
Theorem list_all_records_pages fuel zone params auth w out w' :
  list_all_records fuel zone params auth w = (Ok out, w') ->
  exists l, w_trace w' = w_trace w ++ l /\ pages zone params auth 1 l out.
Proof.
  intros Hrun. destruct (emits_list_loop fuel zone params auth [] 1 w) as (l & E & _ & Hout).
  unfold list_all_records in Hrun. rewrite Hrun in E, Hout. simpl in *.
  destruct (Hout out eq_refl) as (rest & -> & Hp). by exists l.
Qed.

(** C38: the paging loop ends: when upstream never announces more than [n]
    pages, [n] iterations (one at least) are enough, whatever else goes
    wrong. *)
Theorem list_all_records_terminates n fuel zone params auth w :
  bounded_pages n -> fuel ≠ 0 -> (n <= Z.of_nat fuel)%Z ->
  (list_all_records fuel zone params auth w).1 ≠ Raise OutOfFuel.
Proof.
  intros Hn Hf Hle. unfold list_all_records.
  destruct (list_loop_fuel n fuel zone params auth [] 1 Hn Hf ltac:(lia) w) as (l & _ & Hr). done.
Qed.
End upstream_properties.

(** ** What authenticating upstream may change in the tables *)

Section auth_frame.
Context `{Env}.

(** Nothing but the columns of credentials other than their key and owner. *)
Record auth_frame (w w' : world) : Prop := AuthFrame {
  frame_tokens : tokens (w_sess w') = tokens (w_sess w);
  frame_rules : rules (w_sess w') = rules (w_sess w);
  frame_users : users (w_sess w') = users (w_sess w);
  frame_audits : audits (w_sess w') = audits (w_sess w);
  frame_keys : (fun c => (uc_id c, uc_user_id c)) <$> credentials (w_sess w') =
               (fun c => (uc_id c, uc_user_id c)) <$> credentials (w_sess w);
}.

#[export] Instance auth_frame_preorder : PreOrder auth_frame.
Proof.
  split; [by split|]. intros w1 w2 w3 [] []. split; by etrans.
Qed.

Lemma same_sess_frame w w' : w_sess w' = w_sess w -> auth_frame w w'.
Proof. intros E. split; by rewrite E. Qed.

Lemma same_db_keeps_ok {A} (m : M A) : Keeps same_db m -> KeepsOk auth_frame m.
Proof.
  intros Hm w a w' E. destruct (Hm w) as (_ & Hs & _). rewrite E in Hs. by apply same_sess_frame.
Qed.

Lemma frame_http rq : KeepsOk auth_frame (http rq).
Proof. apply same_db_keeps_ok, keeps_http_db. Qed.
Lemma frame_now : KeepsOk auth_frame now.
Proof. apply same_db_keeps_ok, keeps_now_db. Qed.
Lemma frame_db_query {A} (f : database -> A) : KeepsOk auth_frame (db_query f).
Proof. apply same_db_keeps_ok, keeps_db_query_db. Qed.
Lemma frame_cache_get key : KeepsOk auth_frame (cache_get_json key).
Proof. apply same_db_keeps_ok, keeps_cache_get_db. Qed.
Lemma frame_cache_set key v ttl : KeepsOk auth_frame (cache_set_json key v ttl).
Proof. apply same_db_keeps_ok, keeps_cache_set_db. Qed.
Lemma frame_commit : KeepsOk auth_frame commit.
Proof. intros w a w' (_ & _ & ->)%commit_Ok. by apply same_sess_frame. Qed.
Lemma frame_tick : KeepsOk auth_frame tick.
Proof. apply same_db_keeps_ok, keeps_tick_db. Qed.
Lemma frame_gets {A} (f : world -> A) : KeepsOk auth_frame (gets f).
Proof. by intros w a w' [= <- <-]. Qed.
Lemma frame_set_client c : KeepsOk auth_frame (modify (set_client c)).
Proof. intros w a w' [= <- <-]. by apply same_sess_frame. Qed.

Lemma frame_rotate p a r e v : KeepsOk auth_frame
  (db_execute (set_credentials (update_where p (rotate_credential a r e v)))).
Proof.
  intros w x w'. unfold db_execute, tick, raise, modify, mbind, M_bind.
  destruct (db_down _); [done|]. intros [= <- <-].
  split; try done. simpl. unfold update_where. rewrite <- list_fmap_compose.
  apply list_fmap_ext. intros i c _. simpl. by destruct (p c).
Qed.

Hint Resolve frame_http frame_now frame_db_query frame_cache_get frame_cache_set frame_commit
  frame_tick frame_gets frame_set_client frame_rotate : keeps_ok.

Lemma frame_encrypt p : KeepsOk auth_frame (encrypt_secret p).
Proof. unfold encrypt_secret. solve_keeps_ok. Qed.
Lemma frame_refresh t : KeepsOk auth_frame (refresh_access_token t).
Proof. unfold refresh_access_token, post_token. solve_keeps_ok. Qed.
Hint Resolve frame_encrypt frame_refresh : keeps_ok.

Lemma frame_get_valid_access_token c : KeepsOk auth_frame (get_valid_access_token c).
Proof. unfold get_valid_access_token. solve_keeps_ok. Qed.
Hint Resolve frame_get_valid_access_token : keeps_ok.

Lemma frame_resolve_auth c : KeepsOk auth_frame (resolve_upstream_auth c).
Proof. unfold resolve_upstream_auth. solve_keeps_ok. Qed.

Lemma frame_forward m p ch ps b a : KeepsOk auth_frame (forward_request m p ch ps b a).
Proof. unfold forward_request, get_cf_client. solve_keeps_ok. Qed.
End auth_frame.
#[export] Hint Resolve frame_now frame_commit frame_tick frame_db_query frame_resolve_auth
  frame_forward frame_encrypt frame_cache_get frame_cache_set : keeps_ok.
