(* ===== verification/AccessTokens.v ===== *)
(** * Delegated access tokens ([upstream/client.py], [get_valid_access_token])

    The ways a call of [get_valid_access_token] can end, as a relation between
    the world before it, the token and the world after it, and the theorem that
    the code implements it. *)

From S2P Require Import Prelude PyStr Json Scope Models World Crypto Cache Locks OAuthCf Upstream.

(** ** The specification *)

Section spec.
Context `{Env}.

(** Tables and trace are left as they are. *)
Definition silent (w w' : world) : Prop := same_db w w' /\ w_trace w' = w_trace w.

(** Valid for longer than the configured skew, by the clock at [k]. *)
Definition still_valid (row : UpstreamCredential) (k : nat) : Prop :=
  exists e, uc_token_expires_at row = Some e /\
  dt_lt (DT (clock k) (Some 0%Z))
    (dt_add (load_datetime e) (- access_token_skew env_settings * second)) = Ok true.

(** The request that trades a refresh token in. *)
Definition refresh_request (refresh_token : pystr) : http_request :=
  HttpRequest (u "POST") (cf_oauth_issuer env_settings ++ u "/oauth2/token") [] None None (Some [
    (u "grant_type", u "refresh_token");
    (u "refresh_token", refresh_token);
    (u "client_id", cf_oauth_client_id env_settings);
    (u "client_secret", cf_oauth_client_secret env_settings)]).

(** The expiry column for the answer [data] at the time [n]. *)
Definition expiry_column (data : json) (n : datetime) (expires : option Z) : Prop :=
  (py_get data (u "expires_in") = Ok JNull /\ expires = None) \/
  (exists j s, py_get data (u "expires_in") = Ok j /\ as_seconds j = Ok s /\
     expires = Some (dt_wall (dt_add n s))).

(** The answer [data] to the trade of [old]: the access token, the refresh
    token to keep. *)
Definition traded (data : json) (old access refresh : pystr) : Prop :=
  py_getitem data (u "access_token") = Ok (JStr access) /\
  exists given, py_get data (u "refresh_token") = Ok given /\
    (if truthy given then given = JStr refresh else refresh = old).

(** The rotation of [row], fenced by the version that was read. *)
Definition rotated (row : UpstreamCredential) (access refresh : pystr) (expires : option Z)
    : database -> database :=
  set_credentials (update_where
    (fun c => bool_decide (uc_id c = uc_id row) && (uc_cred_version c =? uc_cred_version row)%Z)
    (rotate_credential access refresh expires (uc_cred_version row + 1))).

Inductive access_token (c : UpstreamCredential) (w : world) (token : pystr) (w' : world) : Prop :=
| token_pasted :
    uc_cred_type c ≠ u "oauth" -> decrypt_secret (uc_secret_enc c) = Ok token -> w' = w ->
    access_token c w token w'
| token_cached enc :
    uc_cred_type c = u "oauth" ->
    cache_get_json (oauth_at_key (uc_id c)) w = (Ok (JStr enc), w') ->
    decrypt_secret (Some enc) = Ok token -> silent w w' ->
    access_token c w token w'
| token_stored row k :
    uc_cred_type c = u "oauth" ->
    row ∈ credentials (w_sess w) -> uc_id row = uc_id c -> still_valid row k ->
    decrypt_secret (uc_access_token_enc row) = Ok token -> silent w w' ->
    access_token c w token w'
| token_refreshed row old resp data refresh expires k k1 k2 :
    uc_cred_type c = u "oauth" ->
    row ∈ credentials (w_sess w) -> uc_id row = uc_id c -> ~ still_valid row k ->
    decrypt_secret (uc_refresh_token_enc row) = Ok old ->
    response_json resp = Ok data -> traded data old token refresh ->
    expiry_column data (DT (clock k) (Some 0%Z)) expires ->
    w_trace w' = w_trace w ++ [EvHttp (refresh_request old) (Ok resp)] ->
    w_db w' = rotated row (fernet_encrypt k1 token) (fernet_encrypt k2 refresh) expires (w_sess w) ->
    w_sess w' = w_db w' ->
    access_token c w token w'.

(** A run that fails commits nothing. *)
Definition settles (c : UpstreamCredential) (w : world) (r : result pystr) (w' : world) : Prop :=
  match r with Ok token => access_token c w token w' | Raise _ => w_db w' = w_db w end.
End spec.

(** ** Steps *)

Section steps.
Context `{Env}.

#[export] Instance silent_preorder : PreOrder silent.
Proof.
  split; [by intros w|]. intros w1 w2 w3 [S1 T1] [S2 T2]. split; [by etrans|congruence].
Qed.

Lemma silent_intro {A} X (m : M A) : Within no_event X m -> Keeps same_db m -> Keeps silent m.
Proof.
  intros Hw Hk w. split; [apply Hk|]. destruct (Hw w) as ([|ev l] & E & Hl & _); [|by inversion Hl].
  by rewrite E, app_nil_r.
Qed.

Lemma silent_cache_get key : Keeps silent (cache_get_json key).
Proof. eapply (silent_intro any_exn); [apply within_cache_get|apply keeps_cache_get_db]. Qed.
Lemma silent_db_query {A} (f : database -> A) : Keeps silent (db_query f).
Proof. eapply (silent_intro any_exn); [solve_within|apply keeps_db_query_db]. Qed.
Lemma silent_now : Keeps silent now.
Proof. eapply (silent_intro any_exn); [solve_within|apply keeps_now_db]. Qed.
Lemma silent_encrypt p : Keeps silent (encrypt_secret p).
Proof.
  eapply (silent_intro any_exn); [unfold encrypt_secret; solve_within|].
  unfold encrypt_secret. solve_keeps.
Qed.

Lemma encrypt_Ok p w enc w' :
  encrypt_secret p w = (Ok enc, w') -> exists k, enc = fernet_encrypt k p.
Proof.
  unfold encrypt_secret. intros (bs & w1 & [_ ->]%lift_Ok & Hr)%M_bind_Ok.
  unfold tick, mbind, M_bind in Hr. simpl in Hr. injection Hr as <- <-. by eexists.
Qed.

(** Sealing again what was sealed before cannot fail. *)
Lemma encrypt_again p w enc w' w1 :
  encrypt_secret p w = (Ok enc, w') -> exists enc' w1', encrypt_secret p w1 = (Ok enc', w1') /\ silent w1 w1'.
Proof.
  intros (bs & ? & [Hbs ->]%lift_Ok & _)%M_bind_Ok. pose proof (silent_encrypt p w1) as Hs.
  revert Hs. unfold encrypt_secret, lift, tick, mbind, M_bind. rewrite Hbs. simpl. by eexists _, _.
Qed.
End steps.

(** ** The code implements it *)

Section settle.
Context `{Env}.
Variables (c : UpstreamCredential) (w0 : world).

(** Before the commit: the tables are those at the start, and [l] was sent. *)
Definition underway (l : list event) (w : world) : Prop :=
  same_db w0 w /\ w_trace w = w_trace w0 ++ l.

Section underway.
Context {A B : Type} (l : list event) (Q : result B -> world -> Prop).
Hypothesis Q_raise : forall e w', w_db w' = w_db w0 -> Q (Raise e) w'.

(** A silent step: what it returns is bound, and no failure commits. *)
Lemma wp_silent (m : M A) (f : A -> M B) w :
  Keeps silent m -> underway l w ->
  (forall a w', m w = (Ok a, w') -> underway l w' -> wp (f a) Q w') -> wp (m ≫= f) Q w.
Proof.
  intros Hm [[Hd Hs] Ht] Hf. apply wp_bind. destruct (Hm w) as [[Hd' Hs'] Ht']. unfold wp, on_ok.
  destruct (m w) as [[a|e] w'] eqn:E; simpl in *; [|apply Q_raise; congruence].
  apply Hf; [done|]. destruct Hs as [Hs Hc], Hs' as [Hs' Hc']. repeat split; congruence.
Qed.

Lemma wp_lift_bind (r : result A) (f : A -> M B) w :
  underway l w -> (forall a, r = Ok a -> wp (f a) Q w) -> wp (lift r ≫= f) Q w.
Proof.
  intros [[Hd _] _] Hf. apply wp_bind, wp_lift. destruct r; simpl; [by apply Hf|by apply Q_raise].
Qed.

(** The conditional UPDATE and the commit: all or nothing. *)
Lemma wp_store f (k : M B) w :
  underway l w ->
  (forall w', w_db w' = f (w_sess w0) -> w_sess w' = w_db w' -> w_trace w' = w_trace w0 ++ l -> wp k Q w') ->
  wp (db_execute f ≫= fun _ => commit ≫= fun _ => k) Q w.
Proof.
  intros [(Hd & Hs & _) Ht] Hk. apply wp_bind.
  unfold wp at 1, db_execute, tick, raise, modify, mbind, M_bind, on_ok.
  destruct (db_down (w_tick w)); simpl; [by apply Q_raise|]. apply wp_bind. unfold wp at 1, on_ok.
  match goal with |- context [commit ?w1] => destruct (commit w1) as [[[]|e] w2] eqn:Ec end; simpl.
  - apply commit_Ok in Ec as (_ & _ & ->). apply Hk; simpl; [by rewrite Hs|done|done].
  - apply commit_Raise in Ec as [Ed _]. apply Q_raise. by rewrite Ed.
Qed.

(** The token endpoint: one exchange, or a failure. *)
Lemma wp_refresh old (f : json -> M B) w :
  underway l w ->
  (forall resp data w', response_json resp = Ok data ->
     underway (l ++ [EvHttp (refresh_request old) (Ok resp)]) w' -> wp (f data) Q w') ->
  wp (refresh_access_token old ≫= f) Q w.
Proof.
  intros [[Hd Hs] Ht] Hf. unfold refresh_access_token, post_token. fold (refresh_request old).
  apply wp_bind, wp_bind. unfold wp at 1, http, on_ok.
  destruct (cf_request (refresh_request old) (w_cf w)) as [[resp|] s]; simpl; [|by apply Q_raise].
  apply wp_bind, wp_lift. destruct (raise_for_status resp); simpl; [|by apply Q_raise].
  apply wp_lift. destruct (response_json resp) as [data|] eqn:Ej; simpl; [|by apply Q_raise].
  apply (Hf resp data); [done|]. destruct Hs. repeat split; simpl; [done..|]. by rewrite Ht, app_assoc.
Qed.
End underway.

Lemma settles_raise e w' : w_db w' = w_db w0 -> settles c w0 (Raise e) w'.
Proof. done. Qed.

Lemma underway_silent w : underway [] w -> silent w0 w.
Proof. intros [Hd Ht]. by rewrite app_nil_r in Ht. Qed.

Ltac silent_step H := eapply (wp_silent _ _ settles_raise); [apply H|eassumption|].
Ltac lift_step := eapply (wp_lift_bind _ _ settles_raise); [eassumption|].

(** The row that is locked. *)
Lemma locked_row row d :
  scalar_one (sel_query _ (with_row_lock (select_credential (uc_id c))) d) = Ok row ->
  row ∈ credentials d /\ uc_id row = uc_id c.
Proof.
  assert (E : sel_query _ (with_row_lock (select_credential (uc_id c))) d =
    select_where (fun c' => bool_decide (uc_id c' = uc_id c)) (credentials d))
    by (unfold with_row_lock; by destruct env_dialect).
  rewrite E. intros Hr.
  destruct (scalar_one_or_none_Some (fun c' => bool_decide (uc_id c' = uc_id c)) (credentials d) row)
    as [Hin Hid%bool_decide_eq_true_1]; [|done].
  unfold scalar_one in Hr. unfold scalar_one_or_none.
  destruct (select_where _ _) as [|y [|]]; try done. by injection Hr as ->.
Qed.

Lemma expires_column_ok data expires_in n expires :
  py_get data (u "expires_in") = Ok expires_in ->
  match expires_in with
  | JNull => Ok None
  | j => s ← as_seconds j; Ok (Some (dt_wall (dt_add n s)))
  end = Ok expires ->
  expiry_column data n expires.
Proof.
  intros Hj Hcol. destruct expires_in; [left; split; [done|congruence]|right..];
    apply result_bind_Ok in Hcol as (sec & Es & E); injection E as <-;
    eexists _, sec; (split_and!; [exact Hj|exact Es|reflexivity]).
Qed.

(** After the commit, nothing can fail. *)
Lemma wp_cache_token j sec token enc w w' (ttl : Z -> Z) (Q : result pystr -> world -> Prop) w1 :
  as_seconds j = Ok sec -> encrypt_secret token w = (Ok enc, w') ->
  (forall w2, silent w1 w2 -> Q (Ok token) w2) ->
  wp (s ← lift (as_seconds j);
      at_enc ← encrypt_secret token;
      _ ← cache_set_json (oauth_at_key (uc_id c)) (JStr at_enc) (ttl s);
      mret token) Q w1.
Proof.
  intros -> Henc HQ. destruct (encrypt_again token w enc w' w1 Henc) as (enc' & w2 & E2 & H2).
  unfold wp. erewrite bind_step by done. rewrite (bind_step _ _ _ _ _ E2).
  match goal with |- context [cache_set_json ?k ?v ?t] =>
    destruct (proj1 (proj2 (cache_helpers_harmless k v t [] 0%Z)) w2) as ([] & w3 & E3 & Hd3 & Ht3) end.
  rewrite (bind_step _ _ _ _ _ E3). simpl. apply HQ. etrans; [exact H2|by split].
Qed.

#[local] Opaque decrypt_secret.

Lemma settle : wp (get_valid_access_token c) (settles c w0) w0.
Proof.
  unfold get_valid_access_token. case_bool_decide as Htype; simpl.
  2: { apply wp_lift. destruct (decrypt_secret _) eqn:E; [by eapply token_pasted|done]. }
  assert (H0 : underway [] w0) by (repeat split; by rewrite app_nil_r).
  silent_step silent_cache_get. intros cached w1 Ecache H1.
  destruct (truthy cached).
  { apply wp_lift. destruct cached as [| | |enc| |]; try apply H1; simpl.
    destruct (decrypt_secret (Some enc)) eqn:E; [|apply H1].
    eapply token_cached; eauto using underway_silent. }
  clear Ecache. silent_step @silent_db_query. intros rows w2 (_ & -> & _)%db_query_Ok H2.
  lift_step. intros row Hrow. silent_step silent_now. intros n w3 [-> _]%now_Ok H3.
  lift_step. intros fresh Hfresh.
  assert (Hin : row ∈ credentials (w_sess w0) /\ uc_id row = uc_id c).
  { destruct H1 as [(_ & <- & _) _]. by apply locked_row. }
  destruct Hin as [Hin Hid]. destruct fresh.
  { apply wp_lift. destruct (decrypt_secret (uc_access_token_enc row)) eqn:E; [|apply H3].
    eapply token_stored; eauto using underway_silent.
    unfold still_valid. destruct (uc_token_expires_at row) as [e|]; [|done]. by exists e. }
  lift_step. intros old Hold.
  eapply (wp_refresh _ _ settles_raise); [eassumption|]. intros resp data w4 Hdata H4.
  lift_step. intros access Haccess. lift_step. intros given Hgiven.
  replace (if truthy given then mret given
           else lift (JStr <$> decrypt_secret (uc_refresh_token_enc row)))
    with (lift (if truthy given then Ok given
           else JStr <$> decrypt_secret (uc_refresh_token_enc row))) by by destruct (truthy given).
  lift_step. intros kept Hkept. lift_step. intros expires_in Hexp. lift_step. intros expires Hcol.
  lift_step. intros token Htok. destruct access as [| | |token'| |]; try done.
  injection Htok as ->.
  silent_step silent_encrypt. intros enc1 w5 Henc1 H5. lift_step. intros refresh Href.
  destruct kept as [| | |refresh'| |]; try done. injection Href as ->.
  silent_step silent_encrypt. intros enc2 w6 Henc2 H6.
  destruct (encrypt_Ok _ _ _ _ Henc1) as [k1 ->], (encrypt_Ok _ _ _ _ Henc2) as [k2 ->].
  eapply (wp_store _ _ settles_raise); [eassumption|]. intros w7 Hd7 Hs7 Ht7.
  assert (Hfin : forall w', silent w7 w' -> access_token c w0 token w').
  { intros w' [(Hd & Hs & _) Ht]. eapply token_refreshed with (old := old) (resp := resp) (data := data)
      (refresh := refresh) (expires := expires); eauto; try congruence.
    - intros (e & Ee & Hlt). by rewrite Ee, Hlt in Hfresh.
    - split; [done|]. exists given. split; [done|]. destruct (truthy given); [by injection Hkept|].
      rewrite Hold in Hkept. by injection Hkept.
    - by apply (expires_column_ok data expires_in).
    - by rewrite Ht, Ht7.
    - rewrite Hd, Hd7. unfold rotated. by rewrite Hid. }
  destruct expires_in; [by apply Hfin|..]; apply result_bind_Ok in Hcol as (sec & Es & _);
    by eapply wp_cache_token.
Qed.
End settle.

(** ** Properties *)

Section access_token_properties.
Context `{Env}.

(** C24: resolving the token of a credential refines its specification, however
    Redis, the database and the provider behave: a pasted secret, a cached
    token and a stored one that is still valid are returned without any request
    and without touching the tables; otherwise the stored refresh token is
    traded in exactly one request, and the row, fenced by the version that was
    read, is committed with the new tokens, their expiry and the next version
    before the new token is returned; a call that fails commits nothing. *)
Theorem get_valid_access_token_refines c w :
  settles c w (get_valid_access_token c w).1 (get_valid_access_token c w).2.
Proof. exact (settle c w). Qed.
End access_token_properties.
