(* ===== verification/Security.v ===== *)
(** * Passwords, JWTs and the current user ([core/security.py])

    Argon2 and the JWT codec are the libraries', the class [AuthLibs]; what is
    relied on is stated where it is used, as [jwt_lawful] and
    [argon2_lawful]. *)

From S2P Require Import Prelude PyStr Json Scope Models World Upstream.

(** The claims of a session token, as handed to [jwt.encode]. *)
Record jwt_claims := JwtClaims { jc_sub : pystr; jc_iat : datetime; jc_exp : datetime }.

(** [argon2_hash] is salted by the outside action; [argon2_verify hash password]
    raises [VerifyMismatchError] for another password. [jwt_decode] takes the
    time of the call. *)
Class AuthLibs := {
  argon2_hash : nat -> pystr -> pystr;
  argon2_verify : pystr -> pystr -> result bool;
  jwt_encode : jwt_claims -> pystr -> pystr;
  jwt_decode : Z -> pystr -> pystr -> result json;
}.

Definition is_PyJWTError (e : exn) : bool := match e with PyJWTError => true | _ => false end.
Definition is_VerifyMismatch (e : exn) : bool :=
  match e with VerifyMismatchError => true | _ => false end.

Section security.
Context `{Env, AuthLibs}.

Definition hash_password (pw : pystr) : M pystr := t ← tick; mret (argon2_hash t pw).

Definition verify_password (pw h : pystr) : M bool :=
  try_except (lift (argon2_verify h pw)) is_VerifyMismatch (fun _ => mret false).

Definition create_jwt (sub : pystr) : M pystr :=
  n ← now;
  mret (jwt_encode
    (JwtClaims sub n (dt_add n (jwt_ttl_seconds env_settings * second)))
    (jwt_secret env_settings)).

Definition decode_jwt (token : pystr) : M json :=
  t ← tick; lift (jwt_decode (clock t) token (jwt_secret env_settings)).

(** A [User] with the column defaults; the two timestamps are drawn apart. *)
Definition new_user (id : pystr) (email password_hash : option pystr) (provider : pystr)
    (cf_sub : option pystr) (created updated : Z) : User := {|
  u_id := id; u_email := email; u_password_hash := password_hash; u_auth_provider := provider;
  u_cf_sub := cf_sub; u_is_active := true; u_created_at := created; u_updated_at := updated |}.

Definition unauthorized (message : pystr) : exn := HTTPException 401 (DetailText message).

Definition user_by_id (id : pystr) (d : database) : list User :=
  select_where (fun x => bool_decide (u_id x = id)) (users d).

(** [credentials] is what [HTTPBearer(auto_error=False)] extracts. *)
Definition get_current_user (credentials : option pystr) : M User :=
  match credentials with
  | None => raise (unauthorized (u "Not authenticated"))
  | Some token =>
      payload ← try_except (decode_jwt token) is_PyJWTError
                  (fun _ => raise (unauthorized (u "Invalid or expired token")));
      sub ← lift (py_get payload (u "sub"));
      if negb (truthy sub) then raise (unauthorized (u "Invalid token"))
      else
        user_id ← lift (as_str sub);
        rows ← db_query (user_by_id user_id);
        user ← lift (scalar_one_or_none rows);
        match user with
        | None => raise (unauthorized (u "Invalid or inactive user"))
        | Some x =>
            if negb (u_is_active x) then raise (unauthorized (u "Invalid or inactive user"))
            else mret x
        end
  end.
End security.

(** ** What is relied on of the libraries *)

(** A token decodes, under its secret and until it expires, to claims with its
    subject; under another secret or later it is refused. *)
Definition jwt_lawful `{AuthLibs} : Prop :=
  forall c secret t t0 ttl, jc_iat c = DT t0 (Some 0%Z) -> jc_exp c = DT (t0 + ttl * second) (Some 0%Z) ->
    (t0 <= t)%Z ->
    ((t < t0 + (ttl - 1) * second)%Z -> exists d,
       jwt_decode t (jwt_encode c secret) secret = Ok (JObj d) /\
       dict_get (u "sub") d = Some (JStr (jc_sub c))) /\
    ((t0 + ttl * second <= t)%Z -> jwt_decode t (jwt_encode c secret) secret = Raise PyJWTError).

Definition argon2_lawful `{AuthLibs} : Prop :=
  forall t pw, argon2_verify (argon2_hash t pw) pw = Ok true /\
    forall pw', pw' ≠ pw -> argon2_verify (argon2_hash t pw) pw' = Raise VerifyMismatchError.

(** ** Runs *)

Section security_laws.
Context `{Env, AuthLibs}.

Lemma try_Ok {A} (m : M A) p h w a w' :
  try_except m p h w = (Ok a, w') <->
  m w = (Ok a, w') \/ exists e w1, m w = (Raise e, w1) /\ p e = true /\ h e w1 = (Ok a, w').
Proof.
  unfold try_except. destruct (m w) as [[x|e] w1].
  - naive_solver.
  - destruct (p e) eqn:Hp; naive_solver congruence.
Qed.

Lemma decode_jwt_run token w :
  decode_jwt token w =
    (jwt_decode (clock (w_tick w)) token (jwt_secret env_settings), set_tick S w).
Proof. done. Qed.

Lemma create_jwt_run sub w :
  create_jwt sub w =
    (Ok (jwt_encode (JwtClaims sub (DT (clock (w_tick w)) (Some 0%Z))
       (DT (clock (w_tick w) + jwt_ttl_seconds env_settings * second) (Some 0%Z)))
       (jwt_secret env_settings)), set_tick S w).
Proof. done. Qed.

Lemma verify_password_run pw h w :
  verify_password pw h w =
    (match argon2_verify h pw with
     | Raise e => if is_VerifyMismatch e then Ok false else Raise e
     | r => r
     end, w).
Proof.
  unfold verify_password, try_except, lift. destruct (argon2_verify h pw) as [|e]; [done|].
  by destruct (is_VerifyMismatch e).
Qed.

(** The active user of an accepted token. *)
Lemma current_user_run token w d sub x :
  jwt_decode (clock (w_tick w)) token (jwt_secret env_settings) = Ok (JObj d) ->
  dict_get (u "sub") d = Some (JStr sub) -> sub ≠ [] ->
  db_down (S (w_tick w)) = false -> user_by_id sub (w_sess w) = [x] -> u_is_active x = true ->
  (get_current_user (Some token) w).1 = Ok x.
Proof.
  intros Hdec Hsub Hne Hup Hrows Hact. unfold get_current_user.
  erewrite bind_step; [|unfold try_except; rewrite decode_jwt_run, Hdec; done].
  erewrite bind_step; [|unfold lift, py_get, py_get_default; by rewrite Hsub].
  cbn [default from_option id]. replace (truthy (JStr sub)) with true by (by destruct sub). cbn [negb].
  erewrite bind_step; [|done]. erewrite bind_step; [|by apply db_query_up].
  simpl w_sess. rewrite Hrows. erewrite bind_step; [|done]. cbv zeta beta iota; unfold raise; simpl; rewrite Hact; done.
Qed.
(** The user a token stands for. *)
Definition user_of_token (w : world) (credentials : option pystr) (x : User) : Prop :=
  x ∈ users (w_sess w) /\ u_is_active x = true /\
  exists token payload,
    credentials = Some token /\
    jwt_decode (clock (w_tick w)) token (jwt_secret env_settings) = Ok payload /\
    py_get payload (u "sub") = Ok (JStr (u_id x)) /\ u_id x ≠ [].

Lemma current_user_inv credentials w x w' :
  get_current_user credentials w = (Ok x, w') ->
  user_of_token w credentials x /\ w_sess w' = w_sess w.
Proof.
  destruct credentials as [token|]; [|done]. unfold get_current_user.
  intros (payload & w1 & Htry & Hrun)%M_bind_Ok.
  apply try_Ok in Htry as [Hdec|(e & w2 & _ & _ & Hr)]; [|done].
  rewrite decode_jwt_run in Hdec. injection Hdec as Hdec <-.
  apply M_bind_Ok in Hrun as (sub & w2 & [Hsub ->]%lift_Ok & Hrun).
  destruct (truthy sub) eqn:Ht; [|done]. cbn [negb] in Hrun.
  inv_run. destruct sub as [| | |sub| |]; simplify_eq/=.
  match goal with H : scalar_one_or_none _ = Ok ?o |- _ =>
    destruct o as [y|]; [apply scalar_one_or_none_Some in H as [Hin Hid%bool_decide_eq_true_1]|done] end.
  destruct (u_is_active y) eqn:Hact; [|done].
  match goal with H : _ = (Ok x, w') |- _ => apply ret_Ok in H as [-> ->] end.
  split; [|done]. split_and!; [done|done|]. exists token, payload. split_and!; [done|done|by rewrite Hid|].
  rewrite Hid. by intros ->.
Qed.
End security_laws.

(** ** Properties *)

Section security_properties.
Context `{Env, AuthLibs}.

(** The current user of a management request is the active row whose id is
    the subject of a token that the codec accepts, at that moment, under the
    configured secret; in all other cases, a missing header included, there is
    none. *)
Theorem current_user_sound credentials w x w' :
  get_current_user credentials w = (Ok x, w') ->
  user_of_token w credentials x /\ w_sess w' = w_sess w.
Proof. apply current_user_inv. Qed.
End security_properties.
