(* ===== verification/AuditLogs.v ===== *)
(** * The audit log ([services/audit_service.py]) *)

From stdpp Require Import sorting.
From S2P Require Import Prelude PyStr Json Scope Models World.

(** The keyword arguments of [write_audit]. *)
Record audit_fields := AuditFields {
  af_method : pystr;
  af_path : pystr;
  af_decision : pystr;
  af_user_id : option pystr;
  af_scoped_token_id : option pystr;
  af_token_prefix : option pystr;
  af_zone_id : option pystr;
  af_record_id : option pystr;
  af_record_name : json;
  af_record_type : json;
  af_pre_image : json;
  af_post_image : json;
  af_deny_reason : option pystr;
  af_upstream_status : option Z;
  af_client_ip : option pystr;
  af_latency_ms : option Z;
}.

Definition audit_row (id : pystr) (ts : Z) (f : audit_fields) : AuditLog := {|
  al_id := id; al_ts := ts;
  al_user_id := af_user_id f; al_scoped_token_id := af_scoped_token_id f;
  al_token_prefix := af_token_prefix f; al_method := af_method f; al_path := af_path f;
  al_zone_id := af_zone_id f; al_record_id := af_record_id f;
  al_record_name := af_record_name f; al_record_type := af_record_type f;
  al_pre_image := af_pre_image f; al_post_image := af_post_image f;
  al_decision := af_decision f; al_deny_reason := af_deny_reason f;
  al_upstream_status := af_upstream_status f; al_client_ip := af_client_ip f;
  al_latency_ms := af_latency_ms f |}.

(** Most recent first. *)
Definition newer (a b : AuditLog) : Prop := (al_ts b <= al_ts a)%Z.
#[export] Instance newer_dec : RelDecision newer.
Proof. intros a b. unfold newer. apply _. Defined.
#[export] Instance newer_total : Total newer.
Proof. intros a b. unfold newer. lia. Qed.

Section audit.
Context `{Env}.

(** A primary key drawn from [uuid4]. *)
Definition _new_uuid : M pystr := t ← tick; mret (new_uuid t).

(** [session.refresh(row)]: the row is read back. *)
Definition refresh_row {A} (table : database -> list A) (key : A -> pystr) (id : pystr) : M A :=
  rows ← db_query (fun d => select_where (fun x => bool_decide (key x = id)) (table d));
  lift (scalar_one rows).

Definition write_audit (f : audit_fields) : M AuditLog :=
  id ← _new_uuid;
  ts ← now;
  let entry := audit_row id (dt_wall ts) f in
  _ ← sess_modify (set_audits (fun l => l ++ [entry]));
  _ ← commit;
  refresh_row audits al_id id.

(** The WHERE clause of the listing. *)
Definition audit_filter (user_id : pystr) (token_id zone_id : option pystr) (since : option Z)
    (a : AuditLog) : bool :=
  bool_decide (al_user_id a = Some user_id)
  && match token_id with Some t => bool_decide (al_scoped_token_id a = Some t) | None => true end
  && match zone_id with Some z => bool_decide (al_zone_id a = Some z) | None => true end
  && match since with Some s => (s <=? al_ts a)%Z | None => true end.

Record audit_page := AuditPage {
  ap_page : Z; ap_per_page : Z; ap_count : nat; ap_total_count : nat }.

Definition list_audit_logs (user_id : pystr) (token_id zone_id : option pystr)
    (since : option Z) (page per_page : Z) : M (list AuditLog * audit_page) :=
  let base d := select_where (audit_filter user_id token_id zone_id since) (audits d) in
  total_count ← db_query (fun d => length (base d));
  page_entries ← db_query (fun d =>
    take (Z.to_nat per_page) (drop (Z.to_nat ((page - 1) * per_page))
      (merge_sort newer (base d))));
  mret (page_entries, AuditPage page per_page (length page_entries) total_count).
End audit.

Section audit_laws.
Context `{Env}.

Lemma within_new_uuid E X : Within E X _new_uuid.
Proof. unfold _new_uuid. solve_within. Qed.

Lemma within_scalar_one {A} (l : list A) E : Within E python_exn (lift (scalar_one l)).
Proof. apply within_lift. intros e. by destruct l as [|x []]; intros [= <-]. Qed.
Hint Resolve within_new_uuid within_scalar_one : within.

Lemma within_refresh_row {A} (table : database -> list A) key id E :
  Within E python_exn (refresh_row table key id).
Proof. unfold refresh_row. solve_within. Qed.
Hint Resolve within_refresh_row : within.

Lemma within_write_audit f E : Within E python_exn (write_audit f).
Proof. unfold write_audit. solve_within. Qed.
Lemma refresh_row_Ok {A} (table : database -> list A) (key : A -> pystr) id w x w' :
  refresh_row table key id w = (Ok x, w') ->
  x ∈ table (w_sess w) /\ key x = id /\ w' = set_tick S w.
Proof.
  intros (rows & w1 & (_ & -> & ->)%db_query_Ok & [Hone ->]%lift_Ok)%M_bind_Ok.
  unfold select_where in Hone. destruct (filter _ _) as [|y [|]] eqn:E; try done.
  injection Hone as ->. assert (Hx : x ∈ [x]) by left. rewrite <- E in Hx.
  by apply list_elem_of_filter in Hx as [?%bool_decide_eq_true_1 ?].
Qed.

End audit_laws.
#[export] Hint Resolve within_new_uuid within_refresh_row within_write_audit : within.

(** ** Properties *)

Section audit_properties.
Context `{Env}.

(** An audit entry is one new row at the end of the table, with the fields
    it was given and the time of the write, and no other table is touched; a
    write that fails leaves the committed tables as they were, or with just
    that row. *)
Theorem write_audit_appends f w r w' :
  w_sess w = w_db w -> write_audit f w = (r, w') ->
  let entry := audit_row (new_uuid (w_tick w)) (clock (S (w_tick w))) f in
  let added := set_audits (fun l => l ++ [entry]) (w_db w) in
  (w_db w' = w_db w \/ w_db w' = added) /\
  forall row, r = Ok row -> row = entry /\ w_db w' = added.
Proof.
  intros Hclean.
  change (write_audit f w) with ((commit ≫= fun _ => refresh_row audits al_id (new_uuid (w_tick w)))
    (set_sess (set_audits (fun l => l ++ [audit_row (new_uuid (w_tick w)) (clock (S (w_tick w))) f]))
       (set_tick S (set_tick S w)))).
  match goal with |- context [(commit ≫= _) ?w0] => destruct (commit w0) as [[[]|e] w1] eqn:Ec end.
  - rewrite (bind_step _ _ _ _ _ Ec). apply commit_Ok in Ec as (_ & Hok & ->).
    intros Hrun. simpl in *. rewrite Hclean in *.
    assert (Hdb : w_db w' = set_audits (fun l => l ++ [audit_row (new_uuid (w_tick w))
                    (clock (S (w_tick w))) f]) (w_db w)).
    { revert Hrun. unfold refresh_row, db_query, tick, mbind, M_bind, lift. simpl.
      destruct (db_down _); by intros [= <- <-]. }
    split; [by right|]. intros row ->. split; [|done].
    apply M_bind_Ok in Hrun as (rows & w2 & (_ & -> & ->)%db_query_Ok & [Hone _]%lift_Ok).
    simpl in Hone. rewrite Hclean in Hone.
    assert (Hin : audit_row (new_uuid (w_tick w)) (clock (S (w_tick w))) f ∈
      select_where (fun x => bool_decide (al_id x = new_uuid (w_tick w)))
        (audits (w_db w) ++ [audit_row (new_uuid (w_tick w)) (clock (S (w_tick w))) f])).
    { apply list_elem_of_filter. split; [by apply bool_decide_eq_true|]. apply elem_of_app. right. left. }
    destruct (select_where _ _) as [|x [|]]; try done.
    apply list_elem_of_singleton in Hin. simpl in Hone. congruence.
  - rewrite (bind_raise _ _ _ _ _ Ec). intros [= <- <-].
    apply commit_Raise in Ec as [Hdb _]. simpl in Hdb. split; [by left|done].
Qed.

End audit_properties.
