(* ===== verification/OAuthService.v ===== *)
(** * Login with Cloudflare ([services/oauth_service.py])

    The state machine of a login: a state is stored in Redis when the login
    starts, consumed once by the callback, and the consent it proves becomes a
    user, an [oauth] credential and a session token. *)

From S2P Require Import Prelude PyStr Json Scope Models World Crypto Cache OAuthCf Upstream.
From S2P Require Import Security AuditLogs.

Definition _OAUTH_CREDENTIAL_LABEL : pystr := u "cloudflare-oauth".

(** A JSON value bound to a nullable string column. *)
Definition as_column (j : json) : result (option pystr) :=
  match j with JNull => Ok None | JStr s => Ok (Some s) | _ => Raise OperationalError end.

Section oauth_service.
Context `{Env, AuthLibs, OidcLibs}.

Definition start_cf_oauth_login : M pystr :=
  '(verifier, challenge) ← make_pkce;
  state ← token_urlsafe 32;
  nonce ← token_urlsafe 16;
  _ ← cache_set_json (oauth_state_key state)
        (JObj [(u "verifier", JStr verifier); (u "nonce", JStr nonce)])
        (oauth_state_ttl env_settings);
  lift (build_authorize_url state nonce challenge).

Definition _consume_oauth_state (state : pystr) : M json :=
  raw ← swallow (redis_getdel (oauth_state_key state)) None;
  match raw with
  | None => mret JNull
  | Some e => match re_value e with Some j => mret j | None => raise JSONDecodeError end
  end.

Definition user_by_sub (cf_sub : pystr) (d : database) : list User :=
  select_where (fun x => column_is env_dialect (u_cf_sub x) cf_sub) (users d).

Definition oauth_credential (user_id : pystr) (d : database) : list UpstreamCredential :=
  select_where (fun c => bool_decide (uc_user_id c = user_id)
                         && column_eq env_dialect (uc_label c) _OAUTH_CREDENTIAL_LABEL) (credentials d).

Definition set_user_email (email : pystr) (n : Z) (x : User) : User := {|
  u_id := u_id x; u_email := Some email; u_password_hash := u_password_hash x;
  u_auth_provider := u_auth_provider x; u_cf_sub := u_cf_sub x; u_is_active := u_is_active x;
  u_created_at := u_created_at x; u_updated_at := n |}.

(** The user of a Cloudflare subject: created, or with the email refreshed;
    the id of the row. *)
Definition upsert_user (cf_sub : pystr) (email : json) (n : datetime) : M pystr :=
  rows ← db_query (user_by_sub cf_sub);
  user ← lift (scalar_one_or_none rows);
  match user with
  | None =>
      email ← lift (as_column email);
      id ← _new_uuid;
      created ← now;
      updated ← now;
      _ ← sess_modify (set_users (fun l => l ++
            [new_user id email None (u "cloudflare_oauth") (Some cf_sub)
               (dt_wall created) (dt_wall updated)]));
      _ ← flush;
      mret id
  | Some x =>
      if truthy email then
        email ← lift (as_column email);
        _ ← sess_modify (set_users (update_where (fun y => bool_decide (u_id y = u_id x))
              (set_user_email (default [] email) (dt_wall n))));
        mret (u_id x)
      else mret (u_id x)
  end.

Definition new_oauth_credential (id user_id : pystr) (scopes : option pystr) (created : Z)
    : UpstreamCredential := {|
  uc_id := id; uc_user_id := user_id; uc_label := _OAUTH_CREDENTIAL_LABEL;
  uc_cred_type := u "oauth"; uc_secret_enc := None; uc_access_token_enc := None;
  uc_refresh_token_enc := None; uc_token_expires_at := None; uc_oauth_scopes := scopes;
  uc_key_version := 1; uc_cred_version := 1; uc_cf_account_email := None;
  uc_verify_status := None; uc_verified_at := None; uc_created_at := created |}.

(** The consent recorded on the credential: scopes and version only for one
    that existed; a token that is not returned keeps its old ciphertext. *)
Definition consented (scopes : option pystr) (bump : Z) (access refresh : option pystr)
    (expires : option Z) (c : UpstreamCredential) : UpstreamCredential := {|
  uc_id := uc_id c; uc_user_id := uc_user_id c; uc_label := uc_label c;
  uc_cred_type := uc_cred_type c; uc_secret_enc := uc_secret_enc c;
  uc_access_token_enc := match access with Some e => Some e | None => uc_access_token_enc c end;
  uc_refresh_token_enc := match refresh with Some e => Some e | None => uc_refresh_token_enc c end;
  uc_token_expires_at := expires; uc_oauth_scopes := scopes; uc_key_version := uc_key_version c;
  uc_cred_version := uc_cred_version c + bump; uc_cf_account_email := uc_cf_account_email c;
  uc_verify_status := uc_verify_status c; uc_verified_at := uc_verified_at c;
  uc_created_at := uc_created_at c |}.

(** [encrypt_secret(token)] when there is one. *)
Definition encrypt_given (token : json) : M (option pystr) :=
  if truthy token then s ← lift (as_str token); Some <$> encrypt_secret s else mret None.

(** The credential of the consent, its tokens stored. *)
Definition store_consent (user_id : pystr) (tokens : json) (n : datetime) : M unit :=
  rows ← db_query (oauth_credential user_id);
  credential ← lift (scalar_one_or_none rows);
  access_token ← lift (py_get tokens (u "access_token"));
  refresh_token ← lift (py_get tokens (u "refresh_token"));
  expires_in ← lift (py_get tokens (u "expires_in"));
  expires ← lift match expires_in with
                 | JNull => Ok None
                 | j => s ← as_seconds j; Ok (Some (dt_wall (dt_add n s)))
                 end;
  scope ← lift (py_get tokens (u "scope"));
  '(id, scopes, bump) ← match credential with
    | None =>
        scopes ← lift (as_column scope);
        id ← _new_uuid;
        created ← now;
        _ ← sess_modify (set_credentials (fun l => l ++
              [new_oauth_credential id user_id scopes (dt_wall created)]));
        mret (id, scopes, 0%Z)
    | Some c =>
        scopes ← (if truthy scope then lift (as_column scope) else mret (uc_oauth_scopes c));
        mret (uc_id c, scopes, 1%Z)
    end;
  access ← encrypt_given access_token;
  refresh ← encrypt_given refresh_token;
  sess_modify (set_credentials (update_where (fun c => bool_decide (uc_id c = id))
    (consented scopes bump access refresh expires))).

Definition handle_cf_oauth_callback (code state : pystr) : M (User * pystr) :=
  stored ← _consume_oauth_state state;
  if is_none stored then raise (ValueError (u "invalid or expired oauth state"))
  else
    verifier ← lift (py_getitem stored (u "verifier") ≫= as_str);
    tokens ← exchange_code code verifier;
    id_token ← lift (py_get tokens (u "id_token"));
    if negb (truthy id_token) then raise (ValueError (u "token response is missing id_token"))
    else
      nonce ← lift (py_getitem stored (u "nonce"));
      access_token ← lift (py_get tokens (u "access_token"));
      claims ← validate_id_token id_token nonce access_token (JStr code);
      cf_sub ← lift (py_getitem claims (u "sub") ≫= as_str);
      email ← lift (py_get claims (u "email"));
      n ← now;
      user_id ← upsert_user cf_sub email n;
      _ ← store_consent user_id tokens n;
      _ ← commit;
      user ← refresh_row users u_id user_id;
      token ← create_jwt (u_id user);
      mret (user, token).
End oauth_service.

(** ** Frames *)

Section oauth_frames.
Context `{Env, AuthLibs, OidcLibs}.

(** Redis is left as it is. *)
Definition same_redis (w w' : world) : Prop := w_redis w' = w_redis w.

#[export] Instance same_redis_preorder : PreOrder same_redis.
Proof. split; [done|]. intros x y z Hxy Hyz. unfold same_redis in *. congruence. Qed.

Lemma redis_tick : Keeps same_redis tick.
Proof. done. Qed.
Lemma redis_http rq : Keeps same_redis (http rq).
Proof. intros w. unfold http. by destruct (cf_request rq (w_cf w)). Qed.
Lemma redis_modify f : (forall w, w_redis (f w) = w_redis w) -> Keeps same_redis (modify f).
Proof. intros Hf w. apply Hf. Qed.
Hint Resolve redis_tick redis_http : keeps.
Hint Extern 1 (Keeps same_redis (modify _)) => by apply redis_modify : keeps.
Hint Extern 1 (PreOrder same_redis) => apply same_redis_preorder : keeps.

Lemma redis_now : Keeps same_redis now.
Proof. done. Qed.
Lemma redis_db_query {A} (f : database -> A) : Keeps same_redis (db_query f).
Proof. unfold db_query. solve_keeps. Qed.
Lemma redis_sess_modify f : Keeps same_redis (sess_modify f).
Proof. done. Qed.
Lemma redis_flush : Keeps same_redis flush.
Proof. unfold flush, rollback. solve_keeps. Qed.
Hint Resolve redis_now redis_db_query redis_sess_modify redis_flush : keeps.
Lemma redis_commit : Keeps same_redis commit.
Proof. unfold commit. solve_keeps. Qed.
Lemma redis_encrypt_given j : Keeps same_redis (encrypt_given j).
Proof. unfold encrypt_given, encrypt_secret. solve_keeps. Qed.
Lemma redis_validate id_token nonce access_token code :
  Keeps same_redis (validate_id_token id_token nonce access_token code).
Proof.
  assert (Hjwks : Keeps same_redis fetch_jwks) by (unfold fetch_jwks, plain_get; solve_keeps).
  assert (Hm : forall kid, Keeps same_redis (jwks_matches kid)) by (intros; unfold jwks_matches; solve_keeps).
  assert (Hkey : forall kid, Keeps same_redis (_resolve_signing_key kid))
    by (intros; unfold _resolve_signing_key, clear_jwks_cache; solve_keeps).
  unfold validate_id_token. solve_keeps.
Qed.
Hint Resolve redis_commit redis_encrypt_given redis_validate : keeps.
Lemma redis_upsert sub email n : Keeps same_redis (upsert_user sub email n).
Proof. unfold upsert_user, _new_uuid. solve_keeps. Qed.
Lemma redis_store user_id tokens n : Keeps same_redis (store_consent user_id tokens n).
Proof. unfold store_consent, _new_uuid. solve_keeps. Qed.
Hint Resolve redis_upsert redis_store : keeps.
End oauth_frames.

(** ** Consuming a state *)

Section oauth_state.
Context `{Env, AuthLibs, OidcLibs}.

Definition state_refused : exn := ValueError (u "invalid or expired oauth state").

(** What follows the consumption of a state. *)
Definition callback_with (stored : json) (code : pystr) : M (User * pystr) :=
  if is_none stored then raise state_refused
  else
    verifier ← lift (py_getitem stored (u "verifier") ≫= as_str);
    tokens ← exchange_code code verifier;
    id_token ← lift (py_get tokens (u "id_token"));
    if negb (truthy id_token) then raise (ValueError (u "token response is missing id_token"))
    else
      nonce ← lift (py_getitem stored (u "nonce"));
      access_token ← lift (py_get tokens (u "access_token"));
      claims ← validate_id_token id_token nonce access_token (JStr code);
      cf_sub ← lift (py_getitem claims (u "sub") ≫= as_str);
      email ← lift (py_get claims (u "email"));
      n ← now;
      user_id ← upsert_user cf_sub email n;
      _ ← store_consent user_id tokens n;
      _ ← commit;
      user ← refresh_row users u_id user_id;
      token ← create_jwt (u_id user);
      mret (user, token).

Lemma callback_unfold code state w :
  handle_cf_oauth_callback code state w =
    (_consume_oauth_state state ≫= fun stored => callback_with stored code) w.
Proof. done. Qed.

Lemma redis_callback_with stored code : Keeps same_redis (callback_with stored code).
Proof.
  unfold callback_with, exchange_code, post_token, refresh_row, create_jwt.
  pose proof redis_http. pose proof (@redis_db_query). pose proof redis_commit.
  pose proof redis_upsert. pose proof redis_store. pose proof redis_validate.
  assert (Keeps same_redis now) by done.
  assert (PreOrder same_redis) by apply _.
  solve_keeps.
Qed.

(** The state is gone from Redis, or Redis did not answer and nothing is
    stored. *)
Lemma consume_run state w :
  exists w', (_consume_oauth_state state w).2 = w' /\ w_trace w' = w_trace w /\ w_db w' = w_db w /\
    w_sess w' = w_sess w /\
    ((_consume_oauth_state state w).1 = Ok JNull \/ w_redis w' = delete (oauth_state_key state) (w_redis w)).
Proof.
  unfold _consume_oauth_state, swallow, redis_getdel, redis_command, try_except, tick, gets, modify,
    mbind, M_bind. destruct (redis_down (w_tick w)); simpl.
  - eexists. split_and!; try done. by left.
  - destruct (lookup_live _ _ _) as [e|]; simpl; [destruct (re_value e); simpl|];
      eexists; split_and!; try done; by right.
Qed.

Lemma consume_missing state w :
  w_redis w !! oauth_state_key state = None ->
  exists w', _consume_oauth_state state w = (Ok JNull, w') /\ w_trace w' = w_trace w /\ w_db w' = w_db w.
Proof.
  intros Hn. unfold _consume_oauth_state, swallow, redis_getdel, redis_command, try_except, tick, gets,
    modify, mbind, M_bind. destruct (redis_down (w_tick w)); simpl; [by eexists|].
  unfold lookup_live. rewrite Hn. simpl. by eexists.
Qed.
End oauth_state.

(** ** What a login stores *)

Section consent.
Context `{Env, AuthLibs, OidcLibs}.

Lemma new_uuid_Ok w id w' : _new_uuid w = (Ok id, w') -> id = new_uuid (w_tick w) /\ w' = set_tick S w.
Proof. unfold _new_uuid, tick, mbind, M_bind. by intros [= <- <-]. Qed.

Lemma upsert_user_Ok sub email n w id w' :
  upsert_user sub email n w = (Ok id, w') ->
  w_db w' = w_db w /\ w_sess w' = set_users (fun _ => users (w_sess w')) (w_sess w) /\
  (forall y, u_id y ≠ id -> y ∈ users (w_sess w') <-> y ∈ users (w_sess w)) /\
  exists x, x ∈ users (w_sess w') /\ u_id x = id /\ column_is env_dialect (u_cf_sub x) sub = true.
Proof.
  unfold upsert_user. intros (rows & w1 & (_ & -> & ->)%db_query_Ok & Hrun)%M_bind_Ok.
  apply M_bind_Ok in Hrun as (o & w1 & [Ho ->]%lift_Ok & Hrun). destruct o as [x|].
  - apply scalar_one_or_none_Some in Ho as [Hin Hsub].
    destruct (truthy email); [|by inv_run; split_and!; [done|simpl; by destruct (w_sess w)|done|by exists x]].
    inv_run. split_and!; [done|simpl; by destruct (w_sess w)| |].
    + intros y Hy. apply update_where_others; [done|by apply bool_decide_eq_false_2].
    + eexists. simpl. split.
      * apply list_elem_of_fmap. exists x. split; [done|exact Hin].
      * by rewrite bool_decide_eq_true_2.
  - apply M_bind_Ok in Hrun as (em & w1 & [_ ->]%lift_Ok & Hrun).
    apply M_bind_Ok in Hrun as (i & w2 & [-> ->]%new_uuid_Ok & Hrun).
    inv_run. split_and!; [done|simpl; by destruct (w_sess w)| |].
    + intros y Hy. simpl. rewrite elem_of_app, list_elem_of_singleton. split; [|by left].
      by intros [?| ->].
    + eexists. simpl. rewrite elem_of_app, list_elem_of_singleton. split; [by right|].
      split; [done|apply column_eq_refl].
Qed.

Lemma encrypt_given_Ok j w o w' :
  encrypt_given j w = (Ok o, w') ->
  w_db w' = w_db w /\ w_sess w' = w_sess w /\
  (o = None /\ truthy j = false \/ exists s k, j = JStr s /\ o = Some (fernet_encrypt k s)).
Proof.
  unfold encrypt_given. destruct (truthy j) eqn:Ht; [|intros; inv_run; by auto].
  intros (s & w1 & [Hs ->]%lift_Ok & Hrun)%M_bind_Ok. unfold fmap, M_fmap in Hrun.
  destruct (encrypt_secret s w) as [[e|e] w2] eqn:Ee; [|done]. injection Hrun as <- <-.
  unfold encrypt_secret in Ee. apply M_bind_Ok in Ee as (bs & w3 & [_ ->]%lift_Ok & Ee).
  unfold tick, mbind, M_bind in Ee. simpl in Ee. injection Ee as <- <-.
  split_and!; [done|done|]. right. destruct j; try done. injection Hs as ->. by eexists _, _.
Qed.

(** The row of the credential that a consent updates. *)
Lemma consented_elem id scopes bump access refresh expires c l :
  c ∈ l -> uc_id c = id ->
  consented scopes bump access refresh expires c ∈
    update_where (fun c => bool_decide (uc_id c = id)) (consented scopes bump access refresh expires) l.
Proof.
  intros Hc Hid. apply list_elem_of_fmap. exists c. by rewrite bool_decide_eq_true_2.
Qed.

(** The consent is stored on a credential of the user under the login's label. *)
Definition stores_consent (user_id : pystr) (tokens : json) (d : database) : Prop :=
  exists c, c ∈ credentials d /\ uc_user_id c = user_id /\
    column_eq env_dialect (uc_label c) _OAUTH_CREDENTIAL_LABEL = true /\
    forall s, py_get tokens (u "access_token") = Ok (JStr s) -> s ≠ [] ->
      exists k, uc_access_token_enc c = Some (fernet_encrypt k s).

(** What storing a consent needs of the tables: a credential of the user under
    the label, found or added. *)
Lemma consent_row user_id scope o w id scopes bump w' :
  scalar_one_or_none (oauth_credential user_id (w_sess w)) = Ok o ->
  match o with
  | None =>
      scopes ← lift (as_column scope);
      id ← _new_uuid;
      created ← now;
      _ ← sess_modify (set_credentials (fun l => l ++
            [new_oauth_credential id user_id scopes (dt_wall created)]));
      mret (id, scopes, 0%Z)
  | Some c =>
      scopes ← (if truthy scope then lift (as_column scope) else mret (uc_oauth_scopes c));
      mret (uc_id c, scopes, 1%Z)
  end w = (Ok (id, scopes, bump), w') ->
  w_db w' = w_db w /\ w_sess w' = set_credentials (fun _ => credentials (w_sess w')) (w_sess w) /\
  (forall c, uc_user_id c ≠ user_id -> c ∈ credentials (w_sess w') <-> c ∈ credentials (w_sess w)) /\
  exists c, c ∈ credentials (w_sess w') /\ uc_id c = id /\ uc_user_id c = user_id /\
    column_eq env_dialect (uc_label c) _OAUTH_CREDENTIAL_LABEL = true.
Proof.
  intros Ho Hrow. destruct o as [c|].
  - apply scalar_one_or_none_Some in Ho as [Hin Hsel]. bool_prop.
    destruct (truthy scope); inv_run; (split_and!; [done|simpl; by destruct (w_sess w)|done|by exists c]).
  - apply M_bind_Ok in Hrow as (scs & w2 & [_ ->]%lift_Ok & Hrow).
    apply M_bind_Ok in Hrow as (i & w3 & [-> ->]%new_uuid_Ok & Hrow). inv_run.
    split_and!; [done|simpl; by destruct (w_sess w)| |].
    + intros c Hc. simpl. rewrite elem_of_app, list_elem_of_singleton. split; [|by left].
      by intros [?| ->].
    + eexists. simpl. rewrite elem_of_app, list_elem_of_singleton. split; [by right|].
      split_and!; [done..|apply column_eq_refl].
Qed.

(** Keys being unique, the update concerns the rows of the user alone. *)
Lemma consented_others id scopes bump access refresh expires c l :
  NoDup (uc_id <$> update_where (fun c => bool_decide (uc_id c = id))
                     (consented scopes bump access refresh expires) l) ->
  c ∈ l -> uc_id c = id -> forall c', uc_user_id c' ≠ uc_user_id c ->
  c' ∈ update_where (fun c => bool_decide (uc_id c = id))
         (consented scopes bump access refresh expires) l <-> c' ∈ l.
Proof.
  intros Hnd Hc Hid c' Hne. assert (Hnd' : NoDup (uc_id <$> l)).
  { revert Hnd. unfold update_where. rewrite <- list_fmap_compose. erewrite list_fmap_ext; [done|].
    intros i x _. simpl. by case_bool_decide. }
  assert (Hsame : forall x, x ∈ l -> uc_id x = id -> x = c)
    by (intros x Hx Hxi; eapply (NoDup_fmap_inj uc_id); [done..|congruence]).
  unfold update_where. rewrite list_elem_of_fmap. split.
  - intros (x & -> & Hx). case_bool_decide as Hxi; [|done]. by rewrite (Hsame x) in Hne.
  - intros Hin. exists c'. rewrite bool_decide_eq_false_2; [done|]. intros Hxi. by rewrite (Hsame c') in Hne.
Qed.

Lemma store_consent_Ok user_id tokens n w a w' :
  store_consent user_id tokens n w = (Ok a, w') ->
  w_db w' = w_db w /\ w_sess w' = set_credentials (fun _ => credentials (w_sess w')) (w_sess w) /\
  stores_consent user_id tokens (w_sess w') /\
  (NoDup (uc_id <$> credentials (w_sess w')) -> forall c, uc_user_id c ≠ user_id ->
     c ∈ credentials (w_sess w') <-> c ∈ credentials (w_sess w)).
Proof.
  unfold store_consent. intros (rows & w1 & (_ & -> & ->)%db_query_Ok & Hrun)%M_bind_Ok.
  apply M_bind_Ok in Hrun as (o & w1 & [Ho ->]%lift_Ok & Hrun).
  apply M_bind_Ok in Hrun as (at_ & w1 & [Hat ->]%lift_Ok & Hrun).
  apply M_bind_Ok in Hrun as (rt & w1 & [_ ->]%lift_Ok & Hrun).
  apply M_bind_Ok in Hrun as (ei & w1 & [_ ->]%lift_Ok & Hrun).
  apply M_bind_Ok in Hrun as (ex & w1 & [_ ->]%lift_Ok & Hrun).
  apply M_bind_Ok in Hrun as (sc & w1 & [_ ->]%lift_Ok & Hrun).
  apply M_bind_Ok in Hrun as ([[id scopes] bump] & w1 & Hrow & Hrun).
  apply consent_row in Hrow as (Hdb & Hs & Hothers & c & Hin & Hid & Huser & Hlabel); [simpl in Hdb, Hs, Hothers|done].
  apply M_bind_Ok in Hrun as (access & w2 & (Hd2 & Hs2 & Hacc)%encrypt_given_Ok & Hrun).
  apply M_bind_Ok in Hrun as (refresh & w3 & (Hd3 & Hs3 & _)%encrypt_given_Ok & Hrun).
  apply sess_modify_Ok in Hrun as ->. simpl. rewrite Hd3, Hd2, Hs3, Hs2.
  split_and!; [done|by rewrite Hs at 1| |].
  - exists (consented scopes bump access refresh ex c).
    split_and!; [by apply consented_elem|done|done|]. intros s Hs' Hne.
    rewrite Hat in Hs'. injection Hs' as ->. destruct Hacc as [[_ Ht]|(s' & k & [= <-] & ->)]; [|by exists k].
    by destruct s.
  - intros Hnd c' Hne. rewrite <- (Hothers c' Hne). apply (consented_others _ _ _ _ _ _ c); [done..|congruence].
Qed.
End consent.

(** ** Properties *)

Section oauth_properties.
Context `{Env, AuthLibs, OidcLibs}.

(** C31: a login state is good for one callback: of two callbacks with the same
    state, with no login having stored it again in between, at most one gets to
    exchange its code; either the first is refused without any request, or the
    second is, and neither refusal touches a table. *)
Theorem oauth_state_single_use code code' state w r w' w2 :
  handle_cf_oauth_callback code state w = (r, w') ->
  w_redis w2 !! oauth_state_key state = w_redis w' !! oauth_state_key state ->
  (r = Raise state_refused /\ w_trace w' = w_trace w /\ w_db w' = w_db w) \/
  exists w2', handle_cf_oauth_callback code' state w2 = (Raise state_refused, w2') /\
    w_trace w2' = w_trace w2 /\ w_db w2' = w_db w2.
Proof.
  rewrite callback_unfold. destruct (consume_run state w) as (w1 & Hw1 & Ht & Hd & _ & Hcase).
  unfold mbind, M_bind. destruct (_consume_oauth_state state w) as [[stored|e] w1'] eqn:Ec; simpl in *; subst w1'.
  - intros Hrun Hsame. destruct Hcase as [[= ->]|Hdel]; [left; by injection Hrun as <- <-|right].
    pose proof (redis_callback_with stored code w1) as Hk. rewrite Hrun in Hk. unfold same_redis in Hk.
    simpl in Hk. rewrite Hk, Hdel, lookup_delete_eq in Hsame.
    destruct (consume_missing state w2 Hsame) as (w2' & E & ? & ?). exists w2'.
    by rewrite callback_unfold, (bind_step _ _ _ _ _ E).
  - intros [= <- <-] Hsame. destruct Hcase as [|Hdel]; [done|right].
    rewrite Hdel, lookup_delete_eq in Hsame.
    destruct (consume_missing state w2 Hsame) as (w2' & E & ? & ?). exists w2'.
    by rewrite callback_unfold, (bind_step _ _ _ _ _ E).
Qed.

(** A Cloudflare account whose email is already that of another user
    cannot log in: the insertion violates the unique email, so the login fails
    with an integrity error and leaves the tables alone; nothing links the two
    accounts. *)
Theorem oauth_email_taken cf_sub email n y w :
  (forall k, db_down k = false) ->
  y ∈ users (w_sess w) -> u_email y = Some email ->
  (forall z, z ∈ users (w_sess w) -> column_is env_dialect (u_cf_sub z) cf_sub = false) ->
  exists w', upsert_user cf_sub (JStr email) n w = (Raise IntegrityError, w') /\
    w_db w' = w_db w /\ w_sess w' = w_db w.
Proof.
  intros Hup Hy Hem Hsub.
  assert (Hnone : user_by_sub cf_sub (w_sess w) = []).
  { destruct (user_by_sub cf_sub (w_sess w)) as [|z l] eqn:E; [done|exfalso].
    assert (Hz : z ∈ z :: l) by left. rewrite <- E in Hz.
    apply list_elem_of_filter in Hz as [Hz Hin]. by rewrite Hsub in Hz. }
  unfold upsert_user. rewrite (bind_step _ _ _ _ _ (db_query_up _ _ (Hup _))), Hnone.
  erewrite bind_step by done. cbn [scalar_one_or_none]. erewrite bind_step by done.
  do 3 (erewrite bind_step by done). erewrite bind_step by done.
  match goal with |- context [(flush ≫= _) ?w0] =>
    assert (Hc : constraints_ok env_dialect (w_sess w0) = false) end.
  { unfold constraints_ok, keys_ok. simpl.
    replace (distinct_opt (u_email <$> users (w_sess w) ++ _)) with false; [by rewrite andb_false_r|].
    symmetry. apply bool_decide_eq_false_2. rewrite fmap_app, omap_app, NoDup_app. simpl.
    intros (_ & Hdisj & _). apply (Hdisj email); [|by left].
    apply list_elem_of_omap. exists (Some email). split; [|done]. rewrite <- Hem.
    by apply list_elem_of_fmap_2. }
  eexists. unfold flush, mbind, M_bind, tick, rollback, modify, gets, raise. simpl. rewrite Hup. simpl.
  simpl in Hc. rewrite Hc. done.
Qed.

(** What a completed login is: its state was stored, live, and is consumed; the
    code is exchanged with the verifier and the id token validated against the
    nonce that were stored under it; the user returned is the committed row of
    the token's subject, as the database compares; the session token is issued
    for that user; the delegated access token is stored encrypted on a
    credential of that user; and nothing else of the tables it started from
    changes. *)
Definition completed_login (code state : pystr) (w : world) (user : User) (jwt : pystr) (w' : world) : Prop :=
  exists e stored verifier nonce tokens id_token access_token claims sub c w0 w1 w2,
    w_redis w !! oauth_state_key state = Some e /\ live (w_tick w) e = true /\
    re_value e = Some stored /\ w_redis w' = delete (oauth_state_key state) (w_redis w) /\
    _consume_oauth_state state w = (Ok stored, w0) /\
    py_getitem stored (u "verifier") = Ok (JStr verifier) /\ py_getitem stored (u "nonce") = Ok nonce /\
    exchange_code code verifier w0 = (Ok tokens, w1) /\
    py_get tokens (u "id_token") = Ok id_token /\ py_get tokens (u "access_token") = Ok access_token /\
    validate_id_token id_token nonce access_token (JStr code) w1 = (Ok claims, w2) /\
    py_getitem claims (u "sub") = Ok (JStr sub) /\
    user ∈ users (w_db w') /\ column_is env_dialect (u_cf_sub user) sub = true /\
    jwt = jwt_encode c (jwt_secret env_settings) /\ jc_sub c = u_id user /\
    stores_consent (u_id user) tokens (w_db w') /\
    w_db w' = set_users (fun _ => users (w_db w'))
                (set_credentials (fun _ => credentials (w_db w')) (w_sess w)) /\
    (forall y, u_id y ≠ u_id user -> y ∈ users (w_db w') <-> y ∈ users (w_sess w)) /\
    (forall c', uc_user_id c' ≠ u_id user -> c' ∈ credentials (w_db w') <-> c' ∈ credentials (w_sess w)).

Lemma consume_Ok state w stored w0 :
  _consume_oauth_state state w = (Ok stored, w0) -> is_none stored = false ->
  w_sess w0 = w_sess w /\ w_redis w0 = delete (oauth_state_key state) (w_redis w) /\
  exists e, w_redis w !! oauth_state_key state = Some e /\ live (w_tick w) e = true /\
    re_value e = Some stored.
Proof.
  unfold _consume_oauth_state, swallow, redis_getdel, redis_command, try_except, tick, gets, modify,
    mbind, M_bind. destruct (redis_down (w_tick w)); simpl; [by intros [= <- _]|].
  unfold lookup_live. destruct (w_redis w !! _) as [e|] eqn:Ee; simpl; [|by intros [= <- _]].
  destruct (live (w_tick w) e) eqn:El; simpl; [|by intros [= <- _]].
  destruct (re_value e) as [j|] eqn:Ej; [|done]. intros [= <- <-] _. simpl. split_and!; [done..|by exists e].
Qed.

(** The exchange and the validation leave the session's tables alone. *)
Lemma exchange_validate_sess code verifier id_token nonce access_token w tokens w1 claims w2 :
  exchange_code code verifier w = (Ok tokens, w1) ->
  validate_id_token id_token nonce access_token (JStr code) w1 = (Ok claims, w2) ->
  w_sess w2 = w_sess w.
Proof.
  intros He Hv.
  assert (Hke : Keeps same_db (exchange_code code verifier)) by (unfold exchange_code, post_token; solve_keeps).
  specialize (Hke w). rewrite He in Hke. destruct Hke as (_ & Es & _). simpl in Es. rewrite <- Es.
  assert (Hmod : forall f, (forall w, same_db w (f w)) -> Keeps same_db (modify f))
    by (intros f Hf; by apply keeps_modify).
  assert (Hjwks : Keeps same_db fetch_jwks) by (unfold fetch_jwks, plain_get; solve_keeps; by apply Hmod).
  assert (Hm : forall kid, Keeps same_db (jwks_matches kid)) by (intros; unfold jwks_matches; solve_keeps).
  assert (Hclear : Keeps same_db clear_jwks_cache) by by apply Hmod.
  assert (Hkey : forall kid, Keeps same_db (_resolve_signing_key kid))
    by (intros; unfold _resolve_signing_key; solve_keeps).
  assert (Hkv : Keeps same_db (validate_id_token id_token nonce access_token (JStr code)))
    by (unfold validate_id_token; solve_keeps).
  specialize (Hkv w1). rewrite Hv in Hkv. by destruct Hkv as (_ & ? & _).
Qed.

(** C27: a completed login with Cloudflare is what it claims ([completed_login]):
    tied to the state it was started with, to the code it was completed with
    and to the validated subject, and confined to the rows of that user. *)
Theorem oauth_login_links_account code state w user jwt w' :
  handle_cf_oauth_callback code state w = (Ok (user, jwt), w') ->
  completed_login code state w user jwt w'.
Proof.
  rewrite callback_unfold. intros (stored & w0 & Hcons & Hrun)%M_bind_Ok.
  pose proof (redis_callback_with stored code w0) as Hredis. rewrite Hrun in Hredis.
  unfold same_redis in Hredis. simpl in Hredis. unfold callback_with in Hrun.
  destruct (is_none stored) eqn:Hnone; [done|].
  destruct (consume_Ok _ _ _ _ Hcons Hnone) as (Hs0 & Hr0 & e & He & Hlive & Hval_e).
  apply M_bind_Ok in Hrun as (verifier & w1 & [Hver ->]%lift_Ok & Hrun).
  apply M_bind_Ok in Hrun as (tokens & w2 & Htok & Hrun).
  apply M_bind_Ok in Hrun as (id_token & w3 & [Hidt ->]%lift_Ok & Hrun).
  destruct (negb (truthy id_token)); [done|].
  apply M_bind_Ok in Hrun as (nonce & w3 & [Hnonce ->]%lift_Ok & Hrun).
  apply M_bind_Ok in Hrun as (access & w3 & [Hat ->]%lift_Ok & Hrun).
  apply M_bind_Ok in Hrun as (claims & w4 & Hval & Hrun).
  apply M_bind_Ok in Hrun as (sub & w5 & [Hsub ->]%lift_Ok & Hrun).
  apply M_bind_Ok in Hrun as (email & w5 & [_ ->]%lift_Ok & Hrun).
  apply M_bind_Ok in Hrun as (n & w5 & [-> ->]%now_Ok & Hrun).
  apply M_bind_Ok in Hrun as (uid & w6 & (_ & Hs6 & Ho6 & x & Hx & Hxid & Hxsub)%upsert_user_Ok & Hrun).
  apply M_bind_Ok in Hrun as (a & w7 & (_ & Hs7 & Hstores & Ho7)%store_consent_Ok & Hrun).
  apply M_bind_Ok in Hrun as (b & w8 & (_ & Hc & ->)%commit_Ok & Hrun).
  apply M_bind_Ok in Hrun as (row & w9 & (Hin & Hrow & ->)%refresh_row_Ok & Hrun).
  apply M_bind_Ok in Hrun as (tok & w10 & Hjwt & Hrun).
  rewrite create_jwt_run in Hjwt. injection Hjwt as <- <-.
  apply ret_Ok in Hrun as [Hpair ->]. injection Hpair as -> ->. simpl in Hin.
  assert (Hu : users (w_sess w7) = users (w_sess w6)) by (rewrite Hs7; done).
  assert (Hcr : credentials (w_sess w6) = credentials (w_sess w4)) by (rewrite Hs6; done).
  pose proof (exchange_validate_sess _ _ _ _ _ _ _ _ _ _ Htok Hval) as Hs4. rewrite Hs0 in Hs4.
  pose proof (keys_ok_tokens _ (constraints_keys _ _ Hc)) as (_ & _ & Hcids).
  assert (row = x) as ->.
  { eapply (NoDup_fmap_inj u_id); [apply keys_ok_users; by eapply constraints_keys|done| |congruence].
    by rewrite Hu. }
  exists e, stored, (match py_getitem stored (u "verifier") with Ok (JStr v) => v | _ => [] end), nonce, tokens,
    id_token, access, claims, sub. eexists. exists w0, w2, w4.
  apply result_bind_Ok in Hver as (jv & Hjv & Hvs). destruct jv; try done. injection Hvs as ->. rewrite Hjv.
  apply result_bind_Ok in Hsub as (j & Hj & Hs). destruct j; try done. injection Hs as ->.
  split_and!; try done.
  - simpl in *. congruence.
  - by rewrite Hrow.
  - simpl in *. rewrite Hu, <- Hs4. transitivity (set_credentials (fun _ => credentials (w_sess w7))
      (set_users (fun _ => users (w_sess w6)) (w_sess w4))); [|done]. rewrite <- Hs6. exact Hs7.
  - intros y Hy. simpl in *. rewrite Hu, <- Hs4. apply Ho6. congruence.
  - intros c' Hc'. simpl in *. rewrite (Ho7 Hcids) by congruence. by rewrite Hcr, Hs4.
Qed.
End oauth_properties.
