(* ===== verification/Refreshing.v ===== *)
(** * Concurrent use of one OAuth credential

    [get_valid_access_token] and the consent of [handle_cf_oauth_callback] as
    the steps they take on one row of the table, for any number of requests at
    once. A request works on an object it loaded before: SQLAlchemy keeps one
    object per row and session, and documents that a later [SELECT], [FOR
    UPDATE] included, returns that object with the attributes it had, unless
    the statement asks for [populate_existing]. The parameter [repopulates]
    says which; the source does not ask for it. *)

From S2P Require Import Prelude PyStr Json Scope Models World Crypto Cache Locks OAuthCf Upstream.
From S2P Require Import AccessTokens Security OAuthService.

(** ** The statements on the row *)

(** The conditional UPDATE of the rotation, on the row as it is. *)
Definition fenced (row : UpstreamCredential) (access refresh : pystr) (expires : option Z)
    (c : UpstreamCredential) : UpstreamCredential :=
  if (uc_cred_version c =? uc_cred_version row)%Z
  then rotate_credential access refresh expires (uc_cred_version row + 1) c else c.

(** The UPDATE of the consent: [credential.cred_version += 1] writes the version
    of the object, not of the row. *)
Definition consent_update (row : UpstreamCredential) (scopes access refresh : option pystr)
    (expires : option Z) (c : UpstreamCredential) : UpstreamCredential :=
  consented scopes (uc_cred_version row + 1 - uc_cred_version c) access refresh expires c.

(** ** The machine *)

Inductive phase :=
| Loaded (row : UpstreamCredential)
| Locked (row : UpstreamCredential)
| Trading (row : UpstreamCredential) (access refresh : pystr) (expires : option Z)
| Consenting (row : UpstreamCredential).

(** What happened, refresh tokens as their ciphertexts: one traded in at the
    provider; one replaced by a rotation; one put in place by a consent, from a
    stale object or not. *)
Inductive entry :=
| Trade (from : option pystr)
| Rotated (from to : option pystr)
| Consented (stale : bool) (to : option pystr).

Record race := Race {
  committed : UpstreamCredential;
  lock : option nat;
  phases : gmap nat phase;
  log : list entry;
}.

Definition start (c : UpstreamCredential) : race := Race c None ∅ [].

Section machine.
Context `{Env}.
Variable repopulates : bool.

Definition row_locks (c : UpstreamCredential) : bool :=
  sel_for_update _ (with_row_lock (select_credential (uc_id c))).

(** Nobody else's [FOR UPDATE] is in the way. *)
Definition row_free (s : race) : Prop := row_locks (committed s) = true -> lock s = None.

(** The end of the transaction of [i]. *)
Definition released (i : nat) (l : option nat) : option nat :=
  if bool_decide (l = Some i) then None else l.

Inductive race_step (s : race) : race -> Prop :=
| race_load i :
    phases s !! i = None ->
    race_step s (Race (committed s) (lock s) (<[i := Loaded (committed s)]> (phases s)) (log s))
| race_lock i row :
    phases s !! i = Some (Loaded row) -> row_free s ->
    race_step s (Race (committed s) (if row_locks (committed s) then Some i else lock s)
      (<[i := Locked (if repopulates then committed s else row)]> (phases s)) (log s))
| race_fresh i row k :
    phases s !! i = Some (Locked row) -> still_valid row k ->
    race_step s (Race (committed s) (released i (lock s)) (delete i (phases s)) (log s))
| race_trade i row k old access refresh expires :
    phases s !! i = Some (Locked row) -> ~ still_valid row k ->
    decrypt_secret (uc_refresh_token_enc row) = Ok old ->
    race_step s (Race (committed s) (lock s) (<[i := Trading row access refresh expires]> (phases s))
      (log s ++ [Trade (uc_refresh_token_enc row)]))
| race_store i row access refresh expires :
    phases s !! i = Some (Trading row access refresh expires) ->
    race_step s (Race (fenced row access refresh expires (committed s)) (released i (lock s))
      (delete i (phases s))
      (log s ++ if (uc_cred_version (committed s) =? uc_cred_version row)%Z
                then [Rotated (uc_refresh_token_enc row) (Some refresh)] else []))
| race_abort i :
    race_step s (Race (committed s) (released i (lock s)) (delete i (phases s)) (log s))
| race_consent_load i :
    phases s !! i = None ->
    race_step s (Race (committed s) (lock s) (<[i := Consenting (committed s)]> (phases s)) (log s))
| race_consent i row scopes access refresh expires :
    phases s !! i = Some (Consenting row) -> row_free s ->
    let c := consent_update row scopes access refresh expires (committed s) in
    race_step s (Race c (lock s) (delete i (phases s))
      (log s ++ [Consented (negb (uc_cred_version row =? uc_cred_version (committed s))%Z)
                   (uc_refresh_token_enc c)])).

Definition raced : relation race := rtc race_step.
End machine.

(** ** The specification: a chain of refresh tokens

    [chain x l y]: from [x], every rotation of [l] replaces the token that is
    in place, and [y] is in place at the end. [traded_chain] asks in addition
    that only the token in place is traded in. *)
Fixpoint chain (x : option pystr) (l : list entry) (y : option pystr) : Prop :=
  match l with
  | [] => x = y
  | Trade _ :: l => chain x l y
  | Rotated from to :: l => from = x /\ chain to l y
  | Consented _ to :: l => chain to l y
  end.

Fixpoint traded_chain (x : option pystr) (l : list entry) (y : option pystr) : Prop :=
  match l with
  | [] => x = y
  | Trade from :: l => from = x /\ traded_chain x l y
  | Rotated from to :: l => from = x /\ traded_chain to l y
  | Consented _ to :: l => traded_chain to l y
  end.

Definition no_stale_consent (l : list entry) : Prop :=
  Forall (fun e => match e with Consented stale _ => stale = false | _ => True end) l.

Lemma chain_app x l l' y z : chain x l y -> chain y l' z -> chain x (l ++ l') z.
Proof. revert x. induction l as [|[] l IH]; simpl; [by intros x ->|naive_solver..]. Qed.

Lemma traded_chain_app x l l' y z :
  traded_chain x l y -> traded_chain y l' z -> traded_chain x (l ++ l') z.
Proof. revert x. induction l as [|[] l IH]; simpl; [by intros x ->|naive_solver..]. Qed.

(** ** The statements are those of the code *)

(** On the table, the rotation of [get_valid_access_token] is [fenced] on the
    row of the credential. *)
Lemma rotated_fenced row access refresh expires d :
  credentials (rotated row access refresh expires d) =
    update_where (fun c => bool_decide (uc_id c = uc_id row)) (fenced row access refresh expires)
      (credentials d).
Proof.
  apply list_fmap_ext. intros i c _. unfold fenced.
  by destruct (bool_decide _), (uc_cred_version c =? uc_cred_version row)%Z.
Qed.

(** From an object that is up to date, the consent is that of [store_consent]. *)
Lemma consent_update_fresh row scopes access refresh expires c :
  uc_cred_version row = uc_cred_version c ->
  consent_update row scopes access refresh expires c = consented scopes 1 access refresh expires c.
Proof. intros E. unfold consent_update. rewrite E. by replace (_ + 1 - _)%Z with 1%Z by lia. Qed.

(** ** The fence *)

Section fence.
Context `{Env}.

Definition object (p : phase) : UpstreamCredential :=
  match p with Loaded row | Locked row | Trading row _ _ _ | Consenting row => row end.

(** The version of an object tells whether its token is still the one in place. *)
Definition current_by_version (c row : UpstreamCredential) : Prop :=
  (uc_cred_version row <= uc_cred_version c)%Z /\
  (uc_cred_version row = uc_cred_version c -> uc_refresh_token_enc row = uc_refresh_token_enc c).

Definition fence_invariant (c0 : UpstreamCredential) (s : race) : Prop :=
  no_stale_consent (log s) ->
  chain (uc_refresh_token_enc c0) (log s) (uc_refresh_token_enc (committed s)) /\
  forall i p, phases s !! i = Some p -> current_by_version (committed s) (object p).

Lemma current_self c : current_by_version c c.
Proof. by split. Qed.

(** A write that bumps the version leaves every other object behind. *)
Lemma current_bump c c' row :
  uc_cred_version c' = (uc_cred_version c + 1)%Z -> current_by_version c row -> current_by_version c' row.
Proof. intros E [Hle _]. split; lia. Qed.

Lemma fence_initial c : fence_invariant c (start c).
Proof. by intros _. Qed.

Lemma no_stale_app l l' : no_stale_consent (l ++ l') -> no_stale_consent l /\ no_stale_consent l'.
Proof. apply Forall_app. Qed.

Lemma fence_step repopulates c0 s s' :
  race_step repopulates s s' -> fence_invariant c0 s -> fence_invariant c0 s'.
Proof.
  intros Hstep Hinv Hns. destruct Hstep as [i Hi|i row Hi Hfree|i row k Hi Hv
    |i row k old a r e Hi Hv Hd|i row a r e Hi|i|i Hi|i row scopes a r e Hi Hfree]; simpl in *.
  - destruct (Hinv Hns) as [Hc Hp]. split; [done|].
    intros j p [[<- <-]|[_ Hj]]%lookup_insert_Some; [apply current_self|eauto].
  - destruct (Hinv Hns) as [Hc Hp]. split; [done|].
    intros j p [[<- <-]|[_ Hj]]%lookup_insert_Some; [|eauto].
    destruct repopulates; [apply current_self|exact (Hp _ _ Hi)].
  - destruct (Hinv Hns) as [Hc Hp]. split; [done|]. intros j p [_ Hj]%lookup_delete_Some. eauto.
  - apply no_stale_app in Hns as [Hns _]. destruct (Hinv Hns) as [Hc Hp].
    split; [by eapply chain_app|].
    intros j p [[<- <-]|[_ Hj]]%lookup_insert_Some; [exact (Hp _ _ Hi)|eauto].
  - apply no_stale_app in Hns as [Hns _]. destruct (Hinv Hns) as [Hc Hp].
    destruct (Hp _ _ Hi) as [_ Heq]. simpl in Heq. unfold fenced.
    destruct (Z.eqb_spec (uc_cred_version (committed s)) (uc_cred_version row)) as [E|E].
    + split; [eapply chain_app; [done|]; simpl; split; [by apply Heq|done]|].
      intros j p [_ Hj]%lookup_delete_Some. eapply current_bump; [|by eauto]. simpl. lia.
    + rewrite app_nil_r. split; [done|]. intros j p [_ Hj]%lookup_delete_Some. eauto.
  - destruct (Hinv Hns) as [Hc Hp]. split; [done|]. intros j p [_ Hj]%lookup_delete_Some. eauto.
  - destruct (Hinv Hns) as [Hc Hp]. split; [done|].
    intros j p [[<- <-]|[_ Hj]]%lookup_insert_Some; [apply current_self|eauto].
  - apply no_stale_app in Hns as [Hns Hst]. destruct (Hinv Hns) as [Hc Hp].
    apply Forall_inv, negb_false_iff, Z.eqb_eq in Hst. split; [by eapply chain_app|].
    intros j p [_ Hj]%lookup_delete_Some. eapply current_bump; [|by eauto]. simpl. lia.
Qed.
End fence.

(** ** The row lock *)

Section row_lock.
Context `{Env}.
Hypothesis mysql : env_dialect = MySQL.

Definition past_select (p : phase) : bool :=
  match p with Locked _ | Trading _ _ _ _ => true | _ => false end.

(** Whoever is past the [SELECT] holds the lock, on the row as it is. *)
Definition exclusive (s : race) : Prop :=
  forall i p, phases s !! i = Some p -> past_select p = true ->
  lock s = Some i /\ object p = committed s.

Definition lock_invariant (c0 : UpstreamCredential) (s : race) : Prop :=
  traded_chain (uc_refresh_token_enc c0) (log s) (uc_refresh_token_enc (committed s)) /\ exclusive s.

Lemma row_locks_mysql c : row_locks c = true.
Proof. unfold row_locks, with_row_lock. by rewrite mysql. Qed.

Lemma lock_initial c : lock_invariant c (start c).
Proof. done. Qed.

Lemma exclusive_free s :
  exclusive s -> lock s = None -> forall i p, phases s !! i = Some p -> past_select p = false.
Proof.
  intros He Hl i p Hi. apply not_true_iff_false. intros Hp.
  destruct (He i p Hi Hp) as [E _]. congruence.
Qed.

(** Two requests are never both past the [SELECT]. *)
Lemma exclusive_other s i p j q :
  exclusive s -> phases s !! i = Some p -> past_select p = true ->
  j ≠ i -> phases s !! j = Some q -> past_select q = false.
Proof.
  intros He Hi Hp Hji Hj. apply not_true_iff_false. intros Hq.
  destruct (He i p Hi Hp) as [E1 _], (He j q Hj Hq) as [E2 _]. congruence.
Qed.

(** A request leaves; whoever is past the [SELECT] is another one. *)
Lemma exclusive_leave s i c :
  exclusive s ->
  (forall j p, j ≠ i -> phases s !! j = Some p -> past_select p = true -> object p = c) ->
  forall l, exclusive (Race c (released i (lock s)) (delete i (phases s)) l).
Proof.
  intros He Hc l j p Hj Hp. simpl in *. apply lookup_delete_Some in Hj as [Hij Hj].
  destruct (He j p Hj Hp) as [E _]. split; [|by eapply Hc].
  unfold released. rewrite E, bool_decide_eq_false_2 by congruence. done.
Qed.

(** A request that is not past the [SELECT] comes in. *)
Lemma exclusive_enter s i p0 l :
  past_select p0 = false -> exclusive s ->
  exclusive (Race (committed s) (lock s) (<[i := p0]> (phases s)) l).
Proof.
  intros H0 He j p Hj Hp. simpl in *.
  apply lookup_insert_Some in Hj as [[<- <-]|[_ Hj]]; [congruence|]. by apply He.
Qed.

Lemma lock_step c0 s s' : race_step true s s' -> lock_invariant c0 s -> lock_invariant c0 s'.
Proof.
  intros Hstep [Hc He]. destruct Hstep as [i Hi|i row Hi Hfree|i row k Hi Hv
    |i row k old a r e Hi Hv Hd|i row a r e Hi|i|i Hi|i row scopes a r e Hi Hfree]; (split; simpl).
  - done.
  - by apply exclusive_enter.
  - done.
  - rewrite row_locks_mysql. specialize (Hfree (row_locks_mysql _)).
    intros j p Hj Hp. simpl in *. apply lookup_insert_Some in Hj as [[<- <-]|[_ Hj]]; [done|].
    by rewrite (exclusive_free s He Hfree j p Hj) in Hp.
  - done.
  - apply exclusive_leave; [done|]. intros j p _ Hj Hp. by apply (He j p).
  - destruct (He _ _ Hi eq_refl) as [_ E]. simpl in E. eapply traded_chain_app; [done|].
    simpl. by rewrite E.
  - intros j p Hj Hp. simpl in *.
    apply lookup_insert_Some in Hj as [[<- <-]|[_ Hj]]; [by apply (He i _ Hi)|by apply He].
  - destruct (He _ _ Hi eq_refl) as [_ E]. simpl in E. eapply traded_chain_app; [done|].
    unfold fenced. rewrite E, Z.eqb_refl. done.
  - apply exclusive_leave; [done|]. intros j p Hji Hj Hp.
    by rewrite (exclusive_other s i _ j p He Hi eq_refl Hji Hj) in Hp.
  - done.
  - apply exclusive_leave; [done|]. intros j p _ Hj Hp. by apply (He j p).
  - done.
  - by apply exclusive_enter.
  - by eapply traded_chain_app.
  - specialize (Hfree (row_locks_mysql _)).
    intros j p Hj Hp. simpl in *. apply lookup_delete_Some in Hj as [_ Hj].
    by rewrite (exclusive_free s He Hfree j p Hj) in Hp.
Qed.
End row_lock.

(** ** Properties *)

Lemma raced_invariant `{Env} repopulates (I : race -> Prop) c s :
  I (start c) -> (forall s s', race_step repopulates s s' -> I s -> I s') ->
  raced repopulates (start c) s -> I s.
Proof. intros H0 Hs. apply (rtc_ind_r I); [done|]. intros x y _ Hxy Hx. by eapply Hs. Qed.

Section race_properties.
Context `{Env}.

Lemma not_valid_without_expiry c k : uc_token_expires_at c = None -> ~ still_valid c k.
Proof. intros E (e & Ee & _). congruence. Qed.

(** One step of a given request; row locks are those of MySQL. *)
Tactic Notation "race" tactic3(t) constr(mysql) :=
  eapply rtc_l;
  [t; simpl; try done; try (by intros _); try (by apply not_valid_without_expiry)
  |simpl; rewrite ?(row_locks_mysql mysql); unfold released, fenced; simpl;
   rewrite ?Z.eqb_refl; simpl].

(** As the code stands, the expiry is not re-checked inside the lock: the
    object that is examined is the one loaded before, so a request that waited
    for the row while another one rotated the token trades the same refresh
    token in again. *)
Theorem waiter_trades_again c old refresh :
  env_dialect = MySQL -> uc_token_expires_at c = None ->
  decrypt_secret (uc_refresh_token_enc c) = Ok old ->
  exists s, raced false (start c) s /\
    log s = [Trade (uc_refresh_token_enc c);
             Rotated (uc_refresh_token_enc c) (Some refresh);
             Trade (uc_refresh_token_enc c)].
Proof.
  intros Hm He Hd. eexists. split.
  - race (eapply race_load with (i := 0)) Hm. race (eapply race_load with (i := 1)) Hm.
    race (eapply race_lock with (i := 0)) Hm.
    race (eapply race_trade with (i := 0) (k := 0) (access := []) (refresh := refresh)
        (expires := None)) Hm.
    race (eapply race_store with (i := 0)) Hm.
    race (eapply race_lock with (i := 1)) Hm.
    race (eapply race_trade with (i := 1) (k := 0) (access := []) (refresh := refresh)
        (expires := None)) Hm.
    apply rtc_refl.
  - done.
Qed.

(** The fence compares versions, and a consent writes the version of the
    object it loaded plus one, which a rotation may have reached already: a
    request that loaded the rotated row then passes the fence and puts the token
    of the old grant back in place of the one just consented to. *)
Theorem stale_consent_is_overwritten c old old' refresh refresh' consent (scopes : option pystr) :
  env_dialect = MySQL -> uc_token_expires_at c = None ->
  decrypt_secret (uc_refresh_token_enc c) = Ok old -> decrypt_secret (Some refresh) = Ok old' ->
  exists s, raced false (start c) s /\
    log s = [Trade (uc_refresh_token_enc c);
             Rotated (uc_refresh_token_enc c) (Some refresh);
             Consented true (Some consent);
             Trade (Some refresh);
             Rotated (Some refresh) (Some refresh')] /\
    uc_refresh_token_enc (committed s) = Some refresh'.
Proof.
  intros Hm He Hd Hd'. eexists. split.
  - race (eapply race_consent_load with (i := 2)) Hm. race (eapply race_load with (i := 0)) Hm.
    race (eapply race_lock with (i := 0)) Hm.
    race (eapply race_trade with (i := 0) (k := 0) (access := []) (refresh := refresh)
        (expires := None)) Hm.
    race (eapply race_store with (i := 0)) Hm.
    race (eapply race_load with (i := 1)) Hm.
    race (eapply race_consent with (i := 2) (scopes := scopes) (access := None)
        (refresh := Some consent) (expires := None)) Hm.
    race (eapply race_lock with (i := 1)) Hm.
    race (eapply race_trade with (i := 1) (k := 0) (access := []) (refresh := refresh')
        (expires := None)) Hm.
    race (eapply race_store with (i := 1)) Hm.
    apply rtc_refl.
  - simpl. rewrite (proj2 (Z.eqb_neq _ _)) by lia.
    by rewrite (proj2 (Z.eqb_eq _ _)) by lia.
Qed.

(** C14: the version fence keeps the chain of refresh tokens: with any number of
    requests refreshing one credential at once, on either database, whatever
    stale objects they hold and wherever they fail, every rotation that is
    stored replaces the very token that was traded in for it, and the token in
    place is that of the last rotation or consent, provided every consent was
    stored from an object that was up to date. *)
Theorem refresh_chain repopulates c s :
  raced repopulates (start c) s -> no_stale_consent (log s) ->
  chain (uc_refresh_token_enc c) (log s) (uc_refresh_token_enc (committed s)).
Proof.
  intros Hr Hns. refine (proj1 (raced_invariant repopulates (fence_invariant c) c s _ _ Hr Hns)).
  - apply fence_initial.
  - intros s1 s2. apply fence_step.
Qed.

(** Were the locked row read anew, the row lock of MySQL would do what the
    docstring says: no refresh token is ever traded in unless it is the one in
    place, consents from stale objects included. *)
Theorem row_lock_trades_current c s :
  env_dialect = MySQL -> raced true (start c) s ->
  traded_chain (uc_refresh_token_enc c) (log s) (uc_refresh_token_enc (committed s)).
Proof.
  intros Hm Hr. refine (proj1 (raced_invariant true (lock_invariant c) c s _ _ Hr)).
  - apply lock_initial.
  - intros s1 s2. by apply lock_step.
Qed.
End race_properties.
