(* ===== verification/ProxyAuth.v ===== *)
(** * Scoped-token authentication ([auth/proxy_auth.py]) *)

From S2P Require Import Prelude PyStr Json Scope Models World Envelopes Crypto Cache.

Record ProxyAuthContext := Context_ {
  ctx_token : ScopedToken;
  ctx_rules : list rule;
  ctx_credential : UpstreamCredential;
}.

(** ** The cached form of a rule *)

Definition strs (l : list pystr) : json := JArr (JStr <$> l).

Definition _rule_to_cache_dict (r : rule) : json := JObj [
  (u "zone_id", JStr (zone_id r));
  (u "name_pattern", of_opt_str (name_pattern r));
  (u "name_match", JStr (name_match r));
  (u "record_types", strs (record_types r));
  (u "record_ids", from_option strs JNull (record_ids r));
  (u "allow_read", JBool (allow_read r));
  (u "allow_create", JBool (allow_create r));
  (u "allow_write", JBool (allow_write r));
  (u "allow_delete", JBool (allow_delete r))].

(** An attribute of the restored object, at the type of the column. A value of
    another type, or a missing one, is an error here rather than at its first
    use; no writer of the cache stores one. *)
Definition attr_str (j : json) : result pystr :=
  match j with JStr s => Ok s | _ => Raise AttributeError end.
Definition attr_bool (j : json) : result bool :=
  match j with JBool b => Ok b | _ => Raise AttributeError end.
Definition attr_strs (j : json) : result (list pystr) :=
  match j with JArr l => result_mapM attr_str l | _ => Raise AttributeError end.
Definition attr_opt {A} (f : json -> result A) (j : json) : result (option A) :=
  match j with JNull => Ok None | _ => Some <$> f j end.

Definition _cache_dict_to_rule (data : json) : result rule :=
  z ← py_get data (u "zone_id") ≫= attr_str;
  p ← py_get data (u "name_pattern") ≫= attr_opt attr_str;
  m ← py_get data (u "name_match") ≫= attr_str;
  t ← py_get data (u "record_types") ≫= attr_strs;
  i ← py_get data (u "record_ids") ≫= attr_opt attr_strs;
  r ← py_get data (u "allow_read") ≫= attr_bool;
  c ← py_get data (u "allow_create") ≫= attr_bool;
  w ← py_get data (u "allow_write") ≫= attr_bool;
  d ← py_get data (u "allow_delete") ≫= attr_bool;
  Ok (Rule z p m t i r c w d).

Section proxy_auth.
Context `{Env}.

(** [JNull] on a miss or on any Redis or decoding error. *)
Definition _get_cached_rules (key : pystr) : M json :=
  raw ← swallow (redis_get key) None;
  match raw with
  | None => mret JNull
  | Some e => match re_value e with Some j => mret j | None => mret JNull end
  end.

Definition _set_cached_rules (key : pystr) (rs : list json) (ttl : Z) : M unit :=
  swallow (redis_set key (JArr rs) ttl) tt.

Definition rules_of (token_id : pystr) (d : database) : list rule :=
  sr_rule <$> select_where (fun r => bool_decide (sr_scoped_token_id r = token_id)) (rules d).

Definition _load_rules (scoped_token : ScopedToken) : M (list rule) :=
  let key := rules_key (st_lookup_id scoped_token) (st_version scoped_token) in
  cached ← _get_cached_rules key;
  match cached with
  | JNull =>
      rs ← db_query (rules_of (st_id scoped_token));
      _ ← _set_cached_rules key (_rule_to_cache_dict <$> rs) (rules_cache_ttl env_settings);
      mret rs
  | _ =>
      items ← lift (py_iter cached);
      lift (result_mapM _cache_dict_to_rule items)
  end.

Definition token_by_lookup (lookup_id : pystr) (d : database) : list ScopedToken :=
  select_where (fun t => bool_decide (st_lookup_id t = lookup_id)) (tokens d).

Definition credential_by_id (id : pystr) (d : database) : list UpstreamCredential :=
  select_where (fun c => bool_decide (uc_id c = id)) (credentials d).

(** [expires_at is not None and expires_at < datetime.now(UTC)]. *)
Definition expired (expires_at : option Z) : M bool :=
  match expires_at with
  | None => mret false
  | Some e => n ← now; lift (dt_lt (load_datetime e) n)
  end.

Definition resolve_scoped_token (full_token : pystr) : M (option ProxyAuthContext) :=
  match parse_scoped_token full_token with
  | None => mret None
  | Some (lookup_id, _) =>
      rows ← db_query (token_by_lookup lookup_id);
      row ← lift (scalar_one_or_none rows);
      match row with
      | None => mret None
      | Some scoped_token =>
          verified ← lift (verify_token full_token (st_token_hash scoped_token));
          if negb verified then mret None
          else if negb (bool_decide (st_status scoped_token = u "active")) then mret None
          else
            is_expired ← expired (st_expires_at scoped_token);
            if (is_expired : bool) then mret None
            else
              crows ← db_query (credential_by_id (st_upstream_credential_id scoped_token));
              crow ← lift (scalar_one_or_none crows);
              match crow with
              | None => mret None
              | Some credential =>
                  rs ← _load_rules scoped_token;
                  mret (Some (Context_ scoped_token rs credential))
              end
      end
  end.

Definition invalid_token : exn := HTTPException 401 (DetailCf TOKEN_INVALID (u "Invalid API Token")).

(** [authorization] is the header, empty when absent. *)
Definition require_scoped_token (authorization : pystr) : M ProxyAuthContext :=
  let '(scheme, _, full_token) := partition_at char_space authorization in
  if negb (bool_decide (lower scheme = u "bearer")) || bool_decide (full_token = [])
  then raise invalid_token
  else
    context ← resolve_scoped_token full_token;
    match context with
    | None => raise invalid_token
    | Some c => mret c
    end.
End proxy_auth.

(** ** The cached form is faithful *)

Lemma attr_strs_strs l : attr_strs (strs l) = Ok l.
Proof.
  unfold attr_strs, strs. induction l as [|x l IH]; [done|]. rewrite fmap_cons. cbn [result_mapM attr_str].
  by rewrite IH.
Qed.

Lemma cache_dict_inverse r : _cache_dict_to_rule (_rule_to_cache_dict r) = Ok r.
Proof.
  destruct r as [z p m t i r c w d]. unfold _cache_dict_to_rule, _rule_to_cache_dict.
  cbn [zone_id name_pattern name_match record_types record_ids allow_read allow_create allow_write
       allow_delete].
  pose proof (attr_strs_strs t) as Ht. revert Ht. generalize (strs t). intros jt Ht.
  assert (Hi : attr_opt attr_strs (from_option strs JNull i) = Ok i)
    by (destruct i as [i|]; [|done]; change (Some <$> attr_strs (strs i) = Ok (Some i));
        by rewrite attr_strs_strs).
  revert Hi. generalize (from_option strs JNull i). intros ji Hi.
  assert (Hp : attr_opt attr_str (of_opt_str p) = Ok p) by by destruct p.
  revert Hp. generalize (of_opt_str p). intros jp Hp.
  lazy -[attr_strs attr_opt attr_str attr_bool].
  change (attr_str (JStr z)) with (Ok z). lazy -[attr_strs attr_opt attr_str attr_bool].
  rewrite Hp. lazy -[attr_strs attr_opt attr_str attr_bool].
  change (attr_str (JStr m)) with (Ok m). lazy -[attr_strs attr_opt attr_str attr_bool].
  rewrite Ht. lazy -[attr_strs attr_opt attr_str attr_bool].
  rewrite Hi. by lazy.
Qed.

Lemma cache_dicts_inverse rs : result_mapM _cache_dict_to_rule (_rule_to_cache_dict <$> rs) = Ok rs.
Proof.
  induction rs as [|r rs IH]; [done|]. rewrite fmap_cons. cbn [result_mapM].
  by rewrite cache_dict_inverse, IH.
Qed.

(** ** What the cache may hold *)

Section coherence.
Context `{Env}.

(** A cache entry agrees with the tables: every entry under a key of a token
    is of its current version or an older one, and the entry of the current
    version is the rules of the token. *)
Definition coherent (d : database) (r : gmap pystr redis_entry) : Prop :=
  forall t v e, t ∈ tokens d -> r !! rules_key (st_lookup_id t) v = Some e ->
    (v <= st_version t)%Z /\
    (v = st_version t -> re_value e = Some (JArr (_rule_to_cache_dict <$> rules_of (st_id t) d))).

Definition cache_coherent (w : world) : Prop := coherent (w_sess w) (w_redis w).

(** Two rows of one lookup id are the same row: the column is unique. *)
Definition lookup_unique (d : database) : Prop :=
  forall t t', t ∈ tokens d -> t' ∈ tokens d -> st_lookup_id t = st_lookup_id t' -> t = t'.

Lemma coherent_subset d r r' :
  (forall k e, r' !! k = Some e -> r !! k = Some e) -> coherent d r -> coherent d r'.
Proof. intros Hsub Hc t v e Ht He. eapply Hc; eauto. Qed.

Lemma coherent_set d r t e :
  lookup_unique d -> t ∈ tokens d ->
  re_value e = Some (JArr (_rule_to_cache_dict <$> rules_of (st_id t) d)) ->
  coherent d r -> coherent d (<[rules_key (st_lookup_id t) (st_version t) := e]> r).
Proof.
  intros Hu Ht He Hc t' v e' Ht' Hl. rewrite lookup_insert_Some in Hl.
  destruct Hl as [[Hk <-]|[_ Hl]]; [|by eapply Hc].
  apply rules_key_inj in Hk as [Hlk <-]. assert (t = t') as <- by by apply Hu.
  by split; [lia|].
Qed.
End coherence.

Section resolve_laws.
Context `{Env}.

Definition live_entry (w : world) (key : pystr) (e : redis_entry) : Prop :=
  w_redis w !! key = Some e.

(** A read of the cache: what it returns was stored, and it changes nothing
    but the tick. *)
Lemma get_cached_rules_run key w :
  exists j, _get_cached_rules key w = (Ok j, set_tick S w) /\
    (j = JNull \/ exists e, w_redis w !! key = Some e /\ re_value e = Some j).
Proof.
  unfold _get_cached_rules, swallow, try_except, redis_get, redis_command, mbind, M_bind, tick.
  destruct (redis_down _); simpl; [exists JNull; by auto|].
  unfold lookup_live. destruct (w_redis w !! key) as [e|]; [|exists JNull; by auto].
  destruct (live _ e); [|exists JNull; by auto].
  destruct (re_value e) as [j|] eqn:Ej; (eexists; split; [done|]); eauto.
Qed.

Lemma set_cached_rules_run key rs ttl w :
  exists w', _set_cached_rules key rs ttl w = (Ok tt, w') /\
    w_db w' = w_db w /\ w_sess w' = w_sess w /\
    (w_redis w' = w_redis w \/
     exists x, w_redis w' = <[key := RedisEntry (Some (JArr rs)) x]> (w_redis w)).
Proof.
  unfold _set_cached_rules, swallow, try_except, redis_set, redis_command, mbind, M_bind, tick.
  destruct (redis_down _); simpl; [eexists; split; [done|]; auto|].
  destruct (ttl <=? 0)%Z; simpl; (eexists; split; [done|]; split_and!; eauto).
Qed.

(** Loading the rules of a token: those of the database when the cache is
    coherent, which it then still is. *)
Lemma load_rules_run t w r w' :
  lookup_unique (w_sess w) -> t ∈ tokens (w_sess w) -> cache_coherent w ->
  _load_rules t w = (r, w') ->
  cache_coherent w' /\ w_sess w' = w_sess w /\
  (r = Ok (rules_of (st_id t) (w_sess w)) \/ r = Raise OperationalError).
Proof.
  intros Hu Ht Hc. unfold _load_rules, mbind, M_bind.
  destruct (get_cached_rules_run (rules_key (st_lookup_id t) (st_version t)) w) as (j & -> & Hj).
  destruct Hj as [->|(e & He & Hv)].
  - unfold db_query, mbind, M_bind, tick. simpl. destruct (db_down _); [by intros [= <- <-]; auto|].
    simpl. destruct (set_cached_rules_run (rules_key (st_lookup_id t) (st_version t))
      (_rule_to_cache_dict <$> rules_of (st_id t) (w_sess w)) (rules_cache_ttl env_settings)
      (set_tick S (set_tick S w))) as (w2 & -> & _ & Hs & Hr). intros [= <- <-].
    simpl in *. unfold cache_coherent. rewrite Hs. split_and!; [|done|by left].
    destruct Hr as [->|[x ->]]; [done|]. by apply coherent_set.
  - destruct (Hc t _ e Ht He) as [_ Hval]. rewrite (Hval eq_refl) in Hv. injection Hv as <-.
    unfold lift. simpl. rewrite cache_dicts_inverse. intros [= <- <-]. by auto.
Qed.

(** What a resolved context is made of. *)
Record resolved (full : pystr) (w : world) (c : ProxyAuthContext) : Prop := Resolved {
  res_token : ctx_token c ∈ tokens (w_sess w);
  res_lookup : exists s, parse_scoped_token full = Some (st_lookup_id (ctx_token c), s);
  res_hash : verify_token full (st_token_hash (ctx_token c)) = Ok true;
  res_active : st_status (ctx_token c) = u "active";
  res_fresh : forall e, st_expires_at (ctx_token c) = Some e ->
    exists k, w_tick w <= k /\ dt_lt (load_datetime e) (DT (clock k) (Some 0%Z)) = Ok false;
  res_credential : ctx_credential c ∈ credentials (w_sess w);
  res_credential_id : uc_id (ctx_credential c) = st_upstream_credential_id (ctx_token c);
}.

Lemma expired_run o w b w' :
  expired o w = (Ok b, w') ->
  w_sess w' = w_sess w /\ w_redis w' = w_redis w /\
  (b = false -> forall e, o = Some e ->
     dt_lt (load_datetime e) (DT (clock (w_tick w)) (Some 0%Z)) = Ok false).
Proof.
  destruct o as [e|]; simpl.
  - unfold now. intros. inv_run. unfold tick in *. simplify_eq/=. by intuition congruence.
  - intros. inv_run. done.
Qed.

Lemma resolve_inv full w c w' :
  resolve_scoped_token full w = (Ok (Some c), w') ->
  resolved full w c /\
  exists w1, w_sess w1 = w_sess w /\ w_redis w1 = w_redis w /\
    _load_rules (ctx_token c) w1 = (Ok (ctx_rules c), w').
Proof.
  unfold resolve_scoped_token. destruct (parse_scoped_token full) as [[l s]|] eqn:Hp; [|done].
  intros (rows & w1 & (_ & -> & ->)%db_query_Ok & (row & w2 & [Hrow ->]%lift_Ok & E)%M_bind_Ok)%M_bind_Ok.
  destruct row as [t|]; [|by apply ret_Ok in E as [[=] _]].
  apply M_bind_Ok in E as (verified & w3 & [Hver ->]%lift_Ok & E).
  destruct verified; simpl in E; [|by apply ret_Ok in E as [[=] _]].
  case_bool_decide as Hact; simpl in E; [|by apply ret_Ok in E as [[=] _]].
  apply M_bind_Ok in E as (is_expired & w4 & (Hs & Hr & Hfresh)%expired_run & E).
  destruct is_expired; [by apply ret_Ok in E as [[=] _]|].
  apply M_bind_Ok in E as (crows & w5 & (_ & -> & ->)%db_query_Ok & E).
  apply M_bind_Ok in E as (crow & w6 & [Hcrow ->]%lift_Ok & E).
  destruct crow as [credential|]; [|by apply ret_Ok in E as [[=] _]].
  apply M_bind_Ok in E as (rs & w7 & Hload & [[= ->] ->]%ret_Ok).
  simpl in Hs. rewrite Hs in Hcrow.
  apply scalar_one_or_none_Some in Hrow as [Hin Hl%bool_decide_eq_true_1].
  apply scalar_one_or_none_Some in Hcrow as [Hcin Hcid%bool_decide_eq_true_1].
  split; [split; simpl; try done; [by subst l; eexists|]|by exists (set_tick S w4)].
  intros e He. exists (S (w_tick w)). split; [lia|]. by apply Hfresh.
Qed.

(** With a coherent cache, the rules are those of the table. *)
Lemma resolve_rules full w c w' :
  resolve_scoped_token full w = (Ok (Some c), w') -> lookup_unique (w_sess w) -> cache_coherent w ->
  ctx_rules c = rules_of (st_id (ctx_token c)) (w_sess w) /\ cache_coherent w'.
Proof.
  intros Hrun Hu Hc. destruct (resolve_inv _ _ _ _ Hrun) as [Hres (w1 & Hs & Hr & Hload)].
  unfold cache_coherent in Hc. rewrite <- Hs, <- Hr in Hc.
  apply load_rules_run in Hload as (Hc' & _ & Hrules); [|by rewrite Hs|rewrite Hs; apply Hres|done].
  rewrite Hs in Hrules. destruct Hrules as [[= ->]|]; done.
Qed.
End resolve_laws.

Section resolve_complete.
Context `{Env}.
Hypothesis db_up : forall k, db_down k = false.

Lemma load_rules_total t w :
  lookup_unique (w_sess w) -> t ∈ tokens (w_sess w) -> cache_coherent w ->
  exists w', _load_rules t w = (Ok (rules_of (st_id t) (w_sess w)), w').
Proof.
  intros Hu Ht Hc. unfold _load_rules.
  destruct (get_cached_rules_run (rules_key (st_lookup_id t) (st_version t)) w) as (j & Ej & Hj).
  rewrite (bind_step _ _ _ _ _ Ej). destruct Hj as [->|(e & He & Hv)].
  - rewrite (bind_step _ _ _ _ _ (db_query_up _ _ (db_up _))). simpl.
    destruct (set_cached_rules_run (rules_key (st_lookup_id t) (st_version t))
      (_rule_to_cache_dict <$> rules_of (st_id t) (w_sess w)) (rules_cache_ttl env_settings)
      (set_tick S (set_tick S w))) as (w2 & E2 & _).
    rewrite (bind_step _ _ _ _ _ E2). by eexists.
  - destruct (Hc t _ e Ht He) as [_ Hval]. rewrite (Hval eq_refl) in Hv. injection Hv as <-.
    unfold lift, mbind, M_bind. simpl. rewrite cache_dicts_inverse. by eexists.
Qed.

(** Every row that satisfies the conditions is resolved when the database
    answers. *)
Lemma resolve_accepts full l s t cr w :
  parse_scoped_token full = Some (l, s) -> token_by_lookup l (w_sess w) = [t] ->
  verify_token full (st_token_hash t) = Ok true -> st_status t = u "active" ->
  (forall e, st_expires_at t = Some e ->
    dt_lt (load_datetime e) (DT (clock (S (w_tick w))) (Some 0%Z)) = Ok false) ->
  credential_by_id (st_upstream_credential_id t) (w_sess w) = [cr] ->
  lookup_unique (w_sess w) -> cache_coherent w ->
  exists w', resolve_scoped_token full w =
      (Ok (Some (Context_ t (rules_of (st_id t) (w_sess w)) cr)), w').
Proof.
  intros Hp Hrow Hv Ha He Hcr Hu Hc.
  assert (Hin : t ∈ tokens (w_sess w)).
  { assert (t ∈ token_by_lookup l (w_sess w)) as Ht by (rewrite Hrow; left).
    by apply list_elem_of_filter in Ht as [_ ?]. }
  assert (Hexp : exists n, expired (st_expires_at t) (set_tick S w) = (Ok false, set_tick n w)).
  { destruct (st_expires_at t) as [e|]; simpl; [|by eexists].
    unfold now, tick, mbind, M_bind, lift. simpl. rewrite (He e eq_refl).
    by exists (fun n => S (S n)). }
  destruct Hexp as [n Hexp]. unfold resolve_scoped_token. rewrite Hp.
  rewrite (bind_step _ _ _ _ _ (db_query_up _ _ (db_up _))), Hrow.
  rewrite (bind_step _ _ _ (Some t) (set_tick S w)) by done.
  rewrite (bind_step _ _ _ true (set_tick S w)) by (unfold lift; by rewrite Hv).
  simpl. rewrite Ha. simpl. rewrite (bind_step _ _ _ _ _ Hexp).
  rewrite (bind_step _ _ _ _ _ (db_query_up _ _ (db_up _))). simpl. rewrite Hcr.
  rewrite (bind_step _ _ _ (Some cr) (set_tick S (set_tick n w))) by done.
  destruct (load_rules_total t (set_tick S (set_tick n w))) as [w' Ew]; [done..|].
  rewrite (bind_step _ _ _ _ _ Ew). by eexists.
Qed.
End resolve_complete.

(** ** The authentication without the cache *)

Section reference.
Context `{Env}.

(** Past its expiry, at the time [n]. *)
Definition late_by (o : option Z) (n : datetime) : result bool :=
  match o with None => Ok false | Some e => dt_lt (load_datetime e) n end.

(** What a string resolves to by the tables [d] alone, at the time [n]. *)
Definition resolve_reference (d : database) (n : datetime) (full : pystr)
    : result (option ProxyAuthContext) :=
  match parse_scoped_token full with
  | None => Ok None
  | Some (lookup_id, _) =>
      row ← scalar_one_or_none (token_by_lookup lookup_id d);
      match row with
      | None => Ok None
      | Some t =>
          verified ← verify_token full (st_token_hash t);
          if negb (verified && bool_decide (st_status t = u "active")) then Ok None
          else
            late ← late_by (st_expires_at t) n;
            if (late : bool) then Ok None
            else
              crow ← scalar_one_or_none (credential_by_id (st_upstream_credential_id t) d);
              Ok (option_map (Context_ t (rules_of (st_id t) d)) crow)
      end
  end.

Hypothesis db_up : forall k, db_down k = false.

Lemma expired_total o w :
  exists k, expired o w = (late_by o (DT (clock (w_tick w)) (Some 0%Z)), set_tick k w).
Proof.
  destruct o as [e|]; [by exists S|]. exists id. by destruct w.
Qed.

Lemma resolve_is_reference full w :
  lookup_unique (w_sess w) -> cache_coherent w ->
  (resolve_scoped_token full w).1 =
    resolve_reference (w_sess w) (DT (clock (S (w_tick w))) (Some 0%Z)) full.
Proof.
  intros Hu Hc. unfold resolve_scoped_token, resolve_reference.
  destruct (parse_scoped_token full) as [[l s]|]; [|done].
  rewrite (bind_step _ _ _ _ _ (db_query_up _ _ (db_up _))).
  destruct (scalar_one_or_none (token_by_lookup l (w_sess w))) as [row|e] eqn:Er; [|done].
  erewrite bind_step by done. cbn [mbind result_bind]. destruct row as [t|]; [|done].
  assert (Hin : t ∈ tokens (w_sess w)) by by apply scalar_one_or_none_Some in Er as [? _].
  destruct (verify_token full (st_token_hash t)) as [verified|e]; [|done].
  erewrite bind_step by done. cbn [mbind result_bind]. destruct verified; [|done].
  destruct (bool_decide (st_status t = u "active")); [|done]. cbn [negb andb].
  destruct (expired_total (st_expires_at t) (set_tick S w)) as [k Ek].
  change (w_tick (set_tick S w)) with (S (w_tick w)) in Ek.
  destruct (late_by _ _) as [late|e]; [|by rewrite (bind_raise _ _ _ _ _ Ek)].
  rewrite (bind_step _ _ _ _ _ Ek). cbn [mbind result_bind]. destruct late; [done|].
  rewrite (bind_step _ _ _ _ _ (db_query_up _ _ (db_up _))).
  change (w_sess (set_tick k (set_tick S w))) with (w_sess w).
  destruct (scalar_one_or_none (credential_by_id _ (w_sess w))) as [crow|e]; [|done].
  erewrite bind_step by done. cbn [mbind result_bind]. destruct crow as [c|]; [|done].
  destruct (load_rules_total db_up t (set_tick S (set_tick k (set_tick S w)))) as [w' Ew]; [done..|].
  by rewrite (bind_step _ _ _ _ _ Ew).
Qed.
End reference.

(** ** Properties *)

Section proxy_auth_properties.
Context `{Env}.

(** A rule read back from its cached form is the rule that was cached, so
    authorising against the cache and against the database agree. *)
Theorem cached_rule_roundtrip r : _cache_dict_to_rule (_rule_to_cache_dict r) = Ok r.
Proof. apply cache_dict_inverse. Qed.

(** Soundness of the authentication: a context is only ever resolved for a
    row of the token table found by the lookup id of the presented string,
    whose hash the string verifies, that is active and not past its expiry,
    with the credential it refers to; and with a coherent cache its rules are
    exactly the rows of the rule table for that token. *)
Theorem resolve_scoped_token_sound full w c w' :
  resolve_scoped_token full w = (Ok (Some c), w') ->
  lookup_unique (w_sess w) ->
  resolved full w c /\
  (cache_coherent w -> ctx_rules c = rules_of (st_id (ctx_token c)) (w_sess w) /\
                       cache_coherent w').
Proof.
  intros Hrun Hu. split; [by apply resolve_inv in Hrun as [? _]|]. by apply (resolve_rules full).
Qed.

(** C17: authentication is its cache-free definition: while the database
    answers, what a string resolves to, with a coherent cache of rules in any
    state and any failure of Redis, is what the tables alone say of it; every
    refusal and every error included. *)
Theorem resolve_equals_reference full w :
  (forall k, db_down k = false) -> lookup_unique (w_sess w) -> cache_coherent w ->
  (resolve_scoped_token full w).1 =
    resolve_reference (w_sess w) (DT (clock (S (w_tick w))) (Some 0%Z)) full.
Proof. intros Hup. by apply resolve_is_reference. Qed.

(** A header that is not [bearer] (in any case) followed by a token is
    refused with the token-invalid error before anything is looked up; any
    other is resolved, and refused with the same error when nothing
    resolves. *)
Theorem require_scoped_token_spec authorization w :
  let '(scheme, _, full) := partition_at char_space authorization in
  (lower scheme = u "bearer" -> full = [] ->
     require_scoped_token authorization w = (Raise invalid_token, w)) /\
  (lower scheme ≠ u "bearer" -> require_scoped_token authorization w = (Raise invalid_token, w)) /\
  (lower scheme = u "bearer" -> full ≠ [] ->
     require_scoped_token authorization w =
       match resolve_scoped_token full w with
       | (Ok (Some c), w') => (Ok c, w')
       | (Ok None, w') => (Raise invalid_token, w')
       | (Raise e, w') => (Raise e, w')
       end).
Proof.
  unfold require_scoped_token. destruct (partition_at _ _) as [[scheme found] full].
  split_and!.
  - intros -> ->. by rewrite orb_true_r.
  - intros Hs. by rewrite (bool_decide_false _ Hs).
  - intros -> Hf. rewrite bool_decide_true, (bool_decide_false _ Hf) by done. simpl.
    unfold mbind, M_bind. destruct (resolve_scoped_token full w) as [[[c|]|e] w']; done.
Qed.

(** A token with an expiry date cannot be used when the driver returns
    naive datetimes: the comparison with the aware current time raises, for
    every valid token of the kind and whatever the date. *)
Theorem naive_expiry_raises full l s t e w :
  column_tz = None -> (forall k, db_down k = false) ->
  parse_scoped_token full = Some (l, s) ->
  token_by_lookup l (w_sess w) = [t] ->
  verify_token full (st_token_hash t) = Ok true -> st_status t = u "active" ->
  st_expires_at t = Some e ->
  (resolve_scoped_token full w).1 = Raise TypeError.
Proof.
  intros Htz Hup Hp Hrow Hv Ha He. unfold resolve_scoped_token. rewrite Hp.
  unfold db_query, mbind, M_bind, tick. rewrite Hup. simpl. rewrite Hrow. simpl.
  rewrite Hv. simpl. rewrite Ha. simpl. unfold expired. rewrite He.
  unfold now, tick, load_datetime, mbind, M_bind. simpl. unfold dt_lt. simpl.
  by rewrite Htz.
Qed.
End proxy_auth_properties.
