(* ===== verification/Credentials.v ===== *)
(** * Upstream credentials ([services/credential_service.py]) *)

From S2P Require Import Prelude PyStr Json JsonText Scope Models World Crypto Cache Upstream.
From S2P Require Import AuditLogs.

(** [if not s] for an optional string. *)
Definition absent (o : option pystr) : bool :=
  match o with Some (_ :: _) => false | _ => true end.

Definition revoked_token (now : Z) (t : ScopedToken) : ScopedToken := {|
  st_id := st_id t; st_user_id := st_user_id t;
  st_upstream_credential_id := st_upstream_credential_id t; st_name := st_name t;
  st_lookup_id := st_lookup_id t; st_token_prefix := st_token_prefix t;
  st_token_hash := st_token_hash t; st_version := st_version t + 1;
  st_status := u "revoked"; st_expires_at := st_expires_at t;
  st_last_used_at := st_last_used_at t; st_created_at := st_created_at t;
  st_revoked_at := Some now |}.

Section credentials.
Context `{Env}.

Definition owned_credential (user_id credential_id : pystr) (d : database) : list UpstreamCredential :=
  select_where (fun c => bool_decide (uc_id c = credential_id)
                         && bool_decide (uc_user_id c = user_id)) (credentials d).

Definition credential_not_found (credential_id : pystr) : exn :=
  NotFoundError (u "upstream credential " ++ repr credential_id ++ u " not found").

Definition get_owned_credential (user_id credential_id : pystr) : M UpstreamCredential :=
  rows ← db_query (owned_credential user_id credential_id);
  credential ← lift (scalar_one_or_none rows);
  match credential with
  | None => raise (credential_not_found credential_id)
  | Some c => mret c
  end.

Definition _SUPPORTED_CRED_TYPES : list pystr := [u "token"; u "global_key"].

(** The secret a pasted credential is stored as, or why it is refused. *)
Definition secret_plain (cred_type : pystr) (api_token global_key cf_account_email : option pystr)
    : result pystr :=
  if negb (bool_decide (cred_type ∈ _SUPPORTED_CRED_TYPES))
  then Raise (ValueError (u "unsupported cred_type: " ++ repr cred_type))
  else if bool_decide (cred_type = u "token") then
    if absent api_token
    then Raise (ValueError (u "api_token is required for cred_type='token'"))
    else Ok (default [] api_token)
  else if absent global_key || absent cf_account_email
  then Raise (ValueError
         (u "global_key and cf_account_email are required for cred_type='global_key'"))
  else Ok (json_dumps (JObj [
         (u "email", JStr (default [] cf_account_email));
         (u "key", JStr (default [] global_key))])).

Definition new_credential (id user_id label cred_type secret_enc : pystr)
    (cf_account_email : option pystr) (created_at : Z) : UpstreamCredential := {|
  uc_id := id; uc_user_id := user_id; uc_label := label; uc_cred_type := cred_type;
  uc_secret_enc := Some secret_enc; uc_access_token_enc := None; uc_refresh_token_enc := None;
  uc_token_expires_at := None; uc_oauth_scopes := None; uc_key_version := 1;
  uc_cred_version := 1; uc_cf_account_email := cf_account_email; uc_verify_status := None;
  uc_verified_at := None; uc_created_at := created_at |}.

Definition register_credential (user_id label cred_type : pystr)
    (api_token global_key cf_account_email : option pystr) : M UpstreamCredential :=
  plain ← lift (secret_plain cred_type api_token global_key cf_account_email);
  secret_enc ← encrypt_secret plain;
  id ← _new_uuid;
  n ← now;
  _ ← sess_modify (set_credentials (fun l => l ++
        [new_credential id user_id label cred_type secret_enc cf_account_email (dt_wall n)]));
  _ ← commit;
  refresh_row credentials uc_id id.

Definition verified_credential (status : pystr) (n : Z) (email : option pystr)
    (c : UpstreamCredential) : UpstreamCredential := {|
  uc_id := uc_id c; uc_user_id := uc_user_id c; uc_label := uc_label c;
  uc_cred_type := uc_cred_type c; uc_secret_enc := uc_secret_enc c;
  uc_access_token_enc := uc_access_token_enc c; uc_refresh_token_enc := uc_refresh_token_enc c;
  uc_token_expires_at := uc_token_expires_at c; uc_oauth_scopes := uc_oauth_scopes c;
  uc_key_version := uc_key_version c; uc_cred_version := uc_cred_version c;
  uc_cf_account_email := match email with Some e => Some e | None => uc_cf_account_email c end;
  uc_verify_status := Some status; uc_verified_at := Some n; uc_created_at := uc_created_at c |}.

(** [if isinstance(result, dict) and result.get("email"): ...]; a value the
    column cannot hold is refused. *)
Definition reported_email (res : json) : result (option pystr) :=
  match res with
  | JObj d =>
      let email := default JNull (dict_get (u "email") d) in
      if truthy email then Some <$> as_header_value email else Ok None
  | _ => Ok None
  end.

Definition verify_credential (user_id credential_id : pystr) : M UpstreamCredential :=
  credential ← get_owned_credential user_id credential_id;
  auth_headers ← resolve_upstream_auth credential;
  envelope ← verify_upstream auth_headers;
  success ← lift (py_get envelope (u "success"));
  n ← now;
  result ← lift (py_get envelope (u "result"));
  email ← lift (reported_email result);
  _ ← sess_modify (set_credentials (update_where
        (fun c => bool_decide (uc_id c = credential_id))
        (verified_credential (if truthy success then u "active" else u "invalid")
           (dt_wall n) email)));
  _ ← commit;
  refresh_row credentials uc_id credential_id.

Definition list_credentials (user_id : pystr) : M (list UpstreamCredential) :=
  db_query (fun d => select_where (fun c => bool_decide (uc_user_id c = user_id)) (credentials d)).

Definition dependent_tokens (credential_id : pystr) (d : database) : list ScopedToken :=
  select_where (fun t => bool_decide (st_upstream_credential_id t = credential_id)
                         && bool_decide (st_status t = u "active")) (tokens d).

(** The body of the cascade: revoke one token and drop its cached rules. *)
Definition revoke_dependent (t : ScopedToken) : M unit :=
  n ← now;
  _ ← sess_modify (set_tokens (update_where (fun t' => bool_decide (st_id t' = st_id t))
        (revoked_token (dt_wall n))));
  cache_del [rules_key (st_lookup_id t) (st_version t)].

Definition delete_credential (user_id credential_id : pystr) : M unit :=
  credential ← get_owned_credential user_id credential_id;
  dependents ← db_query (dependent_tokens credential_id);
  _ ← for_each dependents revoke_dependent;
  _ ← cache_del [oauth_at_key credential_id; zones_key credential_id];
  _ ← sess_modify (set_credentials (delete_where
        (fun c => bool_decide (uc_id c = uc_id credential))));
  commit.

Fixpoint credential_zones_loop (fuel : nat) (auth_headers : headers) (zones : list json)
    (page : Z) : M (list json) :=
  match fuel with
  | O => raise OutOfFuel
  | S fuel' =>
      response ← forward_request (u "GET") (u "/client/v4/zones") None
        (Some [(u "page", JNum page); (u "per_page", JNum 50)]) None auth_headers;
      _ ← lift (raise_for_status response);
      body ← lift (response_json response);
      result ← lift (py_get body (u "result"));
      items ← lift (py_iter (py_or result (JArr [])));
      result_info ← lift (py_get body (u "result_info"));
      total_pages ← lift (py_get_default (py_or result_info (JObj [])) (u "total_pages") (JNum 1));
      stop ← lift (int_ge page total_pages);
      if (stop : bool) then mret (zones ++ items)
      else credential_zones_loop fuel' auth_headers (zones ++ items) (page + 1)
  end.

(** A cached list is returned as it is, whatever its type. *)
Definition list_credential_zones (fuel : nat) (user_id credential_id : pystr) : M json :=
  credential ← get_owned_credential user_id credential_id;
  cached ← cache_get_json (zones_key credential_id);
  match cached with
  | JNull =>
      auth_headers ← resolve_upstream_auth credential;
      zones ← credential_zones_loop fuel auth_headers [] 1;
      _ ← cache_set_json (zones_key credential_id) (JArr zones) (rules_cache_ttl env_settings);
      mret (JArr zones)
  | _ => mret cached
  end.

Definition list_credential_zone_records (fuel : nat) (user_id credential_id zone_id : pystr)
    (params : option (list (pystr * json))) : M (list json) :=
  credential ← get_owned_credential user_id credential_id;
  auth_headers ← resolve_upstream_auth credential;
  list_all_records fuel zone_id params auth_headers.
End credentials.

(** ** Laws *)

Section credential_laws.
Context `{Env}.

Lemma owned_credential_inv user id d c :
  scalar_one_or_none (owned_credential user id d) = Ok (Some c) ->
  c ∈ credentials d /\ uc_id c = id /\ uc_user_id c = user.
Proof.
  unfold owned_credential, select_where. destruct (filter _ _) as [|y [|]] eqn:E; try done.
  intros [= ->]. assert (Hc : c ∈ filter (fun c => bool_decide (uc_id c = id)
    && bool_decide (uc_user_id c = user) = true) (credentials d)) by (rewrite E; left).
  apply list_elem_of_filter in Hc as [Hb Hin]. apply andb_true_iff in Hb as [H1 H2].
  by apply bool_decide_eq_true_1 in H1, H2.
Qed.

Lemma get_owned_credential_Ok user id w c w' :
  get_owned_credential user id w = (Ok c, w') ->
  c ∈ credentials (w_sess w) /\ uc_id c = id /\ uc_user_id c = user /\ w' = set_tick S w.
Proof.
  intros (rows & w1 & (_ & -> & ->)%db_query_Ok & (o & w2 & [Ho ->]%lift_Ok & Hr)%M_bind_Ok)%M_bind_Ok.
  destruct o as [c'|]; [|done]. apply ret_Ok in Hr as [-> ->].
  by apply owned_credential_inv in Ho as (? & ? & ?).
Qed.

(** Nothing of the user's under this id: a miss, whether or not the id is
    somebody else's. *)
Lemma get_owned_credential_miss user id w :
  db_down (w_tick w) = false -> owned_credential user id (w_sess w) = [] ->
  get_owned_credential user id w = (Raise (credential_not_found id), set_tick S w).
Proof.
  intros Hup Hn. unfold get_owned_credential.
  rewrite (bind_step _ _ _ _ _ (db_query_up _ _ Hup)), Hn. done.
Qed.

(** What a token keeps for life, its status and version apart. *)
Definition token_key (t : ScopedToken) :=
  (st_id t, st_user_id t, st_upstream_credential_id t, st_lookup_id t, st_token_hash t).

(** One token before and after the cascade over [ids]. *)
Definition revoked_step (ids : list pystr) (t t' : ScopedToken) : Prop :=
  token_key t' = token_key t /\
  (st_id t ∈ ids -> st_status t' = u "revoked" /\ (st_version t < st_version t')%Z) /\
  (st_id t ∉ ids -> t' = t).

(** Nothing but those tokens changes, and nothing is committed. *)
Definition cascade (ids : list pystr) (w w' : world) : Prop :=
  Forall2 (revoked_step ids) (tokens (w_sess w)) (tokens (w_sess w')) /\
  w_sess w' = set_tokens (fun _ => tokens (w_sess w')) (w_sess w) /\ w_db w' = w_db w.

Lemma cascade_cons i ids w1 w2 w3 :
  cascade [i] w1 w2 -> cascade ids w2 w3 -> cascade (i :: ids) w1 w3.
Proof.
  intros (H1 & E1 & D1) (H2 & E2 & D2). split_and!; [|by rewrite E2 at 1; rewrite E1|congruence].
  clear E1 E2. revert H2. generalize (tokens (w_sess w3)).
  induction H1 as [|t t1 l l1 (K1 & R1 & U1) _ IH]; intros l3 H2.
  { apply Forall2_nil_inv_l in H2 as ->. constructor. }
  apply Forall2_cons_inv_l in H2 as (t2 & l2 & (K2 & R2 & U2) & Hl & ->).
  constructor; [|by apply IH]. assert (Hid : st_id t1 = st_id t) by (unfold token_key in K1; congruence).
  rewrite Hid in *. split_and!; [congruence| |].
  - intros Hin. destruct (decide (st_id t ∈ ids)) as [Hi|Hn].
    + destruct (R2 Hi) as [Hs Hv]. split; [done|].
      destruct (decide (st_id t ∈ [i])) as [H1|H1]; [apply R1 in H1 as [_ ?]; lia|].
      by rewrite (U1 H1) in Hv.
    + rewrite (U2 Hn). apply R1. apply elem_of_cons in Hin as [->|?]; [left|done].
  - intros [Hne Hn]%not_elem_of_cons. rewrite (U2 Hn). apply U1.
    by intros ?%list_elem_of_singleton.
Qed.

Lemma cache_del_run keys w :
  exists w', cache_del keys w = (Ok tt, w') /\ same_db w w' /\ w_trace w' = w_trace w.
Proof.
  destruct (harmless_intro (cache_del keys)) with (w := w) as ([] & w' & E & ?);
    [apply within_cache_del|apply keeps_cache_del_db|]. by exists w'.
Qed.

Lemma revoke_dependent_run t w :
  exists w', revoke_dependent t w = (Ok tt, w') /\ cascade [st_id t] w w'.
Proof.
  unfold revoke_dependent. rewrite (bind_step _ _ _ _ _ (proj2 (now_Ok _ _ _) (conj eq_refl eq_refl))).
  rewrite (bind_step _ _ _ tt _ (proj2 (sess_modify_Ok _ _ _ _) eq_refl)).
  match goal with |- context [cache_del ?k ?w0] =>
    destruct (cache_del_run k w0) as (w' & E & (Hd & Hs & _) & _) end.
  exists w'. split; [exact E|]. unfold cascade. rewrite Hs, Hd. split_and!; [|done|done].
  simpl. unfold update_where. generalize (tokens (w_sess w)). intros l.
  induction l as [|x l IH]; [constructor|]. constructor; [|apply IH]. simpl.
  split_and!; case_bool_decide as Hx; try done.
  - intros _. split; [done|simpl; lia].
  - by intros ?%list_elem_of_singleton.
  - rewrite Hx. intros Hn. destruct Hn. left.
Qed.

Lemma revoke_loop_run ts w :
  exists w', for_each ts revoke_dependent w = (Ok tt, w') /\ cascade (st_id <$> ts) w w'.
Proof.
  revert w. induction ts as [|t ts IH]; intros w; simpl.
  - exists w. split; [done|]. split_and!; [|by destruct (w_sess w)|done].
    induction (tokens (w_sess w)); constructor; [|done]. split_and!; [done|by intros ?%elem_of_nil|done].
  - destruct (revoke_dependent_run t w) as (w1 & E1 & H1).
    rewrite (bind_step _ _ _ _ _ E1). destruct (IH w1) as (w2 & E2 & H2).
    exists w2. split; [done|]. by eapply cascade_cons.
Qed.

(** A token whose credential is gone violates the foreign key. *)
Lemma dangling_token_violates d t :
  t ∈ tokens d -> st_upstream_credential_id t ∉ (uc_id <$> credentials d) ->
  constraints_ok MySQL d = false.
Proof.
  intros Ht Hno. unfold constraints_ok. apply andb_false_iff. right. apply andb_false_iff. right.
  unfold foreign_keys_ok. apply andb_false_iff. left. apply andb_false_iff. right.
  apply not_true_iff_false. rewrite forallb_forall. intros Hall.
  apply list_elem_of_In, Hall, andb_true_iff in Ht as [_ Hr]. by apply bool_decide_eq_true_1 in Hr.
Qed.

(** The tables a deletion is about to commit. *)
Definition deleted (id : pystr) (d d' : database) : Prop :=
  Forall2 (revoked_step (st_id <$> dependent_tokens id d)) (tokens d) (tokens d') /\
  d' = set_credentials (delete_where (fun c => bool_decide (uc_id c = id)))
         (set_tokens (fun _ => tokens d') d).

Lemma delete_credential_run user id c w :
  (forall k, db_down k = false) -> owned_credential user id (w_sess w) = [c] ->
  exists w1, delete_credential user id w = commit w1 /\ w_db w1 = w_db w /\
    deleted id (w_sess w) (w_sess w1).
Proof.
  intros Hup Hc. unfold delete_credential.
  assert (Hget : get_owned_credential user id w = (Ok c, set_tick S w)).
  { unfold get_owned_credential. rewrite (bind_step _ _ _ _ _ (db_query_up _ _ (Hup _))), Hc. done. }
  assert (Hcid : uc_id c = id) by (apply (owned_credential_inv user id (w_sess w)); by rewrite Hc).
  rewrite (bind_step _ _ _ _ _ Hget), (bind_step _ _ _ _ _ (db_query_up _ _ (Hup _))).
  match goal with |- context [for_each ?ds revoke_dependent] =>
    destruct (revoke_loop_run ds (set_tick S (set_tick S w))) as (w2 & E2 & Ht & Hs & Hd) end.
  rewrite (bind_step _ _ _ _ _ E2).
  destruct (cache_del_run [oauth_at_key id; zones_key id] w2) as (w3 & E3 & (Hd3 & Hs3 & _) & _).
  rewrite (bind_step _ _ _ _ _ E3), (bind_step _ _ _ tt _ (proj2 (sess_modify_Ok _ _ _ _) eq_refl)).
  eexists. split; [done|]. simpl. rewrite Hs3, Hd3, Hcid. split; [done|]. split; [done|].
  rewrite Hs. done.
Qed.

(** The cascade keeps every key of the token table. *)
Lemma revoked_step_map {A} (f : ScopedToken -> A) ids l l' :
  (forall t t', token_key t' = token_key t -> f t' = f t) ->
  Forall2 (revoked_step ids) l l' -> f <$> l' = f <$> l.
Proof.
  intros Hf. induction 1 as [|t t' l l' (K & _) _ IH]; [done|].
  rewrite !fmap_cons, IH. f_equal. by apply Hf.
Qed.

Lemma deleted_keys_ok id d d' : keys_ok d = true -> deleted id d d' -> keys_ok d' = true.
Proof.
  intros Hk [Hf ->]. unfold keys_ok, distinct, distinct_opt in *. simpl.
  assert (Hm : forall A (f : ScopedToken -> A), (forall t t', token_key t' = token_key t -> f t' = f t) ->
    f <$> tokens d' = f <$> tokens d) by (intros; by eapply revoked_step_map).
  rewrite !Hm by (unfold token_key; congruence).
  rewrite !andb_true_iff, !bool_decide_eq_true in *.
  assert (Hsub : forall A (f : UpstreamCredential -> A) l p,
    NoDup (f <$> l) -> NoDup (f <$> delete_where p l)).
  { intros A f l p Hn. eapply sublist_NoDup; [exact Hn|]. apply fmap_sublist, sublist_filter. }
  intuition.
Qed.
End credential_laws.

(** ** Properties *)

Section credential_properties.
Context `{Env}.

(** What a pasted credential must contain, and the secret that is sealed:
    an unknown type, a missing token, or a missing key or e-mail is refused
    with a [ValueError] and nothing is stored; anything else is sealed. *)
Theorem secret_plain_cases cred_type api_token global_key email :
  match secret_plain cred_type api_token global_key email with
  | Ok plain =>
      (cred_type = u "token" /\ api_token = Some plain /\ plain ≠ []) \/
      (cred_type = u "global_key" /\ exists k m, global_key = Some k /\ email = Some m /\
         k ≠ [] /\ m ≠ [] /\
         plain = json_dumps (JObj [(u "email", JStr m); (u "key", JStr k)]))
  | Raise e => is_ValueError e = true /\
      ((cred_type ≠ u "token" /\ cred_type ≠ u "global_key") \/
       (cred_type = u "token" /\ absent api_token = true) \/
       (cred_type = u "global_key" /\ (absent global_key = true \/ absent email = true)))
  end.
Proof.
  unfold secret_plain. destruct (decide (cred_type = u "token")) as [->|Ht].
  - destruct api_token as [[|c s]|]; simpl; auto 6.
  - rewrite (bool_decide_false (cred_type = u "token")) by done.
    destruct (decide (cred_type = u "global_key")) as [->|Hg].
    + rewrite bool_decide_true by set_solver. cbn [negb].
      destruct global_key as [[|c s]|]; simpl; auto 6; destruct email as [[|c' s']|]; simpl; auto 7.
      right. split; [done|]. do 2 eexists. by split_and!.
    + rewrite bool_decide_false by set_solver. simpl. auto.
Qed.

(** C28: a registered credential authenticates as what was pasted: provided the
    cipher opens what it sealed, the headers resolved from the stored row are
    the bearer token, or the e-mail and the key, that the user gave. *)
Theorem registered_credential_headers user label cred_type api_token global_key email w c w' w2 :
  (forall t p, fernet_decrypt (fernet_encrypt t p) = Some p) ->
  (forall s, email = Some s -> Forall (fun c => scalar c = true) s) ->
  (forall s, global_key = Some s -> Forall (fun c => scalar c = true) s) ->
  register_credential user label cred_type api_token global_key email w = (Ok c, w') ->
  c ∈ credentials (w_db w') /\ uc_user_id c = user /\ uc_label c = label /\
  uc_cred_type c = cred_type /\
  resolve_upstream_auth c w2 =
    (Ok (if bool_decide (cred_type = u "token")
         then [(u "Authorization", u "Bearer " ++ default [] api_token)]
         else [(u "X-Auth-Email", default [] email); (u "X-Auth-Key", default [] global_key)]), w2).
Proof.
  intros Hfer Hem Hgk Hrun. unfold register_credential in Hrun.
  apply M_bind_Ok in Hrun as (plain & w1 & [Hplain ->]%lift_Ok & Hrun).
  apply M_bind_Ok in Hrun as (enc & w1 & Henc & Hrun).
  assert (Hdec : fernet_decrypt enc = Some plain).
  { unfold encrypt_secret in Henc.
    apply M_bind_Ok in Henc as (bs & w3 & _ & (t & w4 & _ & [-> _]%ret_Ok)%M_bind_Ok). apply Hfer. }
  apply M_bind_Ok in Hrun as (id & w3 & _ & Hrun). apply M_bind_Ok in Hrun as (n & w4 & _ & Hrun).
  apply M_bind_Ok in Hrun as (x & w5 & ->%sess_modify_Ok & Hrun).
  apply M_bind_Ok in Hrun as (y & w6 & (_ & Hok & ->)%commit_Ok & Hrun).
  apply M_bind_Ok in Hrun as (rows & w7 & (_ & -> & ->)%db_query_Ok & [Hone ->]%lift_Ok).
  simpl in Hok, Hone. set (new := new_credential _ _ _ _ _ _ _) in *.
  assert (Hin : new ∈ select_where (fun c => bool_decide (uc_id c = id)) (credentials (w_sess w4) ++ [new])).
  { apply list_elem_of_filter. split; [by apply bool_decide_eq_true|]. apply elem_of_app. right. left. }
  assert (c = new) as ->.
  { destruct (select_where _ _) as [|z [|]]; try done. apply list_elem_of_singleton in Hin.
    simpl in Hone. congruence. }
  split; [simpl; apply elem_of_app; right; left|]. split_and!; [done..|].
  unfold resolve_upstream_auth, get_valid_access_token. change (uc_cred_type new) with cred_type.
  change (uc_secret_enc new) with (Some enc). unfold decrypt_secret. rewrite Hdec.
  unfold secret_plain in Hplain. destruct (decide (cred_type = u "token")) as [->|Ht].
  - simpl in Hplain. destruct (absent api_token); [done|]. by injection Hplain as <-.
  - rewrite (bool_decide_false (cred_type = u "token")) in * by done.
    destruct (decide (cred_type = u "global_key")) as [->|Hg];
      [|by rewrite bool_decide_false in Hplain by set_solver].
    rewrite bool_decide_true in Hplain by set_solver. cbn [negb] in Hplain.
    destruct global_key as [[|k ks]|], email as [[|m ms]|]; try done.
    assert (plain = json_dumps (JObj [(u "email", JStr (m :: ms)); (u "key", JStr (k :: ks))])) as ->
      by (change (Ok (json_dumps (JObj [(u "email", JStr (m :: ms)); (u "key", JStr (k :: ks))]))
            = Ok plain) in Hplain; congruence).
    rewrite bool_decide_true by done. unfold lift, mbind, M_bind.
    rewrite dumps_loads_pair; [done|by repeat constructor|by apply Hem|by repeat constructor|by apply Hgk|done].
Qed.

(** A credential of another user is as good as absent: every operation on
    it, a delete included, ends with the same not-found error as for an id
    that does not exist, and changes nothing. *)
Lemma foreign_credential_runs user id fuel zone params w :
  db_down (w_tick w) = false ->
  (forall c, c ∈ credentials (w_sess w) -> uc_id c = id -> uc_user_id c ≠ user) ->
  verify_credential user id w = (Raise (credential_not_found id), set_tick S w) /\
  delete_credential user id w = (Raise (credential_not_found id), set_tick S w) /\
  list_credential_zones fuel user id w = (Raise (credential_not_found id), set_tick S w) /\
  list_credential_zone_records fuel user id zone params w =
    (Raise (credential_not_found id), set_tick S w).
Proof.
  intros Hup Hforeign.
  assert (Hn : owned_credential user id (w_sess w) = []).
  { destruct (owned_credential user id (w_sess w)) as [|c l] eqn:E; [done|exfalso].
    assert (Hc : c ∈ owned_credential user id (w_sess w)) by (rewrite E; left).
    apply list_elem_of_filter in Hc as [Hb Hin]. apply andb_true_iff in Hb as [H1 H2].
    apply bool_decide_eq_true_1 in H1, H2. by apply (Hforeign c). }
  pose proof (get_owned_credential_miss user id w Hup Hn) as Hmiss.
  split_and!; unfold verify_credential, delete_credential, list_credential_zones,
    list_credential_zone_records; by rewrite (bind_raise _ _ _ _ _ Hmiss).
Qed.

(** On MySQL a credential that any token ever referred to, revoked ones
    included, cannot be deleted: the row is removed while the tokens keep
    their reference, so the commit violates the foreign key and everything is
    rolled back. *)
Theorem delete_used_credential_fails user id t w :
  env_dialect = MySQL -> (forall k, db_down k = false) ->
  t ∈ tokens (w_sess w) -> st_upstream_credential_id t = id ->
  (exists c, owned_credential user id (w_sess w) = [c]) ->
  exists w', delete_credential user id w = (Raise IntegrityError, w') /\ w_db w' = w_db w.
Proof.
  intros Hmy Hup Ht Hid [c Hc].
  destruct (delete_credential_run user id c w Hup Hc) as (w1 & -> & Hdb & Hf & Hs).
  assert (Hbad : constraints_ok env_dialect (w_sess w1) = false).
  { rewrite Hmy. apply (list_elem_of_fmap_2 st_upstream_credential_id) in Ht.
    rewrite <- (revoked_step_map st_upstream_credential_id _ _ _ ltac:(unfold token_key; congruence) Hf) in Ht.
    apply list_elem_of_fmap in Ht as (t' & Heq & Ht').
    apply (dangling_token_violates _ t'); [done|]. rewrite <- Heq, Hid, Hs. simpl.
    intros (c' & Hc' & [Hne _]%list_elem_of_filter)%list_elem_of_fmap.
    by apply bool_decide_eq_false_1 in Hne. }
  destruct (commit_violation w1 (Hup _) Hbad) as (w' & E & Hd & _). exists w'. by rewrite Hd.
Qed.

(** C36: where foreign keys are not enforced the deletion goes through: the
    credential and only it is gone from its table, and every token that was
    active under it is revoked, with a new version, while all other tokens are
    as they were. *)
Theorem delete_credential_cascades user id c w :
  env_dialect = SQLite -> (forall k, db_down k = false) ->
  owned_credential user id (w_sess w) = [c] -> keys_ok (w_sess w) = true ->
  exists w', delete_credential user id w = (Ok tt, w') /\
    credentials (w_db w') =
      delete_where (fun c' => bool_decide (uc_id c' = id)) (credentials (w_sess w)) /\
    Forall2 (revoked_step (st_id <$> dependent_tokens id (w_sess w)))
      (tokens (w_sess w)) (tokens (w_db w')) /\
    forall t, t ∈ tokens (w_db w') -> st_upstream_credential_id t = id -> st_status t ≠ u "active".
Proof.
  intros Hlite Hup Hc Hkeys.
  destruct (delete_credential_run user id c w Hup Hc) as (w1 & -> & Hdb & Hdel).
  destruct Hdel as [Hf Hs] eqn:Edel; clear Edel.
  assert (Hok : constraints_ok env_dialect (w_sess w1) = true).
  { rewrite Hlite. unfold constraints_ok. rewrite (deleted_keys_ok id (w_sess w)) by (done || by split). done. }
  eexists. split; [by apply commit_Ok|]. simpl. split_and!; [by rewrite Hs|done|].
  intros t Ht Hid Hact. apply list_elem_of_lookup in Ht as [i Hi].
  destruct (Forall2_lookup_r _ _ _ _ _ Hf Hi) as (t0 & Hi0 & K & R & U).
  assert (Hid0 : st_upstream_credential_id t0 = id) by (unfold token_key in K; congruence).
  destruct (decide (st_id t0 ∈ st_id <$> dependent_tokens id (w_sess w))) as [Hin|Hn].
  { rewrite (proj1 (R Hin)) in Hact. done. }
  apply Hn. rewrite (U Hn) in *. apply list_elem_of_fmap_2. apply list_elem_of_filter.
  split; [|by eapply list_elem_of_lookup_2]. by rewrite !bool_decide_true.
Qed.
End credential_properties.
