(* ===== verification/Tokens.v ===== *)
(** * Scoped tokens: mint, inspect, rotate, revoke
    ([services/token_service.py]) *)

From S2P Require Import Prelude PyStr Json Scope Models World Crypto Cache Upstream AuditLogs.
From S2P Require Import ProxyAuth Credentials.

(** A candidate rule, as the dict the service receives: a missing key is
    [None]. *)
Record rule_dict := RuleDict {
  rd_zone_id : pystr;
  rd_name_pattern : option pystr;
  rd_name_match : option pystr;
  rd_record_types : list pystr;
  rd_record_ids : option (list pystr);
  rd_allow_read : option bool;
  rd_allow_create : option bool;
  rd_allow_write : option bool;
  rd_allow_delete : option bool;
  rd_content_lock : option pystr;
}.

(** The row a rule dict becomes, with the defaults of the service. *)
Definition rule_of_dict (r : rule_dict) : rule := {|
  zone_id := rd_zone_id r;
  name_pattern := rd_name_pattern r;
  name_match := default (u "exact") (rd_name_match r);
  record_types := rd_record_types r;
  record_ids := rd_record_ids r;
  allow_read := default false (rd_allow_read r);
  allow_create := default false (rd_allow_create r);
  allow_write := default false (rd_allow_write r);
  allow_delete := default false (rd_allow_delete r) |}.

(** [not rule.get("record_ids")]. *)
Definition no_record_ids (o : option (list pystr)) : bool :=
  match o with Some (_ :: _) => false | _ => true end.

(** The dicts the services return to the routers. *)
Record minted := Minted {
  m_id : pystr; m_name : pystr; m_token : pystr; m_token_prefix : pystr;
  m_status : pystr; m_version : Z; m_expires_at : option Z; m_created_at : Z }.

Record rotated := Rotated {
  r_id : pystr; r_token : pystr; r_token_prefix : pystr; r_version : Z }.

Record ScopedTokenDetail := Detail { td_token : ScopedToken; td_rules : list ScopeRule }.

Definition new_token (id user_id credential_id name : pystr) (g : generated)
    (expires_at : option Z) (created_at : Z) : ScopedToken := {|
  st_id := id; st_user_id := user_id; st_upstream_credential_id := credential_id;
  st_name := name; st_lookup_id := g_lookup_id g; st_token_prefix := g_token_prefix g;
  st_token_hash := g_token_hash g; st_version := 1; st_status := u "active";
  st_expires_at := expires_at; st_last_used_at := None; st_created_at := created_at;
  st_revoked_at := None |}.

Definition rotated_token (g : generated) (t : ScopedToken) : ScopedToken := {|
  st_id := st_id t; st_user_id := st_user_id t;
  st_upstream_credential_id := st_upstream_credential_id t; st_name := st_name t;
  st_lookup_id := g_lookup_id g; st_token_prefix := g_token_prefix g;
  st_token_hash := g_token_hash g; st_version := st_version t + 1;
  st_status := st_status t; st_expires_at := st_expires_at t;
  st_last_used_at := st_last_used_at t; st_created_at := st_created_at t;
  st_revoked_at := st_revoked_at t |}.

Section tokens.
Context `{Env}.

(** The memo is an argument and a result: the code mutates a local dict. *)
Definition _resolve_zone_name (zone_id : pystr) (auth_headers : headers)
    (cache : list (pystr * json)) : M (json * list (pystr * json)) :=
  match dict_get zone_id cache with
  | Some name => mret (name, cache)
  | None =>
      response ← forward_request (u "GET") (u "/client/v4/zones/" ++ zone_id) None None None
                   auth_headers;
      if (hs_status response =? 404)%Z
      then raise (ValueError (u "zone " ++ repr zone_id ++ u " not found upstream"))
      else
        _ ← lift (raise_for_status response);
        body ← lift (response_json response);
        result ← lift (py_getitem body (u "result"));
        zone_name ← lift (py_getitem result (u "name"));
        mret (zone_name, dict_set zone_id zone_name cache)
  end.

(** The loop of [_validate_scope_rules]: the headers are resolved once, on
    the first rule with a pattern. *)
Fixpoint validate_rules_loop (credential : UpstreamCredential)
    (cache : list (pystr * json)) (auth : option headers) (rs : list rule_dict) : M unit :=
  match rs with
  | [] => mret tt
  | r :: rs' =>
      if absent (rd_name_pattern r) && no_record_ids (rd_record_ids r)
      then raise (ValueError (u "each scope rule requires a name_pattern or record_ids"))
      else if absent (rd_name_pattern r) then validate_rules_loop credential cache auth rs'
      else
        auth_headers ← match auth with
                       | Some hs => mret hs
                       | None => resolve_upstream_auth credential
                       end;
        zc ← _resolve_zone_name (rd_zone_id r) auth_headers cache;
        zone_name ← lift (as_str zc.1);
        _ ← lift (validate_name_pattern (default [] (rd_name_pattern r))
               (default (u "exact") (rd_name_match r)) zone_name);
        validate_rules_loop credential zc.2 (Some auth_headers) rs'
  end.

Definition _validate_scope_rules (credential : UpstreamCredential) (scope_rules : list rule_dict)
    : M unit :=
  match scope_rules with
  | [] => raise (ValueError (u "at least one scope rule is required"))
  | _ => validate_rules_loop credential [] None scope_rules
  end.

(** [session.add(ScopeRule(...))]. *)
Definition add_rule (token_id : pystr) (r : rule_dict) : M unit :=
  id ← _new_uuid;
  n ← now;
  sess_modify (set_rules (fun l => l ++ [{|
    sr_id := id; sr_scoped_token_id := token_id; sr_rule := rule_of_dict r;
    sr_content_lock := rd_content_lock r; sr_created_at := dt_wall n |}])).

Definition mint_scoped_token (user_id name upstream_credential_id : pystr)
    (scope_rules : list rule_dict) (expires_at : option datetime) : M minted :=
  credential ← get_owned_credential user_id upstream_credential_id;
  _ ← _validate_scope_rules credential scope_rules;
  g ← generate_scoped_token;
  id ← _new_uuid;
  n ← now;
  _ ← sess_modify (set_tokens (fun l => l ++
        [new_token id user_id upstream_credential_id name g (dt_wall <$> expires_at) (dt_wall n)]));
  _ ← flush;
  _ ← for_each scope_rules (add_rule id);
  _ ← commit;
  row ← refresh_row tokens st_id id;
  mret (Minted (st_id row) (st_name row) (g_full g) (st_token_prefix row) (st_status row)
          (st_version row) (st_expires_at row) (st_created_at row)).

Definition token_not_found (token_id : pystr) : exn :=
  NotFoundError (u "scoped token " ++ repr token_id ++ u " not found").

Definition owned_token (user_id token_id : pystr) (d : database) : list ScopedToken :=
  select_where (fun t => bool_decide (st_id t = token_id)
                         && bool_decide (st_user_id t = user_id)) (tokens d).

Definition _get_owned_scoped_token (user_id token_id : pystr) : M ScopedToken :=
  rows ← db_query (owned_token user_id token_id);
  scoped_token ← lift (scalar_one_or_none rows);
  match scoped_token with
  | None => raise (token_not_found token_id)
  | Some t => mret t
  end.

Definition list_scoped_tokens (user_id : pystr) : M (list ScopedToken) :=
  db_query (fun d => select_where (fun t => bool_decide (st_user_id t = user_id)) (tokens d)).

Definition get_scoped_token_detail (user_id token_id : pystr) : M ScopedTokenDetail :=
  scoped_token ← _get_owned_scoped_token user_id token_id;
  rs ← db_query (fun d =>
         select_where (fun r => bool_decide (sr_scoped_token_id r = st_id scoped_token)) (rules d));
  mret (Detail scoped_token rs).

Definition rotate_scoped_token (user_id token_id : pystr) : M rotated :=
  scoped_token ← _get_owned_scoped_token user_id token_id;
  let old_lookup_id := st_lookup_id scoped_token in
  let old_version := st_version scoped_token in
  g ← generate_scoped_token;
  _ ← sess_modify (set_tokens (update_where (fun t => bool_decide (st_id t = st_id scoped_token))
        (rotated_token g)));
  _ ← commit;
  row ← refresh_row tokens st_id (st_id scoped_token);
  _ ← cache_del [rules_key old_lookup_id old_version];
  mret (Rotated (st_id row) (g_full g) (st_token_prefix row) (st_version row)).

Definition revoke_scoped_token (user_id token_id : pystr) : M unit :=
  scoped_token ← _get_owned_scoped_token user_id token_id;
  let old_version := st_version scoped_token in
  n ← now;
  _ ← sess_modify (set_tokens (update_where (fun t => bool_decide (st_id t = st_id scoped_token))
        (revoked_token (dt_wall n))));
  _ ← commit;
  cache_del [rules_key (st_lookup_id scoped_token) old_version].
End tokens.

(** ** Laws *)

Section token_laws.
Context `{Env}.

(** *** Validation *)

Lemma frame_resolve_zone_name z auth cache : KeepsOk auth_frame (_resolve_zone_name z auth cache).
Proof. unfold _resolve_zone_name. solve_keeps_ok. Qed.
Hint Resolve frame_resolve_zone_name : keeps_ok.

Lemma frame_validate_loop c cache auth rs : KeepsOk auth_frame (validate_rules_loop c cache auth rs).
Proof.
  revert cache auth. induction rs as [|r rs IH]; intros cache auth; simpl; solve_keeps_ok.
Qed.

Lemma frame_validate c rs : KeepsOk auth_frame (_validate_scope_rules c rs).
Proof.
  unfold _validate_scope_rules. destruct rs; [apply keeps_ok_raise|apply frame_validate_loop].
Qed.

(** Upstream answered a GET of the zone with that name, among the events [l]. *)
Definition names_zone (l : list event) (zone : pystr) (name : json) : Prop :=
  exists base auth body,
    answered_in l (forwarded base (u "GET") (u "/client/v4/zones/" ++ zone) None None None auth) body /\
    (result ← py_getitem body (u "result"); py_getitem result (u "name")) = Ok name.

(** What a rule must be: scoped by record ids, or by a pattern the validator
    accepts for the name upstream gave to the rule's own zone. *)
Definition rule_ok (l : list event) (r : rule_dict) : Prop :=
  (absent (rd_name_pattern r) = true /\ no_record_ids (rd_record_ids r) = false) \/
  exists p zone_name, rd_name_pattern r = Some p /\ p ≠ [] /\
    names_zone l (rd_zone_id r) (JStr zone_name) /\
    validate_name_pattern p (default (u "exact") (rd_name_match r)) zone_name = Ok tt.

Lemma names_zone_mono l l' zone name : l ⊆ l' -> names_zone l zone name -> names_zone l' zone name.
Proof. intros Hl (base & auth & body & Ha & Hn). exists base, auth, body. split; [by eapply answered_incl|done]. Qed.

Lemma rule_ok_mono l l' r : l ⊆ l' -> rule_ok l r -> rule_ok l' r.
Proof.
  intros Hl [Hr|(p & zn & Hp & Hne & Hz & Hv)]; [by left|right].
  exists p, zn. split_and!; [done|done|by eapply names_zone_mono|done].
Qed.

(** The memo of the loop holds what upstream said. *)
Definition memo_named (l : list event) (cache : list (pystr * json)) : Prop :=
  forall zone name, dict_get zone cache = Some name -> names_zone l zone name.

Lemma memo_named_mono l l' cache : l ⊆ l' -> memo_named l cache -> memo_named l' cache.
Proof. intros Hl Hm zone name Hz. by eapply names_zone_mono, Hm. Qed.

Lemma emits_resolve_zone_name zone auth cache l0 :
  memo_named l0 cache ->
  Emits (_resolve_zone_name zone auth cache) (fun l r => forall zc, r = Ok zc ->
    names_zone (l0 ++ l) zone zc.1 /\ memo_named (l0 ++ l) zc.2).
Proof.
  intros Hm. unfold _resolve_zone_name. destruct (dict_get zone cache) as [name|] eqn:Ez.
  { apply emits_ret. intros zc [= <-]. rewrite app_nil_r. split; [by apply Hm|done]. }
  eapply (emits_bind _ _ (fun l r => forall resp, r = Ok resp -> exists base,
    l = [EvHttp (forwarded base (u "GET") (u "/client/v4/zones/" ++ zone) None None None auth) (Ok resp)])).
  { apply emits_forward; [done| |done]. intros base r _ resp [= <-]. by exists base. }
  { done. }
  intros resp l Hl. destruct (Hl resp eq_refl) as [base ->]. case_if; [by apply emits_raise|].
  apply emits_lift_bind; [done|]. intros [] Es. apply emits_lift_bind; [done|]. intros body Eb.
  apply emits_lift_bind; [done|]. intros result Er. apply emits_lift_bind; [done|]. intros name En.
  apply emits_ret. intros zc [= <-]. rewrite app_nil_r. simpl.
  assert (Hname : names_zone (l0 ++ [EvHttp (forwarded base (u "GET") (u "/client/v4/zones/" ++ zone)
    None None None auth) (Ok resp)]) zone name).
  { exists base, auth, body. split; [|by rewrite Er].
    exists resp. split_and!; [apply elem_of_app; right; by left|..|].
    - by eapply raise_for_status_Ok.
    - by eapply raise_for_status_Ok.
    - unfold response_json in Eb. destruct (hs_json resp); [congruence|done]. }
  split; [exact Hname|]. intros z n. destruct (decide (z = zone)) as [->|Hne].
  - rewrite dict_get_set_eq. by intros [= <-].
  - rewrite dict_get_set_ne by done. intros Hz. eapply names_zone_mono; [|by apply Hm].
    intros e ?. by apply elem_of_app; left.
Qed.

Lemma emits_validate_loop c cache auth rs l0 :
  memo_named l0 cache ->
  Emits (validate_rules_loop c cache auth rs) (fun l r => r = Ok tt -> Forall (rule_ok (l0 ++ l)) rs).
Proof.
  revert cache auth l0. induction rs as [|r rs IH]; intros cache auth l0 Hm; [by apply emits_ret|]. simpl.
  destruct (absent (rd_name_pattern r)) eqn:Ha; simpl.
  { destruct (no_record_ids _) eqn:Hn; [by apply emits_raise|]. eapply emits_mono; [by apply IH|].
    intros l res Hl Hok. constructor; [by left|by apply Hl]. }
  eapply (emits_bind _ _ (fun _ _ => True)).
  { destruct auth; [by apply emits_ret|]. eapply emits_mono; [apply within_resolve_upstream_auth|done]. }
  { done. }
  intros hs l1 _. eapply emits_bind; [apply (emits_resolve_zone_name _ _ _ (l0 ++ l1))|done|].
  { eapply memo_named_mono; [|exact Hm]. intros e ?. by apply elem_of_app; left. }
  intros zc l2 Hzc. destruct (Hzc zc eq_refl) as [Hname Hm2]. clear Hzc.
  apply emits_lift_bind; [done|]. intros zn Ezn. destruct zc.1 as [| | |s| |]; try done. injection Ezn as ->.
  apply emits_lift_bind; [done|]. intros [] Hv. eapply emits_mono; [apply (IH _ _ ((l0 ++ l1) ++ l2) Hm2)|].
  intros l3 res Hl Hok. specialize (Hl Hok). rewrite !app_assoc in *. constructor; [|done]. right.
  destruct (rd_name_pattern r) as [[|ch p]|]; try done. exists (ch :: p), zn. split_and!; [done..| |done].
  eapply names_zone_mono; [|exact Hname]. intros e ?. by apply elem_of_app; left.
Qed.

Lemma emits_validate c rs :
  Emits (_validate_scope_rules c rs) (fun l r => r = Ok tt -> rs ≠ [] /\ Forall (rule_ok l) rs).
Proof.
  unfold _validate_scope_rules. destruct rs as [|r rs]; [by apply emits_raise|].
  eapply emits_mono; [by apply (emits_validate_loop _ _ _ _ [])|]. intros l res Hl Hok. by split; [|apply Hl].
Qed.

Lemma within_owned_credential user id : Within no_event any_exn (get_owned_credential user id).
Proof. unfold get_owned_credential. solve_within. Qed.

(** What follows the validation sends nothing. *)
Lemma within_mint_rows user name credential_id rs expires_at : Within no_event any_exn (
  g ← generate_scoped_token;
  id ← _new_uuid;
  n ← now;
  _ ← sess_modify (set_tokens (fun l => l ++
        [new_token id user credential_id name g (dt_wall <$> expires_at) (dt_wall n)]));
  _ ← flush;
  _ ← for_each rs (add_rule id);
  _ ← commit;
  row ← refresh_row tokens st_id id;
  mret (Minted (st_id row) (st_name row) (g_full g) (st_token_prefix row) (st_status row)
          (st_version row) (st_expires_at row) (st_created_at row))).
Proof.
  assert (Hs : forall k, Within no_event any_exn (_generate_random_string k)).
  { induction k; simpl; unfold secrets_choice; solve_within. }
  assert (Hg : Within no_event any_exn generate_scoped_token) by (unfold generate_scoped_token; solve_within).
  assert (Hr : forall id r, Within no_event any_exn (add_rule id r)) by (intros; unfold add_rule; solve_within).
  solve_within.
Qed.

(** *** Adding the rules *)

Definition added_rule (token_id : pystr) (r : rule_dict) (row : ScopeRule) : Prop :=
  sr_scoped_token_id row = token_id /\ sr_rule row = rule_of_dict r /\
  sr_content_lock row = rd_content_lock r.

Lemma add_rules_run token_id rs w a w' :
  for_each rs (add_rule token_id) w = (Ok a, w') ->
  exists rows, Forall2 (added_rule token_id) rs rows /\ w_db w' = w_db w /\
    w_redis w' = w_redis w /\ w_sess w' = set_rules (fun l => l ++ rows) (w_sess w).
Proof.
  revert w. induction rs as [|r rs IH]; intros w; simpl.
  - intros [_ ->]%ret_Ok. exists []. split_and!; [constructor|done|done|].
    destruct (w_sess w). unfold set_rules. simpl. by rewrite app_nil_r.
  - intros (x & w1 & Hadd & Hrun)%M_bind_Ok. unfold add_rule in Hadd.
    apply M_bind_Ok in Hadd as (id & w2 & Hid & Hadd). unfold _new_uuid in Hid.
    apply M_bind_Ok in Hid as (t & w3 & [= <- <-] & [-> ->]%ret_Ok).
    apply M_bind_Ok in Hadd as (n & w4 & [-> ->]%now_Ok & ->%sess_modify_Ok).
    destruct (IH _ Hrun) as (rows & Hrows & Hd & Hr & Hs). exists ({|
      sr_id := new_uuid (w_tick w); sr_scoped_token_id := token_id; sr_rule := rule_of_dict r;
      sr_content_lock := rd_content_lock r; sr_created_at := clock (S (w_tick w)) |} :: rows).
    split_and!; [constructor; [by split_and!|exact Hrows]|done|done|].
    rewrite Hs. unfold set_rules. simpl. by rewrite <- app_assoc.
Qed.

Lemma rules_of_added token_id rs rows d :
  Forall2 (added_rule token_id) rs rows ->
  (forall r, r ∈ rules d -> sr_scoped_token_id r ≠ token_id) ->
  rules_of token_id (set_rules (fun l => l ++ rows) d) = rule_of_dict <$> rs.
Proof.
  intros Hrows Hfree. unfold rules_of, select_where. simpl. rewrite filter_app.
  replace (filter _ (rules d)) with (@nil ScopeRule).
  - simpl. clear Hfree. induction Hrows as [|r row rs rows (Hid & Hr & _) _ IH]; [done|].
    rewrite filter_cons, bool_decide_true, decide_True by done.
    rewrite !fmap_cons, IH. by rewrite Hr.
  - symmetry. destruct (filter _ (rules d)) as [|z zs] eqn:E; [done|exfalso].
    assert (Hz : z ∈ z :: zs) by left. rewrite <- E in Hz.
    apply list_elem_of_filter in Hz as [Hb Hz]. apply bool_decide_eq_true_1 in Hb. by eapply Hfree.
Qed.

Lemma owned_token_inv user id d t :
  scalar_one_or_none (owned_token user id d) = Ok (Some t) ->
  t ∈ tokens d /\ st_id t = id /\ st_user_id t = user.
Proof.
  unfold owned_token, select_where. destruct (filter _ _) as [|y [|]] eqn:E; try done.
  intros [= ->]. assert (Ht : t ∈ [t]) by left. rewrite <- E in Ht.
  apply list_elem_of_filter in Ht as [Hb Hin]. apply andb_true_iff in Hb as [H1 H2].
  by apply bool_decide_eq_true_1 in H1, H2.
Qed.

Lemma get_owned_token_Ok user id w t w' :
  _get_owned_scoped_token user id w = (Ok t, w') ->
  t ∈ tokens (w_sess w) /\ st_id t = id /\ st_user_id t = user /\ w' = set_tick S w.
Proof.
  intros (rows & w1 & (_ & -> & ->)%db_query_Ok & (o & w2 & [Ho ->]%lift_Ok & Hr)%M_bind_Ok)%M_bind_Ok.
  destruct o as [t'|]; [|done]. apply ret_Ok in Hr as [-> ->].
  by apply owned_token_inv in Ho as (? & ? & ?).
Qed.

Lemma get_owned_token_miss user id w :
  db_down (w_tick w) = false -> owned_token user id (w_sess w) = [] ->
  _get_owned_scoped_token user id w = (Raise (token_not_found id), set_tick S w).
Proof.
  intros Hup Hn. unfold _get_owned_scoped_token.
  by rewrite (bind_step _ _ _ _ _ (db_query_up _ _ Hup)), Hn.
Qed.

(** A row updated by its key. *)
Lemma update_where_elem (p : ScopedToken -> bool) f l t' :
  t' ∈ update_where p f l <->
  exists t, t ∈ l /\ t' = if p t then f t else t.
Proof. unfold update_where. rewrite list_elem_of_fmap. naive_solver. Qed.
End token_laws.

Section minting.
Context `{Env}.
Hypothesis brand_ascii : is_ascii (token_brand env_settings) = true.
Hypothesis brand_plain : has_char char_underscore (token_brand env_settings) = false.

(** A token string the generator can produce, with the hash stored for it. *)
Definition well_formed (g : generated) : Prop :=
  parse_scoped_token (g_full g) = Some (g_lookup_id g, g_secret g) /\
  hash_token (g_full g) = Ok (g_token_hash g).

Lemma generate_Ok w g w' :
  generate_scoped_token w = (Ok g, w') -> well_formed g /\ exists n, w' = set_tick n w.
Proof.
  intros Hrun. destruct (generate_scoped_token_run w brand_ascii) as (l & s & h & E & Hh & Hl & Hs & Fl & Fs).
  rewrite E in Hrun. injection Hrun as <- <-. split; [|by eexists]. split; [|done]. simpl.
  apply parse_layout; try done. by apply has_char_free.
Qed.

(** What minting leaves in the tables. *)
Record mint_result (user credential_id : pystr) (scope_rules : list rule_dict)
    (expires_at : option datetime) (d : database) (m : minted) (t : ScopedToken)
    (c : UpstreamCredential) : Prop := MintResult {
  mint_row : t ∈ tokens d;
  mint_id : st_id t = m_id m;
  mint_owner : st_user_id t = user;
  mint_active : st_status t = u "active";
  mint_version : st_version t = 1%Z;
  mint_expiry : st_expires_at t = dt_wall <$> expires_at;
  mint_parses : exists s, parse_scoped_token (m_token m) = Some (st_lookup_id t, s);
  mint_hash : hash_token (m_token m) = Ok (st_token_hash t);
  mint_rules : rules_of (st_id t) d = rule_of_dict <$> scope_rules;
  mint_credential : c ∈ credentials d;
  mint_credential_id : uc_id c = credential_id /\ uc_id c = st_upstream_credential_id t;
  mint_credential_owner : uc_user_id c = user;
  mint_keys : keys_ok d = true;
}.

(** No rule is left of a token that is gone. *)
Definition no_orphan_rules (d : database) : Prop :=
  forall r, r ∈ rules d -> sr_scoped_token_id r ∈ st_id <$> tokens d.

Lemma mint_run user name credential_id scope_rules expires_at w m w' :
  no_orphan_rules (w_sess w) ->
  mint_scoped_token user name credential_id scope_rules expires_at w = (Ok m, w') ->
  exists t c, mint_result user credential_id scope_rules expires_at (w_db w') m t c.
Proof.
  intros Horph (c & w1 & (Hcin & Hcid & Hcu & ->)%get_owned_credential_Ok & Hrun)%M_bind_Ok.
  apply M_bind_Ok in Hrun as ([] & w2 & Hval & Hrun).
  destruct (frame_validate _ _ _ _ _ Hval) as [Ft Fr _ _ Fk]. simpl in Ft, Fr, Fk.
  apply M_bind_Ok in Hrun as (g & w3 & ([Hparse Hhash] & n & ->)%generate_Ok & Hrun).
  apply M_bind_Ok in Hrun as (id & w4 & Hid & Hrun). unfold _new_uuid in Hid.
  apply M_bind_Ok in Hid as (k & w5 & [= <- <-] & [Hid ->]%ret_Ok).
  apply M_bind_Ok in Hrun as (now & w6 & [Hnow ->]%now_Ok & Hrun).
  apply M_bind_Ok in Hrun as (x1 & w7 & ->%sess_modify_Ok & Hrun).
  apply M_bind_Ok in Hrun as (x2 & w8 & (_ & _ & ->)%flush_Ok & Hrun).
  apply M_bind_Ok in Hrun as (x3 & w9 & (rows & Hrows & _ & _ & Hs)%add_rules_run & Hrun).
  apply M_bind_Ok in Hrun as (x4 & w10 & (_ & Hok%constraints_keys & ->)%commit_Ok & Hrun).
  apply M_bind_Ok in Hrun as (row & w11 & (Hrow & Hrowid & ->)%refresh_row_Ok & [-> ->]%ret_Ok).
  simpl in Hrow, Hs. cbn [w_db set_db set_tick].
  set (t := new_token id user credential_id name g (dt_wall <$> expires_at) (dt_wall now)) in *.
  destruct (keys_ok_tokens _ Hok) as (Hnd & _ & _).
  assert (Htin : t ∈ tokens (w_sess w9)) by (rewrite Hs; simpl; apply elem_of_app; right; left).
  assert (row = t) as -> by (by eapply (NoDup_fmap_inj st_id); [exact Hnd|..]).
  assert (Hc' : (uc_id c, uc_user_id c) ∈ (fun c => (uc_id c, uc_user_id c)) <$> credentials (w_sess w9)).
  { rewrite Hs. simpl. rewrite Fk. by apply (list_elem_of_fmap_2 (fun c => (uc_id c, uc_user_id c))). }
  apply list_elem_of_fmap in Hc' as (c' & Heq & Hc'). injection Heq as Hi Hu.
  exists t, c'. split; simpl; try done; [by eexists| |by split; congruence|congruence].
  rewrite Hs. apply rules_of_added; [done|]. simpl. rewrite Fr. intros r Hr Hrid.
  specialize (Horph r Hr). rewrite Hrid in Horph.
  rewrite Hs in Hnd. simpl in Hnd. rewrite Ft, fmap_app in Hnd. apply NoDup_app in Hnd as (_ & Hnd & _).
  apply (Hnd _ Horph). left.
Qed.

Lemma keys_lookup_unique d : keys_ok d = true -> lookup_unique d.
Proof. intros (_ & Hl & _)%keys_ok_tokens t t'. by apply NoDup_fmap_inj. Qed.
End minting.

(** ** Properties *)

Section token_properties.
Context `{Env}.

(** C22: a minted token works: presented to the proxy, as long as the tables are
    as minting left them, it resolves to an active token of the user, with
    exactly the rules that were asked for and the credential they were asked
    under, which is the user's own. *)
Theorem minted_token_resolves user name credential_id scope_rules expires_at w m w' w2 :
  is_ascii (token_brand env_settings) = true ->
  has_char char_underscore (token_brand env_settings) = false ->
  (forall k, db_down k = false) -> no_orphan_rules (w_sess w) ->
  mint_scoped_token user name credential_id scope_rules expires_at w = (Ok m, w') ->
  w_sess w2 = w_db w' -> cache_coherent w2 ->
  (forall e, expires_at = Some e ->
    dt_lt (load_datetime (dt_wall e)) (DT (clock (S (w_tick w2))) (Some 0%Z)) = Ok false) ->
  exists ctx, (resolve_scoped_token (m_token m) w2).1 = Ok (Some ctx) /\
    st_id (ctx_token ctx) = m_id m /\ st_user_id (ctx_token ctx) = user /\
    ctx_rules ctx = rule_of_dict <$> scope_rules /\
    uc_id (ctx_credential ctx) = credential_id /\ uc_user_id (ctx_credential ctx) = user.
Proof.
  intros Hb Hp Hup Horph Hrun Hs Hcoh Hexp.
  destruct (mint_run Hb Hp _ _ _ _ _ _ _ _ Horph Hrun) as (t & c & Hm).
  destruct (keys_ok_tokens _ (mint_keys _ _ _ _ _ _ _ _ Hm)) as (_ & Hl & Hc).
  destruct (mint_parses _ _ _ _ _ _ _ _ Hm) as [s Hs'].
  destruct (mint_credential_id _ _ _ _ _ _ _ _ Hm) as [Hci Hct].
  destruct (resolve_accepts Hup (m_token m) (st_lookup_id t) s t c w2) as [w3 E].
  - done.
  - rewrite Hs. apply select_where_unique; [done|]. by eapply mint_row.
  - eapply verify_token_hash, mint_hash; done.
  - by eapply mint_active.
  - intros e He. rewrite (mint_expiry _ _ _ _ _ _ _ _ Hm) in He.
    destruct expires_at as [e'|]; [|done]. injection He as <-. by apply Hexp.
  - rewrite Hs, <- Hct. apply select_where_unique; [done|]. by eapply mint_credential.
  - rewrite Hs. eapply keys_lookup_unique, mint_keys; done.
  - done.
  - rewrite E. eexists. split; [done|]. simpl.
    split_and!; [by eapply mint_id|by eapply mint_owner| |done|by eapply mint_credential_owner].
    rewrite Hs. by eapply mint_rules.
Qed.

(** C37: no unscoped token can be minted: there is at least one rule, and each
    is pinned to record ids or carries a non-empty pattern that the validator
    accepted for the name upstream gave, in this very call, to the zone of that
    rule. *)
Theorem minted_rules_scoped user name credential_id scope_rules expires_at w m w' :
  mint_scoped_token user name credential_id scope_rules expires_at w = (Ok m, w') ->
  scope_rules ≠ [] /\ exists l, w_trace w' = w_trace w ++ l /\ Forall (rule_ok l) scope_rules.
Proof.
  intros Hrun. assert (Hem : Emits (mint_scoped_token user name credential_id scope_rules expires_at)
    (fun l r => forall m, r = Ok m -> scope_rules ≠ [] /\ Forall (rule_ok l) scope_rules)).
  { unfold mint_scoped_token. eapply (emits_bind _ _ (fun l _ => l = [])).
    { eapply emits_mono; [apply within_owned_credential|]. intros l r [Hl _]. by destruct l; [|inversion Hl]. }
    { done. }
    intros c l ->. eapply emits_bind; [apply (emits_validate c scope_rules)|done|]. intros [] l Hv.
    destruct (Hv eq_refl) as [Hne Hall]. eapply emits_mono; [apply within_mint_rows|]. intros l' r _ m' _.
    split; [done|]. eapply Forall_impl; [exact Hall|]. intros r'. apply rule_ok_mono.
    intros e ?. simpl. by apply elem_of_app; left. }
  destruct (Hem w) as (l & E & Hl). rewrite Hrun in E, Hl. destruct (Hl m eq_refl). split; [done|by exists l].
Qed.

(** Revocation is immediate and final: once it has returned, no string
    whatsoever resolves to the token, however its rules are cached. *)
Theorem revoked_token_never_resolves user id w w' full w2 ctx w3 :
  revoke_scoped_token user id w = (Ok tt, w') -> keys_ok (w_sess w) = true ->
  w_sess w2 = w_db w' ->
  resolve_scoped_token full w2 = (Ok (Some ctx), w3) ->
  st_id (ctx_token ctx) ≠ id.
Proof.
  intros (t & w1 & (Ht & Hid & _ & ->)%get_owned_token_Ok & Hrun)%M_bind_Ok Hk Hs Hres Heq.
  apply M_bind_Ok in Hrun as (n & w4 & [-> ->]%now_Ok & Hrun).
  apply M_bind_Ok in Hrun as (x & w5 & ->%sess_modify_Ok & Hrun).
  apply M_bind_Ok in Hrun as (y & w6 & (_ & _ & ->)%commit_Ok & Hrun).
  match type of Hrun with cache_del ?k ?w0 = _ => destruct (cache_del_run k w0) as (w7 & E & [Hd _] & _) end.
  rewrite E in Hrun. injection Hrun as <-. simpl in Hd. rewrite Hd in Hs.
  destruct (resolve_inv _ _ _ _ Hres) as [[Hin _ _ Hact _ _ _] _]. rewrite Hs in Hin. simpl in Hin.
  apply update_where_elem in Hin as (t0 & Hin0 & Ht0).
  destruct (bool_decide (st_id t0 = st_id t)) eqn:Eb.
  - by rewrite Ht0 in Hact.
  - apply bool_decide_eq_false_1 in Eb. congruence.
Qed.


(** A token of another user is as good as absent: inspecting, rotating or
    revoking it ends with the same not-found error as for an id that does not
    exist, and changes nothing. *)
Lemma foreign_token_runs user id w :
  db_down (w_tick w) = false ->
  (forall t, t ∈ tokens (w_sess w) -> st_id t = id -> st_user_id t ≠ user) ->
  get_scoped_token_detail user id w = (Raise (token_not_found id), set_tick S w) /\
  rotate_scoped_token user id w = (Raise (token_not_found id), set_tick S w) /\
  revoke_scoped_token user id w = (Raise (token_not_found id), set_tick S w).
Proof.
  intros Hup Hforeign.
  assert (Hn : owned_token user id (w_sess w) = []).
  { destruct (owned_token user id (w_sess w)) as [|t l] eqn:E; [done|exfalso].
    assert (Ht : t ∈ t :: l) by left. rewrite <- E in Ht.
    apply list_elem_of_filter in Ht as [Hb Hin]. apply andb_true_iff in Hb as [H1 H2].
    apply bool_decide_eq_true_1 in H1, H2. by apply (Hforeign t). }
  pose proof (get_owned_token_miss user id w Hup Hn) as Hmiss.
  split_and!; unfold get_scoped_token_detail, rotate_scoped_token, revoke_scoped_token;
    by rewrite (bind_raise _ _ _ _ _ Hmiss).
Qed.

(** Revoking keeps the cache coherent: the version grows past every cached
    entry of the token, and no other token's entries are concerned. *)
Theorem revoke_keeps_cache_coherent user id w w' :
  keys_ok (w_sess w) = true -> cache_coherent w ->
  revoke_scoped_token user id w = (Ok tt, w') -> cache_coherent w'.
Proof.
  intros Hk Hc (t & w1 & (Ht & Hid & _ & ->)%get_owned_token_Ok & Hrun)%M_bind_Ok.
  apply M_bind_Ok in Hrun as (n & w4 & [-> ->]%now_Ok & Hrun).
  apply M_bind_Ok in Hrun as (x & w5 & ->%sess_modify_Ok & Hrun).
  apply M_bind_Ok in Hrun as (y & w6 & (_ & _ & ->)%commit_Ok & Hrun).
  match type of Hrun with cache_del ?k ?w0 = _ =>
    pose proof (cache_del_subset k w0) as Hsub; destruct (cache_del_run k w0) as (w7 & E & (_ & Hd & _) & _) end.
  rewrite E in Hrun, Hsub. injection Hrun as <-. simpl in Hd, Hsub.
  unfold cache_coherent. rewrite Hd.
  eapply coherent_subset; [exact Hsub|]. intros t' v e Ht' He.
  apply update_where_elem in Ht' as (t0 & Hin0 & ->).
  destruct (bool_decide (st_id t0 = st_id t)); simpl in *;
    destruct (Hc t0 v e Hin0 He) as [Hv Hval]; [|done]. split; [lia|]. intros ->. lia.
Qed.
End token_properties.
