(* ===== verification/Management.v ===== *)
(** * The management API ([routers/auth.py], [routers/tokens.py],
    [routers/credentials.py], [routers/audit.py])

    Each handler as the composition of its service call, the exceptions it
    turns into answers and the body it serialises. FastAPI's validation of the
    request, and pydantic's text of a datetime and of a library's exception,
    are parameters. *)

From S2P Require Import Prelude PyStr Json Scope Models World Envelopes Crypto Cache Upstream.
From S2P Require Import OAuthCf Security AuditLogs OAuthService ProxyAuth Credentials Tokens.
From S2P Require Import Schemas.

(** [iso_datetime]: a datetime in JSON; [library_text]: [str(exc)] of an
    exception the program does not build itself. *)
Class Presentation := {
  iso_datetime : datetime -> pystr;
  library_text : exn -> pystr;
}.

(** [str(exc)]. *)
Definition str_exc `{Presentation} (e : exn) : pystr :=
  match e with ValueError m | NotFoundError m => m | _ => library_text e end.

(** [rule.model_dump()]. *)
Definition dump_rule (r : ScopeRuleRequest) : rule_dict :=
  RuleDict (sq_zone_id r) (sq_name_pattern r) (Some (sq_name_match r)) (sq_record_types r)
    (sq_record_ids r) (Some (sq_allow_read r)) (Some (sq_allow_create r))
    (Some (sq_allow_write r)) (Some (sq_allow_delete r)) (sq_content_lock r).

Section management.
Context `{Env, AuthLibs, OidcLibs, Presentation}.

(** ** Serialised rows *)

Definition iso (z : Z) : json := JStr (iso_datetime (load_datetime z)).
Definition opt_iso (z : option Z) : json := match z with Some z => iso z | None => JNull end.
Definition opt_strs (o : option (list pystr)) : json :=
  match o with Some l => strs l | None => JNull end.

(** Each response model is [model_validate(row).model_dump(mode="json")]. *)
Definition UserResponse (x : User) : json := JObj [
  (u "id", JStr (u_id x)); (u "email", of_opt_str (u_email x));
  (u "auth_provider", JStr (u_auth_provider x)); (u "is_active", JBool (u_is_active x));
  (u "created_at", iso (u_created_at x))].

Definition _user_response_data (x : User) : json := UserResponse x.

Definition UpstreamCredentialResponse (c : UpstreamCredential) : json := JObj [
  (u "id", JStr (uc_id c)); (u "label", JStr (uc_label c)); (u "cred_type", JStr (uc_cred_type c));
  (u "cf_account_email", of_opt_str (uc_cf_account_email c));
  (u "verify_status", of_opt_str (uc_verify_status c));
  (u "verified_at", opt_iso (uc_verified_at c)); (u "created_at", iso (uc_created_at c))].

Definition _credential_response_data (c : UpstreamCredential) : json := UpstreamCredentialResponse c.

Definition token_fields (t : ScopedToken) : list (pystr * json) := [
  (u "id", JStr (st_id t)); (u "name", JStr (st_name t));
  (u "token_prefix", JStr (st_token_prefix t)); (u "status", JStr (st_status t));
  (u "version", JNum (st_version t)); (u "expires_at", opt_iso (st_expires_at t));
  (u "last_used_at", opt_iso (st_last_used_at t)); (u "created_at", iso (st_created_at t));
  (u "revoked_at", opt_iso (st_revoked_at t))].

Definition ScopedTokenResponse (t : ScopedToken) : json := JObj (token_fields t).

Definition _token_response_data (t : ScopedToken) : json := ScopedTokenResponse t.

Definition ScopeRuleResponse (r : ScopeRule) : json :=
  let x := sr_rule r in JObj [
  (u "id", JStr (sr_id r)); (u "zone_id", JStr (zone_id x));
  (u "name_pattern", of_opt_str (name_pattern x)); (u "name_match", JStr (name_match x));
  (u "record_types", strs (record_types x)); (u "record_ids", opt_strs (record_ids x));
  (u "allow_read", JBool (allow_read x)); (u "allow_create", JBool (allow_create x));
  (u "allow_write", JBool (allow_write x)); (u "allow_delete", JBool (allow_delete x));
  (u "content_lock", of_opt_str (sr_content_lock r)); (u "created_at", iso (sr_created_at r))].

Definition ScopedTokenDetailResponse (detail : ScopedTokenDetail) : json :=
  JObj (token_fields (td_token detail) ++
        [(u "rules", JArr (ScopeRuleResponse <$> td_rules detail))]).

Definition ScopedTokenCreateResponse (m : minted) : json := JObj [
  (u "id", JStr (m_id m)); (u "name", JStr (m_name m)); (u "token", JStr (m_token m));
  (u "token_prefix", JStr (m_token_prefix m)); (u "expires_at", opt_iso (m_expires_at m));
  (u "created_at", iso (m_created_at m))].

Definition ScopedTokenRotateResponse (r : rotated) : json := JObj [
  (u "id", JStr (r_id r)); (u "token", JStr (r_token r));
  (u "token_prefix", JStr (r_token_prefix r)); (u "version", JNum (r_version r))].

(** A name or type that is no string is refused by the response model. *)
Definition str_or_none (j : json) : result json :=
  match j with JNull | JStr _ => Ok j | _ => Raise (ValueError []) end.

Definition AuditLogResponse (a : AuditLog) : result json :=
  name ← str_or_none (al_record_name a);
  rtype ← str_or_none (al_record_type a);
  Ok (JObj [
    (u "id", JStr (al_id a)); (u "ts", iso (al_ts a));
    (u "scoped_token_id", of_opt_str (al_scoped_token_id a));
    (u "token_prefix", of_opt_str (al_token_prefix a)); (u "method", JStr (al_method a));
    (u "path", JStr (al_path a)); (u "zone_id", of_opt_str (al_zone_id a));
    (u "record_id", of_opt_str (al_record_id a)); (u "record_name", name);
    (u "record_type", rtype); (u "decision", JStr (al_decision a));
    (u "deny_reason", of_opt_str (al_deny_reason a));
    (u "upstream_status", match al_upstream_status a with Some n => JNum n | None => JNull end);
    (u "client_ip", of_opt_str (al_client_ip a));
    (u "latency_ms", match al_latency_ms a with Some n => JNum n | None => JNull end)]).

Definition TokenResponse (access_token : pystr) : json := JObj [
  (u "access_token", JStr access_token); (u "token_type", JStr (u "bearer"))].

(** ** [routers/auth.py] *)

Definition user_by_email (email : pystr) (d : database) : list User :=
  select_where (fun x => column_is env_dialect (u_email x) email) (users d).

Definition register (body : RegisterRequest) : M response :=
  rows ← db_query (user_by_email (rr_email body));
  existing ← lift (scalar_one_or_none rows);
  match existing with
  | Some _ => mret (make_response 409 (u "Email already registered") JNull)
  | None =>
      password_hash ← hash_password (rr_password body);
      id ← _new_uuid;
      created ← now;
      updated ← now;
      _ ← sess_modify (set_users (fun l => l ++
            [new_user id (Some (rr_email body)) (Some password_hash) (u "local") None
               (dt_wall created) (dt_wall updated)]));
      _ ← commit;
      user ← refresh_row users u_id id;
      mret (make_response 201 (u "User registered") (_user_response_data user))
  end.

Definition bad_login : response := make_response 401 (u "Invalid email or password") JNull.

Definition login (body : LoginRequest) : M response :=
  rows ← db_query (user_by_email (lr_email body));
  row ← lift (scalar_one_or_none rows);
  match row with
  | None => mret bad_login
  | Some user =>
      match u_password_hash user with
      | None => mret bad_login
      | Some h =>
          if negb (u_is_active user) then mret bad_login
          else
            ok ← verify_password (lr_password body) h;
            if negb ok then mret bad_login
            else
              token ← create_jwt (u_id user);
              mret (make_response 200 (u "Login successful") (TokenResponse token))
      end
  end.

Definition read_me (current_user : User) : response :=
  make_response 200 (u "Current user") (_user_response_data current_user).

(** The [Location] of the 302. *)
Definition cf_login : M pystr := start_cf_oauth_login.

Definition cf_callback (code state : pystr) : M response :=
  try_except
    ('(_, jwt_token) ← handle_cf_oauth_callback code state;
     mret (make_response 200 (u "Cloudflare login successful") (TokenResponse jwt_token)))
    is_ValueError (fun e => mret (make_response 400 (str_exc e) JNull)).

(** [except NotFoundError as exc: return make_response(404, str(exc))], and
    the same for [ValueError]. *)
Definition answer_404 (m : M response) : M response :=
  try_except m is_NotFoundError (fun e => mret (make_response 404 (str_exc e) JNull)).
Definition answer_400 (m : M response) : M response :=
  try_except m is_ValueError (fun e => mret (make_response 400 (str_exc e) JNull)).

(** ** [routers/tokens.py]

    The service calls are tried; what follows them is not. *)

Definition create_scoped_token (body : ScopedTokenCreateRequest) (current_user : User) : M response :=
  try_except
    (m ← mint_scoped_token (u_id current_user) (tc_name body) (tc_upstream_credential_id body)
           (dump_rule <$> tc_scope_rules body) (tc_expires_at body);
     mret (make_response 201 (u "Scoped token minted") (ScopedTokenCreateResponse m)))
    (fun e => is_NotFoundError e || is_ValueError e)
    (fun e => mret (make_response (if is_NotFoundError e then 404 else 400) (str_exc e) JNull)).

Definition get_scoped_tokens (current_user : User) : M response :=
  scoped_tokens ← list_scoped_tokens (u_id current_user);
  mret (make_response 200 (u "Scoped tokens listed") (JArr (_token_response_data <$> scoped_tokens))).

Definition get_scoped_token (token_id : pystr) (current_user : User) : M response :=
  answer_404 (
    detail ← get_scoped_token_detail (u_id current_user) token_id;
    mret (make_response 200 (u "Scoped token detail")
      (ScopedTokenDetailResponse detail))).

Definition post_rotate (token_id : pystr) (current_user : User) : M response :=
  answer_404 (
    r ← rotate_scoped_token (u_id current_user) token_id;
    mret (make_response 200 (u "Scoped token rotated") (ScopedTokenRotateResponse r))).

Definition delete_scoped_token (token_id : pystr) (current_user : User) : M response :=
  answer_404 (
    _ ← revoke_scoped_token (u_id current_user) token_id;
    mret (make_response 200 (u "Scoped token revoked") JNull)).

(** ** [routers/credentials.py] *)

Definition create_credential (body : UpstreamCredentialCreateRequest) (current_user : User)
    : M response :=
  answer_400 (
    c ← register_credential (u_id current_user) (cc_label body) (cc_cred_type body)
          (cc_api_token body) (cc_global_key body) (cc_cf_account_email body);
    mret (make_response 201 (u "Upstream credential registered") (_credential_response_data c))).

Definition get_credentials (current_user : User) : M response :=
  cs ← list_credentials (u_id current_user);
  mret (make_response 200 (u "Upstream credentials listed") (JArr (_credential_response_data <$> cs))).

Definition remove_credential (credential_id : pystr) (current_user : User) : M response :=
  answer_404 (
    _ ← delete_credential (u_id current_user) credential_id;
    mret (make_response 200 (u "Upstream credential deleted") JNull)).

Definition post_verify (credential_id : pystr) (current_user : User) : M response :=
  answer_404 (
    c ← verify_credential (u_id current_user) credential_id;
    mret (make_response 200 (u "Upstream credential verified") (_credential_response_data c))).

Definition get_credential_zones (fuel : nat) (credential_id : pystr) (current_user : User)
    : M response :=
  answer_404 (
    zones ← list_credential_zones fuel (u_id current_user) credential_id;
    mret (make_response 200 (u "Zones listed") zones)).

(** [{k: v for k, v in {"type": type, "name": name}.items() if v is not None}
    or None]. *)
Definition record_params (type name : option pystr) : option (list (pystr * json)) :=
  match omap (fun kv : pystr * option pystr => (fun v => (kv.1, JStr v)) <$> kv.2)
          [(u "type", type); (u "name", name)] with
  | [] => None
  | ps => Some ps
  end.

Definition list_zone_records (fuel : nat) (credential_id zone_id : pystr)
    (type name : option pystr) (current_user : User) : M response :=
  answer_404 (
    records ← list_credential_zone_records fuel (u_id current_user) credential_id zone_id
                (record_params type name);
    mret (make_response 200 (u "DNS records listed") (JArr records))).

(** ** [routers/audit.py] *)

Definition page_info_json (i : audit_page) : json := JObj [
  (u "page", JNum (ap_page i)); (u "per_page", JNum (ap_per_page i));
  (u "count", JNum (Z.of_nat (ap_count i))); (u "total_count", JNum (Z.of_nat (ap_total_count i)))].

Definition get_audit_logs (current_user : User) (token_id zone_id : option pystr)
    (since : option datetime) (page per_page : Z) : M response :=
  '(entries, info) ← list_audit_logs (u_id current_user) token_id zone_id (dt_wall <$> since)
                       page per_page;
  items ← lift (result_mapM AuditLogResponse entries);
  mret (make_response 200 (u "Audit logs listed") (JObj [
    (u "items", JArr items); (u "result_info", page_info_json info)])).
End management.

(** ** Running the handlers *)

Section management_laws.
Context `{Env, AuthLibs, OidcLibs, Presentation}.

Definition logged_in (token : pystr) : response :=
  make_response 200 (u "Login successful") (TokenResponse token).

(** A login is decided by the row of the email alone. *)
Lemma login_run body w o :
  db_down (w_tick w) = false ->
  scalar_one_or_none (user_by_email (lr_email body) (w_sess w)) = Ok o ->
  login body w =
    match o with
    | Some x =>
        match u_password_hash x with
        | Some h =>
            if negb (u_is_active x) then (Ok bad_login, set_tick S w)
            else (ok ← verify_password (lr_password body) h;
                  if negb ok then mret bad_login
                  else token ← create_jwt (u_id x); mret (logged_in token)) (set_tick S w)
        | None => (Ok bad_login, set_tick S w)
        end
    | None => (Ok bad_login, set_tick S w)
    end.
Proof.
  intros Hup Ho. unfold login. rewrite (bind_step _ _ _ _ _ (db_query_up _ _ Hup)), Ho.
  erewrite bind_step by done. destruct o as [x|]; [|done].
  destruct (u_password_hash x); [|done]. by destruct (u_is_active x).
Qed.

Lemma login_inv body w data w' :
  login body w = (Ok (make_response 200 (u "Login successful") data), w') ->
  exists x h tok, x ∈ users (w_sess w) /\ column_is env_dialect (u_email x) (lr_email body) = true /\ u_is_active x = true /\
    u_password_hash x = Some h /\ argon2_verify h (lr_password body) = Ok true /\
    data = TokenResponse tok /\ create_jwt (u_id x) (set_tick S w) = (Ok tok, w').
Proof.
  intros (rows & w1 & (Hup & -> & ->)%db_query_Ok & Hrun)%M_bind_Ok.
  apply M_bind_Ok in Hrun as (o & w1 & [Ho ->]%lift_Ok & Hrun).
  destruct o as [x|]; [|done].
  apply scalar_one_or_none_Some in Ho as [Hin Hem].
  destruct (u_password_hash x) as [h|] eqn:Hh; [|done].
  destruct (u_is_active x) eqn:Hact; [|done]. cbn [negb] in Hrun.
  apply M_bind_Ok in Hrun as (ok & w1 & Hver & Hrun). rewrite verify_password_run in Hver.
  destruct (argon2_verify h (lr_password body)) as [b|e] eqn:Hv; cycle 1.
  { destruct (is_VerifyMismatch e); [|done]. by injection Hver as <- <-. }
  injection Hver as -> <-. destruct ok; [|done]. cbn [negb] in Hrun.
  apply M_bind_Ok in Hrun as (tok & w2 & Hjwt & [Hdata ->]%ret_Ok).
  exists x, h, tok. split_and!; try done.
  unfold make_response in Hdata. congruence.
Qed.
End management_laws.

(** ** Properties *)

Section management_properties.
Context `{Env, AuthLibs, OidcLibs, Presentation}.

(** C29: a login opens a session of the account whose password was given: the
    issued token resolves, until it expires, to an active user whose stored
    address the database takes for the one given (the same string on SQLite, one
    of the same collation key on MySQL) and whose stored hash accepts the
    password, provided the codec accepts what it signed and the clock does not
    run backwards. *)
Theorem login_authenticates body w data w' w2 :
  jwt_lawful -> (forall k, db_down k = false) -> (forall i j, i <= j -> (clock i <= clock j)%Z) ->
  keys_ok (w_sess w) = true -> (forall x, x ∈ users (w_sess w) -> u_id x ≠ []) ->
  login body w = (Ok (make_response 200 (u "Login successful") data), w') ->
  w_sess w2 = w_sess w' -> w_tick w' <= w_tick w2 ->
  (clock (w_tick w2) < clock (w_tick w) + (jwt_ttl_seconds env_settings - 1) * second)%Z ->
  exists token x, data = TokenResponse token /\ (get_current_user (Some token) w2).1 = Ok x /\
    x ∈ users (w_sess w) /\
    (exists e, u_email x = Some e /\
       column_key env_dialect e = column_key env_dialect (lr_email body)) /\
    exists h, u_password_hash x = Some h /\ argon2_verify h (lr_password body) = Ok true.
Proof.
  intros Hjwt Hup Hmono Hk Hne Hlogin Hs Ht Hexp.
  apply login_inv in Hlogin as (x & h & tok & Hin & Hem & Hact & Hh & Hv & -> & Hc).
  rewrite create_jwt_run in Hc. injection Hc as <- <-. simpl in Hs, Ht.
  pose proof (Hmono (w_tick w) (S (w_tick w)) ltac:(lia)).
  pose proof (Hmono (S (w_tick w)) (w_tick w2) ltac:(lia)).
  match goal with |- context [jwt_encode ?c _] =>
  destruct (Hjwt c (jwt_secret env_settings) (clock (w_tick w2)) (clock (S (w_tick w)))
    (jwt_ttl_seconds env_settings)) as [(d & Hd & Hsub) _]; [done|done|lia|lia|] end.
  eexists _, x. split; [done|]. split; [|split; [done|split; [|eauto]]].
  2:{ apply column_is_Some in Hem as (s & Es & Hs'). exists s. split; [done|]. by apply bool_decide_eq_true_1 in Hs'. }
  eapply current_user_run; [exact Hd|exact Hsub|by apply Hne|apply Hup| |done].
  rewrite Hs. apply (select_where_unique u_id); [|done]. by apply keys_ok_users.
Qed.

(** A registration opens the account it was asked for: while the users are
    as it left them, the registered password logs in, and no other does. *)
Theorem registered_user_logs_in body w data w' w2 pw :
  argon2_lawful -> (forall k, db_down k = false) ->
  register body w = (Ok (make_response 201 (u "User registered") data), w') ->
  users (w_sess w2) = users (w_sess w') ->
  (pw = rr_password body -> exists token,
     (login (Login (rr_email body) pw) w2).1 = Ok (logged_in token)) /\
  (pw ≠ rr_password body -> (login (Login (rr_email body) pw) w2).1 = Ok bad_login).
Proof.
  intros Hargon Hup Hreg Hs.
  apply M_bind_Ok in Hreg as (rows & w1 & (_ & -> & ->)%db_query_Ok & Hreg).
  apply M_bind_Ok in Hreg as (o & w1 & [Ho ->]%lift_Ok & Hreg).
  destruct o as [x|]; [done|].
  assert (Hnone : user_by_email (rr_email body) (w_sess w) = [])
    by (destruct (user_by_email _ _) as [|y []]; done).
  apply M_bind_Ok in Hreg as (h & w1 & Hhash & Hreg). injection Hhash as <- <-.
  apply M_bind_Ok in Hreg as (id & w1 & Hid & Hreg). injection Hid as <- <-.
  inv_run.
  match goal with H : refresh_row _ _ _ _ = _ |- _ => apply refresh_row_Ok in H as (_ & _ & ->) end.
  simpl in Hs. set (x := new_user _ _ _ _ _ _ _) in *.
  assert (Hrow : user_by_email (rr_email body) (w_sess w2) = [x]).
  { unfold user_by_email, select_where in *. by rewrite Hs, filter_app, Hnone, filter_cons_True by apply column_eq_refl. }
  destruct (Hargon (S (w_tick w)) (rr_password body)) as [Hsame Hdiff].
  split; intros Hpw; rewrite (login_run _ w2 (Some x)) by (simpl; rewrite ?Hrow; done); simpl;
    unfold mbind, M_bind; rewrite verify_password_run; simpl.
  - rewrite Hpw, Hsame. by eexists.
  - by rewrite (Hdiff pw Hpw).
Qed.

(** C32: nothing tells a foreign resource from a missing one: every operation on
    a token or a credential of another user answers 404 with the message it has
    for an id that does not exist, changes no table, and sends nothing. *)
Theorem foreign_resource_404 fuel id zone type name x w :
  db_down (w_tick w) = false ->
  (forall t, t ∈ tokens (w_sess w) -> st_id t = id -> st_user_id t ≠ u_id x) ->
  (forall c, c ∈ credentials (w_sess w) -> uc_id c = id -> uc_user_id c ≠ u_id x) ->
  let missing what := make_response 404 (u what ++ repr id ++ u " not found") JNull in
  Forall (fun m => m w = (Ok (missing "scoped token "), set_tick S w))
    [get_scoped_token id x; post_rotate id x; delete_scoped_token id x] /\
  Forall (fun m => m w = (Ok (missing "upstream credential "), set_tick S w))
    [remove_credential id x; post_verify id x; get_credential_zones fuel id x;
     list_zone_records fuel id zone type name x].
Proof.
  intros Hup Ht Hc missing.
  destruct (foreign_token_runs (u_id x) id w Hup Ht) as (Ha & Hb & Hd).
  destruct (foreign_credential_runs (u_id x) id fuel zone (record_params type name) w Hup Hc)
    as (He & Hf & Hg & Hh).
  assert (Hans : forall A (m : M A) (f : A -> M response) e what,
    m w = (Raise e, set_tick S w) -> is_NotFoundError e = true ->
    make_response 404 (str_exc e) JNull = what ->
    answer_404 (m ≫= f) w = (Ok what, set_tick S w)).
  { intros A m f e what Hm Hn <-. unfold answer_404, try_except.
    by rewrite (bind_raise _ _ _ _ _ Hm), Hn. }
  split; repeat constructor; by eapply Hans.
Qed.
End management_properties.

(** ** What a request asks for *)

(** The key of the permission for an operation. *)
Definition permission (op : need) : pystr :=
  match op with
  | Read => u "allow_read" | Create => u "allow_create"
  | Write => u "allow_write" | Delete => u "allow_delete"
  end.

(** The example in the schema of [ScopeRuleRequest]. *)
Definition ScopeRuleRequest_example : json := JObj [
  (u "zone_id", JStr (u "023e105f4ecef8ad9ca31a8372d0c353"));
  (u "name_pattern", JStr (u "*.staging")); (u "name_match", JStr (u "wildcard"));
  (u "record_types", JArr [JStr (u "A"); JStr (u "CNAME")]); (u "record_ids", JNull);
  (u "allow_read", JBool true); (u "allow_create", JBool true); (u "allow_write", JBool true);
  (u "allow_delete", JBool false); (u "content_lock", JNull)].

Lemma optional_Some {A} (rd : json -> option A) a k d x :
  optional rd a k d = Some x -> x = a \/ exists j, dict_get k d = Some j /\ rd j = Some x.
Proof. unfold optional. destruct (dict_get k d) as [j|]; [eauto|]. intros [= <-]. by left. Qed.

Section requests.
Context `{Pydantic}.

(** Nothing beyond reading is granted unless the request asks for it: an
    operation other than a read that the stored rule allows is one whose key is
    in the body of the request, with a value that reads as true. *)
Theorem permissions_are_asked_for j r op :
  ScopeRuleRequest_of j = Some r -> op ≠ Read -> allows (rule_of_dict (dump_rule r)) op = true ->
  exists d v, j = JObj d /\ dict_get (permission op) d = Some v /\ as_bool v = Some true.
Proof.
  unfold ScopeRuleRequest_of, as_model. destruct j as [| | | | |d]; try done.
  intros (z & _ & (np & _ & (nm & _ & (ts & _ & (ids & _ & (ar & _ & (ac & Hac & (aw & Haw
    & (ad & Had & (cl & _ & [= <-])%bind_Some)%bind_Some)%bind_Some)%bind_Some)%bind_Some
    )%bind_Some)%bind_Some)%bind_Some)%bind_Some)%bind_Some Hop Hall.
  exists d. apply optional_Some in Hac, Haw, Had.
  destruct op; simpl in Hall; [done|destruct Hac as [Hx|(v & ? & ?)]
    |destruct Haw as [Hx|(v & ? & ?)]|destruct Had as [Hx|(v & ? & ?)]]; try congruence;
    exists v; (split_and!; [reflexivity|assumption|congruence]).
Qed.

(** The request the schema documents is read without error, and its pattern
    is then refused for every zone but the one called [staging]. *)
Theorem documented_rule_refused zone :
  (exists r, ScopeRuleRequest_of ScopeRuleRequest_example = Some r /\
     sq_name_pattern r = Some (u "*.staging") /\ sq_name_match r = u "wildcard") /\
  (forall `{Unicode}, validate_name_pattern (u "*.staging") (u "wildcard") zone = Ok tt ->
     normalize_fqdn zone = Ok (u "staging")).
Proof.
  split; [by eexists|]. intros HU Hok.
  assert (Hz : exists z, normalize_fqdn zone = Ok z).
  { revert Hok. unfold validate_name_pattern. simpl. destruct (normalize_fqdn zone); [by eexists|done]. }
  destruct Hz as [z Hz]. rewrite Hz. f_equal.
  assert (E : validate_name_pattern (u "*.staging") (u "wildcard") zone =
    if negb (bool_decide (u "staging" = z)) && negb (endswith (char_dot :: z) (u "staging"))
    then Raise (ValueError (u "wildcard name_pattern " ++ repr (u "*.staging")
                  ++ u " does not end in zone " ++ repr zone))
    else Ok tt) by (unfold validate_name_pattern; rewrite Hz; reflexivity).
  rewrite E in Hok. case_bool_decide as Hs; [done|]. simpl in Hok.
  destruct (endswith _ _) eqn:Hend; [|done]. apply bool_decide_eq_true_1 in Hend as [k Hk].
  exfalso. assert (Hin : char_dot ∈ u "staging") by (rewrite Hk; set_solver).
  vm_compute in Hin. set_solver.
Qed.
End requests.
