(* ===== verification/Authorizer.v ===== *)
(** * The decision layer ([authz/authorizer.py]) *)

From S2P Require Import Prelude PyStr Json Scope Models World Envelopes.

(** The operation of each by-id mutation method. *)
Definition _MUTATION_OPS : list (pystr * need) :=
  [(u "PATCH", Write); (u "PUT", Write); (u "DELETE", Delete)].

Definition _RENAME_METHODS : list pystr := [u "PATCH"; u "PUT"].

(** [pre_image] is [JNull] when there is none. *)
Record AuthDecision := Decision {
  allowed : bool;
  needs_lock : bool;
  error : option (Z * Z * pystr);
  pre_image : json;
}.

Definition insufficient_scope : Z * Z * pystr :=
  (403, FORBIDDEN, u "Authorization error: insufficient scope")%Z.
Definition unsupported_method : Z * Z * pystr :=
  (403, FORBIDDEN, u "Authorization error: unsupported method")%Z.
Definition record_missing : Z * Z * pystr :=
  (404, RECORD_NOT_FOUND, u "Record does not exist.")%Z.

Section authorizer.
Context `{Env}.

Definition authorize_dns_request (rules : list rule) (method zone_id : pystr)
    (record_id : option pystr) (body : json)
    (fetch_record : pystr -> option pystr -> M json) : M AuthDecision :=
  let method_upper := upper method in
  if bool_decide (method_upper = u "POST") then
    name ← lift (py_get (py_or body (JObj [])) (u "name"));
    rtype ← lift (py_get (py_or body (JObj [])) (u "type"));
    ok ← lift (match_rules rules zone_id name rtype JNull Create);
    if (ok : bool) then mret (Decision true false None JNull)
    else mret (Decision false false (Some insufficient_scope) JNull)
  else
    match (if bool_decide (method_upper = u "GET") then Some Read
           else dict_get method_upper _MUTATION_OPS) with
    | None => mret (Decision false false (Some unsupported_method) JNull)
    | Some op =>
        let needs_lock :=
          if bool_decide (is_Some (dict_get method_upper _MUTATION_OPS))
          then negb (is_lock_exempt rules zone_id (of_opt_str record_id) op) else false in
        pre ← fetch_record zone_id record_id;
        missing ← lift match pre with
                       | JNull => Ok true
                       | _ => z ← py_get pre (u "zone_id");
                              Ok (negb (match z with JNull => true | _ => py_eqb z (JStr zone_id) end))
                       end;
        if (missing : bool) then mret (Decision false needs_lock (Some record_missing) JNull)
        else
          pre_name ← lift (py_get pre (u "name"));
          pre_type ← lift (py_get pre (u "type"));
          old_ok ← lift (match_rules rules zone_id pre_name pre_type (of_opt_str record_id) op);
          if negb old_ok then mret (Decision false needs_lock (Some record_missing) pre)
          else if bool_decide (method_upper ∈ _RENAME_METHODS) then
            post ← lift (merge_patch_image pre (py_or body (JObj [])));
            if negb (py_eqb post.1 pre_name && py_eqb post.2 pre_type) then
              new_ok ← lift (match_rules rules zone_id post.1 post.2 (of_opt_str record_id) op);
              if negb new_ok
              then mret (Decision false needs_lock (Some insufficient_scope) pre)
              else mret (Decision true needs_lock None pre)
            else mret (Decision true needs_lock None pre)
          else mret (Decision true needs_lock None pre)
    end.
End authorizer.

(** ** The specification of a by-id decision *)

Section decision_spec.
Context `{Unicode}.
Variables (rules : list rule) (zone rid : pystr) (op : need).

(** The record is there and, as far as upstream says, in the zone asked for. *)
Definition present (pre : json) : Prop :=
  pre ≠ JNull /\ exists z, py_get pre (u "zone_id") = Ok z /\ (z = JNull \/ z = JStr zone).

(** The token may perform the operation on the record as it is. *)
Definition may (image : json) : Prop :=
  exists n t, py_get image (u "name") = Ok n /\ py_get image (u "type") = Ok t /\
    authorised rules zone n t (JStr rid) op.

(** The operation changes the name or the type of the record. *)
Definition renames (pre body : json) : Prop :=
  exists n t n' t', py_get pre (u "name") = Ok n /\ py_get pre (u "type") = Ok t /\
    merge_patch_image pre body = Ok (n', t') /\ py_eqb n' n && py_eqb t' t = false.

(** The token may perform the operation on the record it would become. *)
Definition may_after (pre body : json) : Prop :=
  exists n' t', merge_patch_image pre body = Ok (n', t') /\
    authorised rules zone n' t' (JStr rid) op.

(** The four ways a by-id request ends, and the error each is answered with. *)
Inductive by_id_decision (renaming lock : bool) (pre body : json) : AuthDecision -> Prop :=
| DecideMissing :
    ~ present pre ->
    by_id_decision renaming lock pre body (Decision false lock (Some record_missing) JNull)
| DecideHidden :
    present pre -> ~ may pre ->
    by_id_decision renaming lock pre body (Decision false lock (Some record_missing) pre)
| DecideRenameRefused :
    present pre -> may pre -> renaming = true -> renames pre body -> ~ may_after pre body ->
    by_id_decision renaming lock pre body (Decision false lock (Some insufficient_scope) pre)
| DecideAllowed :
    present pre -> may pre -> (renaming = true -> renames pre body -> may_after pre body) ->
    by_id_decision renaming lock pre body (Decision true lock None pre).
End decision_spec.

(** ** The decision as a function of the fetched record *)

Section decide.
Context `{Unicode}.

Definition op_of (method_upper : pystr) : option need :=
  if bool_decide (method_upper = u "GET") then Some Read else dict_get method_upper _MUTATION_OPS.

Definition lock_needed (rules : list rule) (method_upper zone : pystr) (rid : json) (op : need) : bool :=
  if bool_decide (is_Some (dict_get method_upper _MUTATION_OPS))
  then negb (is_lock_exempt rules zone rid op) else false.

Definition is_missing (zone : pystr) (pre : json) : result bool :=
  match pre with
  | JNull => Ok true
  | _ => z ← py_get pre (u "zone_id");
         Ok (negb (match z with JNull => true | _ => py_eqb z (JStr zone) end))
  end.

Definition decide_by_id (rules : list rule) (method_upper zone rid : pystr) (op : need)
    (body pre : json) : result AuthDecision :=
  let lock := lock_needed rules method_upper zone (JStr rid) op in
  missing ← is_missing zone pre;
  if (missing : bool) then Ok (Decision false lock (Some record_missing) JNull)
  else
    n ← py_get pre (u "name");
    t ← py_get pre (u "type");
    old_ok ← match_rules rules zone n t (JStr rid) op;
    if negb old_ok then Ok (Decision false lock (Some record_missing) pre)
    else if bool_decide (method_upper ∈ _RENAME_METHODS) then
      post ← merge_patch_image pre (py_or body (JObj []));
      if negb (py_eqb post.1 n && py_eqb post.2 t) then
        new_ok ← match_rules rules zone post.1 post.2 (JStr rid) op;
        if negb new_ok then Ok (Decision false lock (Some insufficient_scope) pre)
        else Ok (Decision true lock None pre)
      else Ok (Decision true lock None pre)
    else Ok (Decision true lock None pre).

Lemma py_eqb_str_r j s : py_eqb j (JStr s) = true <-> j = JStr s.
Proof. destruct j; simpl; rewrite ?bool_decide_eq_true; naive_solver. Qed.

Lemma is_missing_Ok zone pre b : is_missing zone pre = Ok b -> (b = false <-> present zone pre).
Proof.
  unfold is_missing, present. intros Hm. destruct pre; try done.
  { injection Hm as <-. split; [done|]. by intros [? _]. }
  apply result_bind_Ok in Hm as (z & Hz & [= <-]). rewrite Hz, negb_false_iff. split.
  - intros Hzone. split; [done|]. exists z. split; [done|].
    destruct z; auto; right; by apply py_eqb_str_r.
  - intros [_ (z' & [= <-] & [Ez|Ez])]; rewrite Ez; [done|]. by apply py_eqb_str_r.
Qed.

(** The function implements the specification. *)
Lemma decide_by_id_spec rules method_upper zone rid op body pre d :
  decide_by_id rules method_upper zone rid op body pre = Ok d ->
  by_id_decision rules zone rid op (bool_decide (method_upper ∈ _RENAME_METHODS))
    (lock_needed rules method_upper zone (JStr rid) op) pre (py_or body (JObj [])) d.
Proof.
  unfold decide_by_id. intros (missing & Hmiss%is_missing_Ok & Hd)%result_bind_Ok.
  destruct missing.
  { injection Hd as <-. apply DecideMissing. by intros ?%Hmiss. }
  assert (Hp : present zone pre) by by apply Hmiss.
  apply result_bind_Ok in Hd as (n & Hn & (t & Ht & Hd)%result_bind_Ok).
  apply result_bind_Ok in Hd as (old_ok & Hold%match_rules_authorised & Hd).
  assert (Hmay : old_ok = true <-> may rules zone rid op pre).
  { rewrite Hold. unfold may. split; [by eauto|].
    intros (n' & t' & Hn' & Ht' & ?). by det_eq. }
  destruct old_ok; simpl in Hd.
  2: { injection Hd as <-. apply DecideHidden; [done|]. by intros ?%Hmay. }
  case_bool_decide as Hren; [|injection Hd as <-; by apply DecideAllowed; [|apply Hmay|]].
  apply result_bind_Ok in Hd as ([n' t'] & Hpost & Hd). simpl in Hd.
  destruct (py_eqb n' n && py_eqb t' t) eqn:Heq; simpl in Hd.
  { injection Hd as <-. apply DecideAllowed; [done|by apply Hmay|].
    intros _ (? & ? & ? & ? & ? & ? & ? & ?). det_eq. congruence. }
  apply result_bind_Ok in Hd as (new_ok & Hnew%match_rules_authorised & Hd).
  assert (Hafter : new_ok = true <-> may_after rules zone rid op pre (py_or body (JObj []))).
  { rewrite Hnew. unfold may_after. split; [by eauto|]. intros (? & ? & ? & ?). by det_eq. }
  destruct new_ok; injection Hd as <-.
  - apply DecideAllowed; [done|by apply Hmay|]. intros _ _. by apply Hafter.
  - apply DecideRenameRefused; [done|by apply Hmay|done| |by intros ?%Hafter].
    by exists n, t, n', t'.
Qed.

Lemma decide_by_id_raises rules method_upper zone rid op body pre e :
  decide_by_id rules method_upper zone rid op body pre = Raise e -> name_error e.
Proof.
  assert (Hget : forall j k, py_get j k = Raise e -> name_error e)
    by (intros j k Hg; right; by eapply py_get_default_raises).
  unfold decide_by_id. intros [Hm|([] & _ & Hd)]%result_bind_Raise; [|done|].
  - unfold is_missing in Hm. destruct pre; try done;
      apply result_bind_Raise in Hm as [?|(? & _ & [=])]; by eapply Hget.
  - apply result_bind_Raise in Hd as [?|(n & _ & [?|(t & _ & Hd)]%result_bind_Raise)]; [by eapply Hget..|].
    apply result_bind_Raise in Hd as [?|([] & _ & Hd)]; [by eapply match_rules_raises| |done].
    simpl in Hd. revert Hd. case_bool_decide; [|done].
    intros [?|(post & _ & Hd)]%result_bind_Raise; [right; by eapply merge_raises|].
    revert Hd. case_if; [|done].
    intros [?|([] & _ & Hd)]%result_bind_Raise; [by eapply match_rules_raises|done..].
Qed.
End decide.

(** ** The callable the decision is given *)

(** What the authorizer expects of [fetch_record]: it only reads upstream, or
    renews a credential. *)
Class RecordFetch `{Env} (fetch : pystr -> option pystr -> M json) : Prop :=
  fetch_read_only : forall zone rid, Within read_only_event any_exn (fetch zone rid).

Section authorize.
Context `{Env}.

Lemma M_bind_ret_l {A B} (a : A) (f : A -> M B) w : (mret a ≫= f) w = f a w.
Proof. done. Qed.

(** A by-id request is its fetch followed by the pure decision. *)
Lemma authorize_by_id_run rules method zone rid op body fetch w :
  upper method ≠ u "POST" -> op_of (upper method) = Some op ->
  authorize_dns_request rules method zone (Some rid) body fetch w =
    (pre ← fetch zone (Some rid);
     lift (decide_by_id rules (upper method) zone rid op body pre)) w.
Proof.
  intros Hpost Hop. unfold authorize_dns_request, op_of, decide_by_id in *.
  rewrite (bool_decide_false _ Hpost), Hop. change (of_opt_str (Some rid)) with (JStr rid).
  fold (lock_needed rules (upper method) zone (JStr rid) op).
  generalize (lock_needed rules (upper method) zone (JStr rid) op). intros lock. clear.
  unfold mbind, M_bind, result_bind, lift, mret, M_ret.
  destruct (fetch zone (Some rid) w) as [[pre|e] w1]; [|done].
  fold (is_missing zone pre).
  repeat (case_match; simplify_eq/=; try done).
Qed.
End authorize.

(** ** Properties *)

Section authorizer_properties.
Context `{Env}.

(** C9: a by-id request (GET, PATCH, PUT, DELETE) fetches the record once,
    and nothing else happens but the decision, which is the specified one:
    404 when the record is not in the zone or the token may not perform the
    operation on it (the two are not told apart), 403 when only the renamed
    record escapes the scope, and allowed otherwise; the lock is needed
    exactly for mutations that are not exempt. *)
Theorem authorize_by_id_decides rules method zone rid op body fetch w d w' :
  upper method ≠ u "POST" -> op_of (upper method) = Some op ->
  authorize_dns_request rules method zone (Some rid) body fetch w = (Ok d, w') ->
  exists pre, fetch zone (Some rid) w = (Ok pre, w') /\
    by_id_decision rules zone rid op (bool_decide (upper method ∈ _RENAME_METHODS))
      (lock_needed rules (upper method) zone (JStr rid) op) pre (py_or body (JObj [])) d.
Proof.
  intros Hpost Hop. rewrite (authorize_by_id_run _ _ _ _ op) by done.
  intros (pre & w1 & Hfetch & [Hd ->]%lift_Ok)%M_bind_Ok.
  exists pre. split; [done|]. by apply decide_by_id_spec.
Qed.

(** A create is decided on the submitted name and type alone, without any
    fetch: it is allowed exactly when some rule that is not pinned to record
    ids grants it, and refused with the insufficient-scope error otherwise. *)
Theorem authorize_create_decides rules method zone rid body fetch w d w' :
  upper method = u "POST" ->
  authorize_dns_request rules method zone rid body fetch w = (Ok d, w') ->
  w' = w /\ exists name rtype,
    py_get (py_or body (JObj [])) (u "name") = Ok name /\
    py_get (py_or body (JObj [])) (u "type") = Ok rtype /\
    (allowed d = true <-> exists nm r, normalized name = Ok nm /\ r ∈ rules /\
       grants r zone nm rtype JNull Create /\
       (record_ids r = None \/ record_ids r = Some [])) /\
    d = Decision (allowed d) false (if allowed d then None else Some insufficient_scope) JNull.
Proof.
  intros Hm. unfold authorize_dns_request. rewrite Hm, bool_decide_true by done.
  intros (name & w1 & [Hn ->]%lift_Ok & (rtype & w2 & [Ht ->]%lift_Ok & E)%M_bind_Ok)%M_bind_Ok.
  apply M_bind_Ok in E as (ok & w3 & [Hok%match_rules_authorised ->]%lift_Ok & E).
  assert (Hd : w' = w /\ d = Decision ok false (if ok then None else Some insufficient_scope) JNull)
    by (destruct ok; by apply ret_Ok in E as [-> ->]).
  destruct Hd as [-> ->]. split; [done|]. exists name, rtype. split_and!; [done..| |done].
  simpl. rewrite Hok. unfold authorised. split.
  - intros (nm & Hnm & r & Hin & Hg). exists nm, r. split_and!; try done.
    by eapply grants_create_unpinned.
  - intros (nm & r & Hnm & Hin & Hg & _). eauto.
Qed.

(** A mutation that runs without the lock is never refused for scope,
    whatever the record has become and whatever it is renamed to: with the
    exemption, a present record is always an allowed one, so there is no
    check that a concurrent change could invalidate. *)
Theorem exempt_mutation_always_allowed rules method zone rid op body pre d :
  is_Some (dict_get (upper method) _MUTATION_OPS) ->
  decide_by_id rules (upper method) zone rid op body pre = Ok d ->
  needs_lock d = false -> present zone pre -> allowed d = true.
Proof.
  intros Hmut Hd Hlock Hp.
  assert (Hex : lock_needed rules (upper method) zone (JStr rid) op = false -> allowed d = true);
    [|apply decide_by_id_spec in Hd; apply Hex; by destruct Hd].
  unfold lock_needed. rewrite bool_decide_true by done. intros Hex%negb_false_iff.
  unfold decide_by_id in Hd.
  apply result_bind_Ok in Hd as (missing & Hmiss%is_missing_Ok & Hd).
  assert (missing = false) as -> by by apply Hmiss.
  apply result_bind_Ok in Hd as (n & _ & (t & _ & (ok & Hok & Hd)%result_bind_Ok)%result_bind_Ok).
  rewrite (lock_exempt_escape_proof _ _ _ _ _ _ _ Hex Hok) in Hd. simpl in Hd.
  case_bool_decide; [|by injection Hd as <-].
  apply result_bind_Ok in Hd as ([n' t'] & _ & Hd). simpl in Hd.
  case_if; [|by injection Hd as <-].
  apply result_bind_Ok in Hd as (new_ok & Hnew & Hd).
  rewrite (lock_exempt_escape_proof _ _ _ _ _ _ _ Hex Hnew) in Hd. by injection Hd as <-.
Qed.
End authorizer_properties.
