(* ===== verification/ListFilter.v ===== *)
(** * Filtering and local pagination ([filtering/list_filter.py]) *)

From S2P Require Import Prelude PyStr Json Scope.

(** A list comprehension whose test may raise. *)
Fixpoint result_filter {A} (f : A -> result bool) (l : list A) : result (list A) :=
  match l with
  | [] => Ok []
  | x :: l' =>
      keep ← f x;
      rest ← result_filter f l';
      Ok (if (keep : bool) then x :: rest else rest)
  end.

(** [l[start:end]]: a negative bound counts from the end, both are clamped. *)
Definition slice_bound (n : nat) (i : Z) : nat :=
  if (i <? 0)%Z then Z.to_nat (i + Z.of_nat n) else Nat.min (Z.to_nat i) n.

Definition py_slice {A} (l : list A) (start stop : Z) : list A :=
  let s := slice_bound (length l) start in
  let e := slice_bound (length l) stop in
  take (e - s) (drop s l).

Record result_info := ResultInfo {
  ri_page : Z; ri_per_page : Z; ri_count : Z; ri_total_count : Z; ri_total_pages : Z }.

(** The dict of the same keys. *)
Definition result_info_json (i : result_info) : json := JObj [
  (u "page", JNum (ri_page i));
  (u "per_page", JNum (ri_per_page i));
  (u "count", JNum (ri_count i));
  (u "total_count", JNum (ri_total_count i));
  (u "total_pages", JNum (ri_total_pages i))].

Definition filter_records `{Unicode} (records : list json) (rules : list rule) (zone_id : pystr)
    : result (list json) :=
  result_filter (fun record =>
    name ← py_get record (u "name");
    rtype ← py_get record (u "type");
    rid ← py_get record (u "id");
    match_rules rules zone_id name rtype rid Read) records.

Definition paginate_and_result_info {A} (records : list A) (page per_page : Z)
    : list A * result_info :=
  let total_count := Z.of_nat (length records) in
  let total_pages := if (0 <? per_page)%Z then (- (- total_count / per_page))%Z else 0%Z in
  let start := ((page - 1) * per_page)%Z in
  let stop := (start + per_page)%Z in
  let page_records := py_slice records start stop in
  (page_records,
   ResultInfo page per_page (Z.of_nat (length page_records)) total_count total_pages).

(** ** The list comprehension *)

(** When it returns, it keeps exactly the elements that pass, in order. *)
Lemma result_filter_Ok {A} (f : A -> result bool) l l' :
  result_filter f l = Ok l' ->
  l' `sublist_of` l /\ forall x, x ∈ l' <-> x ∈ l /\ f x = Ok true.
Proof.
  revert l'. induction l as [|x l IH]; intros l'; simpl.
  - intros [= <-]. split; [done|]. set_solver.
  - intros (keep & Hx & (rest & Hr & [= <-])%result_bind_Ok)%result_bind_Ok.
    destruct (IH _ Hr) as [Hsub Hin]. destruct keep.
    + split; [by constructor|]. intros y. rewrite !elem_of_cons, Hin.
      split; [intros [->|[? ?]]; auto | intros [[->|?] ?]; auto].
    + split; [by constructor|]. intros y. rewrite elem_of_cons, Hin.
      split; [intros [? ?]; auto | intros [[->|?] Hy]; [congruence|auto]].
Qed.

Lemma result_filter_each {A} (f : A -> result bool) l l' :
  result_filter f l = Ok l' -> forall x, x ∈ l -> exists b, f x = Ok b.
Proof.
  revert l'. induction l as [|y l IH]; intros l'; simpl; [set_solver|].
  intros (keep & Hy & (rest & Hr & _)%result_bind_Ok)%result_bind_Ok x.
  intros [->|Hx]%elem_of_cons; eauto.
Qed.

(** It returns as soon as the test does on every element. *)
Lemma result_filter_total {A} (f : A -> result bool) l :
  (forall x, x ∈ l -> exists b, f x = Ok b) -> exists l', result_filter f l = Ok l'.
Proof.
  induction l as [|x l IH]; intros Hf; simpl; [by eexists|].
  destruct (Hf x) as [b Hb]; [left|]. destruct IH as [l' Hl'].
  { intros y Hy. apply Hf. by right. }
  rewrite Hb, Hl'. by eexists.
Qed.

(** ** Slices *)

Lemma slice_bound_le n i : slice_bound n i <= n.
Proof. unfold slice_bound. destruct (i <? 0)%Z eqn:E; [apply Z.ltb_lt in E|]; lia. Qed.

Lemma py_slice_sublist {A} (l : list A) start stop : py_slice l start stop `sublist_of` l.
Proof. unfold py_slice. etrans; [apply sublist_take | apply sublist_drop]. Qed.

(** With bounds counted from the front, a slice is a window. *)
Lemma py_slice_window {A} (l : list A) (s k : nat) :
  py_slice l (Z.of_nat s) (Z.of_nat s + Z.of_nat k) = take k (drop s l).
Proof.
  unfold py_slice, slice_bound.
  destruct (Z.of_nat s <? 0)%Z eqn:E1; [apply Z.ltb_lt in E1; lia|].
  destruct (Z.of_nat s + Z.of_nat k <? 0)%Z eqn:E2; [apply Z.ltb_lt in E2; lia|].
  rewrite <- Nat2Z.inj_add, !Nat2Z.id.
  destruct (decide (s <= length l)) as [Hs|Hs].
  - rewrite (Nat.min_l s) by done.
    destruct (decide (s + k <= length l)).
    + rewrite Nat.min_l by done. f_equal. lia.
    + rewrite Nat.min_r by lia. rewrite (take_ge (drop s l) k) by (rewrite length_drop; lia).
      apply take_ge. rewrite length_drop. lia.
  - rewrite !drop_ge by lia. by rewrite !take_nil.
Qed.

(** Consecutive windows of one size cover a prefix. *)
Lemma concat_windows {A} (l : list A) (k m : nat) :
  concat ((fun i => take k (drop (i * k) l)) <$> seq 0 m) = take (m * k) l.
Proof.
  induction m as [|m IH]; [done|].
  rewrite seq_S, fmap_app, concat_app, IH. simpl. rewrite app_nil_r.
  rewrite (Nat.add_comm k), take_take_drop. done.
Qed.

Lemma page_window {A} (l : list A) (i k : nat) :
  (paginate_and_result_info l (Z.of_nat i + 1) (Z.of_nat k)).1 = take k (drop (i * k) l).
Proof.
  unfold paginate_and_result_info. cbn [fst].
  replace ((Z.of_nat i + 1 - 1) * Z.of_nat k)%Z with (Z.of_nat (i * k)) by lia.
  apply py_slice_window.
Qed.

(** ** Properties *)

(** A record a token may read: its own attributes are authorised. *)
Definition readable `{Unicode} (rules : list rule) (zone : pystr) (record : json) : Prop :=
  exists name rtype rid,
    py_get record (u "name") = Ok name /\ py_get record (u "type") = Ok rtype /\
    py_get record (u "id") = Ok rid /\ authorised rules zone name rtype rid Read.

Lemma filter_records_Ok `{Unicode} records rules zone kept :
  filter_records records rules zone = Ok kept ->
  kept `sublist_of` records /\
  forall record, record ∈ kept <-> record ∈ records /\ readable rules zone record.
Proof.
  intros Hf. unfold filter_records in Hf. apply result_filter_Ok in Hf as Hs.
  destruct Hs as [Hsub Hin]. split; [done|]. intros record. rewrite Hin.
  split; (intros [Hr Hx]; split; [done|]).
  - apply result_bind_Ok in Hx as (name & Hn & (rtype & Ht & (rid & Hi & Hm)%result_bind_Ok)%result_bind_Ok).
    exists name, rtype, rid. split_and!; [done..|]. by eapply match_rules_authorised.
  - destruct Hx as (name & rtype & rid & Hn & Ht & Hi & Ha).
    destruct (result_filter_each _ _ _ Hf record Hr) as [b Hb].
    rewrite Hn, Ht, Hi in *. simpl in *. rewrite Hb. f_equal.
    by apply (match_rules_authorised _ _ _ _ _ _ _ Hb).
Qed.

(** The list filter keeps exactly the records the token may read (their
    own zone-local name, type and id are granted), in the order upstream
    returned them. *)
Theorem filter_keeps_readable `{Unicode} records rules zone kept :
  filter_records records rules zone = Ok kept ->
  kept `sublist_of` records /\
  forall record, record ∈ kept <-> record ∈ records /\ readable rules zone record.
Proof. apply filter_records_Ok. Qed.

(** The pages 1 to [total_pages] cut the authorised records into
    consecutive windows: nothing is lost, repeated or reordered. *)
Theorem pages_partition (records : list json) per_page :
  (0 < per_page)%Z ->
  let total := ri_total_pages (paginate_and_result_info records 1 per_page).2 in
  concat ((fun p => (paginate_and_result_info records p per_page).1) <$> seqZ 1 total) = records.
Proof.
  intros Hpos total. set (n := length records). set (k := Z.to_nat per_page).
  assert (Hk : per_page = Z.of_nat k) by (unfold k; lia).
  assert (Htot : total = (- (- Z.of_nat n / per_page))%Z).
  { unfold total, paginate_and_result_info. simpl.
    by rewrite (proj2 (Z.ltb_lt 0 per_page) Hpos). }
  assert (Hge : n <= Z.to_nat total * k).
  { pose proof (Z.mul_div_le (- Z.of_nat n) per_page Hpos). subst k. nia. }
  transitivity (concat ((fun i => take k (drop (i * k) records)) <$> seq 0 (Z.to_nat total))).
  - f_equal. unfold seqZ. rewrite <- list_fmap_compose. apply list_fmap_ext.
    intros i x _. simpl. rewrite Hk, <- page_window. by rewrite Z.add_comm.
  - rewrite concat_windows. by apply take_ge.
Qed.

(** C40: whatever page is asked for, negative and zero bounds included, the page
    is a sub-sequence of the authorised records and [result_info] counts what
    is there: the elements of the page, of the whole list, and the number of
    pages, the ceiling of their quotient. *)
Theorem result_info_correct (records : list json) page per_page :
  let '(page_records, info) := paginate_and_result_info records page per_page in
  page_records `sublist_of` records /\
  ri_page info = page /\ ri_per_page info = per_page /\
  ri_count info = Z.of_nat (length page_records) /\
  ri_total_count info = Z.of_nat (length records) /\
  ((0 < per_page)%Z ->
     ((ri_total_pages info - 1) * per_page < Z.of_nat (length records)
        <= ri_total_pages info * per_page)%Z) /\
  ((per_page <= 0)%Z -> ri_total_pages info = 0%Z).
Proof.
  simpl. split_and!; try done; [apply py_slice_sublist| |].
  - intros Hpos. rewrite (proj2 (Z.ltb_lt 0 per_page) Hpos).
    pose proof (Z.mul_div_le (- Z.of_nat (length records)) per_page Hpos).
    pose proof (Z.mul_succ_div_gt (- Z.of_nat (length records)) per_page Hpos). nia.
  - intros Hneg. by rewrite (proj2 (Z.ltb_ge 0 per_page) Hneg).
Qed.
