(* ===== verification/ProxyDns.v ===== *)
(** * The proxied DNS endpoints ([routers/proxy_dns.py]) *)

From S2P Require Import Prelude PyStr Json Scope Models World Envelopes Crypto Cache Locks.
From S2P Require Import Upstream AuditLogs ProxyAuth Authorizer ListFilter.

(** What the handlers read of a request: [rq_json] is [None] when the body is
    not JSON. *)
Record request := Request {
  rq_client_host : option pystr;
  rq_query : list (pystr * pystr);
  rq_json : option json;
  rq_body : list N;
}.

Definition _DEFAULT_PAGE : Z := 1.
Definition _DEFAULT_PER_PAGE : Z := 20.
Definition _LOCK_UNAVAILABLE_MESSAGE : pystr :=
  u "Could not acquire the record mutation lock, please retry.".

Definition _client_ip (r : request) : option pystr := rq_client_host r.

(** [await request.json()]. *)
Definition request_json (r : request) : result json :=
  match rq_json r with Some j => Ok j | None => Raise JSONDecodeError end.

(** [int(remaining.pop(key, default) or default)]. *)
Definition pop_int `{Unicode} (key : pystr) (default : Z) (params : list (pystr * pystr)) : result Z :=
  match dict_get key params with
  | None => Ok default
  | Some [] => Ok default
  | Some s => py_int s
  end.

Definition _pop_pagination `{Unicode} (query_params : list (pystr * pystr))
    : result (Z * Z * list (pystr * json)) :=
  page ← pop_int (u "page") _DEFAULT_PAGE query_params;
  let remaining := dict_del (u "page") query_params in
  per_page ← pop_int (u "per_page") _DEFAULT_PER_PAGE remaining;
  let remaining' := dict_del (u "per_page") remaining in
  Ok (page, per_page, (fun kv => (kv.1, JStr kv.2)) <$> remaining').

(** [j in s] for a set of strings: a list or a dict cannot be hashed. *)
Definition in_str_set (j : json) (s : list pystr) : result bool :=
  match j with
  | JArr _ | JObj _ => Raise TypeError
  | _ => Ok (in_strs j s)
  end.

(** [image.get(key) if image else None]. *)
Definition image_get (image : json) (key : pystr) : result json :=
  if truthy image then py_get image key else Ok JNull.

(** [j.get("result") if isinstance(j, dict) else None]. *)
Definition result_of (j : json) : json :=
  match j with JObj d => default JNull (dict_get (u "result") d) | _ => JNull end.

(** [f"{code}: {message}"]. *)
Definition deny_reason (code : Z) (message : pystr) : pystr := str_of_Z code ++ u ": " ++ message.

Section proxy_dns.
Context `{Env}.

Definition _record_audit (context : ProxyAuthContext) (method path decision : pystr)
    (zone_id record_id : option pystr) (record_name record_type pre post : json)
    (reason : option pystr) (upstream_status : option Z) (client_ip : option pystr) : M unit :=
  swallow (_ ← write_audit (AuditFields method path decision
    (Some (st_user_id (ctx_token context))) (Some (st_id (ctx_token context)))
    (Some (st_token_prefix (ctx_token context)))
    zone_id record_id record_name record_type pre post reason upstream_status client_ip None);
    mret tt) tt.

Fixpoint fetch_all_zones_loop (fuel : nat) (auth_headers : headers)
    (params : list (pystr * json)) (zones : list json) (page : Z) : M (list json) :=
  match fuel with
  | O => raise OutOfFuel
  | S fuel' =>
      let page_params := dict_setdefault (u "per_page") (JNum 50)
                           (dict_set (u "page") (JNum page) params) in
      response ← forward_request (u "GET") (u "/client/v4/zones") None (Some page_params) None
                   auth_headers;
      body ← lift (response_json response);
      failed ← lift (if (400 <=? hs_status response)%Z then Ok true
                     else s ← py_get_default body (u "success") (JBool false); Ok (negb (truthy s)));
      if (failed : bool) then mret zones
      else
        result ← lift (py_get body (u "result"));
        items ← lift (py_iter (py_or result (JArr [])));
        result_info ← lift (py_get body (u "result_info"));
        total_pages ← lift (py_get_default (py_or result_info (JObj [])) (u "total_pages") (JNum 1));
        stop ← lift (int_ge page total_pages);
        if (stop : bool) then mret (zones ++ items)
        else fetch_all_zones_loop fuel' auth_headers params (zones ++ items) (page + 1)
  end.

Definition _fetch_all_zones (fuel : nat) (auth_headers : headers) (params : list (pystr * json))
    : M (list json) :=
  fetch_all_zones_loop fuel auth_headers params [] 1.

Definition list_zones (fuel : nat) (request : request) (context : ProxyAuthContext) : M response :=
  '(page, per_page, remaining_params) ← lift (_pop_pagination (rq_query request));
  auth_headers ← resolve_upstream_auth (ctx_credential context);
  all_zones ← _fetch_all_zones fuel auth_headers remaining_params;
  let in_scope_zone_ids := zone_id <$> ctx_rules context in
  zones ← lift (result_filter (fun zone =>
    id ← py_get zone (u "id"); in_str_set id in_scope_zone_ids) all_zones);
  let '(page_zones, result_info) := paginate_and_result_info zones page per_page in
  mret (make_cf_response (JArr page_zones) 200 JNull (Some (result_info_json result_info))).

Definition list_dns_records (fuel : nat) (zone : pystr) (request : request)
    (context : ProxyAuthContext) : M response :=
  '(page, per_page, remaining_params) ← lift (_pop_pagination (rq_query request));
  if negb (existsb (fun r => bool_decide (zone_id r = zone)) (ctx_rules context)) then
    let '(_, result_info) := paginate_and_result_info (A:=json) [] page per_page in
    mret (make_cf_response (JArr []) 200 JNull (Some (result_info_json result_info)))
  else
    auth_headers ← resolve_upstream_auth (ctx_credential context);
    all_records ← list_all_records fuel zone (Some remaining_params) auth_headers;
    authorized ← lift (filter_records all_records (ctx_rules context) zone);
    let '(page_records, result_info) := paginate_and_result_info authorized page per_page in
    mret (make_cf_response (JArr page_records) 200 JNull (Some (result_info_json result_info))).

(** [status, code, message = decision.error]. *)
Definition unpack_error (d : AuthDecision) : result (Z * Z * pystr) :=
  match error d with Some e => Ok e | None => Raise TypeError end.

Definition _unused_fetch_record (_ : pystr) (_ : option pystr) : M json := mret JNull.

Definition create_dns_record (zone : pystr) (request : request) (context : ProxyAuthContext)
    : M response :=
  body ← lift (request_json request);
  let path := records_path zone in
  record_name ← lift (if is_dict body then py_get body (u "name") else Ok JNull);
  record_type ← lift (if is_dict body then py_get body (u "type") else Ok JNull);
  decision ← authorize_dns_request (ctx_rules context) (u "POST") zone None body
               _unused_fetch_record;
  if negb (allowed decision) then
    '(status, code, message) ← lift (unpack_error decision);
    _ ← _record_audit context (u "POST") path (u "deny") (Some zone) None record_name record_type
          JNull JNull (Some (deny_reason code message)) None (_client_ip request);
    mret (make_cf_error status code message)
  else
    auth_headers ← resolve_upstream_auth (ctx_credential context);
    response ← forward_request (u "POST") path None None (Some (rq_body request)) auth_headers;
    response_body ← lift (response_json response);
    _ ← _record_audit context (u "POST") path (u "allow") (Some zone) None record_name record_type
          JNull (result_of response_body) None (Some (hs_status response)) (_client_ip request);
    mret (JSONResponse (hs_status response) response_body).

(** The live fetch of a by-id operation. *)
Definition _fetch_record (auth_headers : headers) (fetch_zone_id : pystr)
    (fetch_record_id : option pystr) : M json :=
  fetch_cf_record fetch_zone_id (default (u "None") fetch_record_id) auth_headers.

Definition _authorize_by_id (context : ProxyAuthContext) (method zone record_id : pystr)
    (body : json) (auth_headers : headers) : M AuthDecision :=
  authorize_dns_request (ctx_rules context) method zone (Some record_id) body
    (_fetch_record auth_headers).

(** The closure of [_mutate_dns_record_by_id]. *)
Definition _authorize_and_forward (context : ProxyAuthContext) (method zone record_id : pystr)
    (body : json) (content : option (list N)) (auth_headers : headers)
    : M (AuthDecision * option http_response) :=
  decision ← _authorize_by_id context method zone record_id body auth_headers;
  if negb (allowed decision) then mret (decision, None)
  else
    upstream ← forward_request method (record_path zone record_id) None None content auth_headers;
    mret (decision, Some upstream).

(** After the lock is released: audit and answer. *)
Definition mutation_response (context : ProxyAuthContext) (method zone record_id : pystr)
    (request : request) (outcome : AuthDecision * option http_response) : M response :=
  let '(decision, upstream) := outcome in
  let path := record_path zone record_id in
  let pre := pre_image decision in
  if negb (allowed decision) then
    '(status, code, message) ← lift (unpack_error decision);
    name ← lift (image_get pre (u "name"));
    rtype ← lift (image_get pre (u "type"));
    _ ← _record_audit context method path (u "deny") (Some zone) (Some record_id) name rtype
          pre JNull (Some (deny_reason code message)) None (_client_ip request);
    mret (make_cf_error status code message)
  else
    match upstream with
    | None => raise AttributeError
    | Some upstream =>
        body_json ← lift (response_json upstream);
        name ← lift (image_get pre (u "name"));
        rtype ← lift (image_get pre (u "type"));
        _ ← _record_audit context method path (u "allow") (Some zone) (Some record_id) name rtype
              pre (result_of body_json) None (Some (hs_status upstream)) (_client_ip request);
        mret (JSONResponse (hs_status upstream) body_json)
    end.

Definition _mutate_dns_record_by_id (method zone record_id : pystr) (body : json)
    (content : option (list N)) (context : ProxyAuthContext) (request : request) : M response :=
  let op := if bool_decide (upper method = u "DELETE") then Delete else Write in
  let exempt := is_lock_exempt (ctx_rules context) zone (JStr record_id) op in
  auth_headers ← resolve_upstream_auth (ctx_credential context);
  let run := _authorize_and_forward context method zone record_id body content auth_headers in
  outcome ← (if exempt then Some <$> run
             else try_except
               (_ ← engine_connect;
                name ← lift (mutation_lock_name zone record_id);
                Some <$> advisory_lock name run)
               is_LockUnavailable (fun _ => mret None));
  match outcome with
  | None => mret (make_cf_error 503 INTERNAL _LOCK_UNAVAILABLE_MESSAGE)
  | Some outcome => mutation_response context method zone record_id request outcome
  end.

Definition get_dns_record (zone record_id : pystr) (request : request)
    (context : ProxyAuthContext) : M response :=
  auth_headers ← resolve_upstream_auth (ctx_credential context);
  decision ← _authorize_by_id context (u "GET") zone record_id JNull auth_headers;
  if negb (allowed decision) then
    '(status, code, message) ← lift (unpack_error decision);
    let pre := pre_image decision in
    name ← lift (image_get pre (u "name"));
    rtype ← lift (image_get pre (u "type"));
    _ ← _record_audit context (u "GET") (record_path zone record_id) (u "deny") (Some zone)
          (Some record_id) name rtype pre JNull (Some (deny_reason code message)) None
          (_client_ip request);
    mret (make_cf_error status code message)
  else mret (cf_ok (pre_image decision)).

Definition patch_dns_record (zone record_id : pystr) (request : request)
    (context : ProxyAuthContext) : M response :=
  body ← lift (request_json request);
  _mutate_dns_record_by_id (u "PATCH") zone record_id body (Some (rq_body request)) context request.

Definition put_dns_record (zone record_id : pystr) (request : request)
    (context : ProxyAuthContext) : M response :=
  body ← lift (request_json request);
  _mutate_dns_record_by_id (u "PUT") zone record_id body (Some (rq_body request)) context request.

Definition delete_dns_record (zone record_id : pystr) (request : request)
    (context : ProxyAuthContext) : M response :=
  _mutate_dns_record_by_id (u "DELETE") zone record_id JNull None context request.
End proxy_dns.

(** ** Auditing and answering *)

Section proxy_dns_laws.
Context `{Env}.

(** The audit of an attempt: it emits nothing and cannot fail. *)
Lemma within_record_audit ctx m p dec z rid n t pre post reason st ip E X :
  Within E X (_record_audit ctx m p dec z rid n t pre post reason st ip).
Proof. unfold _record_audit. apply within_swallow. solve_within. Qed.

Lemma record_audit_run ctx m p dec z rid n t pre post reason st ip w :
  exists w', _record_audit ctx m p dec z rid n t pre post reason st ip w = (Ok tt, w') /\
    w_trace w' = w_trace w.
Proof.
  destruct (within_record_audit ctx m p dec z rid n t pre post reason st ip no_event no_exn w)
    as (l & E & Hl & He).
  destruct (_record_audit _ _ _ _ _ _ _ _ _ _ _ _ _ w) as [[[]|e] w']; [|by destruct (He e eq_refl)].
  exists w'. split; [done|]. simpl in *. rewrite E. destruct l; [apply app_nil_r|by inversion Hl].
Qed.

(** What the caller of a by-id mutation is answered, as a function of the
    outcome alone. *)
Definition mutation_answer (outcome : AuthDecision * option http_response) : result response :=
  let '(decision, upstream) := outcome in
  let pre := pre_image decision in
  if negb (allowed decision) then
    '(status, code, message) ← unpack_error decision;
    _ ← image_get pre (u "name");
    _ ← image_get pre (u "type");
    Ok (make_cf_error status code message)
  else
    match upstream with
    | None => Raise AttributeError
    | Some upstream =>
        body_json ← response_json upstream;
        _ ← image_get pre (u "name");
        _ ← image_get pre (u "type");
        Ok (JSONResponse (hs_status upstream) body_json)
    end.

Lemma mutation_response_run ctx method zone rid rq outcome w :
  exists w', mutation_response ctx method zone rid rq outcome w = (mutation_answer outcome, w') /\
    w_trace w' = w_trace w.
Proof.
  destruct outcome as [d up]. unfold mutation_response, mutation_answer.
  destruct (allowed d); simpl.
  - destruct up as [up|]; [|by exists w]. unfold lift, mbind, M_bind, result_bind.
    destruct (response_json up) as [b|]; [|by exists w].
    destruct (image_get _ (u "name")) as [n|]; [|by exists w].
    destruct (image_get _ (u "type")) as [t|]; [|by exists w].
    edestruct record_audit_run as (w' & -> & Hw'). by exists w'.
  - unfold lift, mbind, M_bind, result_bind.
    destruct (unpack_error d) as [[[st c] m]|]; [|by exists w].
    destruct (image_get _ (u "name")) as [n|]; [|by exists w].
    destruct (image_get _ (u "type")) as [t|]; [|by exists w].
    edestruct record_audit_run as (w' & -> & Hw'). by exists w'.
Qed.

#[export] Instance fetch_record_read_only auth : RecordFetch (_fetch_record auth).
Proof. intros zone rid. apply within_fetch_cf_record. Qed.

#[export] Instance unused_fetch_read_only : RecordFetch _unused_fetch_record.
Proof. intros zone rid. apply within_ret. Qed.
End proxy_dns_laws.

(** ** The by-id handlers *)

Definition lock_refused : response := make_cf_error 503 INTERNAL _LOCK_UNAVAILABLE_MESSAGE.
Definition record_hidden : response :=
  make_cf_error 404 RECORD_NOT_FOUND (u "Record does not exist.").
Definition scope_refused : response :=
  make_cf_error 403 FORBIDDEN (u "Authorization error: insufficient scope").

Section by_id.
Context `{Env}.
Variables (ctx : ProxyAuthContext) (method zone rid : pystr) (body : json) (op : need).

Definition renaming : bool := bool_decide (upper method ∈ _RENAME_METHODS).
Definition locking : bool := lock_needed (ctx_rules ctx) (upper method) zone (JStr rid) op.

(** The record passed every check made under the lock. *)
Definition cleared (pre : json) : Prop :=
  present zone pre /\ may (ctx_rules ctx) zone rid op pre /\
  (renaming = true -> renames pre (py_or body (JObj [])) ->
   may_after (ctx_rules ctx) zone rid op pre (py_or body (JObj []))).

Definition decided (pre : json) (d : AuthDecision) : Prop :=
  by_id_decision (ctx_rules ctx) zone rid op renaming locking pre (py_or body (JObj [])) d.

Lemma decided_cleared pre d : decided pre d -> allowed d = true -> cleared pre.
Proof. by intros []. Qed.

(** When a fetched record is refused, and how: hidden when it is not there, not
    in the zone, or not the token's to touch; out of scope when it is the
    token's to touch but would be renamed to one that is not. *)
Definition refusal (pre : json) (resp : response) : Prop :=
  (~ present zone pre \/ ~ may (ctx_rules ctx) zone rid op pre) /\ resp = record_hidden \/
  present zone pre /\ may (ctx_rules ctx) zone rid op pre /\ renaming = true /\
    renames pre (py_or body (JObj [])) /\
    ~ may_after (ctx_rules ctx) zone rid op pre (py_or body (JObj [])) /\ resp = scope_refused.

(** A refusal always has its answer. *)
Lemma decided_refused pre d up :
  decided pre d -> allowed d = false ->
  exists resp, mutation_answer (d, up) = Ok resp /\ refusal pre resp.
Proof.
  intros Hd Ha. assert (Hget : present zone pre -> forall k, exists v, image_get pre k = Ok v).
  { intros [_ (z & Hz & _)] k. destruct pre as [| | | | |o]; try done. unfold image_get.
    destruct (truthy (JObj o)); by eexists. }
  destruct Hd as [Hp|Hp Hm|Hp Hm Hr Hren Hno|]; [|..|done]; unfold mutation_answer; simpl.
  - exists record_hidden. split; [done|]. left. auto.
  - destruct (Hget Hp (u "name")) as [n En], (Hget Hp (u "type")) as [t Et]. rewrite En, Et.
    exists record_hidden. split; [done|]. left. auto.
  - destruct (Hget Hp (u "name")) as [n En], (Hget Hp (u "type")) as [t Et]. rewrite En, Et.
    exists scope_refused. split; [done|]. right. auto 10.
Qed.

Hypothesis not_post : upper method ≠ u "POST".
Hypothesis method_op : op_of (upper method) = Some op.

Lemma emits_authorize_by_id auth :
  Emits (_authorize_by_id ctx method zone rid body auth) (fun l r =>
    match r with
    | Ok d => exists base resp pre, l = [EvHttp (record_get base zone rid auth) (Ok resp)] /\
                fetched resp pre /\ decided pre d
    | Raise e => Forall read_only_event l /\ plain_exn e
    end).
Proof.
  eapply emits_ext; [intros w; by apply authorize_by_id_run|].
  eapply emits_bind; [apply emits_fetch_cf_record|done|].
  intros pre l (base & resp & -> & Hf). apply emits_lift.
  destruct (decide_by_id _ _ _ _ _ _ pre) as [d|e] eqn:Ed.
  - exists base, resp, pre. split_and!; [done|done|]. by apply decide_by_id_spec.
  - split; [constructor; [by left|done]|]. by destruct (decide_by_id_raises _ _ _ _ _ _ _ _ Ed) as [Ee|Ee]; subst e.
Qed.

(** The events of a forward: the fetch, at once followed by the request that
    is authorised on what it returned. *)
Definition guarded_forward (auth : headers) (content : option (list N)) (l : list event)
    (pre : json) (res : result http_response) : Prop :=
  exists base base' resp,
    l = [EvHttp (record_get base zone rid auth) (Ok resp);
         EvHttp (forwarded base' method (record_path zone rid) None None content auth) res] /\
    fetched resp pre /\ cleared pre.

(** The events of a refusal: the fetch alone. *)
Definition looked_up (auth : headers) (l : list event) (pre : json) : Prop :=
  exists base resp, l = [EvHttp (record_get base zone rid auth) (Ok resp)] /\ fetched resp pre.

Lemma looked_up_read_only auth l pre : looked_up auth l pre -> Forall read_only_event l.
Proof. intros (base & resp & -> & _). constructor; [by left|done]. Qed.

(** How a run of the closure ends: no forward, or a guarded one. *)
Definition closure_outcome (auth : headers) (content : option (list N)) (l : list event)
    (r : result (AuthDecision * option http_response)) : Prop :=
  match r with
  | Raise e => plain_exn e /\
      (Forall read_only_event l \/ exists pre, guarded_forward auth content l pre (Raise e))
  | Ok (d, None) => allowed d = false /\ exists pre, decided pre d /\ looked_up auth l pre
  | Ok (d, Some up) => allowed d = true /\ exists pre, decided pre d /\
                         guarded_forward auth content l pre (Ok up)
  end.

Lemma emits_authorize_and_forward auth content :
  Emits (_authorize_and_forward ctx method zone rid body content auth) (closure_outcome auth content).
Proof.
  unfold _authorize_and_forward. eapply emits_bind; [apply emits_authorize_by_id| |].
  { intros l e [? ?]. split; auto. }
  intros d l (base & resp & pre & -> & Hf & Hd).
  assert (Hro : Forall read_only_event [EvHttp (record_get base zone rid auth) (Ok resp)])
    by (constructor; [by left|done]).
  destruct (allowed d) eqn:Ha; simpl.
  - pose proof (decided_cleared _ _ Hd Ha) as Hc.
    eapply emits_bind; [apply (emits_forward _ _ _ _ _ _ (fun l r =>
      (forall e, r = Raise e -> plain_exn e) /\
      (l = [] /\ (exists e, r = Raise e) \/ exists base',
        l = [EvHttp (forwarded base' method (record_path zone rid) None None content auth) r])))|..].
    + intros e He. split; [by intros ? [= <-]|]. left. by split; [|eexists].
    + intros base' r _. split; [done|]. right. by eexists.
    + intros base'. split; [by intros ? [= <-]|]. right. by eexists.
    + intros l e [He [[-> _]|[base' ->]]]; (split; [by apply He|]); [by left|]. right. exists pre.
      by exists base, base', resp.
    + intros up l [_ [[_ [e [=]]]|[base' ->]]]. apply emits_ret. split; [done|].
      exists pre. split; [done|]. by exists base, base', resp.
  - apply emits_ret. split; [done|]. exists pre. split; [done|]. by exists base, resp.
Qed.

(** The closure under the lock protocol of the handler. *)
Definition locked_run (auth : headers) (content : option (list N))
    : M (option (AuthDecision * option http_response)) :=
  let run := _authorize_and_forward ctx method zone rid body content auth in
  if negb locking then Some <$> run
  else try_except
    (_ ← engine_connect;
     name ← lift (mutation_lock_name zone rid);
     Some <$> advisory_lock name run)
    is_LockUnavailable (fun _ => mret None).

(** The events [g] of the closure, with the lock around them unless exempt. *)
Definition bracketed (g l : list event) : Prop :=
  locking = false /\ l = g \/
  locking = true /\ exists name, mutation_lock_name zone rid = Ok name /\
    l = EvLock name :: g ++ [EvUnlock name].

(** The forward of a mutation. *)
Definition performed (auth : headers) (content : option (list N)) (l : list event)
    (pre : json) (res : result http_response) : Prop :=
  exists g, guarded_forward auth content g pre res /\ bracketed g l.

Definition locked_outcome (auth : headers) (content : option (list N)) (l : list event)
    (r : result (option (AuthDecision * option http_response))) : Prop :=
  match r with
  | Raise _ => quiet l \/ exists pre res, performed auth content l pre res
  | Ok None => locking = true /\ l = []
  | Ok (Some (d, None)) => allowed d = false /\ exists pre g, decided pre d /\
                             looked_up auth g pre /\ bracketed g l
  | Ok (Some (d, Some up)) => allowed d = true /\ exists pre, decided pre d /\
                                performed auth content l pre (Ok up)
  end.

Lemma quiet_bracket name l : quiet l -> quiet (EvLock name :: l ++ [EvUnlock name]).
Proof.
  intros Hl. constructor; [by intros []|]. apply Forall_app. split; [done|].
  constructor; [by intros []|done].
Qed.

(** With the lock: the events of the closure are bracketed by it. *)
Lemma emits_locked_section auth content name :
  locking = true -> mutation_lock_name zone rid = Ok name ->
  Emits (advisory_lock name (_authorize_and_forward ctx method zone rid body content auth))
    (fun l r => match r with
      | Raise (LockUnavailable _) => l = []
      | _ => locked_outcome auth content l (Some <$> r)
      end).
Proof.
  intros Hlock Hname.
  assert (Hbr : forall l, bracketed l (EvLock name :: l ++ [EvUnlock name])) by (intros; right; eauto).
  assert (Hperf : forall l pre res, guarded_forward auth content l pre res ->
    performed auth content (EvLock name :: l ++ [EvUnlock name]) pre res).
  { intros l pre res Hg. exists l. by split. }
  apply (emits_advisory_lock _ _ _ _ (emits_authorize_and_forward auth content)).
  - done.
  - by left; constructor.
  - intros l [[d [up|]]|e].
    + intros (Ha & pre & Hd & Hg). split; [done|]. eauto.
    + intros (Ha & pre & Hd & Hl). split; [done|]. exists pre, l. by split_and!.
    + intros [He Hl].
      assert (Hout : locked_outcome auth content (EvLock name :: l ++ [EvUnlock name]) (Raise e)).
      { destruct Hl as [Hl|[pre Hg]]; [left; by apply quiet_bracket, read_only_quiet|right; eauto]. }
      by destruct e.
  - intros l [[d [up|]]|e]; simpl.
    + intros (Ha & pre & Hd & Hg). right; eauto.
    + intros (_ & pre & _ & Hl). left. by eapply quiet_bracket, read_only_quiet, looked_up_read_only.
    + intros [He [Hl|[pre Hg]]]; [left; by apply quiet_bracket, read_only_quiet|right; eauto].
Qed.

Lemma bracketed_quiet auth g l pre : looked_up auth g pre -> bracketed g l -> quiet l.
Proof.
  intros Hg%looked_up_read_only%read_only_quiet [[_ ->]|(_ & name & _ & ->)]; [done|by apply quiet_bracket].
Qed.

Lemma emits_locked_run auth content : Emits (locked_run auth content) (locked_outcome auth content).
Proof.
  unfold locked_run. destruct locking eqn:Hlock; simpl.
  - eapply emits_try with (P := fun l r => match r with
      | Raise (LockUnavailable _) => l = []
      | _ => locked_outcome auth content l r
      end).
    + eapply emits_bind; [apply (within_engine_connect no_event)| |].
      * intros l e [Hl _]. assert (l = []) as -> by by destruct Hl.
        assert (locked_outcome auth content [] (Raise e)) by by left; constructor. by destruct e.
      * intros [] l [Hl _]. assert (l = []) as -> by by destruct Hl.
        destruct (mutation_lock_name zone rid) as [name|e] eqn:En.
        -- change (lift (Ok name) ≫= _) with
             (Some <$> advisory_lock name (_authorize_and_forward ctx method zone rid body content auth)).
           eapply emits_fmap; [by apply emits_locked_section| |]; simpl.
           ++ by intros l []; simpl.
           ++ by intros a l Ha.
        -- apply emits_raise. apply (lock_name_raises _ _ _) in En as ->. by left; constructor.
    + by intros l a Ha.
    + intros l e He Hp. by destruct e.
    + intros l e He Hp. destruct e; try done. subst l. apply emits_ret. by split.
  - eapply emits_fmap; [apply emits_authorize_and_forward| |].
    + intros l e [He [Hl|[pre Hg]]]; [left; by apply read_only_quiet|]. right.
      exists pre, (Raise e), l. split; [done|]. by left.
    + intros [d [up|]] l; simpl.
      * intros (Ha & pre & Hd & Hg). split; [done|]. exists pre. split; [done|]. exists l. split; [done|]. by left.
      * intros (Ha & pre & Hd & Hl). split; [done|]. exists pre, l. split_and!; [done..|]. by left.
Qed.
(** Only a refused lock ends a locked run without an outcome. *)
Lemma locked_run_refused auth content w w' :
  locked_run auth content w = (Ok None, w') ->
  exists name t, mutation_lock_name zone rid = Ok name /\ w_tick w <= t /\ t < w_tick w' /\
    lock_granted t name = false.
Proof.
  unfold locked_run. destruct (negb locking).
  { unfold fmap, M_fmap. by destruct (_authorize_and_forward _ _ _ _ _ _ _ w) as [[]]. }
  unfold try_except, engine_connect, tick, raise, mbind, M_bind.
  destruct (db_down (w_tick w)); simpl; [done|]. unfold lift.
  destruct (mutation_lock_name zone rid) as [name|e] eqn:En; [|by rewrite (lock_name_raises _ _ _ En)].
  unfold fmap, M_fmap.
  destruct (advisory_lock name _ (set_tick S w)) as [[o|e] w1] eqn:El; [done|].
  destruct (is_LockUnavailable e) eqn:Ee; [|done]. intros [= <-].
  destruct (advisory_lock_refused _ _ _ _ _ El) as [(t & Ht & Hlt & Hno)|(w2 & w3 & Hb)]; [done| |].
  - exists name, t. simpl in Ht. split_and!; [done|lia|done|done].
  - exfalso. destruct (emits_authorize_and_forward auth content w2) as (l & _ & Hl). rewrite Hb in Hl.
    destruct Hl as [Hp _]. unfold plain_exn in Hp. rewrite Ee in Hp. by rewrite andb_false_r in Hp.
Qed.
End by_id.

(** ** The whole handlers *)

Section handlers.
Context `{Env}.

(** The three by-id mutations, with the body that is inspected and the bytes
    that are forwarded. *)
Inductive mutation_handler (rq : request) :
    pystr -> need -> json -> option (list N) ->
    (pystr -> pystr -> request -> ProxyAuthContext -> M response) -> Prop :=
| handle_patch body : rq_json rq = Some body ->
    mutation_handler rq (u "PATCH") Write body (Some (rq_body rq)) patch_dns_record
| handle_put body : rq_json rq = Some body ->
    mutation_handler rq (u "PUT") Write body (Some (rq_body rq)) put_dns_record
| handle_delete :
    mutation_handler rq (u "DELETE") Delete JNull None delete_dns_record.

Lemma mutation_handler_op rq method op body content h :
  mutation_handler rq method op body content h ->
  upper method ≠ u "POST" /\ op_of (upper method) = Some op.
Proof. by intros []. Qed.

(** A handler is the authentication, the closure under the lock, the answer. *)
Lemma mutation_handler_run rq method op body content h ctx zone rid w :
  mutation_handler rq method op body content h ->
  h zone rid rq ctx w =
    (auth ← resolve_upstream_auth (ctx_credential ctx);
     outcome ← locked_run ctx method zone rid body op auth content;
     match outcome with
     | None => mret lock_refused
     | Some outcome => mutation_response ctx method zone rid rq outcome
     end) w.
Proof.
  assert (Hex : forall m, upper m ∈ [u "PATCH"; u "PUT"; u "DELETE"] -> forall o,
    negb (lock_needed (ctx_rules ctx) (upper m) zone (JStr rid) o) =
    is_lock_exempt (ctx_rules ctx) zone (JStr rid) o).
  { intros m Hm o. unfold lock_needed. rewrite bool_decide_true; [apply negb_involutive|].
    repeat (apply elem_of_cons in Hm as [->|Hm]); [by eexists..|by apply elem_of_nil in Hm]. }
  intros [b Hb|b Hb|];
    unfold locked_run, locking; rewrite Hex by set_solver;
    unfold patch_dns_record, put_dns_record, delete_dns_record, request_json; rewrite ?Hb; done.
Qed.

(** What a mutation emits and answers. *)
Definition mutation_outcome ctx method zone rid body op content (l : list event)
    (r : result response) : Prop :=
  exists lr lp auth, l = lr ++ lp /\ Forall read_only_event lr /\
  match r with
  | Raise _ => quiet lp \/ exists pre res, performed ctx method zone rid body op auth content lp pre res
  | Ok resp =>
      quiet lp /\ (resp = lock_refused /\ locking ctx method zone rid op = true \/
                   resp = record_hidden \/
                   resp = scope_refused /\ exists pre, may (ctx_rules ctx) zone rid op pre)
      \/ exists pre up, performed ctx method zone rid body op auth content lp pre (Ok up) /\
           exists body_json, response_json up = Ok body_json /\
             resp = JSONResponse (hs_status up) body_json
  end.

Lemma emits_mutation rq method op body content h ctx zone rid :
  mutation_handler rq method op body content h ->
  Emits (h zone rid rq ctx) (mutation_outcome ctx method zone rid body op content).
Proof.
  intros Hh. eapply emits_ext; [intros w; by apply (mutation_handler_run _ _ _ _ _ _ _ _ _ _ Hh)|].
  destruct (mutation_handler_op _ _ _ _ _ _ Hh) as [Hpost Hop].
  eapply emits_bind; [apply within_resolve_upstream_auth| |].
  { intros l e [Hl _]. exists l, [], []. rewrite app_nil_r. split_and!; [done|done|by left; constructor]. }
  intros auth lr [Hlr _]. eapply emits_bind; [by apply emits_locked_run| |].
  { intros lp e Hout. by exists lr, lp, auth. }
  intros outcome lp Hout. apply emits_silent. intros w.
  destruct outcome as [[d up]|].
  - destruct (mutation_response_run ctx method zone rid rq (d, up) w) as (w' & -> & Htr).
    split; [done|]. exists lr, lp, auth. rewrite app_nil_r. split_and!; [done..|]. cbn [fst].
    destruct up as [up|].
    + destruct Hout as (Ha & pre & Hd & Hp). unfold mutation_answer. rewrite Ha. simpl.
      destruct (response_json up) as [b|e] eqn:Eb; simpl; [|right; eauto].
      destruct (image_get (pre_image d) (u "name")) as [n|] eqn:En; simpl; [|right; eauto].
      destruct (image_get (pre_image d) (u "type")) as [t|] eqn:Et; simpl; [|right; eauto].
      right. exists pre, up. split; [done|]. by exists b.
    + destruct Hout as (Ha & pre & g & Hd & Hg & Hb).
      destruct (decided_refused _ _ _ _ _ _ _ _ None Hd Ha) as (resp & -> & Hr). left.
      split; [by eapply bracketed_quiet|]. right.
      destruct Hr as [[_ ->]|(_ & Hm & _ & _ & _ & ->)]; [by left|right; eauto].
  - destruct Hout as [Hlock ->]. split; [done|]. exists lr, [], auth. rewrite !app_nil_r.
    split_and!; [done..|]. left. split; [constructor|by left].
Qed.
End handlers.

(** ** Reading and creating *)

Section reading.
Context `{Env}.

Lemma emits_get ctx zone rid rq :
  Emits (get_dns_record zone rid rq ctx) (fun l r =>
    Forall read_only_event l /\ forall resp, r = Ok resp ->
      resp = record_hidden \/
      exists lr base auth up pre,
        l = lr ++ [EvHttp (record_get base zone rid auth) (Ok up)] /\ fetched up pre /\
        present zone pre /\ may (ctx_rules ctx) zone rid Read pre /\ resp = cf_ok pre).
Proof.
  unfold get_dns_record. eapply emits_bind; [apply within_resolve_upstream_auth|by intros l e [? _]|].
  intros auth lr [Hlr _].
  eapply emits_bind; [apply (emits_authorize_by_id ctx (u "GET") zone rid JNull Read); done| |].
  { intros l e [Hl _]. by split; [apply Forall_app|]. }
  intros d l (base & up & pre & -> & Hf & Hd).
  assert (Hro : Forall read_only_event (lr ++ [EvHttp (record_get base zone rid auth) (Ok up)]))
    by (apply Forall_app; split; [done|constructor; [by left|done]]).
  destruct (allowed d) eqn:Ha; simpl.
  - apply emits_ret. split; [done|]. intros resp [= <-]. right.
    destruct Hd as [| | |Hp Hm _]; try done. exists lr, base, auth, up, pre. done.
  - pose proof (decided_refused ctx (u "GET") zone rid JNull Read pre d None Hd Ha) as Hans.
    assert (Hre : mutation_answer (d, None) = Ok record_hidden)
      by (destruct Hans as (resp & Hans & [[_ ->]|(_ & _ & Hren & _)]); [done|]; by vm_compute in Hren).
    clear Hans. revert Hre. unfold mutation_answer. rewrite Ha. simpl. intros Hre.
    apply result_bind_Ok in Hre as ([[st c] m] & Hu & (n & Hn & (t & Ht & Hre)%result_bind_Ok)%result_bind_Ok).
    rewrite Hu, Hn, Ht. apply emits_silent. intros w. unfold lift, mbind, M_bind.
    edestruct record_audit_run as (w' & -> & Hw'). split; [done|].
    split; [done|]. intros resp Hresp. left. cbn [fst mret M_ret] in Hresp. congruence.
Qed.

(** *** Creating *)

Definition create_request (base zone : pystr) (rq : request) (auth : headers) : http_request :=
  forwarded base (u "POST") (records_path zone) None None (Some (rq_body rq)) auth.

(** Some rule that is not pinned to record ids grants the submitted name and
    type. *)
Definition creatable (ctx : ProxyAuthContext) (zone : pystr) (body : json) : Prop :=
  exists name rtype nm r,
    py_get (py_or body (JObj [])) (u "name") = Ok name /\
    py_get (py_or body (JObj [])) (u "type") = Ok rtype /\
    normalized name = Ok nm /\ r ∈ ctx_rules ctx /\
    grants r zone nm rtype JNull Create /\ (record_ids r = None \/ record_ids r = Some []).

Lemma create_decision_run rules zone body w :
  exists r, authorize_dns_request rules (u "POST") zone None body _unused_fetch_record w = (r, w) /\
    forall d, r = Ok d ->
      d = Decision (allowed d) false (if allowed d then None else Some insufficient_scope) JNull /\
      exists name rtype, py_get (py_or body (JObj [])) (u "name") = Ok name /\
        py_get (py_or body (JObj [])) (u "type") = Ok rtype /\
        (allowed d = true -> authorised rules zone name rtype JNull Create).
Proof.
  unfold authorize_dns_request. rewrite bool_decide_true by done.
  unfold lift, mbind, M_bind.
  destruct (py_get _ (u "name")) as [n|]; [|by eexists].
  destruct (py_get _ (u "type")) as [t|]; [|by eexists].
  destruct (match_rules _ _ _ _ _ _) as [ok|] eqn:Ok_; [|by eexists].
  apply match_rules_authorised in Ok_.
  destruct ok; (eexists; split; [done|]; intros d [= <-]; split; [done|]; exists n, t; split_and!; try done).
  intros _. by apply Ok_.
Qed.

(** Nothing is created, or one creation that is authorised. *)
Definition create_outcome (ctx : ProxyAuthContext) (zone : pystr) (rq : request)
    (l : list event) (r : result response) : Prop :=
  Forall read_only_event l /\ (forall resp, r = Ok resp -> resp = scope_refused) \/
  exists lr base auth res body, l = lr ++ [EvHttp (create_request base zone rq auth) res] /\
    Forall read_only_event lr /\ rq_json rq = Some body /\ creatable ctx zone body /\
    forall resp, r = Ok resp -> exists up b, res = Ok up /\ response_json up = Ok b /\
      resp = JSONResponse (hs_status up) b.

(** The allowed branch of the handler. *)
Lemma emits_create_forward ctx zone rq body name rtype :
  rq_json rq = Some body -> creatable ctx zone body ->
  Emits (auth_headers ← resolve_upstream_auth (ctx_credential ctx);
    response ← forward_request (u "POST") (records_path zone) None None (Some (rq_body rq))
                 auth_headers;
    response_body ← lift (response_json response);
    _ ← _record_audit ctx (u "POST") (records_path zone) (u "allow") (Some zone) None name rtype
          JNull (result_of response_body) None (Some (hs_status response)) (_client_ip rq);
    mret (JSONResponse (hs_status response) response_body)) (create_outcome ctx zone rq).
Proof.
  intros Hb Hc. eapply emits_bind; [apply within_resolve_upstream_auth|by intros l e [Hl _]; left|].
  intros auth lr [Hlr _].
  eapply emits_bind; [apply (emits_forward _ _ _ _ _ _ (fun l r =>
    l = [] /\ (exists e, r = Raise e) \/
    exists base, l = [EvHttp (create_request base zone rq auth) r]))|..].
  - intros e _. left. by split; [|eexists].
  - intros base r _. right. by eexists.
  - intros base. right. by eexists.
  - intros l e [[-> _]|[base ->]]; [left; by rewrite app_nil_r|]. right.
    exists lr, base, auth, (Raise e), body. by split_and!.
  - intros up l [[_ [e [=]]]|[base ->]]. apply emits_silent. intros w. unfold lift, mbind, M_bind.
    destruct (response_json up) as [b|e] eqn:Ejs; cycle 1.
    { split; [done|]. right. exists lr, base, auth, (Ok up), body. by split_and!. }
    edestruct record_audit_run as (w' & -> & Hw'). split; [done|].
    right. exists lr, base, auth, (Ok up), body. split_and!; [done..|].
    intros resp [= <-]. by exists up, b.
Qed.

Lemma emits_create ctx zone rq : Emits (create_dns_record zone rq ctx) (create_outcome ctx zone rq).
Proof.
  unfold create_dns_record, request_json. destruct (rq_json rq) as [body|] eqn:Eb.
  2: { apply emits_silent. intros w. split; [done|]. left. by split. }
  eapply emits_bind with (P := fun l r => l = [] /\ r = Ok body); [by apply emits_lift|by intros ? ? [_ [=]]|].
  intros b l [-> [= ->]].
  assert (Hsilent : forall j k, Emits (lift (if is_dict j then py_get j k else Ok JNull))
    (fun l _ => l = [])) by (intros; by apply emits_lift).
  eapply emits_bind; [apply Hsilent|by intros l e ->; left|]. intros name l ->.
  eapply emits_bind; [apply Hsilent|by intros l e ->; left|]. intros rtype l ->.
  eapply emits_bind with (P := fun l r => l = [] /\ forall d, r = Ok d ->
      d = Decision (allowed d) false (if allowed d then None else Some insufficient_scope) JNull /\
      (allowed d = true -> creatable ctx zone body)).
  - apply emits_silent. intros w.
    destruct (create_decision_run (ctx_rules ctx) zone body w) as (r & -> & Hr).
    split_and!; [done|done|]. intros d Hd. destruct (Hr d Hd) as (Heq & n & t & Hn & Ht & Ha).
    split; [done|]. intros Hal. destruct (Ha Hal) as (nm & Hnm & r0 & Hin & Hg).
    exists n, t, nm, r0. split_and!; try done. by eapply grants_create_unpinned.
  - intros l e [-> _]. by left.
  - intros d l [-> Hd]. destruct (Hd d eq_refl) as [Heq Hc]. clear Hd.
    destruct (allowed d) eqn:Ha; simpl; [apply (emits_create_forward ctx zone rq body); auto|].
    rewrite Heq. unfold unpack_error, insufficient_scope. simpl. apply emits_silent. intros w.
    unfold lift, mbind, M_bind. edestruct record_audit_run as (w' & -> & Hw').
    split; [done|]. left. split; [constructor|]. by intros resp [= <-].
Qed.
End reading.

(** ** Listing *)

Section listing.
Context `{Env}.

Lemma within_forward_get path ch params auth :
  Within read_only_event any_exn (forward_request (u "GET") path ch params None auth).
Proof.
  assert (Hro : forall base res, read_only_event
    (EvHttp (forwarded base (u "GET") path ch params None auth) res)) by (intros; by left).
  apply emits_forward; intros; (split; [by (repeat constructor)|done]).
Qed.

Lemma within_fetch_all_zones fuel auth params zones page :
  Within read_only_event any_exn (fetch_all_zones_loop fuel auth params zones page).
Proof.
  revert zones page. induction fuel as [|fuel IH]; intros zones page; cbn [fetch_all_zones_loop];
    [by apply within_raise|].
  apply within_bind; [apply within_forward_get|]. intros r. solve_within.
Qed.

Lemma within_list_dns_records fuel zone rq ctx :
  Within read_only_event any_exn (list_dns_records fuel zone rq ctx).
Proof.
  unfold list_dns_records. apply within_bind; [by solve_within|]. intros [[page per_page] rest].
  case_match; [solve_within|].
  apply within_bind; [eapply within_mono; [apply within_resolve_upstream_auth|done..]|]. intros auth.
  apply within_bind; [|solve_within].
  eapply emits_mono; [apply emits_list_loop|]. by intros l r [Hl _].
Qed.

Lemma within_list_zones fuel rq ctx : Within read_only_event any_exn (list_zones fuel rq ctx).
Proof.
  unfold list_zones. apply within_bind; [by solve_within|]. intros [[page per_page] rest].
  apply within_bind; [eapply within_mono; [apply within_resolve_upstream_auth|done..]|]. intros auth.
  apply within_bind; [apply within_fetch_all_zones|solve_within].
Qed.

(** The page of a filtered list, as the envelope both listings answer. *)
Definition page_response (kept : list json) (page per_page : Z) : response :=
  let '(page_records, info) := paginate_and_result_info kept page per_page in
  make_cf_response (JArr page_records) 200 JNull (Some (result_info_json info)).

Definition in_zone_rules (ctx : ProxyAuthContext) (zone : pystr) : Prop :=
  exists r, r ∈ ctx_rules ctx /\ zone_id r = zone.

Lemma zone_rule_test ctx zone :
  existsb (fun r => bool_decide (zone_id r = zone)) (ctx_rules ctx) = true <-> in_zone_rules ctx zone.
Proof.
  rewrite existsb_exists. unfold in_zone_rules.
  split; intros (r & Hin & Hz); exists r; (split; [by apply list_elem_of_In|]);
    first [by apply bool_decide_eq_true_1 in Hz | by apply bool_decide_eq_true_2].
Qed.
End listing.

(** ** Properties *)

Section proxy_dns_properties.
Context `{Env}.

(** C2: no mutation escapes the scope: whatever a PATCH, PUT or DELETE handler
    does, and however it ends, it either sends nothing that could change a
    zone, or sends exactly one such request, for the record asked for; then
    the request directly follows the fetch of that record, the token may
    perform the operation on the record as it was fetched and, if the request
    renames or retypes it, on the record it becomes; and unless the operation
    is exempt the record's lock is acquired before the fetch and released
    after the request. *)
Theorem mutation_confined rq method op body content h ctx zone rid w r w' :
  mutation_handler rq method op body content h ->
  h zone rid rq ctx w = (r, w') ->
  exists lr lp, w_trace w' = w_trace w ++ lr ++ lp /\ Forall read_only_event lr /\
    (quiet lp \/
     exists auth pre res, performed ctx method zone rid body op auth content lp pre res).
Proof.
  intros Hh Hrun. destruct (emits_mutation rq method op body content h ctx zone rid Hh w)
    as (l & E & lr & lp & auth & -> & Hlr & Hout).
  rewrite Hrun in E, Hout. exists lr, lp. split_and!; [done|done|]. simpl in Hout.
  destruct r as [resp|e].
  - destruct Hout as [[? _]|(pre & up & ? & _)]; [by left|right; eauto].
  - destruct Hout as [?|(pre & res & ?)]; [by left|right; eauto].
Qed.

(** How a mutation whose lock was taken, or not needed, is answered, from what
    its fetch gave: the refusal of that record, or upstream's own answer to the
    one request that followed. *)
Definition served ctx method zone rid body op auth content (g : list event) (resp : response) : Prop :=
  (exists pre, looked_up zone rid auth g pre /\ refusal ctx method zone rid body op pre resp) \/
  (exists pre up body_json,
     guarded_forward ctx method zone rid body op auth content g pre (Ok up) /\
     response_json up = Ok body_json /\ resp = JSONResponse (hs_status up) body_json).

(** C21: each answer of a mutation is given exactly for its reason: 503 when the
    lock is needed and was refused during the call, before anything is fetched;
    otherwise, from the record the call itself fetched: 404 when it is missing,
    of another zone or not the token's to touch (one envelope for all), 403 when
    it is the token's to touch but not what it would be renamed to, both without
    any further request; and upstream's own answer to the forwarded request when
    every check passed. *)
Theorem mutation_answers rq method op body content h ctx zone rid w resp w' :
  mutation_handler rq method op body content h ->
  h zone rid rq ctx w = (Ok resp, w') ->
  exists lr lp auth, w_trace w' = w_trace w ++ lr ++ lp /\ Forall read_only_event lr /\
    (resp = lock_refused /\ lp = [] /\ locking ctx method zone rid op = true /\
       (exists name t, mutation_lock_name zone rid = Ok name /\
          w_tick w <= t /\ t < w_tick w' /\ lock_granted t name = false)
     \/ exists g, bracketed ctx method zone rid op g lp /\
          served ctx method zone rid body op auth content g resp).
Proof.
  intros Hh. rewrite (mutation_handler_run _ _ _ _ _ _ _ _ _ _ Hh).
  destruct (mutation_handler_op _ _ _ _ _ _ Hh) as [Hpost Hop].
  intros (auth & w1 & Hauth & (outcome & w2 & Hrun & Hans)%M_bind_Ok)%M_bind_Ok.
  destruct (within_resolve_upstream_auth (ctx_credential ctx) w) as (lr & Er & Hlr & _).
  pose proof (later_resolve_upstream_auth (ctx_credential ctx) w) as Hlater. rewrite Hauth in Er, Hlater.
  destruct (emits_locked_run ctx method zone rid body op Hpost Hop auth content w1) as (lp & Ep & Hlp).
  pose proof Hrun as Hrun'. rewrite Hrun in Ep, Hlp. simpl in Er, Ep, Hlp, Hlater.
  exists lr, lp, auth. destruct outcome as [[d up]|].
  - destruct (mutation_response_run ctx method zone rid rq (d, up) w2) as (w3 & E3 & Ht3).
    rewrite E3 in Hans. injection Hans as Hans <-. rewrite Ht3, Ep, Er, <- app_assoc.
    split_and!; [done..|right]. destruct up as [up|].
    + destruct Hlp as (Ha & pre & Hd & g & Hg & Hb). exists g. split; [done|]. right.
      unfold mutation_answer in Hans. rewrite Ha in Hans. simpl in Hans.
      apply result_bind_Ok in Hans as (b & Hb' & (n & _ & (t & _ & [= <-])%result_bind_Ok)%result_bind_Ok).
      by exists pre, up, b.
    + destruct Hlp as (Ha & pre & g & Hd & Hg & Hb). exists g. split; [done|]. left. exists pre.
      destruct (decided_refused _ _ _ _ _ _ _ _ None Hd Ha) as (resp' & E & Hr).
      split; [done|]. simpl in Hans, E; rewrite E in Hans. by injection Hans as <-.
  - apply ret_Ok in Hans as [-> ->]. destruct Hlp as [Hlock ->]. rewrite Ep, Er, <- app_assoc.
    split_and!; [done..|left]. split_and!; [done..|].
    destruct (locked_run_refused _ _ _ _ _ _ Hpost Hop _ _ _ _ Hrun') as (name & t & Hn & Hle & Hlt & Hno).
    exists name, t. split_and!; [done|unfold later in Hlater; lia|done|done].
Qed.

(** C18: a create leaves the proxy only when a rule that is not pinned to
    record ids grants the name and type of the parsed body; it is then the
    submitted bytes, sent once to the zone of the path, and upstream's answer
    is relayed; a refused create is a 403 and sends nothing to the zone. *)
Theorem create_confined ctx zone rq w r w' :
  create_dns_record zone rq ctx w = (r, w') ->
  exists l, w_trace w' = w_trace w ++ l /\ create_outcome ctx zone rq l r.
Proof.
  intros Hrun. destruct (emits_create ctx zone rq w) as (l & E & Hout).
  rewrite Hrun in E, Hout. by exists l.
Qed.

(** C19: a read by id reveals a record only when it is in the zone asked for
    and the token may read it; a missing record, a record of another zone and
    a record out of scope are answered by one and the same envelope, so the
    answer does not tell them apart. *)
Theorem get_reveals_only_readable ctx zone rid rq w resp w' :
  get_dns_record zone rid rq ctx w = (Ok resp, w') ->
  exists l, w_trace w' = w_trace w ++ l /\ Forall read_only_event l /\
    (resp = record_hidden \/
     exists lr base auth up pre,
       l = lr ++ [EvHttp (record_get base zone rid auth) (Ok up)] /\ fetched up pre /\
       present zone pre /\ may (ctx_rules ctx) zone rid Read pre /\ resp = cf_ok pre).
Proof.
  intros Hrun. destruct (emits_get ctx zone rid rq w) as (l & E & Hro & Hout).
  rewrite Hrun in E, Hout. exists l. split_and!; [done|done|]. by apply Hout.
Qed.

(** C20: the listing of a zone returns a page of exactly the records the token
    may read among all the pages upstream has, in upstream's order; a token
    without a rule for the zone gets an empty list and upstream is not even
    asked. *)
Theorem list_dns_records_scoped fuel zone rq ctx w resp w' :
  list_dns_records fuel zone rq ctx w = (Ok resp, w') ->
  exists page per_page rest kept l,
    _pop_pagination (rq_query rq) = Ok (page, per_page, rest) /\
    w_trace w' = w_trace w ++ l /\ Forall read_only_event l /\
    resp = page_response kept page per_page /\
    (~ in_zone_rules ctx zone -> l = [] /\ kept = []) /\
    (in_zone_rules ctx zone -> exists lr lp auth all,
       l = lr ++ lp /\ pages zone (Some rest) auth 1 lp all /\ kept `sublist_of` all /\
       forall record, record ∈ kept <-> record ∈ all /\ readable (ctx_rules ctx) zone record).
Proof.
  unfold list_dns_records.
  intros ([[page per_page] rest] & w1 & [Hpag ->]%lift_Ok & Hrun)%M_bind_Ok.
  exists page, per_page, rest. destruct (existsb _ _) eqn:Hz; simpl in Hrun.
  - apply zone_rule_test in Hz.
    apply M_bind_Ok in Hrun as (auth & w1 & Hauth & Hrun).
    apply M_bind_Ok in Hrun as (all & w2 & Hall & Hrun).
    apply M_bind_Ok in Hrun as (kept & w3 & [Hkept ->]%lift_Ok & [-> ->]%ret_Ok).
    destruct (within_resolve_upstream_auth (ctx_credential ctx) w) as (lr & E1 & Hlr & _).
    rewrite Hauth in E1. simpl in E1.
    destruct (emits_list_loop fuel zone (Some rest) auth [] 1 w1) as (lp & E2 & Hlp & Hout).
    unfold list_all_records in Hall. rewrite Hall in E2, Hout. simpl in E2, Hout.
    destruct (Hout all eq_refl) as (all' & -> & Hpages).
    apply filter_records_Ok in Hkept as [Hsub Hin].
    exists kept, (lr ++ lp). split_and!; try done.
    + by rewrite E2, E1, app_assoc.
    + by apply Forall_app.
    + intros _. by exists lr, lp, auth, all'.
  - apply ret_Ok in Hrun as [-> ->]. exists [], []. rewrite app_nil_r. split_and!; try done.
    + unfold page_response, paginate_and_result_info, py_slice. by rewrite drop_nil, take_nil.
    + intros Hz'%zone_rule_test. congruence.
Qed.

(** The listing of zones returns a page of the zones some rule of the
    token names, among those upstream lists, and only reads. *)
Theorem list_zones_scoped fuel rq ctx w resp w' :
  list_zones fuel rq ctx w = (Ok resp, w') ->
  exists page per_page rest kept l,
    _pop_pagination (rq_query rq) = Ok (page, per_page, rest) /\
    w_trace w' = w_trace w ++ l /\ Forall read_only_event l /\
    resp = page_response kept page per_page /\
    forall zone, zone ∈ kept ->
      exists id, py_get zone (u "id") = Ok (JStr id) /\ in_zone_rules ctx id.
Proof.
  unfold list_zones.
  intros ([[page per_page] rest] & w1 & [Hpag ->]%lift_Ok & Hrun)%M_bind_Ok.
  apply M_bind_Ok in Hrun as (auth & w1 & Hauth & Hrun).
  apply M_bind_Ok in Hrun as (all & w2 & Hall & Hrun).
  apply M_bind_Ok in Hrun as (kept & w3 & [Hkept ->]%lift_Ok & [-> ->]%ret_Ok).
  destruct (within_resolve_upstream_auth (ctx_credential ctx) w) as (lr & E1 & Hlr & _).
  destruct (within_fetch_all_zones fuel auth rest [] 1 w1) as (lp & E2 & Hlp & _).
  unfold _fetch_all_zones in Hall. rewrite Hauth in E1. rewrite Hall in E2. simpl in E1, E2.
  apply result_filter_Ok in Hkept as [_ Hin].
  exists page, per_page, rest, kept, (lr ++ lp). split_and!; try done.
  - by rewrite E2, E1, app_assoc.
  - by apply Forall_app.
  - intros zone [_ Hz]%Hin. apply result_bind_Ok in Hz as (id & Hid & Hmem).
    unfold in_str_set in Hmem.
    assert (Hs : in_strs id (zone_id <$> ctx_rules ctx) = true) by (destruct id; congruence).
    apply in_strs_Some in Hs as (s & -> & (r & -> & Hr)%list_elem_of_fmap).
    exists (zone_id r). split; [done|]. by exists r.
Qed.

(** The audit store never shows in an answer: what a mutation is answered
    is a function of the decision and of upstream's response alone, whatever
    the state of the database, and auditing an attempt always returns. *)
Theorem audit_failure_invisible ctx method zone rid rq outcome w :
  (mutation_response ctx method zone rid rq outcome w).1 = mutation_answer outcome /\
  forall m p dec z r n t pre post reason st ip,
    (_record_audit ctx m p dec z r n t pre post reason st ip w).1 = Ok tt.
Proof.
  split.
  - by destruct (mutation_response_run ctx method zone rid rq outcome w) as (w' & -> & _).
  - intros. by edestruct record_audit_run as (w' & -> & _).
Qed.
End proxy_dns_properties.
