(* ===== verification/Progress.v ===== *)
(** * What goes through

    The other half of the confinement theorems: when nothing stands in the way
    (the database answers, locks are granted, Cloudflare answers), what a token
    may do is done, and the client gets upstream's answer. *)

From S2P Require Import Prelude PyStr Json Scope Models World Envelopes Crypto Cache Locks.
From S2P Require Import Upstream AuditLogs ProxyAuth Authorizer ListFilter ProxyDns.

(** Nothing stands in the way. *)
Class Calm `{Env} : Prop := {
  calm_db : forall t, db_down t = false;
  calm_locks : forall t name, lock_granted t name = true;
  calm_origin : _assert_pinned_origin (upstream_base_url env_settings) = Ok tt;
}.

Section progress.
Context `{Calm}.

(** Whatever its state, upstream answers the request, from any pinned base. *)
Definition upstream_answers (rq : pystr -> http_request) (resp : http_response) : Prop :=
  forall base s, (cf_request (rq base) s).1 = Some resp.

Lemma get_cf_client_runs w : exists base w', get_cf_client w = (Ok base, w') .
Proof.
  unfold get_cf_client, gets, mbind, M_bind. destruct (w_client w) as [base|]; [by eexists _, _|].
  unfold lift. rewrite calm_origin. by eexists _, _.
Qed.

Lemma forward_runs method path ch params body auth resp w :
  upstream_answers (fun base => forwarded base method path ch params body auth) resp ->
  exists w', forward_request method path ch params body auth w = (Ok resp, w').
Proof.
  intros Hup. unfold forward_request. destruct (get_cf_client_runs w) as (base & w1 & E).
  rewrite (bind_step _ _ _ _ _ E). unfold http.
  specialize (Hup base (w_cf w1)). unfold forwarded in Hup.
  destruct (cf_request _ (w_cf w1)) as [o c]. simpl in Hup. rewrite Hup. by eexists.
Qed.

Lemma fetch_runs zone rid auth resp pre w :
  upstream_answers (fun base => record_get base zone rid auth) resp -> fetched resp pre ->
  exists w', _fetch_record auth zone (Some rid) w = (Ok pre, w').
Proof.
  intros Hup Hf. unfold _fetch_record, fetch_cf_record. simpl.
  destruct (forward_runs (u "GET") (record_path zone rid) None None None auth resp w Hup) as [w' E].
  rewrite (bind_step _ _ _ _ _ E). exists w'.
  destruct Hf as [[Hs ->]|(Hs & Hr & b & Hb & Hg)].
  - by rewrite Hs.
  - rewrite (proj2 (Z.eqb_neq _ _) Hs). unfold lift, mbind, M_bind. by rewrite Hr, Hb, Hg.
Qed.

Lemma lock_runs {A} name (body : M A) a w :
  (forall w1, exists w2, body w1 = (Ok a, w2)) ->
  exists w', advisory_lock name body w = (Ok a, w').
Proof.
  intros Hb. unfold advisory_lock, mbind, M_bind, tick, hold, modify, try_finally, unhold, raise.
  destruct env_dialect; rewrite ?calm_db, calm_locks; simpl;
    match goal with |- context [body ?w1] => destruct (Hb w1) as [w2 ->] end;
    rewrite ?calm_db; by eexists.
Qed.

Section mutation.
Variables (rq : request) (method zone rid : pystr) (op : need) (body : json)
  (sent : option (list N)) (ctx : ProxyAuthContext) (auth : headers).
Variables (resp up : http_response) (pre answer : json) (d : AuthDecision) (name : pystr).

Hypothesis not_post : upper method ≠ u "POST".
Hypothesis method_op : op_of (upper method) = Some op.
Hypothesis record_answered : upstream_answers (fun base => record_get base zone rid auth) resp.
Hypothesis record_fetched : fetched resp pre.
Hypothesis decision : decide_by_id (ctx_rules ctx) (upper method) zone rid op body pre = Ok d.
Hypothesis decision_allows : allowed d = true.
Hypothesis request_answered :
  upstream_answers (fun base => forwarded base method (record_path zone rid) None None sent auth) up.
Hypothesis named : mutation_lock_name zone rid = Ok name.

Lemma closure_runs w :
  exists w', _authorize_and_forward ctx method zone rid body sent auth w = (Ok (d, Some up), w').
Proof.
  unfold _authorize_and_forward, _authorize_by_id.
  destruct (fetch_runs zone rid auth resp pre w record_answered record_fetched) as [w1 Ef].
  erewrite bind_step; cycle 1.
  { rewrite (authorize_by_id_run _ _ _ _ op) by done.
    rewrite (bind_step _ _ _ _ _ Ef). unfold lift. by rewrite decision. }
  rewrite decision_allows. simpl.
  destruct (forward_runs method (record_path zone rid) None None sent auth up w1 request_answered)
    as [w2 Eu].
  rewrite (bind_step _ _ _ _ _ Eu). by eexists.
Qed.

Lemma locked_runs w :
  exists w', locked_run ctx method zone rid body op auth sent w = (Ok (Some (d, Some up)), w').
Proof.
  unfold locked_run. destruct (negb _).
  - unfold fmap, M_fmap. destruct (closure_runs w) as [w' ->]. by eexists.
  - unfold try_except, engine_connect, tick, mbind, M_bind. rewrite calm_db. simpl.
    unfold lift. rewrite named. unfold fmap, M_fmap.
    destruct (lock_runs name _ _ (set_tick S w) closure_runs) as [w' ->]. by eexists.
Qed.

Lemma allowed_answer :
  response_json up = Ok answer ->
  mutation_answer (d, Some up) = Ok (JSONResponse (hs_status up) answer).
Proof.
  intros Hj. pose proof (decide_by_id_spec _ _ _ _ _ _ _ _ decision) as Hd.
  assert (Hget : forall k, exists v, image_get (pre_image d) k = Ok v).
  { intros k. destruct Hd as [| | |[Hne (z & Hz & _)] _ _]; try done. simpl.
    destruct pre as [| | | | |o]; try done. unfold image_get. case_if; by eexists. }
  destruct (Hget (u "name")) as [n En], (Hget (u "type")) as [t Et].
  unfold mutation_answer. rewrite decision_allows, Hj. simpl. by rewrite En, Et.
Qed.
End mutation.

(** C16: an allowed mutation goes through: when the database answers, locks are
    granted and upstream answers, a PATCH, PUT or DELETE that the decision
    allows on the record as fetched is forwarded, and the client receives the
    status and the body upstream answers it with; the lock, the audit and the
    cache never turn it into anything else. *)
Theorem mutation_goes_through rq method op body sent h ctx zone rid auth w w1
    resp pre d up answer name :
  mutation_handler rq method op body sent h ->
  resolve_upstream_auth (ctx_credential ctx) w = (Ok auth, w1) ->
  mutation_lock_name zone rid = Ok name ->
  upstream_answers (fun base => record_get base zone rid auth) resp -> fetched resp pre ->
  decide_by_id (ctx_rules ctx) (upper method) zone rid op body pre = Ok d -> allowed d = true ->
  upstream_answers (fun base => forwarded base method (record_path zone rid) None None sent auth) up ->
  response_json up = Ok answer ->
  (h zone rid rq ctx w).1 = Ok (JSONResponse (hs_status up) answer).
Proof.
  intros Hh Hauth Hname Hrec Hfet Hd Ha Hup Hj.
  destruct (mutation_handler_op _ _ _ _ _ _ Hh) as [Hpost Hop].
  rewrite (mutation_handler_run _ _ _ _ _ _ _ _ _ _ Hh), (bind_step _ _ _ _ _ Hauth).
  destruct (locked_runs method zone rid op body sent ctx auth resp up pre d name
    Hpost Hop Hrec Hfet Hd Ha Hup Hname w1) as [w2 El].
  rewrite (bind_step _ _ _ _ _ El).
  destruct (mutation_response_run ctx method zone rid rq (d, Some up) w2) as (w3 & -> & _). simpl.
  eapply allowed_answer; eauto.
Qed.
End progress.
