(* ===== verification/App.v ===== *)
(** * The application ([main.py], [routers/proxy_verify.py],
    [routers/proxy_blocked.py])

    The routes in the order [create_app] registers them, the dependencies each
    handler runs behind, and the exception handlers that shape what escapes.
    Matching a path against the routes is Starlette's: the class [Router]. *)

From S2P Require Import Prelude PyStr Json Scope Models World Envelopes Crypto Cache Locks.
From S2P Require Import OAuthCf Upstream Security AuditLogs OAuthService ProxyAuth Credentials.
From S2P Require Import Tokens Schemas Management Authorizer ListFilter ProxyDns.

(** ** [routers/proxy_verify.py] *)

Definition verify_scoped_token (context : ProxyAuthContext) : response :=
  make_cf_response
    (JObj [(u "id", JStr (st_id (ctx_token context))); (u "status", JStr (u "active"))]) 200
    (JArr [JObj [(u "code", JNum TOKEN_VALID);
                 (u "message", JStr (u "This API Token is valid and active"))]]) None.

(** ** [routers/proxy_blocked.py] *)

Definition blocked_dns_records_batch (zone_id : pystr) : response :=
  make_cf_error 403 FORBIDDEN (u "Authorization error: insufficient scope").
Definition blocked_dns_records_import (zone_id : pystr) : response :=
  make_cf_error 403 FORBIDDEN (u "Authorization error: insufficient scope").
Definition blocked_dns_records_export (zone_id : pystr) : response :=
  make_cf_error 403 FORBIDDEN (u "Authorization error: insufficient scope").
Definition catch_all (path : pystr) : response := make_cf_error 404 ROUTE_NOT_FOUND (u "Not found.").

(** ** Exception handlers *)

Definition _PROXY_PATH_PREFIX : pystr := u "/client/v4".

Definition _is_proxy_path (path : pystr) : bool := startswith _PROXY_PATH_PREFIX path.

Definition _http_exception_to_cf_response (status : Z) (detail : http_detail) : response :=
  match detail with
  | DetailCf code message => make_cf_error status code message
  | DetailText message => make_cf_error status INTERNAL message
  end.

(** [str(exc.detail)]: the text, or the [repr] of the dict. *)
Definition str_detail `{Unicode} (detail : http_detail) : pystr :=
  match detail with
  | DetailText message => message
  | DetailCf code message =>
      u "{'code': " ++ str_of_Z code ++ u ", 'message': " ++ repr message ++ u "}"
  end.

Definition handle_http_exception `{Unicode} (path : pystr) (status : Z) (detail : http_detail)
    : response :=
  if _is_proxy_path path then _http_exception_to_cf_response status detail
  else make_response status (str_detail detail) JNull.

(** [errors] is what FastAPI reports of the request. *)
Definition handle_validation_error (path : pystr) (errors : json) : response :=
  if _is_proxy_path path then make_cf_error 400 INTERNAL (u "Invalid request")
  else make_response 422 (u "Validation error") errors.

Definition handle_generic_error (path : pystr) : response :=
  if _is_proxy_path path then make_cf_error 500 INTERNAL (u "Internal server error")
  else make_response 500 (u "Internal server error") JNull.

(** The most specific handler of an exception that escapes an endpoint. *)
Definition handle_exception `{Unicode} (path : pystr) (e : exn) : response :=
  match e with
  | HTTPException status detail => handle_http_exception path status detail
  | _ => handle_generic_error path
  end.

Section app.
Context `{Env, AuthLibs, OidcLibs, Presentation}.

(** An endpoint behind the exception handlers. *)
Definition serve (path : pystr) (endpoint : M response) : M response :=
  try_except endpoint is_Exception (fun e => mret (handle_exception path e)).

(** ** Probes *)

Definition check_database : M bool :=
  try_except (_ ← engine_connect; _ ← db_query (fun _ => tt); mret true) is_Exception
    (fun _ => mret false).

Definition redis_ping : M unit := redis_command (fun _ => mret tt).

Definition check_redis : M bool :=
  try_except (_ ← redis_ping; mret true) is_Exception (fun _ => mret false).

Definition healthz : response := JSONResponse 200 (JObj [(u "status", JStr (u "ok"))]).

Definition readyz : M response :=
  db_ok ← check_database;
  if negb db_ok then
    mret (JSONResponse 503 (JObj [(u "status", JStr (u "unavailable")); (u "db", JStr (u "down"))]))
  else
    redis_ok ← check_redis;
    if negb redis_ok then
      mret (JSONResponse 200 (JObj [(u "status", JStr (u "ok")); (u "redis", JStr (u "degraded"))]))
    else
      mret (JSONResponse 200 (JObj [(u "status", JStr (u "ok")); (u "redis", JStr (u "ok"))])).

(** [_lifespan] around what the process serves: startup fails on an origin that
    is not pinned. Building and closing the Redis client ([get_redis],
    [aclose], whose failure is logged) and [engine.dispose] change nothing that
    is modelled. *)
Definition _lifespan (serving : M unit) : M unit :=
  _ ← get_cf_client;
  try_finally serving close_cf_client.

(** ** The management endpoints, with what each needs of the request

    [auth] is what [HTTPBearer] finds in the [Authorization] header. *)
Inductive management_call :=
| PostRegister (body : RegisterRequest)
| PostLogin (body : LoginRequest)
| GetMe (auth : option pystr)
| GetCfCallback (code state : pystr)
| PostCredential (auth : option pystr) (body : UpstreamCredentialCreateRequest)
| GetCredentials (auth : option pystr)
| DeleteCredential (auth : option pystr) (id : pystr)
| PostCredentialVerify (auth : option pystr) (id : pystr)
| GetCredentialZones (fuel : nat) (auth : option pystr) (id : pystr)
| GetCredentialRecords (fuel : nat) (auth : option pystr) (id zone : pystr) (type name : option pystr)
| PostToken (auth : option pystr) (body : ScopedTokenCreateRequest)
| GetTokens (auth : option pystr)
| GetToken (auth : option pystr) (id : pystr)
| PostTokenRotate (auth : option pystr) (id : pystr)
| DeleteToken (auth : option pystr) (id : pystr)
| GetAuditLogs (auth : option pystr) (token_id zone_id : option pystr) (since : option datetime)
    (page per_page : Z).

Definition management_handler (c : management_call) : M response :=
  match c with
  | PostRegister body => register body
  | PostLogin body => login body
  | GetMe auth => x ← get_current_user auth; mret (read_me x)
  | GetCfCallback code state => cf_callback code state
  | PostCredential auth body => x ← get_current_user auth; create_credential body x
  | GetCredentials auth => x ← get_current_user auth; get_credentials x
  | DeleteCredential auth id => x ← get_current_user auth; remove_credential id x
  | PostCredentialVerify auth id => x ← get_current_user auth; post_verify id x
  | GetCredentialZones fuel auth id => x ← get_current_user auth; get_credential_zones fuel id x
  | GetCredentialRecords fuel auth id zone type name =>
      x ← get_current_user auth; list_zone_records fuel id zone type name x
  | PostToken auth body => x ← get_current_user auth; create_scoped_token body x
  | GetTokens auth => x ← get_current_user auth; get_scoped_tokens x
  | GetToken auth id => x ← get_current_user auth; get_scoped_token id x
  | PostTokenRotate auth id => x ← get_current_user auth; post_rotate id x
  | DeleteToken auth id => x ← get_current_user auth; delete_scoped_token id x
  | GetAuditLogs auth token_id zone_id since page per_page =>
      x ← get_current_user auth; get_audit_logs x token_id zone_id since page per_page
  end.

(** ** The proxied endpoints *)

Inductive proxy_call :=
| ProxyVerify
| ProxyZones (fuel : nat) (rq : request)
| ProxyRecords (fuel : nat) (zone : pystr) (rq : request)
| ProxyCreate (zone : pystr) (rq : request)
| ProxyGet (zone rid : pystr) (rq : request)
| ProxyPatch (zone rid : pystr) (rq : request)
| ProxyPut (zone rid : pystr) (rq : request)
| ProxyDelete (zone rid : pystr) (rq : request).

(** The path a call is made to. *)
Definition management_path (c : management_call) : pystr :=
  let credentials := u "/api/v1/upstream-credentials" in
  let tokens := u "/api/v1/scoped-tokens" in
  match c with
  | PostRegister _ => u "/api/v1/auth/register"
  | PostLogin _ => u "/api/v1/auth/login"
  | GetMe _ => u "/api/v1/auth/me"
  | GetCfCallback _ _ => u "/api/v1/auth/cf/callback"
  | PostCredential _ _ | GetCredentials _ => credentials
  | DeleteCredential _ id => credentials ++ u "/" ++ id
  | PostCredentialVerify _ id => credentials ++ u "/" ++ id ++ u "/verify"
  | GetCredentialZones _ _ id => credentials ++ u "/" ++ id ++ u "/zones"
  | GetCredentialRecords _ _ id zone _ _ =>
      credentials ++ u "/" ++ id ++ u "/zones/" ++ zone ++ u "/records"
  | PostToken _ _ | GetTokens _ => tokens
  | GetToken _ id | DeleteToken _ id => tokens ++ u "/" ++ id
  | PostTokenRotate _ id => tokens ++ u "/" ++ id ++ u "/rotate"
  | GetAuditLogs _ _ _ _ _ _ => u "/api/v1/audit-logs"
  end.

Definition proxy_path (c : proxy_call) : pystr :=
  match c with
  | ProxyVerify => u "/client/v4/user/tokens/verify"
  | ProxyZones _ _ => u "/client/v4/zones"
  | ProxyRecords _ zone _ | ProxyCreate zone _ => records_path zone
  | ProxyGet zone rid _ | ProxyPatch zone rid _ | ProxyPut zone rid _ | ProxyDelete zone rid _ =>
      record_path zone rid
  end.

Definition proxy_handler (c : proxy_call) (context : ProxyAuthContext) : M response :=
  match c with
  | ProxyVerify => mret (verify_scoped_token context)
  | ProxyZones fuel rq => list_zones fuel rq context
  | ProxyRecords fuel zone rq => list_dns_records fuel zone rq context
  | ProxyCreate zone rq => create_dns_record zone rq context
  | ProxyGet zone rid rq => get_dns_record zone rid rq context
  | ProxyPatch zone rid rq => patch_dns_record zone rid rq context
  | ProxyPut zone rid rq => put_dns_record zone rid rq context
  | ProxyDelete zone rid rq => delete_dns_record zone rid rq context
  end.

(** [authorization] is the header, empty when absent. *)
Definition proxied (authorization : pystr) (c : proxy_call) : M response :=
  context ← require_scoped_token authorization; proxy_handler c context.
End app.

(** ** Routes *)

Inductive endpoint :=
| E_register | E_login | E_read_me | E_cf_login | E_cf_callback
| E_create_credential | E_list_credentials | E_delete_credential | E_verify_credential
| E_credential_zones | E_credential_zone_records
| E_mint_scoped_token | E_list_scoped_tokens | E_get_scoped_token | E_rotate_scoped_token
| E_revoke_scoped_token | E_get_audit_logs
| E_verify_token
| E_list_zones | E_list_dns_records | E_create_dns_record | E_get_dns_record | E_patch_dns_record
| E_put_dns_record | E_delete_dns_record
| E_blocked_batch | E_blocked_import | E_blocked_export | E_catch_all
| E_healthz | E_readyz
| E_openapi | E_swagger_ui | E_swagger_ui_redirect | E_redoc.

#[export] Instance endpoint_eq_dec : EqDecision endpoint.
Proof. solve_decision. Defined.

Record route := Route { rt_methods : list pystr; rt_path : pystr; rt_endpoint : endpoint }.

Definition auth_router : list route := [
  Route [u "POST"] (u "/api/v1/auth/register") E_register;
  Route [u "POST"] (u "/api/v1/auth/login") E_login;
  Route [u "GET"] (u "/api/v1/auth/me") E_read_me;
  Route [u "GET"] (u "/api/v1/auth/cf/login") E_cf_login;
  Route [u "GET"] (u "/api/v1/auth/cf/callback") E_cf_callback].

Definition credentials_router : list route :=
  let prefix := u "/api/v1/upstream-credentials" in [
  Route [u "POST"] prefix E_create_credential;
  Route [u "GET"] prefix E_list_credentials;
  Route [u "DELETE"] (prefix ++ u "/{credential_id}") E_delete_credential;
  Route [u "POST"] (prefix ++ u "/{credential_id}/verify") E_verify_credential;
  Route [u "GET"] (prefix ++ u "/{credential_id}/zones") E_credential_zones;
  Route [u "GET"] (prefix ++ u "/{credential_id}/zones/{zone_id}/records") E_credential_zone_records].

Definition tokens_router : list route :=
  let prefix := u "/api/v1/scoped-tokens" in [
  Route [u "POST"] prefix E_mint_scoped_token;
  Route [u "GET"] prefix E_list_scoped_tokens;
  Route [u "GET"] (prefix ++ u "/{token_id}") E_get_scoped_token;
  Route [u "POST"] (prefix ++ u "/{token_id}/rotate") E_rotate_scoped_token;
  Route [u "DELETE"] (prefix ++ u "/{token_id}") E_revoke_scoped_token].

Definition audit_router : list route := [Route [u "GET"] (u "/api/v1/audit-logs") E_get_audit_logs].

Definition proxy_verify_router : list route :=
  [Route [u "GET"] (u "/client/v4/user/tokens/verify") E_verify_token].

Definition proxy_dns_router : list route :=
  let records := u "/client/v4/zones/{zone_id}/dns_records" in
  let by_id := records ++ u "/{record_id}" in [
  Route [u "GET"] (u "/client/v4/zones") E_list_zones;
  Route [u "GET"] records E_list_dns_records;
  Route [u "POST"] records E_create_dns_record;
  Route [u "GET"] by_id E_get_dns_record;
  Route [u "PATCH"] by_id E_patch_dns_record;
  Route [u "PUT"] by_id E_put_dns_record;
  Route [u "DELETE"] by_id E_delete_dns_record].

Definition _BULK_METHODS : list pystr := [u "GET"; u "POST"; u "PUT"; u "PATCH"; u "DELETE"].

Definition proxy_blocked_router : list route :=
  let records := u "/client/v4/zones/{zone_id}/dns_records" in [
  Route _BULK_METHODS (records ++ u "/batch") E_blocked_batch;
  Route _BULK_METHODS (records ++ u "/import") E_blocked_import;
  Route _BULK_METHODS (records ++ u "/export") E_blocked_export;
  Route _BULK_METHODS (u "/client/v4/{path:path}") E_catch_all].

(** What [FastAPI(title="cfproxy")] installs by itself, before any router: the
    OpenAPI document and the pages that show it. *)
Definition docs_router : list route :=
  let page := [u "GET"; u "HEAD"] in [
  Route page (u "/openapi.json") E_openapi;
  Route page (u "/docs") E_swagger_ui;
  Route page (u "/docs/oauth2-redirect") E_swagger_ui_redirect;
  Route page (u "/redoc") E_redoc].

Definition docs_endpoints : list endpoint := rt_endpoint <$> docs_router.

(** The routes in the order of [create_app]. *)
Definition create_app : list route :=
  docs_router ++ auth_router ++ credentials_router ++ tokens_router ++ audit_router ++ proxy_verify_router
  ++ proxy_dns_router ++ proxy_blocked_router
  ++ [Route [u "GET"] (u "/healthz") E_healthz; Route [u "GET"] (u "/readyz") E_readyz].

(** What Starlette answers [None] to is a 404, a 405 or a redirect to the path
    without its final slash. *)
Class Router := { dispatch : list route -> pystr -> pystr -> option endpoint }.

(** [.*$], which [{x:path}] compiles to: any text whose only newline, if it has
    one, ends it. *)
Definition dot_star (rest : pystr) : bool :=
  negb (has_char 10 (if bool_decide (last rest = Some 10%N) then take (length rest - 1) rest else rest)).

(** A template against a path, both cut at the slashes: [{x}] stands for one
    segment that is not empty, a final [{x:path}] for any rest of a line. As the
    compiled expression ends in [$], a literal that ends the template also
    matches with a newline behind it. *)
Fixpoint segments_match (template path : list pystr) : bool :=
  match template, path with
  | [], [] => true
  | t :: template', p :: path' =>
      if endswith (u ":path}") t
      then match template' with [] => dot_star (join 47 (p :: path')) | _ => false end
      else
        (if startswith (u "{") t then match p with [] => false | _ => true end
         else bool_decide (p = t)
              || match template', path' with [], [] => bool_decide (p = t ++ [10%N]) | _, _ => false end)
        && segments_match template' path'
  | _, _ => false
  end.

Definition full_match (method path : pystr) (r : route) : bool :=
  bool_decide (method ∈ rt_methods r) && segments_match (split 47 (rt_path r)) (split 47 path).

(** The first route in order that matches method and path. *)
Definition router_lawful `{Router} : Prop :=
  forall routes method path, dispatch routes method path =
    rt_endpoint <$> head (select_where (full_match method path) routes).

(** ** What escapes is always an answer *)

Section app_laws.
Context `{Env, AuthLibs, OidcLibs, Presentation, Pydantic}.

Definition management_envelope (r : response) : Prop :=
  exists message data, r = make_response (status_code r) message data.

(** The declared shape of a Cloudflare envelope, with errors unless it is a
    success. *)
Definition cf_envelope (r : response) : Prop :=
  exists e, CloudflareEnvelope_of (content r) = Some e /\ (cfe_success e = true <-> cfe_errors e = []).

(** An answer of upstream, status and body. *)
Definition relayed (l : list event) (r : response) : Prop :=
  exists rq up body, EvHttp rq (Ok up) ∈ l /\ response_json up = Ok body /\
    r = JSONResponse (hs_status up) body.

Lemma envelope_response status message data : management_envelope (make_response status message data).
Proof. by exists message, data. Qed.

Lemma envelope_error status code message : cf_envelope (make_cf_error status code message).
Proof. by eexists. Qed.

Lemma envelope_success result status info :
  cf_envelope (make_cf_response result status JNull (result_info_json <$> info)).
Proof. destruct info; by eexists. Qed.

Lemma envelope_page kept page per_page : cf_envelope (page_response kept page per_page).
Proof. unfold page_response. case_match. apply (envelope_success _ _ (Some _)). Qed.

Lemma envelope_verified context : cf_envelope (verify_scoped_token context).
Proof. by eexists. Qed.

Lemma handle_exception_proxy path e : _is_proxy_path path = true -> cf_envelope (handle_exception path e).
Proof.
  intros Hp. unfold handle_exception, handle_http_exception, handle_generic_error,
    _http_exception_to_cf_response. rewrite Hp. repeat case_match; apply envelope_error.
Qed.

Lemma handle_exception_management path e :
  _is_proxy_path path = false -> management_envelope (handle_exception path e).
Proof.
  intros Hp. unfold handle_exception, handle_http_exception, handle_generic_error.
  rewrite Hp. repeat case_match; apply envelope_response.
Qed.

(** Served, an endpoint answers or runs on. *)
Lemma serve_run path endpoint w :
  serve path endpoint w =
    match endpoint w with
    | (Raise e, w') => if is_Exception e then (Ok (handle_exception path e), w') else (Raise e, w')
    | r => r
    end.
Proof. unfold serve, try_except. by destruct (endpoint w) as [[]]. Qed.

Lemma serve_emits path endpoint (P : list event -> response -> Prop) :
  Emits endpoint (fun l r => forall resp, r = Ok resp -> P l resp) ->
  (forall l e, P l (handle_exception path e)) ->
  Emits (serve path endpoint) (fun l r => r = Raise OutOfFuel \/ exists resp, r = Ok resp /\ P l resp).
Proof.
  intros Hm He w. destruct (Hm w) as (l & E & HP). exists l. rewrite serve_run.
  destruct (endpoint w) as [[resp|e] w']; simpl in *; [by split; [|right; eauto]|].
  destruct (is_Exception e) eqn:Ee; simpl; (split; [done|]).
  - right. eauto.
  - left. by destruct e.
Qed.

(** A process configured with another origin serves nothing. *)
Lemma lifespan_fails_fast e serving w :
  w_client w = None -> _assert_pinned_origin (upstream_base_url env_settings) = Raise e ->
  _lifespan serving w = (Raise e, w).
Proof.
  intros Hc He. unfold _lifespan, get_cf_client, gets, lift, mbind, M_bind. by rewrite Hc, He.
Qed.

Hint Resolve envelope_response : returns.

(** A management handler only returns the management envelope. *)
Lemma returns_management c : Returns management_envelope (management_handler c).
Proof.
  destruct c; simpl; unfold register, login, bad_login, read_me, cf_callback, create_credential,
    get_credentials, remove_credential, post_verify, get_credential_zones, list_zone_records,
    create_scoped_token, get_scoped_tokens, get_scoped_token, post_rotate, delete_scoped_token,
    get_audit_logs, answer_404, answer_400; solve_returns.
Qed.

(** What a proxied endpoint answers, the events before it. *)
Definition proxy_answer (l : list event) (resp : response) : Prop :=
  cf_envelope resp \/ relayed l resp.

Lemma emits_returns {A} (m : M A) E X (P : A -> Prop) :
  Within E X m -> Returns P m -> Emits m (fun _ r => forall a, r = Ok a -> P a).
Proof.
  intros Hw Hr w. destruct (Hw w) as (l & El & _). exists l. split; [done|].
  destruct (m w) as [r w'] eqn:Em. simpl. intros a ->. by eapply Hr.
Qed.

Lemma performed_relayed ctx m zone rid body op auth sent lr lp pre up b :
  performed ctx m zone rid body op auth sent lp pre (Ok up) -> response_json up = Ok b ->
  relayed (lr ++ lp) (JSONResponse (hs_status up) b).
Proof.
  intros (g & (base & base' & resp & -> & _) & Hl) Hb.
  exists (forwarded base' m (record_path zone rid) None None sent auth), up, b.
  split_and!; [|done|done]. apply elem_of_app. right.
  destruct Hl as [[_ ->]|[_ (name & _ & ->)]]; set_solver.
Qed.

Lemma emits_proxy_mutation rq method op body sent h ctx zone rid :
  mutation_handler rq method op body sent h ->
  Emits (h zone rid rq ctx) (fun l r => forall resp, r = Ok resp -> proxy_answer l resp).
Proof.
  intros Hh. eapply emits_mono; [by apply emits_mutation|].
  intros l r (lr & lp & auth & -> & _ & Hout) resp ->.
  destruct Hout as [[_ [[-> _]|[->|[-> _]]]]|(pre & up & Hp & b & Hb & ->)];
    [left; apply envelope_error..|right; by eapply performed_relayed].
Qed.

Lemma emits_proxy_handler c ctx :
  Emits (proxy_handler c ctx) (fun l r => forall resp, r = Ok resp -> proxy_answer l resp).
Proof.
  destruct c as [|fuel rq|fuel zone rq|zone rq|zone rid rq|zone rid rq|zone rid rq|zone rid rq];
    cbn [proxy_handler].
  - apply emits_ret. intros resp [= <-]. left. apply envelope_verified.
  - eapply emits_mono; [eapply (emits_returns _ _ _ cf_envelope); [apply within_list_zones|]|].
    + unfold list_zones. solve_returns. apply (envelope_success _ _ (Some _)).
    + intros l r Hr resp E. left. by apply Hr.
  - eapply emits_mono; [eapply (emits_returns _ _ _ cf_envelope); [apply within_list_dns_records|]|].
    + unfold list_dns_records. solve_returns; apply (envelope_success _ _ (Some _)).
    + intros l r Hr resp E. left. by apply Hr.
  - eapply emits_mono; [apply emits_create|].
    intros l r [[_ Hr]|(lr & base & auth & res & body & -> & _ & _ & _ & Hr)] resp E.
    + rewrite (Hr resp E). left. apply envelope_error.
    + destruct (Hr resp E) as (up & b & -> & Hb & ->). right. eexists _, up, b. split; [|done].
      apply elem_of_app. right. by left.
  - eapply emits_mono; [apply emits_get|].
    intros l r [_ Hr] resp E. left.
    destruct (Hr resp E) as [->|(lr & base & auth & up & pre & _ & _ & _ & _ & ->)];
      [apply envelope_error|apply (envelope_success _ _ None)].
  - destruct (rq_json rq) as [body|] eqn:Eb.
    + eapply emits_proxy_mutation. by apply handle_patch.
    + unfold patch_dns_record, request_json. rewrite Eb. by apply emits_silent.
  - destruct (rq_json rq) as [body|] eqn:Eb.
    + eapply emits_proxy_mutation. by apply handle_put.
    + unfold put_dns_record, request_json. rewrite Eb. by apply emits_silent.
  - eapply emits_proxy_mutation. by apply handle_delete.
Qed.

Lemma within_require authorization : Within no_event any_exn (require_scoped_token authorization).
Proof.
  unfold require_scoped_token, resolve_scoped_token, expired, _load_rules, _get_cached_rules,
    _set_cached_rules. case_match. solve_within.
Qed.

Lemma emits_proxied authorization c :
  Emits (proxied authorization c) (fun l r => forall resp, r = Ok resp -> proxy_answer l resp).
Proof.
  unfold proxied. eapply emits_bind; [apply within_require|done|].
  intros ctx l [Hl _]. destruct l; [|by inversion Hl]. apply emits_proxy_handler.
Qed.
End app_laws.

(** ** Routing *)

Section routing.
Context `{Router}.

Definition under (records name : pystr) : pystr := records ++ u "/" ++ name.

(** The segments of the path of a bulk operation. *)
Lemma bulk_segments zone name :
  has_char 47 zone = false -> has_char 47 name = false ->
  split 47 (under (records_path zone) name) =
    [[]; u "client"; u "v4"; u "zones"; zone; u "dns_records"; name].
Proof.
  intros Hz Hn. unfold under, records_path.
  transitivity (split 47 (join 47 [[]; u "client"; u "v4"; u "zones"; zone; u "dns_records"; name])).
  { f_equal. unfold join. by rewrite <- !app_assoc. }
  assert (Hfree : forall s, has_char 47 s = false -> Forall (fun x => (47 =? x)%N = false) s).
  { intros s. unfold has_char. induction s as [|x s IH]; [by constructor|]. simpl.
    intros [? ?]%orb_false_iff. constructor; auto. }
  apply split_join; [done|]. repeat (constructor; [by (apply Hfree)|]). constructor.
Qed.

(** Endpoints of the proxy API. *)
Definition proxy_endpoints : list endpoint := [
  E_verify_token; E_list_zones; E_list_dns_records; E_create_dns_record; E_get_dns_record;
  E_patch_dns_record; E_put_dns_record; E_delete_dns_record; E_blocked_batch; E_blocked_import;
  E_blocked_export; E_catch_all].

Lemma proxy_segments rest :
  split 47 (u "/client/v4/" ++ rest) = [[]; u "client"; u "v4"] ++ split 47 rest.
Proof. apply (split_app 47 (u "/client/v4") rest). Qed.

Lemma dot_star_plain rest : has_char 10 rest = false -> dot_star rest = true.
Proof.
  intros Hr. unfold dot_star.
  assert (Ht : forall n, has_char 10 (take n rest) = false).
  { intros n. apply not_true_iff_false. intros (x & Hx & Ex)%existsb_exists.
    apply not_true_iff_false in Hr. apply Hr, existsb_exists. exists x. split; [|done].
    apply list_elem_of_In. apply list_elem_of_In in Hx. exact (subseteq_take n rest x Hx). }
  case_bool_decide; by rewrite ?Ht, ?Hr.
Qed.

Lemma catch_all_match method rest :
  method ∈ _BULK_METHODS -> has_char 10 rest = false ->
  full_match method (u "/client/v4/" ++ rest) (Route _BULK_METHODS (u "/client/v4/{path:path}") E_catch_all) = true.
Proof.
  intros Hm Hr. unfold full_match. rewrite proxy_segments. cbn [rt_methods rt_path].
  rewrite bool_decide_eq_true_2 by done. pose proof (join_split 47 rest) as Hj.
  pose proof (split_on_not_nil (N.eqb 47) rest) as Hne. unfold split in *.
  destruct (split_on (N.eqb 47) rest) as [|p ps]; [done|].
  transitivity (dot_star (join 47 (p :: ps))); [|rewrite Hj; by apply dot_star_plain].
  by lazy -[dot_star join].
Qed.

Lemma proxy_match method rest r :
  r ∈ create_app -> full_match method (u "/client/v4/" ++ rest) r = true -> rt_endpoint r ∈ proxy_endpoints.
Proof.
  intros Hr [_ Hm]%andb_true_iff. rewrite proxy_segments in Hm.
  revert Hm. generalize (split 47 rest). intros segs.
  repeat (apply elem_of_cons in Hr as [->|Hr]; [vm_compute; set_solver|]).
  by apply elem_of_nil in Hr.
Qed.

Lemma routed_methods :
  forallb (fun r => forallb (fun m => bool_decide (m ∈ _BULK_METHODS)
     || bool_decide (m = u "HEAD") && bool_decide (rt_endpoint r ∈ docs_endpoints)) (rt_methods r))
    create_app = true.
Proof. by vm_compute. Qed.
End routing.

(** ** Properties *)

Section app_properties.
Context `{Env, AuthLibs, OidcLibs, Presentation, Pydantic}.

(** The two API surfaces keep their shapes, whatever happens inside: a
    served management call is answered in the management envelope whose status
    is the HTTP status; a served proxy call is answered with a body that
    the declared Cloudflare envelope accepts, which holds errors just when it is
    no success, or with the status and body of an answer of upstream to a request
    it made; every exception becomes an answer, and a call that does not answer
    is in a paging loop. *)
Theorem surfaces_separate :
  (forall c w, (serve (management_path c) (management_handler c) w).1 = Raise OutOfFuel \/
     exists resp, (serve (management_path c) (management_handler c) w).1 = Ok resp /\
       management_envelope resp) /\
  (forall authorization c w, let run := serve (proxy_path c) (proxied authorization c) w in
     exists l, w_trace run.2 = w_trace w ++ l /\
       (run.1 = Raise OutOfFuel \/
        exists resp, run.1 = Ok resp /\ (cf_envelope resp \/ relayed l resp))).
Proof.
  split.
  - intros c w. rewrite serve_run. assert (Hp : _is_proxy_path (management_path c) = false).
    { apply bool_decide_eq_false_2. intros [k E]. by destruct c. }
    destruct (management_handler c w) as [[resp|e] w'] eqn:Em; simpl.
    + right. exists resp. split; [done|]. by eapply returns_management.
    + destruct (is_Exception e) eqn:He; simpl; [right|left; by destruct e].
      eexists. split; [done|]. by apply handle_exception_management.
  - intros authorization c w.
    assert (Hp : _is_proxy_path (proxy_path c) = true).
    { apply bool_decide_eq_true_2. destruct c; by eexists. }
    apply (serve_emits _ _ proxy_answer (emits_proxied authorization c)).
    intros l e. left. by apply handle_exception_proxy.
Qed.
End app_properties.

Section routing_properties.
Context `{Router}.

(** C26: the routing of the proxy API, by Starlette's rules: every path under it
    without a newline is served by one of its endpoints, never by the
    framework's default answer (a newline inside escapes the catch-all); the
    routes that block the bulk operations are reached by POST only, because a
    path such as [dns_records/export] is also a record path, and the by-id
    routes come first; and a method outside the five takes no route but, for
    HEAD, those of the framework's own documentation. *)
Theorem proxy_routing :
  router_lawful ->
  (forall method rest, method ∈ _BULK_METHODS -> has_char 10 rest = false -> exists e,
     dispatch create_app method (u "/client/v4/" ++ rest) = Some e /\ e ∈ proxy_endpoints) /\
  (forall method, dispatch create_app method (u "/client/v4/a" ++ 10%N :: u "b") = None) /\
  (forall zone, zone ≠ [] -> has_char 47 zone = false ->
   Forall (fun '(name, blocked) =>
     let to method := dispatch create_app method (under (records_path zone) name) in
     to (u "POST") = Some blocked /\ to (u "GET") = Some E_get_dns_record /\
     to (u "PATCH") = Some E_patch_dns_record /\ to (u "PUT") = Some E_put_dns_record /\
     to (u "DELETE") = Some E_delete_dns_record)
   [(u "batch", E_blocked_batch); (u "import", E_blocked_import); (u "export", E_blocked_export)]) /\
  (forall method path, method ∉ _BULK_METHODS ->
     dispatch create_app method path = None \/
     method = u "HEAD" /\ exists e, dispatch create_app method path = Some e /\ e ∈ docs_endpoints).
Proof.
  intros Hlaw. split_and!.
  - intros method rest Hm Hline. rewrite Hlaw.
    destruct (head (select_where _ create_app)) as [r|] eqn:Eh.
    + apply head_Some_elem_of, list_elem_of_filter in Eh as [Hf Hr].
      eexists. split; [done|]. by eapply proxy_match.
    + exfalso. apply head_None in Eh.
      assert (Hin : Route _BULK_METHODS (u "/client/v4/{path:path}") E_catch_all ∈
        select_where (full_match method (u "/client/v4/" ++ rest)) create_app).
      { apply list_elem_of_filter. split; [by apply catch_all_match|].
        by apply list_elem_of_lookup_2 with 32. }
      rewrite Eh in Hin. by apply elem_of_nil in Hin.
  - intros method. rewrite Hlaw. destruct (head _) as [r|] eqn:Eh; [exfalso|done].
    apply head_Some_elem_of, list_elem_of_filter in Eh as [[_ Hp]%andb_true_iff Hin].
    revert Hp. by repeat (apply elem_of_cons in Hin as [->|Hin]; [by vm_compute|]); apply elem_of_nil in Hin.
  - intros zone Hne Hz. destruct zone as [|c zone]; [done|].
    repeat constructor; rewrite Hlaw; unfold full_match; rewrite bulk_segments by done; by lazy.
  - intros method path Hm. rewrite Hlaw. destruct (head _) as [r|] eqn:Eh; [right|by left].
    apply head_Some_elem_of, list_elem_of_filter in Eh as [[Hr%bool_decide_eq_true_1 _]%andb_true_iff Hin].
    pose proof routed_methods as Hall. rewrite forallb_forall in Hall.
    specialize (Hall r (proj1 (list_elem_of_In _ _) Hin)). rewrite forallb_forall in Hall.
    specialize (Hall method (proj1 (list_elem_of_In _ _) Hr)). apply orb_true_iff in Hall as [Hb|Hd].
    + by apply bool_decide_eq_true_1 in Hb.
    + apply andb_true_iff in Hd as [Hh%bool_decide_eq_true_1 Hd%bool_decide_eq_true_1].
      split; [done|]. eexists. by split.
Qed.
End routing_properties.
