(* ===== verification/Server.v ===== *)
(** * A raw request, from the route to the answer

    What stands between the socket and the handlers: the route of [create_app]
    that is taken, the path and query parameters, the JSON body as the declared
    schema, the dependencies in the order FastAPI runs them, and the answer.
    Reading the [Authorization] header of the management API, the body and the
    path parameters is the framework's: the class [Framework]. The order of
    these steps is FastAPI's too: [main.py] only registers the handlers. *)

From S2P Require Import Prelude PyStr Json Scope Models World Envelopes Schemas Crypto Cache Locks.
From S2P Require Import OAuthCf Upstream Security AuditLogs OAuthService ProxyAuth Credentials.
From S2P Require Import Tokens Management Authorizer ListFilter ProxyDns App.

(** ** Requests and answers *)

Record incoming := Incoming {
  in_method : pystr;
  in_path : pystr;
  in_authorization : option pystr;
  in_request : request;
}.

(** A body FastAPI reads for a handler that declares one: not JSON, not even a
    text (or not readable for any other reason), not sent as JSON, or JSON. *)
Inductive payload := Malformed | Undecodable | Unread | Payload (j : json).

(** [http_bearer]: the credentials of [HTTPBearer(auto_error=False)];
    [path_params]: the parameters of a template in a path it matches;
    [error_report]: [exc.errors()] of a request that is not valid;
    [unmatched]: the answer when no route is taken; [framework_page]: that of
    the routes the framework installs by itself. *)
Class Framework := {
  http_bearer : option pystr -> option pystr;
  read_body : request -> payload;
  path_params : pystr -> pystr -> list (pystr * pystr);
  error_report : incoming -> json;
  unmatched : incoming -> response;
  framework_page : endpoint -> incoming -> response;
}.

Inductive answer := Answer (r : response) | Redirect (url : pystr).

(** The template of an endpoint. *)
Definition route_path (e : endpoint) : pystr :=
  match head (select_where (fun r => bool_decide (rt_endpoint r = e)) create_app) with
  | Some r => rt_path r
  | None => []
  end.

(** ** Parameters *)

Section parameters.
Context `{Pydantic, Framework}.

Definition path_param (e : endpoint) (k : pystr) (rq : incoming) : pystr :=
  default [] (dict_get k (path_params (route_path e) (in_path rq))).

(** A query parameter, required or with a default; its value is a text. *)
Definition query_value (k : pystr) (rq : incoming) : option pystr :=
  dict_get k (rq_query (in_request rq)).
Definition query_or {A} (rd : json -> option A) (a : A) (k : pystr) (rq : incoming) : option A :=
  match query_value k rq with Some s => rd (JStr s) | None => Some a end.
Definition at_least (n : Z) (o : option Z) : option Z :=
  x ← o; if (n <=? x)%Z then Some x else None.
Definition at_most (n : Z) (o : option Z) : option Z :=
  x ← o; if (x <=? n)%Z then Some x else None.

(** The query of [get_audit_logs]. *)
Record AuditQuery := Audit_query {
  aq_token_id : option pystr; aq_zone_id : option pystr; aq_since : option datetime;
  aq_page : Z; aq_per_page : Z }.

Definition AuditQuery_of (rq : incoming) : option AuditQuery :=
  since ← query_or (fun j => Some <$> lax_datetime j) None (u "since") rq;
  page ← at_least 1 (query_or as_int 1%Z (u "page") rq);
  per_page ← at_most 200 (at_least 1 (query_or as_int 50%Z (u "per_page") rq));
  Some (Audit_query (query_value (u "token_id") rq) (query_value (u "zone_id") rq) since page per_page).

Definition CallbackQuery_of (rq : incoming) : option (pystr * pystr) :=
  code ← query_value (u "code") rq; state ← query_value (u "state") rq; Some (code, state).
End parameters.

(** ** Endpoints *)

Section server.
Context `{Env, AuthLibs, OidcLibs, Presentation, Pydantic, Router, Framework}.

Definition invalid (rq : incoming) : response :=
  handle_validation_error (in_path rq) (error_report rq).

(** The user a management endpoint depends on. *)
Definition credentials_of (rq : incoming) : option pystr := http_bearer (in_authorization rq).

(** [request.headers.get("Authorization", "")]. *)
Definition authorization_header (rq : incoming) : pystr := default [] (in_authorization rq).

Definition zone_param (e : endpoint) (rq : incoming) : pystr := path_param e (u "zone_id") rq.
Definition record_param (e : endpoint) (rq : incoming) : pystr := path_param e (u "record_id") rq.

(** The call a proxied endpoint makes of a request. *)
Definition proxy_call_of (fuel : nat) (e : endpoint) (rq : incoming) : option proxy_call :=
  let zone := zone_param e rq in
  let record := record_param e rq in
  match e with
  | E_verify_token => Some ProxyVerify
  | E_list_zones => Some (ProxyZones fuel (in_request rq))
  | E_list_dns_records => Some (ProxyRecords fuel zone (in_request rq))
  | E_create_dns_record => Some (ProxyCreate zone (in_request rq))
  | E_get_dns_record => Some (ProxyGet zone record (in_request rq))
  | E_patch_dns_record => Some (ProxyPatch zone record (in_request rq))
  | E_put_dns_record => Some (ProxyPut zone record (in_request rq))
  | E_delete_dns_record => Some (ProxyDelete zone record (in_request rq))
  | _ => None
  end.

(** What answers without a dependency and without a parameter that counts. *)
Definition fixed_answer (e : endpoint) (rq : incoming) : option response :=
  match e with
  | E_blocked_batch => Some (blocked_dns_records_batch (zone_param e rq))
  | E_blocked_import => Some (blocked_dns_records_import (zone_param e rq))
  | E_blocked_export => Some (blocked_dns_records_export (zone_param e rq))
  | E_catch_all => Some (catch_all (path_param e (u "path") rq))
  | E_healthz => Some healthz
  | E_openapi | E_swagger_ui | E_swagger_ui_redirect | E_redoc => Some (framework_page e rq)
  | _ => None
  end.

(** The call a management endpoint makes of a request whose parameters and body
    are valid. *)
Definition body_of {A} (rd : json -> option A) (rq : incoming) : option A :=
  match read_body (in_request rq) with Payload j => rd j | _ => None end.

Definition management_call_of (fuel : nat) (e : endpoint) (rq : incoming) : option management_call :=
  let auth := credentials_of rq in
  let credential := path_param e (u "credential_id") rq in
  let token := path_param e (u "token_id") rq in
  match e with
  | E_register => PostRegister <$> body_of RegisterRequest_of rq
  | E_login => PostLogin <$> body_of LoginRequest_of rq
  | E_read_me => Some (GetMe auth)
  | E_cf_callback => (fun q => GetCfCallback q.1 q.2) <$> CallbackQuery_of rq
  | E_create_credential => PostCredential auth <$> body_of UpstreamCredentialCreateRequest_of rq
  | E_list_credentials => Some (GetCredentials auth)
  | E_delete_credential => Some (DeleteCredential auth credential)
  | E_verify_credential => Some (PostCredentialVerify auth credential)
  | E_credential_zones => Some (GetCredentialZones fuel auth credential)
  | E_credential_zone_records =>
      Some (GetCredentialRecords fuel auth credential (zone_param e rq) (query_value (u "type") rq)
              (query_value (u "name") rq))
  | E_mint_scoped_token => PostToken auth <$> body_of ScopedTokenCreateRequest_of rq
  | E_list_scoped_tokens => Some (GetTokens auth)
  | E_get_scoped_token => Some (GetToken auth token)
  | E_rotate_scoped_token => Some (PostTokenRotate auth token)
  | E_revoke_scoped_token => Some (DeleteToken auth token)
  | E_get_audit_logs =>
      (fun q => GetAuditLogs auth (aq_token_id q) (aq_zone_id q) (aq_since q) (aq_page q)
                  (aq_per_page q)) <$> AuditQuery_of rq
  | _ => None
  end.

Definition declares_body (e : endpoint) : bool :=
  bool_decide (e ∈ [E_register; E_login; E_create_credential; E_mint_scoped_token]).
Definition depends_on_user (e : endpoint) : bool :=
  negb (bool_decide (e ∈ [E_register; E_login; E_cf_callback])).

(** A body that is not JSON, or cannot be read, is refused at once; any other
    request that is not valid after the dependencies ran. *)
Definition malformed (e : endpoint) (rq : incoming) : bool :=
  declares_body e && match read_body (in_request rq) with Malformed => true | _ => false end.
Definition undecodable (e : endpoint) (rq : incoming) : bool :=
  declares_body e && match read_body (in_request rq) with Undecodable => true | _ => false end.

(** [HTTPException(400, "There was an error parsing the body")]. *)
Definition parsing_error : exn :=
  HTTPException 400 (DetailText (u "There was an error parsing the body")).

Definition management_endpoint (fuel : nat) (e : endpoint) (rq : incoming) : M response :=
  if malformed e rq then mret (invalid rq)
  else if undecodable e rq then raise parsing_error
  else
    match management_call_of fuel e rq with
    | Some c => management_handler c
    | None =>
        if depends_on_user e then _ ← get_current_user (credentials_of rq); mret (invalid rq)
        else mret (invalid rq)
    end.

(** The endpoint of a route. *)
Definition call_endpoint (fuel : nat) (e : endpoint) (rq : incoming) : M response :=
  match proxy_call_of fuel e rq, fixed_answer e rq with
  | Some c, _ => proxied (authorization_header rq) c
  | _, Some r => mret r
  | _, _ => if bool_decide (e = E_readyz) then readyz else management_endpoint fuel e rq
  end.

(** What the route answers; the login endpoint redirects. *)
Definition answer_route (fuel : nat) (route : option endpoint) (rq : incoming) : M answer :=
  match route with
  | None => mret (Answer (unmatched rq))
  | Some E_cf_login =>
      try_except (Redirect <$> cf_login) is_Exception
        (fun e => mret (Answer (handle_exception (in_path rq) e)))
  | Some e => Answer <$> serve (in_path rq) (call_endpoint fuel e rq)
  end.

(** A request, in a session of its own. *)
Definition receive (fuel : nat) (rq : incoming) : M answer :=
  _ ← open_session; answer_route fuel (dispatch create_app (in_method rq) (in_path rq)) rq.
End server.

(** ** The management API changes no zone *)

Section reads.
Context `{Env}.

Lemma within_try_any E {A} (m : M A) p h :
  Within E any_exn m -> (forall e, Within E any_exn (h e)) -> Within E any_exn (try_except m p h).
Proof. intros Hm Hh. by eapply within_try. Qed.

Ltac read_step := first
  [ within_step | apply within_try_any
  | match goal with |- Within read_only_event _ (http _) =>
      apply within_http; intros; first [by left|by right; split; [|eexists]] end ].
(** Reads only, whatever is raised. *)
Ltac solve_reads := repeat first [ solve [eauto with within nocore] | read_step ].

Lemma reads_forward_get path ch params auth :
  Within read_only_event any_exn (forward_request (u "GET") path ch params None auth).
Proof. apply within_forward_get. Qed.
Hint Resolve reads_forward_get : within.

Lemma reads_list_all fuel zone params auth :
  Within read_only_event any_exn (list_all_records fuel zone params auth).
Proof. eapply emits_mono; [apply emits_list_loop|]. by intros l r [Hl _]. Qed.
Hint Resolve reads_list_all : within.

Lemma reads_owned_credential user id : Within read_only_event any_exn (get_owned_credential user id).
Proof. unfold get_owned_credential. solve_reads. Qed.
Lemma reads_owned_token user id : Within read_only_event any_exn (_get_owned_scoped_token user id).
Proof. unfold _get_owned_scoped_token. solve_reads. Qed.
Hint Resolve reads_owned_credential reads_owned_token : within.

Lemma reads_credential_zones fuel user id :
  Within read_only_event any_exn (list_credential_zones fuel user id).
Proof.
  assert (Hloop : forall auth zones page,
    Within read_only_event any_exn (credential_zones_loop fuel auth zones page)).
  { intros auth. induction fuel as [|k IH]; intros zones page; cbn [credential_zones_loop]; solve_reads. }
  unfold list_credential_zones. solve_reads.
Qed.
Lemma reads_verify_credential user id : Within read_only_event any_exn (verify_credential user id).
Proof. unfold verify_credential, verify_upstream. solve_reads. Qed.
Lemma reads_register_credential user label type token key email :
  Within read_only_event any_exn (register_credential user label type token key email).
Proof. unfold register_credential. solve_reads. Qed.
Lemma reads_delete_credential user id : Within read_only_event any_exn (delete_credential user id).
Proof. unfold delete_credential, revoke_dependent. solve_reads. Qed.
Hint Resolve reads_credential_zones reads_verify_credential reads_register_credential
  reads_delete_credential : within.

Lemma reads_validate c cache auth rs : Within read_only_event any_exn (validate_rules_loop c cache auth rs).
Proof.
  revert cache auth. induction rs as [|r rs IH]; intros cache auth; simpl; [solve_reads|].
  unfold _resolve_zone_name. solve_reads.
Qed.
Hint Resolve reads_validate : within.
Lemma reads_generate : Within read_only_event any_exn generate_scoped_token.
Proof.
  assert (Hs : forall k, Within read_only_event any_exn (_generate_random_string k)).
  { induction k; simpl; unfold secrets_choice; solve_reads. }
  unfold generate_scoped_token. solve_reads.
Qed.
Hint Resolve reads_generate : within.
Lemma reads_mint user name credential rs expires :
  Within read_only_event any_exn (mint_scoped_token user name credential rs expires).
Proof. unfold mint_scoped_token, _validate_scope_rules, add_rule. solve_reads. Qed.
Lemma reads_rotate user id : Within read_only_event any_exn (rotate_scoped_token user id).
Proof. unfold rotate_scoped_token. solve_reads. Qed.
Lemma reads_revoke user id : Within read_only_event any_exn (revoke_scoped_token user id).
Proof. unfold revoke_scoped_token. solve_reads. Qed.
Hint Resolve reads_mint reads_rotate reads_revoke : within.

Context `{AuthLibs, OidcLibs, Presentation}.

Lemma reads_current_user auth : Within read_only_event any_exn (get_current_user auth).
Proof. unfold get_current_user, decode_jwt. solve_reads. Qed.
Lemma reads_create_jwt sub : Within read_only_event any_exn (create_jwt sub).
Proof. unfold create_jwt. solve_reads. Qed.
Lemma reads_hash_password pw : Within read_only_event any_exn (hash_password pw).
Proof. unfold hash_password. solve_reads. Qed.
Lemma reads_verify_password pw h : Within read_only_event any_exn (verify_password pw h).
Proof. unfold verify_password. solve_reads. Qed.
Hint Resolve reads_current_user reads_create_jwt reads_hash_password reads_verify_password : within.

Lemma reads_plain_get url hs : Within read_only_event any_exn (plain_get url hs).
Proof. unfold plain_get. solve_reads. Qed.
Hint Resolve reads_plain_get : within.
Lemma reads_validate_id_token token nonce access code :
  Within read_only_event any_exn (validate_id_token token nonce access code).
Proof.
  unfold validate_id_token, _resolve_signing_key, jwks_matches, fetch_jwks, clear_jwks_cache. solve_reads.
Qed.
Lemma reads_consume state : Within read_only_event any_exn (_consume_oauth_state state).
Proof. unfold _consume_oauth_state, redis_getdel, redis_command, swallow. solve_reads. Qed.
Hint Resolve reads_validate_id_token reads_consume : within.
Lemma reads_upsert_user sub email n : Within read_only_event any_exn (upsert_user sub email n).
Proof. unfold upsert_user. solve_reads. Qed.
Lemma reads_store_consent user tokens n : Within read_only_event any_exn (store_consent user tokens n).
Proof. unfold store_consent, encrypt_given. solve_reads. Qed.
Hint Resolve reads_upsert_user reads_store_consent : within.
Lemma reads_callback code state : Within read_only_event any_exn (handle_cf_oauth_callback code state).
Proof. unfold handle_cf_oauth_callback, exchange_code, post_token. solve_reads. Qed.
Lemma reads_cf_login : Within read_only_event any_exn cf_login.
Proof. unfold cf_login, start_cf_oauth_login, make_pkce, token_urlsafe. solve_reads. Qed.
Hint Resolve reads_callback : within.

Lemma reads_readyz : Within read_only_event any_exn readyz.
Proof. unfold readyz, check_database, check_redis, redis_ping, redis_command. solve_reads. Qed.
Hint Resolve reads_readyz : within.

Lemma reads_management c : Within read_only_event any_exn (management_handler c).
Proof.
  destruct c; simpl; unfold register, login, cf_callback, create_credential, get_credentials,
    list_credentials, remove_credential, post_verify, get_credential_zones, list_zone_records,
    list_credential_zone_records, create_scoped_token, get_scoped_tokens, list_scoped_tokens,
    get_scoped_token, get_scoped_token_detail, post_rotate, delete_scoped_token, get_audit_logs,
    list_audit_logs, answer_404, answer_400; solve_reads.
Qed.
Hint Resolve reads_management : within.

Context `{Pydantic, Router, Framework}.

Lemma reads_management_endpoint fuel e rq :
  Within read_only_event any_exn (management_endpoint fuel e rq).
Proof. unfold management_endpoint. solve_reads. Qed.
End reads.

(** ** What leaves the proxy *)

Section requests.
Context `{Env, AuthLibs, OidcLibs, Presentation, Pydantic, Router, Framework}.

(** The header presents this string. *)
Definition presents (rq : incoming) (full : pystr) : Prop :=
  exists scheme found, partition_at char_space (authorization_header rq) = (scheme, found, full) /\
    lower scheme = u "bearer" /\ full ≠ [].

(** The mutations of the by-id endpoints: method, operation, the body that is
    examined and the bytes that are sent. *)
Inductive mutates (rq : request) : endpoint -> pystr -> need -> json -> option (list N) -> Prop :=
| mutates_patch body : rq_json rq = Some body ->
    mutates rq E_patch_dns_record (u "PATCH") Write body (Some (rq_body rq))
| mutates_put body : rq_json rq = Some body ->
    mutates rq E_put_dns_record (u "PUT") Write body (Some (rq_body rq))
| mutates_delete : mutates rq E_delete_dns_record (u "DELETE") Delete JNull None.

(** The one request an endpoint may send for a token to change a zone, with the
    events it is bound to. *)
Inductive granted (ctx : ProxyAuthContext) (e : endpoint) (rq : incoming) : list event -> Prop :=
| granted_create base auth res body :
    e = E_create_dns_record -> rq_json (in_request rq) = Some body ->
    creatable ctx (zone_param e rq) body ->
    granted ctx e rq [EvHttp (create_request base (zone_param e rq) (in_request rq) auth) res]
| granted_mutation method op body content auth pre res l :
    mutates (in_request rq) e method op body content ->
    performed ctx method (zone_param e rq) (record_param e rq) body op auth content l pre res ->
    granted ctx e rq l.

(** Reads, then at most one granted request. *)
Definition permitted (ctx : ProxyAuthContext) (e : endpoint) (rq : incoming) (l : list event) : Prop :=
  quiet l \/ exists lr lp, l = lr ++ lp /\ Forall read_only_event lr /\ granted ctx e rq lp.

Lemma emits_permitted_mutation ctx e rq method op body content h :
  mutates (in_request rq) e method op body content ->
  mutation_handler (in_request rq) method op body content h ->
  Emits (h (zone_param e rq) (record_param e rq) (in_request rq) ctx) (fun l _ => permitted ctx e rq l).
Proof.
  intros Hm Hh. eapply emits_mono; [by apply emits_mutation|].
  intros l r (lr & lp & auth & -> & Hlr & Hout).
  assert (Hp : quiet lp \/ exists pre res, performed ctx method (zone_param e rq) (record_param e rq)
    body op auth content lp pre res) by (destruct r; naive_solver).
  destruct Hp as [Hq|(pre & res & Hp)].
  - left. apply Forall_app. split; [by apply read_only_quiet|done].
  - right. exists lr, lp. split_and!; [done..|]. by eapply granted_mutation.
Qed.

Lemma emits_reads {A} (m : M A) X (Q : list event -> result A -> Prop) :
  Within read_only_event X m -> (forall l r, quiet l -> Q l r) -> Emits m Q.
Proof. intros Hm HQ. eapply emits_mono; [exact Hm|]. intros l r [Hl _]. by apply HQ, read_only_quiet. Qed.

(** A proxied endpoint, once the token is resolved. *)
Lemma emits_permitted fuel e rq c ctx :
  proxy_call_of fuel e rq = Some c -> Emits (proxy_handler c ctx) (fun l _ => permitted ctx e rq l).
Proof.
  destruct e; intros [= <-]; cbn [proxy_handler].
  - apply emits_ret. left. constructor.
  - eapply emits_reads; [apply within_list_zones|by left].
  - eapply emits_reads; [apply within_list_dns_records|by left].
  - eapply emits_mono; [apply emits_create|].
    intros l r [[Hl _]|(lr & base & auth & res & body & -> & Hlr & Hb & Hc & _)];
      [left; by apply read_only_quiet|right].
    exists lr, [EvHttp (create_request base (zone_param E_create_dns_record rq) (in_request rq) auth) res].
    split_and!; [done..|]. by eapply granted_create.
  - eapply emits_mono; [apply emits_get|]. intros l r [Hl _]. left. by apply read_only_quiet.
  - destruct (rq_json (in_request rq)) as [body|] eqn:Eb.
    + apply (emits_permitted_mutation ctx E_patch_dns_record rq (u "PATCH") Write body
        (Some (rq_body (in_request rq))) patch_dns_record); by constructor.
    + unfold patch_dns_record, request_json. rewrite Eb. apply emits_silent. intros w.
      split; [done|]. left. constructor.
  - destruct (rq_json (in_request rq)) as [body|] eqn:Eb.
    + apply (emits_permitted_mutation ctx E_put_dns_record rq (u "PUT") Write body
        (Some (rq_body (in_request rq))) put_dns_record); by constructor.
    + unfold put_dns_record, request_json. rewrite Eb. apply emits_silent. intros w.
      split; [done|]. left. constructor.
  - apply (emits_permitted_mutation ctx E_delete_dns_record rq (u "DELETE") Delete JNull None
      delete_dns_record); constructor.
Qed.

(** A context comes from the string that is presented. *)
Lemma require_inv rq w ctx w' :
  require_scoped_token (authorization_header rq) w = (Ok ctx, w') ->
  exists full, presents rq full /\ resolve_scoped_token full w = (Ok (Some ctx), w').
Proof.
  unfold require_scoped_token, presents. destruct (partition_at _ _) as [[scheme found] full].
  destruct (bool_decide (lower scheme = u "bearer")) eqn:Es; [|done].
  destruct (bool_decide (full = [])) eqn:Ef; [done|]. cbn [negb orb].
  intros ([c|] & w1 & Hr & Hc)%M_bind_Ok; [|done]. apply ret_Ok in Hc as [-> ->].
  exists full. split; [|done]. exists scheme, found. split_and!; [done| |].
  - by apply bool_decide_eq_true_1 in Es.
  - by apply bool_decide_eq_false_1 in Ef.
Qed.

(** What the context of a request is made of. *)
Definition authenticated (rq : incoming) (w : world) (ctx : ProxyAuthContext) : Prop :=
  exists full, presents rq full /\ resolved full w ctx /\
    (lookup_unique (w_sess w) -> cache_coherent w ->
     ctx_rules ctx = rules_of (st_id (ctx_token ctx)) (w_sess w)).

Lemma require_authenticated rq w ctx w' :
  require_scoped_token (authorization_header rq) w = (Ok ctx, w') -> authenticated rq w ctx.
Proof.
  intros (full & Hf & Hr)%require_inv. exists full. split_and!; [done|by apply resolve_inv in Hr as [? _]|].
  intros Hu Hc. by apply (resolve_rules full w ctx w').
Qed.

(** A run that adds [l] to the trace with [Q l]. *)
Definition adds {A} (m : M A) (w : world) (Q : list event -> Prop) : Prop :=
  exists l, w_trace (m w).2 = w_trace w ++ l /\ Q l.

Lemma adds_reads {A} (m : M A) w (Q : list event -> Prop) :
  Within read_only_event any_exn m -> (forall l, quiet l -> Q l) -> adds m w Q.
Proof. intros Hm HQ. destruct (Hm w) as (l & E & Hl & _). exists l. split; [done|]. by apply HQ, read_only_quiet. Qed.

(** The run of a proxied endpoint. *)
Lemma proxied_adds fuel e rq c w :
  proxy_call_of fuel e rq = Some c ->
  adds (proxied (authorization_header rq) c) w (fun l =>
    quiet l \/ exists ctx, authenticated rq w ctx /\ permitted ctx e rq l).
Proof.
  intros Hc. unfold adds, proxied, mbind, M_bind.
  destruct (within_require (authorization_header rq) w) as (l0 & E0 & Hl0 & _).
  assert (l0 = []) as -> by by destruct Hl0. rewrite app_nil_r in E0.
  destruct (require_scoped_token _ w) as [[ctx|err] w1] eqn:Er; simpl in *.
  - destruct (emits_permitted fuel e rq c ctx Hc w1) as (l & E & Hl). exists l.
    split; [by rewrite E, E0|]. right. exists ctx. split; [by eapply require_authenticated|done].
  - exists []. rewrite app_nil_r. split; [done|]. left. constructor.
Qed.

Lemma serve_trace path (m : M response) w : w_trace (serve path m w).2 = w_trace (m w).2.
Proof. rewrite serve_run. destruct (m w) as [[r|e] w']; [done|]. by destruct (is_Exception e). Qed.

Lemma receive_run fuel rq w :
  receive fuel rq w = answer_route fuel (dispatch create_app (in_method rq) (in_path rq)) rq
    (set_sess (fun _ => w_db w) w).
Proof. done. Qed.

Lemma answer_route_other fuel e rq :
  e ≠ E_cf_login ->
  answer_route fuel (Some e) rq = (Answer <$> serve (in_path rq) (call_endpoint fuel e rq)).
Proof. by destruct e. Qed.

(** The login redirect reads nothing of a zone. *)
Lemma reads_redirect fuel rq : Within read_only_event any_exn (answer_route fuel (Some E_cf_login) rq).
Proof.
  apply within_try_any; [|intros; apply within_ret]. apply within_fmap, reads_cf_login.
Qed.

Lemma reads_other_surface fuel e rq :
  proxy_call_of fuel e rq = None -> Within read_only_event any_exn (call_endpoint fuel e rq).
Proof.
  intros Hc. unfold call_endpoint. rewrite Hc.
  destruct (fixed_answer e rq); [apply within_ret|].
  case_bool_decide; [apply reads_readyz|apply reads_management_endpoint].
Qed.

Lemma fmap_result {A B} (f : A -> B) (m : M A) w :
  ((f <$> m) w).1 = match (m w).1 with Ok a => Ok (f a) | Raise e => Raise e end.
Proof. unfold fmap, M_fmap. by destruct (m w) as [[a|e] w']. Qed.

Lemma fmap_trace {A B} (f : A -> B) (m : M A) w : w_trace ((f <$> m) w).2 = w_trace (m w).2.
Proof. unfold fmap, M_fmap. by destruct (m w) as [[a|e] w']. Qed.
End requests.

(** *** The surface a route is on *)

Section surfaces.
Context `{Router}.

(** A segment of a template that is not a parameter matches itself. *)
Definition literal (t : pystr) : bool := negb (endswith (u ":path}") t) && negb (startswith (u "{") t).

Lemma literal_segment t ts segs :
  literal t = true -> segments_match (t :: ts) segs = true ->
  exists s rest, segs = s :: rest /\ segments_match ts rest = true /\
    (s = t \/ ts = [] /\ rest = [] /\ s = t ++ [10%N]).
Proof.
  unfold literal. intros [He%negb_true_iff Hs%negb_true_iff]%andb_true_iff.
  destruct segs as [|s segs]; [done|]. cbn [segments_match]. rewrite He, Hs.
  intros [[->%bool_decide_eq_true_1|Hn]%orb_true_iff Hm]%andb_true_iff; [by exists t, segs; auto|].
  destruct ts, segs; try done. apply bool_decide_eq_true_1 in Hn as ->. exists (t ++ [10%N]), []. auto 10.
Qed.

Lemma proxy_path_segments path :
  _is_proxy_path path = true -> exists s rest, split 47 path = [] :: u "client" :: s :: rest.
Proof.
  intros [k ->]%bool_decide_eq_true_1. unfold _PROXY_PATH_PREFIX.
  pose proof (split_on_not_nil (N.eqb 47) (u "v4" ++ k)) as Hne.
  destruct (split 47 (u "v4" ++ k)) as [|s rest] eqn:E; [by destruct Hne|]. exists s, rest. rewrite <- E.
  transitivity (split 47 ([] ++ 47%N :: u "client" ++ 47%N :: u "v4" ++ k)); [done|].
  by rewrite !split_app.
Qed.

Lemma segments_proxy_path path rest :
  split 47 path = [] :: u "client" :: u "v4" :: rest -> _is_proxy_path path = true.
Proof.
  intros E. rewrite <- (join_split 47 path), E. apply bool_decide_eq_true_2.
  destruct rest as [|s rest]; by eexists.
Qed.

Lemma segments_proxy_path_newline path :
  split 47 path = [[]; u "client"; u "v4" ++ [10%N]] -> _is_proxy_path path = true.
Proof.
  intros E. rewrite <- (join_split 47 path), E. apply bool_decide_eq_true_2. by eexists.
Qed.

(** The first segments of a template. *)
Definition under_proxy (r : route) : bool :=
  match split 47 (rt_path r) with
  | [] :: c :: v :: _ => bool_decide (c = u "client") && bool_decide (v = u "v4")
  | _ => false
  end.
Definition elsewhere (r : route) : bool :=
  match split 47 (rt_path r) with
  | [] :: c :: _ => literal c && bool_decide (c ≠ u "client")
  | _ => false
  end.

Lemma create_app_surfaces :
  forallb (fun r => if bool_decide (rt_endpoint r ∈ proxy_endpoints) then under_proxy r else elsewhere r)
    create_app = true.
Proof. by vm_compute. Qed.

(** The endpoints of the proxy are those whose paths are under its prefix. *)
Lemma routed_surface method path e :
  router_lawful -> dispatch create_app method path = Some e ->
  _is_proxy_path path = bool_decide (e ∈ proxy_endpoints).
Proof.
  intros Hlaw. rewrite Hlaw. destruct (head _) as [r|] eqn:Eh; [|done]. intros [= <-].
  apply head_Some_elem_of, list_elem_of_filter in Eh as [[_ Hm]%andb_true_iff Hr].
  pose proof create_app_surfaces as Hs. rewrite forallb_forall in Hs.
  specialize (Hs r (proj1 (list_elem_of_In _ _) Hr)). simpl in Hs.
  destruct (bool_decide (rt_endpoint r ∈ proxy_endpoints)).
  - unfold under_proxy in Hs. destruct (split 47 (rt_path r)) as [|[] [|c [|v ts]]]; try done.
    apply andb_true_iff in Hs as [->%bool_decide_eq_true_1 ->%bool_decide_eq_true_1].
    apply literal_segment in Hm as (s1 & r1 & E & Hm & [->|[? _]]); [|done|by vm_compute].
    apply literal_segment in Hm as (s2 & r2 & -> & Hm & [->|[? _]]); [|done|by vm_compute].
    apply literal_segment in Hm as (s3 & r3 & -> & _ & Hs3); [|by vm_compute].
    destruct Hs3 as [->|(-> & -> & ->)]; [by eapply segments_proxy_path|].
    by eapply segments_proxy_path_newline.
  - unfold elsewhere in Hs. destruct (split 47 (rt_path r)) as [|[] [|c ts]]; try done.
    apply andb_true_iff in Hs as [Hc Hne%bool_decide_eq_true_1].
    apply not_true_iff_false. intros (s & rest & E)%proxy_path_segments. rewrite E in Hm.
    apply literal_segment in Hm as (s1 & r1 & [= <- <-] & Hm & _); [|done].
    by apply literal_segment in Hm as (s2 & r2 & [= <- <-] & _ & [?|(_ & ? & _)]).
Qed.
End surfaces.

(** *** The shape of an answer *)

Section shapes.
Context `{Env, AuthLibs, OidcLibs, Presentation, Pydantic, Router, Framework}.

Definition probe (r : response) : Prop :=
  exists status fields, content r = JObj ((u "status", JStr status) :: fields).

Definition management_answer (e : endpoint) (r : response) : Prop :=
  management_envelope r \/ (e = E_healthz \/ e = E_readyz) /\ probe r
  \/ e ∈ docs_endpoints /\ exists rq, r = framework_page e rq.

(** What a request may be answered, after the events [l]. *)
Definition shaped (rq : incoming) (l : list event) (a : answer) : Prop :=
  match dispatch create_app (in_method rq) (in_path rq) with
  | None => a = Answer (unmatched rq)
  | Some e =>
      if _is_proxy_path (in_path rq) then exists r, a = Answer r /\ (cf_envelope r \/ relayed l r)
      else e = E_cf_login /\ (exists url, a = Redirect url) \/
           exists r, a = Answer r /\ management_answer e r
  end.

Hint Resolve envelope_response : returns.

Lemma probe_status code status fields : probe (JSONResponse code (JObj ((u "status", JStr status) :: fields))).
Proof. by exists status, fields. Qed.

Lemma returns_readyz : Returns (management_answer E_readyz) readyz.
Proof.
  unfold readyz. solve_returns; right; left; (split; [by right|apply probe_status]).
Qed.

Lemma invalid_envelope rq :
  _is_proxy_path (in_path rq) = false -> management_envelope (invalid rq).
Proof. intros Hp. unfold invalid, handle_validation_error. rewrite Hp. apply envelope_response. Qed.

Lemma returns_management_endpoint fuel e rq :
  _is_proxy_path (in_path rq) = false -> Returns management_envelope (management_endpoint fuel e rq).
Proof.
  intros Hp. pose proof (invalid_envelope rq Hp). pose proof returns_management.
  unfold management_endpoint. solve_returns.
Qed.

Lemma fixed_proxy_answer e rq r :
  fixed_answer e rq = Some r -> e ∈ proxy_endpoints -> cf_envelope r.
Proof.
  intros Hf Hin. apply (bool_decide_eq_true_2 _) in Hin.
  unfold fixed_answer in Hf. destruct e; try discriminate Hf; try discriminate Hin;
    first [done | apply (inj Some) in Hf; rewrite <- Hf; apply envelope_error].
Qed.

(** An endpoint on the proxy's surface, and one of the other. *)
Lemma emits_proxy_surface fuel e rq :
  e ∈ proxy_endpoints ->
  Emits (call_endpoint fuel e rq) (fun l r => forall resp, r = Ok resp -> proxy_answer l resp).
Proof.
  intros Hin. unfold call_endpoint. destruct (proxy_call_of fuel e rq) as [c|] eqn:Ec;
    [apply emits_proxied|].
  destruct (fixed_answer e rq) as [r|] eqn:Ef.
  - apply emits_ret. intros resp [= <-]. left. by eapply fixed_proxy_answer.
  - exfalso. revert Ec Ef. by repeat (apply elem_of_cons in Hin as [->|Hin]; [done|]);
      apply elem_of_nil in Hin.
Qed.

Lemma returns_other_surface fuel e rq :
  _is_proxy_path (in_path rq) = false -> e ∉ proxy_endpoints -> e ≠ E_cf_login ->
  Returns (management_answer e) (call_endpoint fuel e rq).
Proof.
  intros Hp Hin He. unfold call_endpoint. destruct (proxy_call_of fuel e rq) as [c|] eqn:Ec.
  { destruct Hin. destruct e; try done; vm_compute; set_solver. }
  destruct (fixed_answer e rq) as [r|] eqn:Ef.
  - destruct e; try done; try (destruct Hin; vm_compute; set_solver).
    all: apply (inj Some) in Ef; rewrite <- Ef; apply returns_ret; right.
    1: left; split; [by left|apply probe_status].
    all: right; split; [vm_compute; set_solver|by eexists].
  - case_bool_decide as Hr; [subst e; apply returns_readyz|].
    intros w r w' Hw. left. by eapply (returns_management_endpoint fuel e).
Qed.

Lemma handle_exception_answer path e x :
  _is_proxy_path path = false -> management_answer e (handle_exception path x).
Proof. intros Hp. left. by apply handle_exception_management. Qed.
End shapes.

(** *** The user of a management request *)

Section users.
Context `{Env, AuthLibs, OidcLibs, Presentation, Pydantic, Router, Framework}.

(** Tables, cache and trace as they were. *)
Definition untouched : relation world := fun w w' =>
  w_db w' = w_db w /\ w_sess w' = w_sess w /\ w_redis w' = w_redis w /\ w_trace w' = w_trace w.

#[export] Instance untouched_preorder : PreOrder untouched.
Proof. split; [by intros w|]. intros w1 w2 w3 (?&?&?&?) (?&?&?&?). split_and!; congruence. Qed.

Lemma current_user_untouched credentials : Keeps untouched (get_current_user credentials).
Proof.
  assert (Ht : Keeps untouched tick) by by intros w.
  assert (Hq : forall A (f : database -> A), Keeps untouched (db_query f)).
  { intros A f w. unfold db_query, tick, gets, raise, mbind, M_bind. by destruct (db_down (w_tick w)). }
  unfold get_current_user, decode_jwt, now. solve_keeps.
Qed.

(** The endpoints behind [get_current_user]. *)
Definition user_endpoints : list endpoint := [
  E_read_me; E_create_credential; E_list_credentials; E_delete_credential; E_verify_credential;
  E_credential_zones; E_credential_zone_records; E_mint_scoped_token; E_list_scoped_tokens;
  E_get_scoped_token; E_rotate_scoped_token; E_revoke_scoped_token; E_get_audit_logs].

Lemma user_endpoint_run fuel e rq w x w1 :
  e ∈ user_endpoints -> get_current_user (credentials_of rq) w = (Raise x, w1) ->
  call_endpoint fuel e rq w = (Raise x, w1) \/
  malformed e rq = true /\ call_endpoint fuel e rq w = (Ok (invalid rq), w) \/
  undecodable e rq = true /\ call_endpoint fuel e rq w = (Raise parsing_error, w).
Proof.
  intros He Hx. destruct (malformed e rq) eqn:Em; [|destruct (undecodable e rq) eqn:Eu].
  - right. left. split; [done|]. unfold call_endpoint, management_endpoint. rewrite Em.
    by repeat (apply elem_of_cons in He as [->|He]; [done|]); apply elem_of_nil in He.
  - right. right. split; [done|]. unfold call_endpoint, management_endpoint. rewrite Em, Eu.
    by repeat (apply elem_of_cons in He as [->|He]; [done|]); apply elem_of_nil in He.
  - left. unfold call_endpoint, management_endpoint. rewrite Em, Eu. unfold management_call_of.
    repeat (apply elem_of_cons in He as [->|He]; [simpl|]); [..|by apply elem_of_nil in He];
      try destruct (body_of _ rq); try destruct (AuditQuery_of rq); simpl; by apply bind_raise.
Qed.
End users.

(** ** Properties *)

Section server_properties.
Context `{Env, AuthLibs, OidcLibs, Presentation, Pydantic, Router, Framework}.

(** C1: what the proxy is for, from the socket on: whatever request comes in, by
    whatever route and with whatever headers, query and body, either nothing is
    sent that could change a zone, or the request presents a string that
    resolves to an active token of the committed tables (with the rules those
    tables give it, as long as the cache agrees), the route taken is that of a
    create or of a by-id mutation, and after reads one single request is sent,
    for the zone and the record of the path, with the body that was examined,
    which a rule of the token grants. *)
Theorem only_authorised_writes fuel rq w :
  let w0 := set_sess (fun _ => w_db w) w in
  exists l, w_trace (receive fuel rq w).2 = w_trace w ++ l /\
    (quiet l \/ exists ctx e lr lp,
       authenticated rq w0 ctx /\ dispatch create_app (in_method rq) (in_path rq) = Some e /\
       l = lr ++ lp /\ Forall read_only_event lr /\ granted ctx e rq lp).
Proof.
  intros w0. rewrite receive_run. fold w0. change (w_trace w) with (w_trace w0).
  generalize w0. clear w w0. intros w.
  destruct (dispatch create_app _ _) as [e|]; [|exists []; rewrite app_nil_r; split; [done|left; constructor]].
  destruct (decide (e = E_cf_login)) as [->|He].
  { apply (adds_reads (answer_route fuel (Some E_cf_login) rq)); [apply reads_redirect|by left]. }
  rewrite answer_route_other, fmap_trace, serve_trace by done.
  assert (Hrun : adds (call_endpoint fuel e rq) w (fun l =>
    quiet l \/ exists ctx, authenticated rq w ctx /\ permitted ctx e rq l)).
  { destruct (proxy_call_of fuel e rq) as [c|] eqn:Ec.
    - unfold call_endpoint. rewrite Ec. by apply (proxied_adds fuel).
    - apply adds_reads; [by apply reads_other_surface|by left]. }
  destruct Hrun as (l & E & Hl). exists l. split; [done|].
  destruct Hl as [Hq|(ctx & Ha & [Hq|(lr & lp & -> & Hlr & Hg)])]; [by left..|right].
  exists ctx, e, lr, lp. by split_and!.
Qed.

(** C12: every request is answered, and in the shape of its surface: with
    Starlette's routing, a request that takes a route under [/client/v4] gets a
    Cloudflare envelope or what upstream answered, any other the management
    envelope with its own status (the probes, the login redirect and the pages
    the framework documents the API with apart), whatever is wrong with its
    token, its parameters or its body and whatever fails inside; only a request
    that takes no route is left to the framework, and only a paging loop
    upstream can keep a request from being answered. *)
Theorem requests_answered_in_shape fuel rq w :
  router_lawful ->
  exists l, w_trace (receive fuel rq w).2 = w_trace w ++ l /\
    ((receive fuel rq w).1 = Raise OutOfFuel \/
     exists a, (receive fuel rq w).1 = Ok a /\ shaped rq l a).
Proof.
  intros Hlaw. rewrite receive_run. change (w_trace w) with (w_trace (set_sess (fun _ => w_db w) w)).
  generalize (set_sess (fun _ => w_db w) w). clear w. intros w. unfold shaped.
  destruct (dispatch create_app _ _) as [e|] eqn:Ed; [|exists []; rewrite app_nil_r; eauto].
  pose proof (routed_surface _ _ _ Hlaw Ed) as Hsurf. rewrite Hsurf.
  destruct (decide (e = E_cf_login)) as [->|He].
  { rewrite bool_decide_eq_false_2 in * by (vm_compute; set_solver).
    destruct (reads_cf_login w) as (l & E & _). exists l.
    unfold answer_route, try_except, fmap, M_fmap. destruct (cf_login w) as [[url|x] w']; simpl in *.
    - split; [done|]. right. eexists. split; [done|]. left. eauto.
    - destruct (is_Exception x) eqn:Ex; simpl; (split; [done|]); [right|left; by destruct x].
      eexists. split; [done|]. right. eexists. split; [done|]. by apply handle_exception_answer. }
  rewrite answer_route_other, fmap_trace, fmap_result by done.
  case_bool_decide as Hin.
  - destruct (serve_emits (in_path rq) _ proxy_answer (emits_proxy_surface fuel e rq Hin)
      (fun l x => or_introl (handle_exception_proxy _ x Hsurf)) w) as (l & E & Hl).
    exists l. split; [done|]. destruct Hl as [->|(r & -> & Hr)]; [by left|right]. simpl. eauto.
  - assert (Hc : proxy_call_of fuel e rq = None) by (destruct e; try done; destruct Hin; vm_compute; set_solver).
    destruct (reads_other_surface fuel e rq Hc w) as (l & E & _).
    exists l. rewrite serve_trace. split; [done|]. rewrite serve_run.
    destruct (call_endpoint fuel e rq w) as [[r|x] w'] eqn:Er; simpl.
    + right. eexists. split; [done|]. right. exists r. split; [done|].
      by eapply returns_other_surface.
    + destruct (is_Exception x) eqn:Ex; simpl; [right|left; by destruct x].
      eexists. split; [done|]. right. eexists. split; [done|]. by apply handle_exception_answer.
Qed.

(** C13: the management API works for its users only: a request to any endpoint
    but the registration, the logins and the probes, whatever its parameters
    and its body, either comes with a token that stands for an active user of
    the committed tables, or leaves tables, cache and upstream alone and is
    answered with the refusal or, when its body is not even JSON, as invalid or
    unreadable. *)
Theorem management_needs_user fuel e rq w :
  dispatch create_app (in_method rq) (in_path rq) = Some e -> e ∈ user_endpoints ->
  let w0 := set_sess (fun _ => w_db w) w in
  (exists x, user_of_token w0 (credentials_of rq) x) \/
  untouched w0 (receive fuel rq w).2 /\
  (malformed e rq = true /\ (receive fuel rq w).1 = Ok (Answer (invalid rq)) \/
   undecodable e rq = true /\ (receive fuel rq w).1 = Ok (Answer (handle_exception (in_path rq) parsing_error)) \/
   exists x, (get_current_user (credentials_of rq) w0).1 = Raise x /\
     (receive fuel rq w).1 =
       if is_Exception x then Ok (Answer (handle_exception (in_path rq) x)) else Raise x).
Proof.
  intros Hd He w0. rewrite receive_run, Hd. fold w0. generalize w0. clear w w0. intros w.
  rewrite answer_route_other by (intros ->; by vm_compute in He; set_solver).
  pose proof (current_user_untouched (credentials_of rq) w) as Hu.
  destruct (get_current_user (credentials_of rq) w) as [[x|x] w1] eqn:Ex; simpl in *.
  - left. exists x. by apply current_user_inv in Ex as [? _].
  - right. rewrite fmap_result. unfold fmap, M_fmap. rewrite serve_run.
    destruct (user_endpoint_run fuel e rq w x w1 He Ex) as [E|[[Em E]|[Eu E]]]; rewrite E.
    + destruct (is_Exception x) eqn:Ei; simpl; (split; [done|]); right; right; exists x; by rewrite Ei.
    + simpl. split; [done|]. by left.
    + simpl. split; [done|]. right. by left.
Qed.
End server_properties.
