(* ===== verification/Documented.v ===== *)
(** * The documented API ([responses=...] of the routers, the examples of
    [schemas/management.py])

    Every route declares the responses it may give, each with an example, and
    every schema an example of its own: what FastAPI publishes as the OpenAPI
    description. Here they are data, and what the endpoints answer is compared
    with them. *)

From S2P Require Import Prelude PyStr Json Scope Models World Envelopes Schemas Crypto Cache Locks.
From S2P Require Import OAuthCf Upstream Security AuditLogs OAuthService ProxyAuth Credentials.
From S2P Require Import Tokens Management Authorizer ListFilter ProxyDns App Server.

Record example := Example_ { x_name : string; x_summary : string; x_value : json }.

Record documented := Documented { d_description : string; d_examples : list example }.

(** A status with the documentation of the responses that have it. *)
Record response_doc := Response_doc { rd_status : Z; rd_documented : documented }.

(** A field, and a string, of an example. *)
Definition fld (k : string) (v : json) : pystr * json := (u k, v).
Definition txt (s : string) : json := JStr (u s).

(** ** The responses of the routes *)

(** [routers/auth.py] *)

Definition register_responses : list response_doc := [
  Response_doc 201 (Documented "User registered" [
    Example_ "success" "Successful registration"
      (JObj [
         fld "status" (JNum 201);
         fld "message" (txt "User registered");
         fld "data" (JObj [
             fld "id" (txt "5b1e2f0a-9a3b-4a0e-9c1a-8f6d3c2b7a10");
             fld "email" (txt "operator@example.com");
             fld "auth_provider" (txt "local");
             fld "is_active" (JBool true);
             fld "created_at" (txt "2026-07-15T09:30:00+00:00")])])]);
  Response_doc 409 (Documented "Email already registered" [
    Example_ "conflict" "Duplicate email"
      (JObj [
         fld "status" (JNum 409);
         fld "message" (txt "Email already registered");
         fld "data" (JNull)])])].

Definition login_responses : list response_doc := [
  Response_doc 200 (Documented "Login successful" [
    Example_ "success" "Valid credentials"
      (JObj [
         fld "status" (JNum 200);
         fld "message" (txt "Login successful");
         fld "data" (JObj [
             fld "access_token" (txt "eyJhbGciOiJIUzI1NiIsInR5cCI6IkpXVCJ9...");
             fld "token_type" (txt "bearer")])])]);
  Response_doc 401 (Documented "Invalid email or password" [
    Example_ "invalid" "Bad credentials"
      (JObj [
         fld "status" (JNum 401);
         fld "message" (txt "Invalid email or password");
         fld "data" (JNull)])])].

Definition read_me_responses : list response_doc := [
  Response_doc 200 (Documented "Current user" [
    Example_ "success" "Authenticated user"
      (JObj [
         fld "status" (JNum 200);
         fld "message" (txt "Current user");
         fld "data" (JObj [
             fld "id" (txt "5b1e2f0a-9a3b-4a0e-9c1a-8f6d3c2b7a10");
             fld "email" (txt "operator@example.com");
             fld "auth_provider" (txt "local");
             fld "is_active" (JBool true);
             fld "created_at" (txt "2026-07-15T09:30:00+00:00")])])]);
  Response_doc 401 (Documented "Not authenticated" [
    Example_ "unauthenticated" "Missing or invalid bearer token"
      (JObj [fld "detail" (txt "Not authenticated")])])].

Definition cf_login_responses : list response_doc := [
  Response_doc 302 (Documented "Redirect to the Cloudflare OAuth authorize endpoint" [])].

Definition cf_callback_responses : list response_doc := [
  Response_doc 200 (Documented "Cloudflare login successful" [
    Example_ "success" "Valid OAuth callback"
      (JObj [
         fld "status" (JNum 200);
         fld "message" (txt "Cloudflare login successful");
         fld "data" (JObj [
             fld "access_token" (txt "eyJhbGciOiJIUzI1NiIsInR5cCI6IkpXVCJ9...");
             fld "token_type" (txt "bearer")])])]);
  Response_doc 400 (Documented "Invalid or expired OAuth state, or malformed token response" [
    Example_ "bad_state" "Expired or replayed state"
      (JObj [
         fld "status" (JNum 400);
         fld "message" (txt "invalid or expired oauth state");
         fld "data" (JNull)])])].

(** [routers/credentials.py] *)

Definition credentials_NOT_FOUND_EXAMPLE : documented :=
  Documented "Upstream credential not found" [
    Example_ "not_found" "Credential does not exist or is not owned by the caller"
      (JObj [
         fld "status" (JNum 404);
         fld "message" (txt "upstream credential not found");
         fld "data" (JNull)])].

Definition create_credential_responses : list response_doc := [
  Response_doc 201 (Documented "Upstream credential registered" [
    Example_ "success" "Registered a pasted API token"
      (JObj [
         fld "status" (JNum 201);
         fld "message" (txt "Upstream credential registered");
         fld "data" (JObj [
             fld "id" (txt "9d2c1b0a-3e4f-4a5b-8c6d-7e8f9a0b1c2d");
             fld "label" (txt "prod-dns-token");
             fld "cred_type" (txt "token");
             fld "cf_account_email" (JNull);
             fld "verify_status" (JNull);
             fld "verified_at" (JNull);
             fld "created_at" (txt "2026-07-15T09:30:00+00:00")])])]);
  Response_doc 400 (Documented "Invalid credential payload" [
    Example_ "invalid" "Missing required secret for the given cred_type"
      (JObj [
         fld "status" (JNum 400);
         fld "message" (txt "api_token is required for cred_type='token'");
         fld "data" (JNull)])])].

Definition list_credentials_responses : list response_doc := [
  Response_doc 200 (Documented "Upstream credentials listed" [
    Example_ "success" "One stored credential"
      (JObj [
         fld "status" (JNum 200);
         fld "message" (txt "Upstream credentials listed");
         fld "data" (JArr [
             JObj [
               fld "id" (txt "9d2c1b0a-3e4f-4a5b-8c6d-7e8f9a0b1c2d");
               fld "label" (txt "prod-dns-token");
               fld "cred_type" (txt "token");
               fld "cf_account_email" (txt "operator@example.com");
               fld "verify_status" (txt "active");
               fld "verified_at" (txt "2026-07-15T09:31:00+00:00");
               fld "created_at" (txt "2026-07-15T09:30:00+00:00")]])])])].

Definition delete_credential_responses : list response_doc := [
  Response_doc 200 (Documented "Upstream credential deleted" [
    Example_ "success" "Credential removed"
      (JObj [
         fld "status" (JNum 200);
         fld "message" (txt "Upstream credential deleted");
         fld "data" (JNull)])]);
  Response_doc 404 credentials_NOT_FOUND_EXAMPLE].

Definition verify_credential_responses : list response_doc := [
  Response_doc 200 (Documented "Upstream credential verified" [
    Example_ "success" "Credential is valid upstream"
      (JObj [
         fld "status" (JNum 200);
         fld "message" (txt "Upstream credential verified");
         fld "data" (JObj [
             fld "id" (txt "9d2c1b0a-3e4f-4a5b-8c6d-7e8f9a0b1c2d");
             fld "label" (txt "prod-dns-token");
             fld "cred_type" (txt "token");
             fld "cf_account_email" (txt "operator@example.com");
             fld "verify_status" (txt "active");
             fld "verified_at" (txt "2026-07-15T09:31:00+00:00");
             fld "created_at" (txt "2026-07-15T09:30:00+00:00")])])]);
  Response_doc 404 credentials_NOT_FOUND_EXAMPLE].

Definition credential_zones_responses : list response_doc := [
  Response_doc 200 (Documented "Zones listed" [
    Example_ "success" "One visible zone"
      (JObj [
         fld "status" (JNum 200);
         fld "message" (txt "Zones listed");
         fld "data" (JArr [
             JObj [
               fld "id" (txt "023e105f4ecef8ad9ca31a8372d0c353");
               fld "name" (txt "example.com");
               fld "status" (txt "active")]])])]);
  Response_doc 404 credentials_NOT_FOUND_EXAMPLE].

Definition list_zone_records_responses : list response_doc := [
  Response_doc 200 (Documented "DNS records listed" [
    Example_ "success" "One DNS record"
      (JObj [
         fld "status" (JNum 200);
         fld "message" (txt "DNS records listed");
         fld "data" (JArr [
             JObj [
               fld "id" (txt "rec1");
               fld "zone_id" (txt "023e105f4ecef8ad9ca31a8372d0c353");
               fld "type" (txt "A");
               fld "name" (txt "app.example.com");
               fld "content" (txt "203.0.113.10")]])])]);
  Response_doc 404 credentials_NOT_FOUND_EXAMPLE].

(** [routers/tokens.py] *)

Definition tokens_NOT_FOUND_EXAMPLE : documented :=
  Documented "Scoped token not found" [
    Example_ "not_found" "Token does not exist or is not owned by the caller"
      (JObj [
         fld "status" (JNum 404);
         fld "message" (txt "scoped token not found");
         fld "data" (JNull)])].

Definition mint_scoped_token_responses : list response_doc := [
  Response_doc 201 (Documented "Scoped token minted" [
    Example_ "success" "New record-scoped token minted"
      (JObj [
         fld "status" (JNum 201);
         fld "message" (txt "Scoped token minted");
         fld "data" (JObj [
             fld "id" (txt "1a2b3c4d-5e6f-4a5b-8c6d-7e8f9a0b1c2d");
             fld "name" (txt "staging-acme-dns");
             fld "token" (txt "cfsx_AbCdEf0123456789AbCd_1234567890abcdefghijklmnopqrstuvwxyzABCD");
             fld "token_prefix" (txt "cfsx_AbCdEf");
             fld "expires_at" (JNull);
             fld "created_at" (txt "2026-07-15T09:32:00+00:00")])])]);
  Response_doc 400 (Documented "Invalid scope rules" [
    Example_ "invalid" "A scope rule was missing name_pattern and record_ids"
      (JObj [
         fld "status" (JNum 400);
         fld "message" (txt "each scope rule requires a name_pattern or record_ids");
         fld "data" (JNull)])]);
  Response_doc 404 (Documented "Upstream credential not found" [
    Example_ "not_found" "upstream_credential_id is not owned by the caller"
      (JObj [
         fld "status" (JNum 404);
         fld "message" (txt "upstream credential not found");
         fld "data" (JNull)])])].

Definition list_scoped_tokens_responses : list response_doc := [
  Response_doc 200 (Documented "Scoped tokens listed" [
    Example_ "success" "One active scoped token"
      (JObj [
         fld "status" (JNum 200);
         fld "message" (txt "Scoped tokens listed");
         fld "data" (JArr [
             JObj [
               fld "id" (txt "1a2b3c4d-5e6f-4a5b-8c6d-7e8f9a0b1c2d");
               fld "name" (txt "staging-acme-dns");
               fld "token_prefix" (txt "cfsx_AbCdEf");
               fld "status" (txt "active");
               fld "version" (JNum 1);
               fld "expires_at" (JNull);
               fld "last_used_at" (JNull);
               fld "created_at" (txt "2026-07-15T09:32:00+00:00");
               fld "revoked_at" (JNull)]])])])].

Definition get_scoped_token_responses : list response_doc := [
  Response_doc 200 (Documented "Scoped token detail" [
    Example_ "success" "Token with its scope rules"
      (JObj [
         fld "status" (JNum 200);
         fld "message" (txt "Scoped token detail");
         fld "data" (JObj [
             fld "id" (txt "1a2b3c4d-5e6f-4a5b-8c6d-7e8f9a0b1c2d");
             fld "name" (txt "staging-acme-dns");
             fld "token_prefix" (txt "cfsx_AbCdEf");
             fld "status" (txt "active");
             fld "version" (JNum 1);
             fld "expires_at" (JNull);
             fld "last_used_at" (JNull);
             fld "created_at" (txt "2026-07-15T09:32:00+00:00");
             fld "revoked_at" (JNull);
             fld "rules" (JArr [
                 JObj [
                   fld "id" (txt "2b3c4d5e-6f70-4a5b-8c6d-7e8f9a0b1c2d");
                   fld "zone_id" (txt "023e105f4ecef8ad9ca31a8372d0c353");
                   fld "name_pattern" (txt "*.staging");
                   fld "name_match" (txt "wildcard");
                   fld "record_types" (JArr [txt "A"; txt "CNAME"]);
                   fld "record_ids" (JNull);
                   fld "allow_read" (JBool true);
                   fld "allow_create" (JBool true);
                   fld "allow_write" (JBool true);
                   fld "allow_delete" (JBool false);
                   fld "content_lock" (JNull);
                   fld "created_at" (txt "2026-07-15T09:32:00+00:00")]])])])]);
  Response_doc 404 tokens_NOT_FOUND_EXAMPLE].

Definition rotate_scoped_token_responses : list response_doc := [
  Response_doc 200 (Documented "Scoped token rotated" [
    Example_ "success" "New raw token issued, old secret invalidated"
      (JObj [
         fld "status" (JNum 200);
         fld "message" (txt "Scoped token rotated");
         fld "data" (JObj [
             fld "id" (txt "1a2b3c4d-5e6f-4a5b-8c6d-7e8f9a0b1c2d");
             fld "token" (txt "cfsx_ZzYyXxWwVvUuTtSsRrQq_abcdefghijklmnopqrstuvwxyzABCDEFGHIJKLMN");
             fld "token_prefix" (txt "cfsx_ZzYyXx");
             fld "version" (JNum 2)])])]);
  Response_doc 404 tokens_NOT_FOUND_EXAMPLE].

Definition revoke_scoped_token_responses : list response_doc := [
  Response_doc 200 (Documented "Scoped token revoked" [
    Example_ "success" "Token revoked"
      (JObj [
         fld "status" (JNum 200);
         fld "message" (txt "Scoped token revoked");
         fld "data" (JNull)])]);
  Response_doc 404 tokens_NOT_FOUND_EXAMPLE].

(** [routers/audit.py] *)

Definition get_audit_logs_responses : list response_doc := [
  Response_doc 200 (Documented "Audit logs listed" [
    Example_ "success" "One allowed request"
      (JObj [
         fld "status" (JNum 200);
         fld "message" (txt "Audit logs listed");
         fld "data" (JObj [
             fld "items" (JArr [
                 JObj [
                   fld "id" (txt "3c4d5e6f-7081-4a5b-8c6d-7e8f9a0b1c2d");
                   fld "ts" (txt "2026-07-15T10:05:00+00:00");
                   fld "scoped_token_id" (txt "1a2b3c4d-5e6f-4a5b-8c6d-7e8f9a0b1c2d");
                   fld "token_prefix" (txt "cfsx_AbCdEf");
                   fld "method" (txt "PATCH");
                   fld "path" (txt "/client/v4/zones/023e105f4ecef8ad9ca31a8372d0c353/dns_records/rec1");
                   fld "zone_id" (txt "023e105f4ecef8ad9ca31a8372d0c353");
                   fld "record_id" (txt "rec1");
                   fld "record_name" (txt "app.staging.example.com");
                   fld "record_type" (txt "A");
                   fld "decision" (txt "allow");
                   fld "deny_reason" (JNull);
                   fld "upstream_status" (JNum 200);
                   fld "client_ip" (txt "203.0.113.7");
                   fld "latency_ms" (JNum 42)]]);
             fld "result_info" (JObj [
                 fld "page" (JNum 1);
                 fld "per_page" (JNum 50);
                 fld "count" (JNum 1);
                 fld "total_count" (JNum 1)])])])])].

(** [routers/proxy_verify.py] *)

Definition verify_token_responses : list response_doc := [
  Response_doc 200 (Documented "The scoped token is active" [
    Example_ "active" "Token resolved and active"
      (JObj [
         fld "success" (JBool true);
         fld "errors" (JArr []);
         fld "messages" (JArr [
             JObj [
               fld "code" (JNum 10000);
               fld "message" (txt "This API Token is valid and active")]]);
         fld "result" (JObj [
             fld "id" (txt "1a2b3c4d-5e6f-4a5b-8c6d-7e8f9a0b1c2d");
             fld "status" (txt "active")])])]);
  Response_doc 401 (Documented "The presented token is missing, malformed, unknown, or inactive" [
    Example_ "invalid" "Invalid API Token"
      (JObj [
         fld "success" (JBool false);
         fld "errors" (JArr [JObj [fld "code" (JNum 1000); fld "message" (txt "Invalid API Token")]]);
         fld "messages" (JArr []);
         fld "result" (JNull)])])].

(** [routers/proxy_dns.py] *)

Definition list_zones_responses : list response_doc := [
  Response_doc 200 (Documented "Zones the scoped token has any rule for" [
    Example_ "success" "One in-scope zone"
      (JObj [
         fld "success" (JBool true);
         fld "errors" (JArr []);
         fld "messages" (JArr []);
         fld "result" (JArr [
             JObj [
               fld "id" (txt "zone1");
               fld "name" (txt "example.com");
               fld "status" (txt "active")]]);
         fld "result_info" (JObj [
             fld "page" (JNum 1);
             fld "per_page" (JNum 20);
             fld "count" (JNum 1);
             fld "total_count" (JNum 1);
             fld "total_pages" (JNum 1)])])])].

Definition list_dns_records_responses : list response_doc := [
  Response_doc 200 (Documented "Records the scoped token is authorized to read" [
    Example_ "success" "One authorized record"
      (JObj [
         fld "success" (JBool true);
         fld "errors" (JArr []);
         fld "messages" (JArr []);
         fld "result" (JArr [
             JObj [
               fld "id" (txt "rec1");
               fld "zone_id" (txt "zone1");
               fld "type" (txt "A");
               fld "name" (txt "home.example.com");
               fld "content" (txt "1.2.3.4")]]);
         fld "result_info" (JObj [
             fld "page" (JNum 1);
             fld "per_page" (JNum 20);
             fld "count" (JNum 1);
             fld "total_count" (JNum 1);
             fld "total_pages" (JNum 1)])])])].

Definition create_dns_record_responses : list response_doc := [
  Response_doc 200 (Documented "Record created and forwarded verbatim from Cloudflare" [
    Example_ "success" "Record created"
      (JObj [
         fld "success" (JBool true);
         fld "errors" (JArr []);
         fld "messages" (JArr []);
         fld "result" (JObj [
             fld "id" (txt "rec1");
             fld "zone_id" (txt "zone1");
             fld "type" (txt "A");
             fld "name" (txt "home.example.com");
             fld "content" (txt "1.2.3.4")])])]);
  Response_doc 403 (Documented "The scoped token's rules do not grant create for this name/type" [
    Example_ "forbidden" "Out of scope"
      (JObj [
         fld "success" (JBool false);
         fld "errors" (JArr [
             JObj [
               fld "code" (JNum 9109);
               fld "message" (txt "Authorization error: insufficient scope")]]);
         fld "messages" (JArr []);
         fld "result" (JNull)])])].

Definition get_dns_record_responses : list response_doc := [
  Response_doc 200 (Documented "The authorized record" [
    Example_ "success" "Record fetched"
      (JObj [
         fld "success" (JBool true);
         fld "errors" (JArr []);
         fld "messages" (JArr []);
         fld "result" (JObj [
             fld "id" (txt "rec1");
             fld "zone_id" (txt "zone1");
             fld "type" (txt "A");
             fld "name" (txt "home.example.com");
             fld "content" (txt "1.2.3.4")])])]);
  Response_doc 404 (Documented "Record missing, cross-zone, or not read-authorized" [
    Example_ "not_found" "Record does not exist"
      (JObj [
         fld "success" (JBool false);
         fld "errors" (JArr [
             JObj [fld "code" (JNum 81044); fld "message" (txt "Record does not exist.")]]);
         fld "messages" (JArr []);
         fld "result" (JNull)])])].

Definition patch_dns_record_responses : list response_doc := [
  Response_doc 200 (Documented "Record patched and forwarded verbatim from Cloudflare" [
    Example_ "success" "Record patched"
      (JObj [
         fld "success" (JBool true);
         fld "errors" (JArr []);
         fld "messages" (JArr []);
         fld "result" (JObj [
             fld "id" (txt "rec1");
             fld "zone_id" (txt "zone1");
             fld "type" (txt "A");
             fld "name" (txt "home.example.com");
             fld "content" (txt "5.6.7.8")])])]);
  Response_doc 403 (Documented "The rename/retype would escape the token's scope" [
    Example_ "forbidden" "Rename escape"
      (JObj [
         fld "success" (JBool false);
         fld "errors" (JArr [
             JObj [
               fld "code" (JNum 9109);
               fld "message" (txt "Authorization error: insufficient scope")]]);
         fld "messages" (JArr []);
         fld "result" (JNull)])]);
  Response_doc 404 (Documented "Record missing, cross-zone, or not write-authorized" [
    Example_ "not_found" "Record does not exist"
      (JObj [
         fld "success" (JBool false);
         fld "errors" (JArr [
             JObj [fld "code" (JNum 81044); fld "message" (txt "Record does not exist.")]]);
         fld "messages" (JArr []);
         fld "result" (JNull)])]);
  Response_doc 503 (Documented "The mutation lock could not be acquired" [
    Example_ "locked" "Fail-closed on lock timeout"
      (JObj [
         fld "success" (JBool false);
         fld "errors" (JArr [
             JObj [
               fld "code" (JNum 1000);
               fld "message" (txt "Could not acquire the record mutation lock, please retry.")]]);
         fld "messages" (JArr []);
         fld "result" (JNull)])])].

Definition put_dns_record_responses : list response_doc := [
  Response_doc 200 (Documented "Record replaced and forwarded verbatim from Cloudflare" [
    Example_ "success" "Record replaced"
      (JObj [
         fld "success" (JBool true);
         fld "errors" (JArr []);
         fld "messages" (JArr []);
         fld "result" (JObj [
             fld "id" (txt "rec1");
             fld "zone_id" (txt "zone1");
             fld "type" (txt "A");
             fld "name" (txt "home.example.com");
             fld "content" (txt "5.6.7.8")])])]);
  Response_doc 403 (Documented "The rename/retype would escape the token's scope" [
    Example_ "forbidden" "Rename escape"
      (JObj [
         fld "success" (JBool false);
         fld "errors" (JArr [
             JObj [
               fld "code" (JNum 9109);
               fld "message" (txt "Authorization error: insufficient scope")]]);
         fld "messages" (JArr []);
         fld "result" (JNull)])]);
  Response_doc 404 (Documented "Record missing, cross-zone, or not write-authorized" [
    Example_ "not_found" "Record does not exist"
      (JObj [
         fld "success" (JBool false);
         fld "errors" (JArr [
             JObj [fld "code" (JNum 81044); fld "message" (txt "Record does not exist.")]]);
         fld "messages" (JArr []);
         fld "result" (JNull)])]);
  Response_doc 503 (Documented "The mutation lock could not be acquired" [
    Example_ "locked" "Fail-closed on lock timeout"
      (JObj [
         fld "success" (JBool false);
         fld "errors" (JArr [
             JObj [
               fld "code" (JNum 1000);
               fld "message" (txt "Could not acquire the record mutation lock, please retry.")]]);
         fld "messages" (JArr []);
         fld "result" (JNull)])])].

Definition delete_dns_record_responses : list response_doc := [
  Response_doc 200 (Documented "Record deleted and forwarded verbatim from Cloudflare" [
    Example_ "success" "Record deleted"
      (JObj [
         fld "success" (JBool true);
         fld "errors" (JArr []);
         fld "messages" (JArr []);
         fld "result" (JObj [fld "id" (txt "rec1")])])]);
  Response_doc 404 (Documented "Record missing, cross-zone, or not delete-authorized" [
    Example_ "not_found" "Record does not exist"
      (JObj [
         fld "success" (JBool false);
         fld "errors" (JArr [
             JObj [fld "code" (JNum 81044); fld "message" (txt "Record does not exist.")]]);
         fld "messages" (JArr []);
         fld "result" (JNull)])]);
  Response_doc 503 (Documented "The mutation lock could not be acquired" [
    Example_ "locked" "Fail-closed on lock timeout"
      (JObj [
         fld "success" (JBool false);
         fld "errors" (JArr [
             JObj [
               fld "code" (JNum 1000);
               fld "message" (txt "Could not acquire the record mutation lock, please retry.")]]);
         fld "messages" (JArr []);
         fld "result" (JNull)])])].

(** [routers/proxy_blocked.py] *)

Definition blocked_dns_records_batch_responses : list response_doc := [
  Response_doc 403 (Documented "Batch operations are not supported by the scoped proxy" [
    Example_ "forbidden" "Batch mutation blocked"
      (JObj [
         fld "success" (JBool false);
         fld "errors" (JArr [
             JObj [
               fld "code" (JNum 9109);
               fld "message" (txt "Authorization error: insufficient scope")]]);
         fld "messages" (JArr []);
         fld "result" (JNull)])])].

Definition blocked_dns_records_import_responses : list response_doc := [
  Response_doc 403 (Documented "Import operations are not supported by the scoped proxy" [
    Example_ "forbidden" "Import mutation blocked"
      (JObj [
         fld "success" (JBool false);
         fld "errors" (JArr [
             JObj [
               fld "code" (JNum 9109);
               fld "message" (txt "Authorization error: insufficient scope")]]);
         fld "messages" (JArr []);
         fld "result" (JNull)])])].

Definition blocked_dns_records_export_responses : list response_doc := [
  Response_doc 403 (Documented "Export operations are not supported by the scoped proxy" [
    Example_ "forbidden" "Export blocked"
      (JObj [
         fld "success" (JBool false);
         fld "errors" (JArr [
             JObj [
               fld "code" (JNum 9109);
               fld "message" (txt "Authorization error: insufficient scope")]]);
         fld "messages" (JArr []);
         fld "result" (JNull)])])].

Definition catch_all_responses : list response_doc := [
  Response_doc 404 (Documented "No proxy endpoint matches this path" [
    Example_ "not_found" "Unknown route"
      (JObj [
         fld "success" (JBool false);
         fld "errors" (JArr [JObj [fld "code" (JNum 7003); fld "message" (txt "Not found.")]]);
         fld "messages" (JArr []);
         fld "result" (JNull)])])].

(** The probes of [main.py] document nothing. *)
Definition documented_responses (e : endpoint) : list response_doc :=
  match e with
  | E_register => register_responses
  | E_login => login_responses
  | E_read_me => read_me_responses
  | E_cf_login => cf_login_responses
  | E_cf_callback => cf_callback_responses
  | E_create_credential => create_credential_responses
  | E_list_credentials => list_credentials_responses
  | E_delete_credential => delete_credential_responses
  | E_verify_credential => verify_credential_responses
  | E_credential_zones => credential_zones_responses
  | E_credential_zone_records => list_zone_records_responses
  | E_mint_scoped_token => mint_scoped_token_responses
  | E_list_scoped_tokens => list_scoped_tokens_responses
  | E_get_scoped_token => get_scoped_token_responses
  | E_rotate_scoped_token => rotate_scoped_token_responses
  | E_revoke_scoped_token => revoke_scoped_token_responses
  | E_get_audit_logs => get_audit_logs_responses
  | E_verify_token => verify_token_responses
  | E_list_zones => list_zones_responses
  | E_list_dns_records => list_dns_records_responses
  | E_create_dns_record => create_dns_record_responses
  | E_get_dns_record => get_dns_record_responses
  | E_patch_dns_record => patch_dns_record_responses
  | E_put_dns_record => put_dns_record_responses
  | E_delete_dns_record => delete_dns_record_responses
  | E_blocked_batch => blocked_dns_records_batch_responses
  | E_blocked_import => blocked_dns_records_import_responses
  | E_blocked_export => blocked_dns_records_export_responses
  | E_catch_all => catch_all_responses
  | E_healthz | E_readyz
  | E_openapi | E_swagger_ui | E_swagger_ui_redirect | E_redoc => []
  end.

(** ** The examples of the schemas *)

Definition RegisterRequest_example : json :=
  JObj [
    fld "email" (txt "operator@example.com");
    fld "password" (txt "correct-horse-battery-staple")].

Definition LoginRequest_example : json :=
  JObj [
    fld "email" (txt "operator@example.com");
    fld "password" (txt "correct-horse-battery-staple")].

Definition TokenResponse_example : json :=
  JObj [
    fld "access_token" (txt "eyJhbGciOiJIUzI1NiIsInR5cCI6IkpXVCJ9...");
    fld "token_type" (txt "bearer")].

Definition UserResponse_example : json :=
  JObj [
    fld "id" (txt "5b1e2f0a-9a3b-4a0e-9c1a-8f6d3c2b7a10");
    fld "email" (txt "operator@example.com");
    fld "auth_provider" (txt "local");
    fld "is_active" (JBool true);
    fld "created_at" (txt "2026-07-15T09:30:00+00:00")].

Definition UpstreamCredentialCreateRequest_example : json :=
  JObj [
    fld "label" (txt "prod-dns-token");
    fld "cred_type" (txt "token");
    fld "api_token" (txt "AbCdEf1234567890ghijklmnopqrstuvwxyz")].

Definition UpstreamCredentialResponse_example : json :=
  JObj [
    fld "id" (txt "9d2c1b0a-3e4f-4a5b-8c6d-7e8f9a0b1c2d");
    fld "label" (txt "prod-dns-token");
    fld "cred_type" (txt "token");
    fld "cf_account_email" (txt "operator@example.com");
    fld "verify_status" (txt "active");
    fld "verified_at" (txt "2026-07-15T09:31:00+00:00");
    fld "created_at" (txt "2026-07-15T09:30:00+00:00")].

Definition ScopedTokenCreateRequest_example : json :=
  JObj [
    fld "name" (txt "staging-acme-dns");
    fld "upstream_credential_id" (txt "9d2c1b0a-3e4f-4a5b-8c6d-7e8f9a0b1c2d");
    fld "expires_at" (JNull);
    fld "scope_rules" (JArr [
        JObj [
          fld "zone_id" (txt "023e105f4ecef8ad9ca31a8372d0c353");
          fld "name_pattern" (txt "*.staging");
          fld "name_match" (txt "wildcard");
          fld "record_types" (JArr [txt "A"; txt "CNAME"]);
          fld "record_ids" (JNull);
          fld "allow_read" (JBool true);
          fld "allow_create" (JBool true);
          fld "allow_write" (JBool true);
          fld "allow_delete" (JBool false);
          fld "content_lock" (JNull)]])].

Definition ScopedTokenCreateResponse_example : json :=
  JObj [
    fld "id" (txt "1a2b3c4d-5e6f-4a5b-8c6d-7e8f9a0b1c2d");
    fld "name" (txt "staging-acme-dns");
    fld "token" (txt "cfsx_AbCdEf0123456789AbCd_1234567890abcdefghijklmnopqrstuvwxyzABCD");
    fld "token_prefix" (txt "cfsx_AbCdEf");
    fld "expires_at" (JNull);
    fld "created_at" (txt "2026-07-15T09:32:00+00:00")].

Definition ScopedTokenResponse_example : json :=
  JObj [
    fld "id" (txt "1a2b3c4d-5e6f-4a5b-8c6d-7e8f9a0b1c2d");
    fld "name" (txt "staging-acme-dns");
    fld "token_prefix" (txt "cfsx_AbCdEf");
    fld "status" (txt "active");
    fld "version" (JNum 1);
    fld "expires_at" (JNull);
    fld "last_used_at" (txt "2026-07-15T10:00:00+00:00");
    fld "created_at" (txt "2026-07-15T09:32:00+00:00");
    fld "revoked_at" (JNull)].

Definition ScopeRuleResponse_example : json :=
  JObj [
    fld "id" (txt "2b3c4d5e-6f70-4a5b-8c6d-7e8f9a0b1c2d");
    fld "zone_id" (txt "023e105f4ecef8ad9ca31a8372d0c353");
    fld "name_pattern" (txt "*.staging");
    fld "name_match" (txt "wildcard");
    fld "record_types" (JArr [txt "A"; txt "CNAME"]);
    fld "record_ids" (JNull);
    fld "allow_read" (JBool true);
    fld "allow_create" (JBool true);
    fld "allow_write" (JBool true);
    fld "allow_delete" (JBool false);
    fld "content_lock" (JNull);
    fld "created_at" (txt "2026-07-15T09:32:00+00:00")].

Definition ScopedTokenDetailResponse_example : json :=
  JObj [
    fld "id" (txt "1a2b3c4d-5e6f-4a5b-8c6d-7e8f9a0b1c2d");
    fld "name" (txt "staging-acme-dns");
    fld "token_prefix" (txt "cfsx_AbCdEf");
    fld "status" (txt "active");
    fld "version" (JNum 1);
    fld "expires_at" (JNull);
    fld "last_used_at" (txt "2026-07-15T10:00:00+00:00");
    fld "created_at" (txt "2026-07-15T09:32:00+00:00");
    fld "revoked_at" (JNull);
    fld "rules" (JArr [
        JObj [
          fld "id" (txt "2b3c4d5e-6f70-4a5b-8c6d-7e8f9a0b1c2d");
          fld "zone_id" (txt "023e105f4ecef8ad9ca31a8372d0c353");
          fld "name_pattern" (txt "*.staging");
          fld "name_match" (txt "wildcard");
          fld "record_types" (JArr [txt "A"; txt "CNAME"]);
          fld "record_ids" (JNull);
          fld "allow_read" (JBool true);
          fld "allow_create" (JBool true);
          fld "allow_write" (JBool true);
          fld "allow_delete" (JBool false);
          fld "content_lock" (JNull);
          fld "created_at" (txt "2026-07-15T09:32:00+00:00")]])].

Definition ScopedTokenRotateResponse_example : json :=
  JObj [
    fld "id" (txt "1a2b3c4d-5e6f-4a5b-8c6d-7e8f9a0b1c2d");
    fld "token" (txt "cfsx_ZzYyXxWwVvUuTtSsRrQq_abcdefghijklmnopqrstuvwxyzABCDEFGHIJKLMN");
    fld "token_prefix" (txt "cfsx_ZzYyXx");
    fld "version" (JNum 2)].

Definition AuditLogResponse_example : json :=
  JObj [
    fld "id" (txt "3c4d5e6f-7081-4a5b-8c6d-7e8f9a0b1c2d");
    fld "ts" (txt "2026-07-15T10:05:00+00:00");
    fld "scoped_token_id" (txt "1a2b3c4d-5e6f-4a5b-8c6d-7e8f9a0b1c2d");
    fld "token_prefix" (txt "cfsx_AbCdEf");
    fld "method" (txt "PATCH");
    fld "path" (txt "/client/v4/zones/023e105f4ecef8ad9ca31a8372d0c353/dns_records/rec1");
    fld "zone_id" (txt "023e105f4ecef8ad9ca31a8372d0c353");
    fld "record_id" (txt "rec1");
    fld "record_name" (txt "app.staging.example.com");
    fld "record_type" (txt "A");
    fld "decision" (txt "allow");
    fld "deny_reason" (JNull);
    fld "upstream_status" (JNum 200);
    fld "client_ip" (txt "203.0.113.7");
    fld "latency_ms" (JNum 42)].

(** ** Answers and examples *)

Definition at_key (k : string) (j : json) : option json :=
  match j with JObj d => dict_get (u k) d | _ => None end.

Definition text_at (k : string) (j : json) : option pystr :=
  match at_key k j with Some (JStr s) => Some s | _ => None end.

Definition fields (j : json) : list pystr := match j with JObj d => d.*1 | _ => [] end.

Definition data_of (j : json) : json := default JNull (at_key "data" j).

(** The data of an answer has the fields of an example that is an object. *)
Definition same_fields (j x : json) : bool :=
  match x with JObj _ => bool_decide (fields j = fields x) | _ => true end.

Definition matches_example (status : Z) (j : json) (x : example) : bool :=
  same_fields j (x_value x) &&
  if (status <? 400)%Z
  then bool_decide (text_at "message" j = text_at "message" (x_value x)) &&
       same_fields (data_of j) (data_of (x_value x))
  else true.

(** An answer is documented: its status is one the route declares, its body has
    the fields of the example, and a success its message and the fields of its
    data. *)
Definition as_documented (e : endpoint) (r : response) : bool :=
  existsb (fun d => (rd_status d =? status_code r)%Z &&
                    existsb (matches_example (status_code r) (content r)) (d_examples (rd_documented d)))
    (documented_responses e).

(** The examples of the errors, with their endpoint and status. *)
Definition error_examples (e : endpoint) : list (Z * json) :=
  d ← documented_responses e;
  x ← d_examples (rd_documented d);
  if (rd_status d <? 400)%Z then [] else [(rd_status d, x_value x)].

(** The route documents a status for the exception: 404 for what is not found,
    400 for a value that is refused. *)
Definition declares (e : endpoint) (status : Z) : bool :=
  existsb (fun d => rd_status d =? status)%Z (documented_responses e).
Definition declared_error (e : endpoint) (x : exn) : bool :=
  declares e 404 && is_NotFoundError x || declares e 400 && is_ValueError x.

(** The endpoints of the management API that answer JSON. *)
Definition management_endpoints : list endpoint := [E_register; E_login; E_cf_callback] ++ user_endpoints.

(** *** Schemas and their examples *)

Section schemas.
Context `{Env, Presentation, Pydantic}.

(** Every documented request body is read by its schema, whatever pydantic does
    with values of other types. *)
Lemma request_examples_read :
  is_Some (RegisterRequest_of RegisterRequest_example) /\
  is_Some (LoginRequest_of LoginRequest_example) /\
  is_Some (UpstreamCredentialCreateRequest_of UpstreamCredentialCreateRequest_example) /\
  is_Some (ScopeRuleRequest_of ScopeRuleRequest_example) /\
  is_Some (ScopedTokenCreateRequest_of ScopedTokenCreateRequest_example).
Proof. split_and!; by eexists; vm_compute. Qed.

(** Whatever row is dumped, its fields are those of the documented example, in
    that order. *)
Lemma response_examples_fields :
  (forall token, fields (TokenResponse token) = fields TokenResponse_example) /\
  (forall x, fields (UserResponse x) = fields UserResponse_example) /\
  (forall c, fields (UpstreamCredentialResponse c) = fields UpstreamCredentialResponse_example) /\
  (forall m, fields (ScopedTokenCreateResponse m) = fields ScopedTokenCreateResponse_example) /\
  (forall t, fields (ScopedTokenResponse t) = fields ScopedTokenResponse_example) /\
  (forall r, fields (ScopeRuleResponse r) = fields ScopeRuleResponse_example) /\
  (forall d, fields (ScopedTokenDetailResponse d) = fields ScopedTokenDetailResponse_example) /\
  (forall r, fields (ScopedTokenRotateResponse r) = fields ScopedTokenRotateResponse_example) /\
  (forall a j, AuditLogResponse a = Ok j -> fields j = fields AuditLogResponse_example).
Proof.
  split_and!; try done. intros a j (n & _ & (t & _ & [= <-])%result_bind_Ok)%result_bind_Ok. done.
Qed.

(** The token strings of the examples are no tokens: their lookup ids have 20
    characters, and the proxy refuses them before it looks at a table. *)
Lemma example_tokens_refused :
  Forall (fun x => exists full, at_key "token" x = Some (JStr full) /\ parse_scoped_token full = None)
    [ScopedTokenCreateResponse_example; ScopedTokenRotateResponse_example].
Proof. repeat (apply Forall_cons; split; [eexists; split; vm_compute; reflexivity|]). constructor. Qed.
End schemas.

Section answers.
Context `{Env, AuthLibs, OidcLibs, Presentation, Pydantic, Router, Framework}.

Ltac documented := by vm_compute.

Lemma mint_error_documented e :
  as_documented E_mint_scoped_token
    (make_response (if is_NotFoundError e then 404 else 400) (str_exc e) JNull) = true.
Proof. destruct (is_NotFoundError e); documented. Qed.
Hint Resolve mint_error_documented : returns.

Ltac solve_documented := solve_returns; documented.

Lemma documented_auth :
  (forall body, Returns (fun r => as_documented E_register r = true) (register body)) /\
  (forall body, Returns (fun r => as_documented E_login r = true) (login body)) /\
  (forall x, as_documented E_read_me (read_me x) = true) /\
  (forall code state, Returns (fun r => as_documented E_cf_callback r = true) (cf_callback code state)).
Proof.
  split_and!; intros; unfold register, login, bad_login, cf_callback; [solve_documented..|documented|solve_documented].
Qed.

Lemma documented_credentials x :
  (forall body, Returns (fun r => as_documented E_create_credential r = true) (create_credential body x)) /\
  Returns (fun r => as_documented E_list_credentials r = true) (get_credentials x) /\
  (forall id, Returns (fun r => as_documented E_delete_credential r = true) (remove_credential id x)) /\
  (forall id, Returns (fun r => as_documented E_verify_credential r = true) (post_verify id x)) /\
  (forall fuel id, Returns (fun r => as_documented E_credential_zones r = true)
     (get_credential_zones fuel id x)) /\
  (forall fuel id zone type name, Returns (fun r => as_documented E_credential_zone_records r = true)
     (list_zone_records fuel id zone type name x)).
Proof.
  split_and!; intros; unfold create_credential, get_credentials, remove_credential, post_verify,
    get_credential_zones, list_zone_records, answer_404, answer_400; solve_documented.
Qed.

Lemma documented_tokens x :
  (forall body, Returns (fun r => as_documented E_mint_scoped_token r = true) (create_scoped_token body x)) /\
  Returns (fun r => as_documented E_list_scoped_tokens r = true) (get_scoped_tokens x) /\
  (forall id, Returns (fun r => as_documented E_get_scoped_token r = true) (get_scoped_token id x)) /\
  (forall id, Returns (fun r => as_documented E_rotate_scoped_token r = true) (post_rotate id x)) /\
  (forall id, Returns (fun r => as_documented E_revoke_scoped_token r = true) (delete_scoped_token id x)) /\
  (forall token zone since page per_page, Returns (fun r => as_documented E_get_audit_logs r = true)
     (get_audit_logs x token zone since page per_page)).
Proof.
  split_and!; intros; unfold create_scoped_token, get_scoped_tokens, get_scoped_token, post_rotate,
    delete_scoped_token, get_audit_logs, answer_404; solve_documented.
Qed.

Lemma returns_at {A} (P : A -> Prop) (m : M A) w a : Returns P m -> (m w).1 = Ok a -> P a.
Proof. intros Hm. destruct (m w) as [r w'] eqn:E. simpl. intros ->. by eapply Hm. Qed.

Lemma returns_user (P : response -> Prop) auth (f : User -> M response) :
  (forall x, Returns P (f x)) -> Returns P (x ← get_current_user auth; f x).
Proof. apply returns_bind. Qed.

(** What the handler of a management endpoint returns is documented. *)
Lemma returns_documented fuel e rq c :
  e ∈ management_endpoints -> management_call_of fuel e rq = Some c ->
  Returns (fun r => as_documented e r = true) (management_handler c).
Proof.
  intros He Hc. repeat (apply elem_of_cons in He as [->|He]); [..|by apply elem_of_nil in He];
    simpl in Hc; try (apply bind_Some in Hc as (? & _ & Hc)); try (apply fmap_Some in Hc as (? & _ & ->));
    try (apply (inj Some) in Hc as <-); simpl; try apply returns_user; intros; try apply returns_ret;
    first [apply documented_auth|apply documented_credentials|apply documented_tokens].
Qed.

(** The handlers that are tried catch what their routes document. *)
Lemma try_escapes {A} (m : M A) p (h : exn -> A) w e w' :
  try_except m p (fun e => mret (h e)) w = (Raise e, w') -> p e = false.
Proof. unfold try_except. destruct (m w) as [[a|x] w1]; [done|]. destruct (p x) eqn:E; [done|]. by intros [= <- _]. Qed.

Lemma call_escapes fuel e rq c w x w' :
  e ∈ management_endpoints -> management_call_of fuel e rq = Some c ->
  management_handler c w = (Raise x, w') ->
  e ∈ user_endpoints /\ (get_current_user (credentials_of rq) w).1 = Raise x \/ declared_error e x = false.
Proof.
  assert (Huser : forall (f : User -> M response) auth (P : Prop),
    (forall y w1, f y w1 = (Raise x, w') -> P) -> (y ← get_current_user auth; f y) w = (Raise x, w') ->
    (get_current_user auth w).1 = Raise x \/ P).
  { intros f auth P Hf. unfold mbind, M_bind. destruct (get_current_user auth w) as [[y|z] w1]; simpl.
    - intros Hr. right. by eapply Hf.
    - intros [= -> ->]. by left. }
  intros He Hc. repeat (apply elem_of_cons in He as [->|He]); [..|by apply elem_of_nil in He];
    simpl in Hc; try (apply bind_Some in Hc as (? & _ & Hc)); try (apply fmap_Some in Hc as (? & _ & ->));
    try (apply (inj Some) in Hc as <-); cbn [management_handler].
  1-2: by right; destruct x.
  1: intros Hr%try_escapes; right; by destruct x.
  all: intros Hr; match goal with |- _ \/ ?P => eapply (Huser _ _ P) in Hr as [Hr|Hr];
    [left; split; [by repeat constructor|exact Hr]|right; exact Hr|] end.
  all: intros y w1; unfold create_credential, remove_credential, post_verify, get_credential_zones,
    list_zone_records, create_scoped_token, get_scoped_token, post_rotate, delete_scoped_token, answer_404,
    answer_400; try intros Hx%try_escapes; try intros _; by destruct x.
Qed.

Lemma management_endpoint_call fuel e rq :
  e ∈ management_endpoints -> call_endpoint fuel e rq = management_endpoint fuel e rq.
Proof.
  intros He. unfold call_endpoint.
  by repeat (apply elem_of_cons in He as [->|He]; [done|]); apply elem_of_nil in He.
Qed.

Lemma endpoint_documented fuel e rq w r :
  e ∈ management_endpoints -> (call_endpoint fuel e rq w).1 = Ok r ->
  as_documented e r = true \/ r = invalid rq.
Proof.
  intros He Hr. rewrite management_endpoint_call in Hr by done.
  unfold management_endpoint in Hr. destruct (malformed e rq).
  { right. simpl in Hr. by injection Hr. }
  destruct (undecodable e rq); [done|].
  destruct (management_call_of fuel e rq) as [c|] eqn:Ec.
  - left. by eapply (returns_at (fun r => as_documented e r = true)); [eapply returns_documented|].
  - right. eapply (returns_at (fun r => r = invalid rq)); [|exact Hr].
    destruct (depends_on_user e); [apply returns_bind; intros _|]; by apply returns_ret.
Qed.

(** The exceptions that escape a management endpoint. *)
Definition escapes (e : endpoint) (rq : incoming) (w : world) (x : exn) : Prop :=
  undecodable e rq = true /\ x = parsing_error \/
  e ∈ user_endpoints /\ (get_current_user (credentials_of rq) w).1 = Raise x \/
  declared_error e x = false.

Lemma endpoint_escapes fuel e rq w x w' :
  e ∈ management_endpoints -> call_endpoint fuel e rq w = (Raise x, w') -> escapes e rq w x.
Proof.
  intros He. rewrite management_endpoint_call by done. unfold management_endpoint, escapes.
  destruct (malformed e rq); [done|]. destruct (undecodable e rq); [intros [= <- _]; by left|].
  destruct (management_call_of fuel e rq) as [c|] eqn:Ec; [intros Hr; right; by eapply call_escapes|].
  destruct (depends_on_user e) eqn:Ed; [|done]. unfold mbind, M_bind.
  destruct (get_current_user (credentials_of rq) w) as [[y|z] w1]; [done|]. intros [= <- _].
  right. left. split; [|done]. apply elem_of_app in He as [He|He]; [|done].
  exfalso. revert Ed. by repeat (apply elem_of_cons in He as [->|He]; [done|]); apply elem_of_nil in He.
Qed.

(** ** Properties *)

(** C33: the management API answers what it documents: whatever is sent to one
    of its endpoints, the answer has a status that its route declares, the
    envelope of the example, and if it is a success the message of the example
    and, where the example has an object, an object with the very same fields.
    The only other answers are the one to a request that is not valid and those
    to an exception: an unreadable body, a session that is refused, or one that
    the route documents no status for: where 404 is documented no missing
    resource escapes, where 400 is no bad value. *)
Theorem management_answers_documented fuel e rq w r :
  dispatch create_app (in_method rq) (in_path rq) = Some e -> e ∈ management_endpoints ->
  (receive fuel rq w).1 = Ok (Answer r) ->
  let w0 := set_sess (fun _ => w_db w) w in
  as_documented e r = true \/ r = invalid rq \/
  exists x, (call_endpoint fuel e rq w0).1 = Raise x /\
    is_Exception x = true /\ r = handle_exception (in_path rq) x /\ escapes e rq w0 x.
Proof.
  intros Hd He. rewrite receive_run, Hd. generalize (set_sess (fun _ => w_db w) w). clear w. intros w.
  rewrite answer_route_other by (intros ->; by vm_compute in He; set_solver).
  rewrite fmap_result, serve_run.
  pose proof (endpoint_documented fuel e rq w) as Hdoc.
  destruct (call_endpoint fuel e rq w) as [[a|x] w'] eqn:E; simpl.
  - intros [= ->]. destruct (Hdoc r He eq_refl); auto.
  - destruct (is_Exception x) eqn:Ex; simpl; [|done]. intros [= <-]. right. right. exists x.
    split_and!; [by rewrite E|done..|]. by eapply endpoint_escapes.
Qed.
End answers.
