(* ===== verification/Process.v ===== *)
(** * What a process shares ([db/session.py], [cache/redis.py])

    The engine, the session factory and the Redis client are global variables.
    A module that says [from cfproxy.db.session import engine] has a variable of
    its own, bound once to the object the name stood for when the module was
    imported: the model keeps one binding per importing module. *)

From S2P Require Import Prelude PyStr Models World.

(** ** Engines *)

(** The engine of a URL, and whether it opens a connection for every use. *)
Record AsyncEngine := Engine { engine_url : pystr; engine_NullPool : bool }.

#[export] Instance AsyncEngine_eq_dec : EqDecision AsyncEngine.
Proof. solve_decision. Defined.

Definition _create_engine (url : pystr) : AsyncEngine :=
  if startswith (u "sqlite") url then Engine url true else Engine url false.

(** [async_sessionmaker(engine)]: its sessions use that engine. *)
Record sessionmaker := Sessionmaker_of { bound_engine : AsyncEngine }.

(** [redis.asyncio.from_url(url)], or a client somebody gave. *)
Inductive redis_client :=
| from_url (url : pystr)
| given (id : nat).

Record bindings := Bindings {
  engine : AsyncEngine;                  (* db/session.py *)
  Sessionmaker : sessionmaker;           (* db/session.py *)
  main_engine : AsyncEngine;             (* main.py *)
  proxy_dns_engine : AsyncEngine;        (* routers/proxy_dns.py *)
  console_Sessionmaker : sessionmaker;   (* cli/console.py *)
  _redis_client : option redis_client;   (* cache/redis.py *)
}.

(** Importing [db/session.py] and then the modules that import from it. *)
Definition import_modules (s : Settings) : bindings :=
  let e := _create_engine (db_url s) in
  let maker := Sessionmaker_of e in
  {| engine := e; Sessionmaker := maker; main_engine := e; proxy_dns_engine := e;
     console_Sessionmaker := maker; _redis_client := None |}.

(** The global variables of [db/session.py] are bound anew. *)
Definition configure_engine (url : pystr) (b : bindings) : bindings :=
  let e := _create_engine url in
  {| engine := e; Sessionmaker := Sessionmaker_of e; main_engine := main_engine b;
     proxy_dns_engine := proxy_dns_engine b; console_Sessionmaker := console_Sessionmaker b;
     _redis_client := _redis_client b |}.

(** The engine behind the session a request is given. *)
Definition get_session (b : bindings) : AsyncEngine := bound_engine (Sessionmaker b).

(** ** The Redis client *)

Definition get_redis (s : Settings) (b : bindings) : redis_client * bindings :=
  match _redis_client b with
  | Some client => (client, b)
  | None =>
      let client := from_url (redis_url s) in
      (client, {| engine := engine b; Sessionmaker := Sessionmaker b; main_engine := main_engine b;
                  proxy_dns_engine := proxy_dns_engine b;
                  console_Sessionmaker := console_Sessionmaker b; _redis_client := Some client |})
  end.

Definition set_redis_for_test (client : redis_client) (b : bindings) : bindings :=
  {| engine := engine b; Sessionmaker := Sessionmaker b; main_engine := main_engine b;
     proxy_dns_engine := proxy_dns_engine b; console_Sessionmaker := console_Sessionmaker b;
     _redis_client := Some client |}.

(** ** Properties *)

(** One engine serves the whole process as long as nobody reconfigures it, and
    then the sessions of requests and the initialisation follow the new URL,
    while the readiness probe, the mutation lock and the console keep the
    engine of the settings: their modules imported the name, not the
    variable. *)
Theorem configure_engine_reaches s url :
  let b := import_modules s in
  let b' := configure_engine url b in
  (get_session b = engine b /\ main_engine b = engine b /\ proxy_dns_engine b = engine b /\
   bound_engine (console_Sessionmaker b) = engine b /\ engine b = _create_engine (db_url s)) /\
  (engine b' = _create_engine url /\ get_session b' = _create_engine url) /\
  (main_engine b' = _create_engine (db_url s) /\ proxy_dns_engine b' = _create_engine (db_url s) /\
   bound_engine (console_Sessionmaker b') = _create_engine (db_url s)).
Proof. done. Qed.

(** An engine is that of its URL, without a pool exactly for SQLite. *)
Lemma create_engine_url url :
  engine_url (_create_engine url) = url /\
  (engine_NullPool (_create_engine url) = true <-> u "sqlite" `prefix_of` url).
Proof.
  unfold _create_engine, startswith. case_bool_decide; simpl; naive_solver.
Qed.

(** The client is created once, at its first use, whatever is asked later; a
    client given in the meantime replaces it. *)
Lemma get_redis_once s b client b' :
  get_redis s b = (client, b') ->
  get_redis s b' = (client, b') /\
  (_redis_client b = None -> client = from_url (redis_url s)) /\
  forall other, (get_redis s (set_redis_for_test other b')).1 = other.
Proof.
  unfold get_redis. destruct (_redis_client b) as [c|] eqn:Ec; intros [= <- <-]; simpl;
    rewrite ?Ec; naive_solver.
Qed.
