(* ===== verification/Console.v ===== *)
(** * Initialisation and the operator's console ([db/session.py],
    [cli/console.py])

    A command is a computation that returns the lines it prints. The parser is
    the data [build_console_parser] declares, and arguments are read from it
    when they are written out: the options of a subcommand in full, each
    followed by a value. What argparse makes of other arguments (help,
    abbreviations, [--option=value], values that start with a dash) is
    [other_argv]. [Base.metadata.create_all] creates the tables that are
    missing: those of the model always exist, so it is a statement that changes
    no row. *)

From stdpp Require Import sorting.
From S2P Require Import Prelude PyStr Json Scope Models World Cache Locks OAuthCf Upstream.
From S2P Require Import Security AuditLogs OAuthService ProxyAuth Credentials Tokens Management App.

(** A subcommand with its arguments. *)
Inductive command :=
| InitDb
| BootstrapAdmin (email password : pystr)
| DiscoverScope
| TailAudit (limit : Z)
| Health.

(** How a run of the console ends: the parser exits, or a command has printed. *)
Inductive ended (A : Type) := Exited (status : Z) | Ran (a : A).
Arguments Exited {A} status.
Arguments Ran {A} a.

(** [datetime.isoformat()], [sys.stdout.isatty()], and the parser on arguments
    that are not written out. *)
Class ConsoleText := {
  isoformat : datetime -> pystr;
  isatty : bool;
  other_argv : list pystr -> ended command;
}.

Definition CURRENT_SCHEMA_VERSION : Z := 1.

Section session.
Context `{Env}.

Definition create_all : M unit := db_query (fun _ => tt).

(** [conn.commit()]. *)
Definition connection_commit : M unit :=
  t ← tick; if db_down t then raise OperationalError else mret tt.

(** [session.get(SchemaVersion, version)]. *)
Definition schema_version (version : Z) (d : database) : option SchemaVersion :=
  head (select_where (fun v => bool_decide (sv_version v = version)) (schema_versions d)).

(** The version is recorded unless a row was found. *)
Definition record_schema_version (existing : option SchemaVersion) : M unit :=
  match existing with
  | Some _ => mret tt
  | None =>
      applied ← now;
      _ ← sess_modify (set_schema_versions (fun l =>
            l ++ [{| sv_version := CURRENT_SCHEMA_VERSION; sv_applied_at := dt_wall applied |}]));
      commit
  end.

Definition init_db : M unit :=
  _ ← engine_connect;
  _ ← match env_dialect with
      | MySQL => advisory_lock (u "cfproxy_init_db") (_ ← create_all; connection_commit)
      | SQLite => _ ← create_all; connection_commit
      end;
  _ ← open_session;
  existing ← db_query (schema_version CURRENT_SCHEMA_VERSION);
  record_schema_version existing.
End session.

Section console.
Context `{Env, AuthLibs, OidcLibs, ConsoleText}.

(** A line on the terminal, in a style when there is one and it is a terminal. *)
Inductive output := Plain (message : pystr) | Styled (style message : pystr).

Definition _emit (message style : pystr) : output :=
  if bool_decide (style ≠ []) && isatty then Styled style message else Plain message.

Definition init_db_command : M (list output) :=
  _ ← init_db; mret [_emit (u "[OK] database initialized") (u "fg:green bold")].

Definition bootstrap_admin_command (email password : pystr) : M (list output) :=
  _ ← open_session;
  rows ← db_query (user_by_email email);
  existing ← lift (scalar_one_or_none rows);
  match existing with
  | Some _ => mret [_emit (u "[ERROR] a user with email '" ++ email ++ u "' already exists")
                          (u "fg:red bold")]
  | None =>
      password_hash ← hash_password password;
      id ← _new_uuid;
      created ← now;
      updated ← now;
      _ ← sess_modify (set_users (fun l => l ++
            [new_user id (Some email) (Some password_hash) (u "local") None
               (dt_wall created) (dt_wall updated)]));
      _ ← commit;
      user ← refresh_row users u_id id;
      mret [_emit (u "[OK] created admin user id=" ++ u_id user ++ u " email=" ++ email)
                  (u "fg:green bold")]
  end.

Definition discover_scope_command : M (list output) :=
  scopes ← discover_dns_scope;
  match scopes with
  | [] => mret [_emit (u "[INFO] no scopes returned") (u "fg:yellow")]
  | _ => mret ((fun scope => _emit scope []) <$> scopes)
  end.

(** [str] of a nullable string column. *)
Definition str_column (o : option pystr) : pystr := default (u "None") o.

Definition audit_line (a : AuditLog) : pystr :=
  u "[" ++ isoformat (load_datetime (al_ts a)) ++ u "] " ++ upper (al_decision a) ++ u " "
  ++ al_method a ++ u " " ++ al_path a ++ u " zone=" ++ str_column (al_zone_id a)
  ++ u " record=" ++ str_column (al_record_id a) ++ u " reason=" ++ str_column (al_deny_reason a).

(** [.limit(n)]: SQLite takes a negative limit for none, MySQL for a syntax
    error. *)
Definition limited {A} (limit : Z) (l : list A) : list A :=
  if (limit <? 0)%Z then l else take (Z.to_nat limit) l.

Definition refuses_limit (limit : Z) : bool :=
  match env_dialect with MySQL => (limit <? 0)%Z | SQLite => false end.

Definition tail_audit_command (limit : Z) : M (list output) :=
  _ ← open_session;
  entries ← db_query (fun d => limited limit (merge_sort newer (audits d)));
  if refuses_limit limit then raise ProgrammingError else
  match entries with
  | [] => mret [_emit (u "[INFO] no audit log entries found") (u "fg:yellow")]
  | _ => mret ((fun entry => _emit (audit_line entry) []) <$> reverse entries)
  end.

Definition health_command : M (list output) :=
  db_ok ← check_database;
  redis_ok ← check_redis;
  mret [_emit (u "[" ++ (if (db_ok : bool) then u "OK" else u "FAIL") ++ u "] database")
              (if db_ok then u "fg:green bold" else u "fg:red bold");
        _emit (u "[" ++ (if (redis_ok : bool) then u "OK" else u "DEGRADED") ++ u "] redis")
              (if redis_ok then u "fg:green bold" else u "fg:yellow bold")].

(** ** The parser *)

Inductive argument_type := TextArgument | IntArgument.

Record argument := Argument {
  a_option : pystr;
  a_required : bool;
  a_type : argument_type;
  a_help : pystr;
}.

(** The subcommands: name, help, arguments. *)
Definition build_console_parser : list (pystr * pystr * list argument) := [
  (u "init-db", u "Create database tables and record the schema version", []);
  (u "bootstrap-admin", u "Create an initial local admin user",
    [Argument (u "--email") true TextArgument (u "Admin login email");
     Argument (u "--password") true TextArgument (u "Admin login password")]);
  (u "discover-scope", u "List Cloudflare OAuth DNS scopes available upstream", []);
  (u "tail-audit", u "Print the most recent audit log entries",
    [Argument (u "--limit") false IntArgument (u "Maximum entries to print")]);
  (u "health", u "Check database and redis connectivity", [])].

(** The default of [--limit]. *)
Definition default_limit : Z := 20.

Inductive parsed_value := TextValue (s : pystr) | IntValue (z : Z).

Definition convert (t : argument_type) (s : pystr) : option parsed_value :=
  match t with
  | TextArgument => Some (TextValue s)
  | IntArgument => match py_int s with Ok z => Some (IntValue z) | Raise _ => None end
  end.

(** The status of [parser.error]. *)
Definition usage_error {A} : ended A := Exited 2.

(** The options of a subcommand; [None] when they are not written out. *)
Fixpoint read_options (specs : list argument) (ns : list (pystr * parsed_value)) (tokens : list pystr)
    : option (ended (list (pystr * parsed_value))) :=
  match tokens with
  | [] => Some (Ran ns)
  | o :: tokens =>
      match List.find (fun a => bool_decide (a_option a = o)) specs with
      | None => None
      | Some a =>
          match tokens with
          | [] => Some usage_error
          | v :: tokens =>
              if startswith (u "-") v then None
              else match convert (a_type a) v with
                   | None => Some usage_error
                   | Some x => read_options specs ((o, x) :: ns) tokens
                   end
          end
      end
  end.

Definition given_value (o : pystr) (ns : list (pystr * parsed_value)) : option parsed_value :=
  snd <$> List.find (fun x => bool_decide (x.1 = o)) ns.

(** The namespace of a subcommand; a required option that is missing is an
    error. *)
Definition command_of (name : pystr) (ns : list (pystr * parsed_value)) : ended command :=
  if bool_decide (name = u "init-db") then Ran InitDb
  else if bool_decide (name = u "bootstrap-admin") then
    match given_value (u "--email") ns, given_value (u "--password") ns with
    | Some (TextValue email), Some (TextValue password) => Ran (BootstrapAdmin email password)
    | _, _ => usage_error
    end
  else if bool_decide (name = u "discover-scope") then Ran DiscoverScope
  else if bool_decide (name = u "tail-audit") then
    match given_value (u "--limit") ns with
    | Some (IntValue n) => Ran (TailAudit n)
    | _ => Ran (TailAudit default_limit)
    end
  else Ran Health.

Definition parse_args (argv : list pystr) : ended command :=
  match argv with
  | [] => usage_error
  | name :: tokens =>
      if startswith (u "-") name then other_argv argv
      else match List.find (fun c => bool_decide (c.1.1 = name)) build_console_parser with
           | None => usage_error
           | Some (_, _, specs) =>
               match read_options specs [] tokens with
               | Some (Ran ns) => command_of name ns
               | Some (Exited status) => Exited status
               | None => other_argv argv
               end
           end
  end.

Definition dispatch_command (c : command) : M (list output) :=
  match c with
  | InitDb => init_db_command
  | BootstrapAdmin email password => bootstrap_admin_command email password
  | DiscoverScope => discover_scope_command
  | TailAudit limit => tail_audit_command limit
  | Health => health_command
  end.

Definition main (argv : list pystr) : M (ended (list output)) :=
  match parse_args argv with
  | Exited status => mret (Exited status)
  | Ran c => lines ← dispatch_command c; mret (Ran lines)
  end.
End console.

(** ** Properties *)

Section init_properties.
Context `{Env}.

Lemma schema_version_Some v d x :
  schema_version v d = Some x -> x ∈ schema_versions d /\ sv_version x = v.
Proof.
  intros Hh%head_Some_elem_of. by apply list_elem_of_filter in Hh as [Hv%bool_decide_eq_true_1 ?].
Qed.

Lemma schema_version_None v d :
  schema_version v d = None -> forall x, x ∈ schema_versions d -> sv_version x ≠ v.
Proof.
  intros Hh x Hx Hv. apply head_None in Hh.
  assert (Hin : x ∈ select_where (fun x => bool_decide (sv_version x = v)) (schema_versions d))
    by by apply list_elem_of_filter; rewrite bool_decide_eq_true.
  rewrite Hh in Hin. by apply elem_of_nil in Hin.
Qed.

(** The statements before the version change no row. *)
Definition same_rows (w w' : world) : Prop := w_db w' = w_db w.

#[export] Instance same_rows_preorder : PreOrder same_rows.
Proof. split; [done|]. intros x y z. unfold same_rows. congruence. Qed.

Lemma create_all_rows : Keeps same_rows (_ ← create_all; connection_commit).
Proof.
  intros w. unfold create_all, connection_commit, db_query, tick, gets, raise, mbind, M_bind, same_rows.
  destruct (db_down (w_tick w)); simpl; [done|]. by destruct (db_down (S (w_tick w))).
Qed.

Definition version_row (n : datetime) : SchemaVersion :=
  {| sv_version := CURRENT_SCHEMA_VERSION; sv_applied_at := dt_wall n |}.

Lemma init_db_run w w' :
  init_db w = (Ok tt, w') ->
  match schema_version CURRENT_SCHEMA_VERSION (w_db w) with
  | Some _ => w_db w' = w_db w
  | None => exists n, w_db w' = set_schema_versions (fun l => l ++ [version_row n]) (w_db w)
  end.
Proof.
  intros Hrun. unfold init_db in Hrun.
  apply M_bind_Ok in Hrun as ([] & w1 & Hconn & Hrun).
  assert (H1 : w_db w1 = w_db w).
  { revert Hconn. unfold engine_connect, tick, raise, mbind, M_bind. simpl.
    destruct (db_down _); [done|]. by intros [= <-]. }
  apply M_bind_Ok in Hrun as ([] & w2 & Hddl & Hrun).
  assert (H2 : w_db w2 = w_db w1).
  { assert (Hk : Keeps same_rows match env_dialect with
      | MySQL => advisory_lock (u "cfproxy_init_db") (_ ← create_all; connection_commit)
      | SQLite => _ ← create_all; connection_commit end).
    { destruct env_dialect; [|apply create_all_rows].
      apply (keeps_advisory_lock same_rows); try done. apply create_all_rows. }
    specialize (Hk w1). by rewrite Hddl in Hk. }
  apply M_bind_Ok in Hrun as ([] & w3 & [= <-] & Hrun).
  apply M_bind_Ok in Hrun as (existing & w4 & (_ & -> & ->)%db_query_Ok & Hrun).
  simpl in Hrun. rewrite H2, H1 in Hrun.
  destruct (schema_version _ (w_db w)) as [x|]; simpl in Hrun.
  - apply ret_Ok in Hrun as [_ ->]. simpl. congruence.
  - inv_run. eexists. reflexivity.
Qed.

(** Initialising the database records the schema version once: a run that
    ends leaves a row of the current version and no other change, and every
    later run leaves the tables as they are. *)
Theorem init_db_idempotent w w' :
  init_db w = (Ok tt, w') ->
  (exists x, schema_version CURRENT_SCHEMA_VERSION (w_db w') = Some x /\
     sv_version x = CURRENT_SCHEMA_VERSION) /\
  (w_db w' = w_db w \/ exists n, w_db w' = set_schema_versions (fun l => l ++ [version_row n]) (w_db w)) /\
  (forall w2 w2', w_db w2 = w_db w' -> init_db w2 = (Ok tt, w2') -> w_db w2' = w_db w2).
Proof.
  intros Hrun%init_db_run.
  assert (Hrow : exists x, schema_version CURRENT_SCHEMA_VERSION (w_db w') = Some x).
  { destruct (schema_version _ (w_db w)) as [x|] eqn:Ex; [exists x; congruence|].
    destruct Hrun as [n ->]. destruct (schema_version _ (set_schema_versions _ _)) as [x|] eqn:Ey; [by exists x|].
    exfalso. eapply (schema_version_None _ _ Ey (version_row n)); [|done].
    simpl. apply elem_of_app. right. by left. }
  destruct Hrow as [x Hx]. split_and!.
  - exists x. split; [done|]. by apply schema_version_Some in Hx as [_ ?].
  - destruct (schema_version _ (w_db w)); [by left|by right].
  - intros w2 w2' E Hagain%init_db_run. rewrite E, Hx in Hagain. congruence.
Qed.

(** The check and the insertion of the version are not under the lock that
    guards the tables: an initialisation that looked for the row before another
    one committed it fails with an integrity error, and leaves the tables as
    they are. *)
Theorem concurrent_init_fails w x :
  db_down (S (w_tick w)) = false ->
  x ∈ schema_versions (w_sess w) -> sv_version x = CURRENT_SCHEMA_VERSION ->
  exists w', record_schema_version None w = (Raise IntegrityError, w') /\ w_db w' = w_db w.
Proof.
  intros Hup Hx Hv. unfold record_schema_version.
  erewrite bind_step by done. erewrite bind_step by done.
  match goal with |- context [commit ?w0] =>
    destruct (commit_violation w0) as (w' & E & Hdb & _); [exact Hup| |by exists w'] end.
  simpl. unfold constraints_ok, keys_ok. simpl.
  replace (distinct (sv_version <$> schema_versions (w_sess w) ++ _)) with false;
    [by rewrite !andb_false_r|].
  symmetry. apply bool_decide_eq_false_2. rewrite fmap_app, NoDup_app. simpl.
  intros (_ & Hdisj & _). apply (Hdisj CURRENT_SCHEMA_VERSION); [|by left].
  rewrite <- Hv. by apply list_elem_of_fmap_2.
Qed.
End init_properties.

Section console_properties.
Context `{Env, AuthLibs, OidcLibs, ConsoleText}.

Definition plain_value (v : pystr) : Prop := startswith (u "-") v = false.

Lemma parse_known name help specs tokens :
  plain_value name ->
  List.find (fun c => bool_decide (c.1.1 = name)) build_console_parser = Some (name, help, specs) ->
  parse_args (name :: tokens) =
  match read_options specs [] tokens with
  | Some (Ran ns) => command_of name ns
  | Some (Exited status) => Exited status
  | None => other_argv (name :: tokens)
  end.
Proof. unfold plain_value, parse_args. by intros -> ->. Qed.

Lemma read_option_step o a v x specs ns tokens :
  List.find (fun a => bool_decide (a_option a = o)) specs = Some a ->
  plain_value v -> convert (a_type a) v = Some x ->
  read_options specs ns (o :: v :: tokens) = read_options specs ((o, x) :: ns) tokens.
Proof. unfold plain_value. simpl. intros Ha Hv Hx. rewrite Ha, Hv, Hx. done. Qed.

Lemma read_option_fails o a v specs ns tokens :
  List.find (fun a => bool_decide (a_option a = o)) specs = Some a ->
  plain_value v -> convert (a_type a) v = None ->
  read_options specs ns (o :: v :: tokens) = Some usage_error.
Proof. unfold plain_value. simpl. intros Ha Hv Hx. rewrite Ha, Hv, Hx. done. Qed.

(** Reads the arguments of a goal about [parse_args], one option at a time. *)
Ltac read_arguments :=
  unfold main; erewrite parse_known by reflexivity;
  repeat first [erewrite read_option_step by first [reflexivity|eassumption]
               |erewrite read_option_fails by first [reflexivity|eassumption]].

(** What an operator types is what runs: every subcommand is read from its
    name and its options, in either order, [tail-audit] with its default; an
    option that is missing, or a limit that is no number, ends with status 2
    before anything is done. *)
Lemma console_reads_commands email password limit n w :
  plain_value email -> plain_value password -> plain_value limit ->
  let admin := dispatch_command (BootstrapAdmin email password) in
  let ran (m : M (list output)) := lines ← m; mret (Ran lines) in
  main [u "init-db"] w = ran init_db_command w /\
  main [u "discover-scope"] w = ran discover_scope_command w /\
  main [u "health"] w = ran health_command w /\
  main [u "bootstrap-admin"; u "--email"; email; u "--password"; password] w = ran admin w /\
  main [u "bootstrap-admin"; u "--password"; password; u "--email"; email] w = ran admin w /\
  main [u "bootstrap-admin"; u "--email"; email] w = (Ok (Exited 2), w) /\
  main [u "tail-audit"] w = ran (tail_audit_command 20) w /\
  (py_int limit = Ok n ->
   main [u "tail-audit"; u "--limit"; limit] w = ran (tail_audit_command n) w) /\
  (py_int limit = Raise (ValueError (u "invalid literal for int() with base 10")) ->
   main [u "tail-audit"; u "--limit"; limit] w = (Ok (Exited 2), w)).
Proof.
  intros He Hp Hl admin ran. split_and!; try (by read_arguments).
  - intros E. assert (convert IntArgument limit = Some (IntValue n)) by (simpl; by rewrite E).
    by read_arguments.
  - intros E. assert (convert IntArgument limit = None) by (simpl; by rewrite E). by read_arguments.
Qed.

(** Nothing bounds [--limit] from below: with a negative one the whole log is
    printed on SQLite, and the command fails on MySQL. *)
Lemma negative_limit n w :
  (n < 0)%Z -> db_down (w_tick w) = false ->
  (env_dialect = MySQL -> (tail_audit_command n w).1 = Raise ProgrammingError) /\
  (env_dialect = SQLite -> audits (w_db w) ≠ [] ->
   exists lines, (tail_audit_command n w).1 = Ok lines /\ length lines = length (audits (w_db w))).
Proof.
  intros Hn Hup. unfold tail_audit_command, open_session, refuses_limit, limited.
  rewrite (proj2 (Z.ltb_lt n 0)) by done. unfold db_query, modify, tick, gets, raise, mbind, M_bind.
  simpl. rewrite Hup. split; intros ->; [done|]. simpl. intros Hne.
  assert (E : length (merge_sort newer (audits (w_db w))) = length (audits (w_db w)))
    by by apply Permutation_length, merge_sort_Permutation.
  destruct (merge_sort newer (audits (w_db w))) as [|x l]; [by destruct (audits (w_db w))|].
  eexists. split; [reflexivity|]. rewrite length_fmap, length_reverse. done.
Qed.
End console_properties.
