(* ===== verification/Statements.v ===== *)
(** * The statements of the program

    Every INSERT, UPDATE and DELETE that the program sends, as data, with its
    effect on the tables it is executed on; and what a transaction made of them
    adds. [System] shows that no call changes the tables in any other way. *)

From S2P Require Import Prelude PyStr Json Scope Models World Crypto Upstream OAuthService Credentials Tokens.

(** ** Statements *)

Inductive edit :=
| InsertUser (x : User)
| UpdateUserEmail (id email : pystr) (now : Z)
| InsertCredential (c : UpstreamCredential)
| VerifyCredential (id status : pystr) (now : Z) (email : option pystr)
| RotateCredential (id : pystr) (held : Z) (access refresh : pystr) (expires : option Z) (version : Z)
| ConsentCredential (id : pystr) (scopes : option pystr) (bump : Z) (access refresh : option pystr)
    (expires : option Z)
| DeleteCredential (id : pystr)
| InsertVersion (v : SchemaVersion)
| InsertAudit (a : AuditLog)
| InsertToken (t : ScopedToken)
| InsertRule (r : ScopeRule)
| RotateToken (id : pystr) (g : generated)
| RevokeToken (id : pystr) (now : Z).

Definition perform (d : database) (e : edit) : database :=
  match e with
  | InsertUser x => set_users (fun l => l ++ [x]) d
  | UpdateUserEmail id email n =>
      set_users (update_where (fun x => bool_decide (u_id x = id)) (set_user_email email n)) d
  | InsertCredential c => set_credentials (fun l => l ++ [c]) d
  | VerifyCredential id status n email =>
      set_credentials (update_where (fun c => bool_decide (uc_id c = id)) (verified_credential status n email)) d
  | RotateCredential id held access refresh expires version =>
      set_credentials (update_where (fun c => bool_decide (uc_id c = id) && (uc_cred_version c =? held)%Z)
        (rotate_credential access refresh expires version)) d
  | ConsentCredential id scopes bump access refresh expires =>
      set_credentials (update_where (fun c => bool_decide (uc_id c = id))
        (consented scopes bump access refresh expires)) d
  | DeleteCredential id => set_credentials (delete_where (fun c => bool_decide (uc_id c = id))) d
  | InsertVersion v => set_schema_versions (fun l => l ++ [v]) d
  | InsertAudit a => set_audits (fun l => l ++ [a]) d
  | InsertToken t => set_tokens (fun l => l ++ [t]) d
  | InsertRule r => set_rules (fun l => l ++ [r]) d
  | RotateToken id g =>
      set_tokens (update_where (fun t => bool_decide (st_id t = id)) (rotated_token g)) d
  | RevokeToken id n =>
      set_tokens (update_where (fun t => bool_decide (st_id t = id)) (revoked_token n)) d
  end.

(** Statements that concern neither tokens nor their rules, and delete nothing:
    these are kept by a relation each on its own. *)
Definition ordinary (e : edit) : bool :=
  match e with
  | DeleteCredential _ | InsertToken _ | InsertRule _ | RotateToken _ _ | RevokeToken _ _ => false
  | _ => true
  end.

(** The UPDATEs of a token. *)
Definition token_update (e : edit) : bool :=
  match e with RotateToken _ _ | RevokeToken _ _ => true | _ => false end.

(** ** Transactions *)

Abbreviation transaction := (list edit).

Definition perform_all (es : transaction) (d : database) : database := foldl perform d es.

(** The tokens a transaction mints, and the rules it adds. *)
Definition tokens_added (es : transaction) : list ScopedToken :=
  omap (fun e => match e with InsertToken t => Some t | _ => None end) es.
Definition minted_ids (es : transaction) : list pystr := st_id <$> tokens_added es.
Definition rules_added (es : transaction) : list ScopeRule :=
  omap (fun e => match e with InsertRule r => Some r | _ => None end) es.

(** Rules are only added to tokens of the same transaction. *)
Definition well_formed (es : transaction) : Prop :=
  Forall (fun r => sr_scoped_token_id r ∈ minted_ids es) (rules_added es).

(** ** Laws *)

Lemma perform_all_app es es' d : perform_all (es ++ es') d = perform_all es' (perform_all es d).
Proof. apply foldl_app. Qed.
Lemma perform_all_snoc es e d : perform_all (es ++ [e]) d = perform (perform_all es d) e.
Proof. apply perform_all_app. Qed.
Lemma minted_ids_app es es' : minted_ids (es ++ es') = minted_ids es ++ minted_ids es'.
Proof. unfold minted_ids, tokens_added. by rewrite omap_app, fmap_app. Qed.
Lemma rules_added_app es es' : rules_added (es ++ es') = rules_added es ++ rules_added es'.
Proof. apply omap_app. Qed.

Lemma well_formed_nil : well_formed [].
Proof. constructor. Qed.

Lemma well_formed_snoc es e :
  well_formed es -> Forall (fun r => sr_scoped_token_id r ∈ minted_ids es) (rules_added [e]) ->
  well_formed (es ++ [e]).
Proof.
  unfold well_formed. rewrite rules_added_app, minted_ids_app. intros Hes He.
  apply Forall_app. split; (eapply Forall_impl; [done|]; intros r Hr; by apply elem_of_app; left).
Qed.

Lemma update_where_ids p f (l : list ScopedToken) :
  (forall t, st_id (f t) = st_id t) -> st_id <$> update_where p f l = st_id <$> l.
Proof.
  intros Hf. unfold update_where. rewrite <- list_fmap_compose. apply list_fmap_ext.
  intros i t _. simpl. by destruct (p t).
Qed.

(** *** What a transaction leaves *)

(** A token through rotations and revocations. *)
Definition token_lives (t t' : ScopedToken) : Prop :=
  st_id t' = st_id t /\ st_user_id t' = st_user_id t /\
  st_upstream_credential_id t' = st_upstream_credential_id t /\
  (st_status t' = st_status t \/ st_status t' ≠ u "active").

#[export] Instance token_lives_preorder : PreOrder token_lives.
Proof.
  split; [intros t; split_and!; by auto|]. intros t1 t2 t3 (I1 & U1 & C1 & S1) (I2 & U2 & C2 & S2).
  split_and!; [congruence..|]. destruct S2 as [S2|S2]; [rewrite S2|]; auto.
Qed.

Lemma token_update_lives p f (l : list ScopedToken) :
  (forall t, token_lives t (f t)) -> Forall2 token_lives l (update_where p f l).
Proof.
  intros Hf. unfold update_where. induction l as [|t l IH]; simpl; constructor; [by destruct (p t)|done].
Qed.

(** What a transaction does to the tables of tokens, rules and audit rows. *)
Record leaves (es : transaction) (d d' : database) : Prop := Leaves {
  leaves_tokens : exists l new, tokens d' = l ++ new /\ Forall2 token_lives (tokens d) l /\
    st_id <$> new = minted_ids es;
  leaves_rules : rules d' = rules d ++ rules_added es;
  leaves_audits : audits d `prefix_of` audits d';
}.

Lemma perform_leaves e d : leaves [e] d (perform d e).
Proof.
  assert (Hrefl : forall l : list ScopedToken, Forall2 token_lives l l) by by intros l; apply Forall_Forall2_diag, Forall_true.
  split; destruct e; simpl; rewrite ?app_nil_r; try done.
  all: try (eexists (tokens d), []; rewrite app_nil_r; by split_and!).
  - by eexists (tokens d), [t].
  - eexists _, []. rewrite app_nil_r. split_and!; [done| |done]. apply token_update_lives.
    intros t. by split_and!; [..|left].
  - eexists _, []. rewrite app_nil_r. split_and!; [done| |done]. apply token_update_lives.
    intros t. split_and!; [done..|]. by right.
  - by apply prefix_app_r.
Qed.

Lemma leaves_app es es' d1 d2 d3 : leaves es d1 d2 -> leaves es' d2 d3 -> leaves (es ++ es') d1 d3.
Proof.
  intros [(l & new & E & Hf & Hn) R1 A1] [(l' & new' & E' & Hf' & Hn') R2 A2]. split.
  - rewrite E in Hf'. apply Forall2_app_inv_l in Hf' as (l1 & l2 & H1 & H2 & ->).
    exists l1, (l2 ++ new'). split_and!; [by rewrite E', <- app_assoc|by etrans|].
    rewrite fmap_app, minted_ids_app, Hn'. f_equal. rewrite <- Hn. clear -H2.
    induction H2 as [|t t' l l' [Hid _] _ IH]; [done|]. rewrite !fmap_cons. by rewrite Hid, IH.
  - by rewrite R2, R1, rules_added_app, app_assoc.
  - by etrans.
Qed.

Lemma perform_all_leaves es d : leaves es d (perform_all es d).
Proof.
  induction es as [|e es IH] using rev_ind.
  - split; simpl; [|by rewrite app_nil_r|done]. exists (tokens d), []. rewrite app_nil_r.
    split_and!; [done| |done]. by apply Forall_Forall2_diag, Forall_true.
  - rewrite perform_all_snoc. eapply leaves_app; [done|apply perform_leaves].
Qed.
