(* ===== verification/System.v ===== *)
(** * The running system

    Every call the program serves (a raw request of any kind, a command of the
    console) as one step on the shared state, any number of them in any order,
    and what no sequence of calls can undo. *)

From S2P Require Import Prelude PyStr Json Scope Models World Envelopes Crypto Cache Locks.
From S2P Require Import OAuthCf Upstream Security AuditLogs OAuthService ProxyAuth Credentials.
From S2P Require Import Schemas Tokens Management Authorizer ListFilter ProxyDns App Server Console Statements.

(** ** Calls and steps *)

Section steps.
Context `{Env, AuthLibs, OidcLibs, Presentation, Pydantic, Router, Framework, ConsoleText}.

Inductive call :=
| CallRequest (fuel : nat) (rq : incoming)
| CallConsole (argv : list pystr).

(** A call in a session of its own (the console opens others as it goes); what
    it answers is dropped. *)
Definition run_call (c : call) : M unit :=
  match c with
  | CallRequest fuel rq => _ ← receive fuel rq; mret tt
  | CallConsole argv => _ ← open_session; _ ← main argv; mret tt
  end.

(** A step: a call, however it ends, or anything that leaves the committed
    tables alone (time, other processes, a restart, a flushed Redis). *)
Inductive step (w w' : world) : Prop :=
| step_call c : w' = (run_call c w).2 -> step w w'
| step_outside : w_db w' = w_db w -> step w w'.

Definition reachable : relation world := rtc step.
End steps.

(** ** Frames of the whole program

    A relation on worlds that the session primitives and the edits of the
    tables keep is kept by every call. *)
Section frames.
Context `{Env}.

Class Frame (R : relation world) := {
  #[global] frame_preorder :: PreOrder R;
  frame_steady : forall w w', steady w w' -> R w w';
  frame_rollback : forall w, R w (set_sess (fun _ => w_db w) w);
  frame_commit : forall w, constraints_ok env_dialect (w_sess w) = true -> R w (set_db (w_sess w) w);
  frame_ordinary : forall e w, ordinary e = true -> R w (set_sess (fun d => perform d e) w);
}.

(** Rotations, revocations and authentications, each as a whole. *)
Class FrameTokens (R : relation world) := {
  frame_rotate_token : forall user id, Keeps R (rotate_scoped_token user id);
  frame_revoke_token : forall user id, Keeps R (revoke_scoped_token user id);
  frame_resolve_token : forall full, Keeps R (resolve_scoped_token full);
}.

(** Minting adds a token and, once its id is known to be new, its rules. *)
Class FrameMint (R : relation world) :=
  frame_mint : forall user name credential rs expires,
    Keeps R (mint_scoped_token user name credential rs expires).

(** So does a deletion, once its cascade is done. *)
Class FrameDelete (R : relation world) :=
  frame_delete : forall user id, Keeps R (delete_credential user id).

Context (R : relation world) `{!Frame R}.

(** *** Session and environment *)

Lemma frame_of_steady {A} (m : M A) : Keeps steady m -> Keeps R m.
Proof. intros Hm w. by apply frame_steady. Qed.
Lemma sys_tick : Keeps R tick.
Proof. apply frame_of_steady, steady_tick. Qed.
(** What changes neither the clock, the tables nor the cache. *)
Lemma sys_modify f :
  (forall w, same_db w (f w)) ->
  (forall w, w_tick (f w) = w_tick w /\ w_redis (f w) = w_redis w /\ w_jwks (f w) = w_jwks w /\
     w_trace (f w) = w_trace w) ->
  Keeps R (modify f).
Proof.
  intros Hf Ht. apply frame_of_steady, steady_modify. intros w. destruct (Ht w) as (Et & Er & Ej & El).
  apply steady_same; [done|by rewrite Et|done|by rewrite El|rewrite Er; apply rules_lost_refl].
Qed.
Lemma sys_http rq : Keeps R (http rq).
Proof. apply frame_of_steady, steady_http. Qed.
Lemma sys_db_query {A} (f : database -> A) : Keeps R (db_query f).
Proof. apply frame_of_steady, steady_db_query. Qed.
Lemma sys_rollback : Keeps R rollback.
Proof. intros w. apply frame_rollback. Qed.
Hint Resolve sys_tick sys_http sys_db_query sys_rollback : keeps.
Lemma sys_cache_get key : Keeps R (cache_get_json key).
Proof. apply frame_of_steady, steady_cache_get. Qed.
Lemma sys_cache_set key v ttl : other_key key -> Keeps R (cache_set_json key v ttl).
Proof. intros Hk. by apply frame_of_steady, steady_cache_set. Qed.
Lemma sys_cache_del keys : Keeps R (cache_del keys).
Proof. apply frame_of_steady, steady_cache_del. Qed.
Hint Resolve sys_cache_get sys_cache_set sys_cache_del other_oauth_at other_zones other_oauth_state : keeps.
Hint Extern 2 (Keeps R (modify _)) => by apply sys_modify : keeps.

Lemma sys_flush : Keeps R flush.
Proof. unfold flush. solve_keeps. Qed.
Lemma sys_commit : Keeps R commit.
Proof.
  intros w. unfold commit, mbind, M_bind. pose proof (sys_flush w) as Hf.
  destruct (flush w) as [[[]|e] w1] eqn:E; simpl in *; [|done]. etrans; [exact Hf|].
  apply flush_Ok in E as (_ & Hc & ->). by apply frame_commit.
Qed.
Lemma sys_open : Keeps R open_session.
Proof. apply sys_rollback. Qed.
Lemma sys_now : Keeps R now.
Proof. unfold now. solve_keeps. Qed.
Lemma sys_new_uuid : Keeps R _new_uuid.
Proof. unfold _new_uuid. solve_keeps. Qed.
Lemma sys_refresh_row {A} (table : database -> list A) key id : Keeps R (refresh_row table key id).
Proof. unfold refresh_row. solve_keeps. Qed.
Hint Resolve sys_flush sys_commit sys_open sys_now sys_new_uuid sys_refresh_row : keeps.

(** *** Edits of the tables *)

Lemma sys_insert_user x : Keeps R (sess_modify (set_users (fun l => l ++ [x]))).
Proof. intros w. by apply (frame_ordinary (InsertUser x)). Qed.
Lemma sys_update_email id email n :
  Keeps R (sess_modify (set_users (update_where (fun x => bool_decide (u_id x = id)) (set_user_email email n)))).
Proof. intros w. by apply (frame_ordinary (UpdateUserEmail id email n)). Qed.
Lemma sys_insert_credential c : Keeps R (sess_modify (set_credentials (fun l => l ++ [c]))).
Proof. intros w. by apply (frame_ordinary (InsertCredential c)). Qed.
Lemma sys_verified id status n email :
  Keeps R (sess_modify (set_credentials (update_where (fun c => bool_decide (uc_id c = id))
    (verified_credential status n email)))).
Proof. intros w. by apply (frame_ordinary (VerifyCredential id status n email)). Qed.
Lemma sys_consented id scopes bump access refresh expires :
  Keeps R (sess_modify (set_credentials (update_where (fun c => bool_decide (uc_id c = id))
    (consented scopes bump access refresh expires)))).
Proof. intros w. by apply (frame_ordinary (ConsentCredential id scopes bump access refresh expires)). Qed.
Lemma sys_insert_version v : Keeps R (sess_modify (set_schema_versions (fun l => l ++ [v]))).
Proof. intros w. by apply (frame_ordinary (InsertVersion v)). Qed.
Lemma sys_insert_audit a : Keeps R (sess_modify (set_audits (fun l => l ++ [a]))).
Proof. intros w. by apply (frame_ordinary (InsertAudit a)). Qed.
Lemma sys_rotated id held access refresh expires version :
  Keeps R (db_execute (set_credentials (update_where
    (fun c => bool_decide (uc_id c = id) && (uc_cred_version c =? held)%Z)
    (rotate_credential access refresh expires version)))).
Proof.
  intros w. unfold db_execute, tick, modify, raise, mbind, M_bind.
  destruct (db_down (w_tick w)); simpl; [apply (sys_tick w)|].
  etrans; [|by apply (frame_ordinary (RotateCredential id held access refresh expires version))]. apply (sys_tick w).
Qed.
Hint Resolve sys_insert_user sys_update_email sys_insert_credential sys_verified sys_consented
  sys_insert_version sys_insert_audit sys_rotated : keeps.

(** *** Upstream and the services *)

Lemma sys_get_cf_client : Keeps R get_cf_client.
Proof. unfold get_cf_client. solve_keeps. Qed.
Hint Resolve sys_get_cf_client : keeps.
Lemma sys_forward m p ch ps b a : Keeps R (forward_request m p ch ps b a).
Proof. unfold forward_request. solve_keeps. Qed.
Hint Resolve sys_forward : keeps.
Lemma sys_encrypt p : Keeps R (encrypt_secret p).
Proof. unfold encrypt_secret. solve_keeps. Qed.
Lemma sys_post_token data : Keeps R (post_token data).
Proof. unfold post_token. solve_keeps. Qed.
Hint Resolve sys_encrypt sys_post_token : keeps.
Lemma sys_get_valid_access_token c : Keeps R (get_valid_access_token c).
Proof. unfold get_valid_access_token, refresh_access_token. solve_keeps. Qed.
Hint Resolve sys_get_valid_access_token : keeps.
Lemma sys_resolve_auth c : Keeps R (resolve_upstream_auth c).
Proof. unfold resolve_upstream_auth. solve_keeps. Qed.
Lemma sys_fetch zone rid auth : Keeps R (fetch_cf_record zone rid auth).
Proof. unfold fetch_cf_record. solve_keeps. Qed.
Lemma sys_list_all fuel zone params auth : Keeps R (list_all_records fuel zone params auth).
Proof.
  unfold list_all_records. generalize (@nil json), 1%Z.
  induction fuel as [|fuel IH]; intros acc page; cbn [list_all_records_loop]; solve_keeps.
Qed.
Lemma sys_write_audit f : Keeps R (write_audit f).
Proof. unfold write_audit. solve_keeps. Qed.
Hint Resolve sys_resolve_auth sys_fetch sys_list_all sys_write_audit : keeps.

Lemma sys_owned_credential user id : Keeps R (get_owned_credential user id).
Proof. unfold get_owned_credential. solve_keeps. Qed.
Lemma sys_owned_token user id : Keeps R (_get_owned_scoped_token user id).
Proof. unfold _get_owned_scoped_token. solve_keeps. Qed.
Hint Resolve sys_owned_credential sys_owned_token : keeps.
Lemma sys_credential_zones fuel user id : Keeps R (list_credential_zones fuel user id).
Proof.
  assert (Hloop : forall auth zones page, Keeps R (credential_zones_loop fuel auth zones page)).
  { intros auth. induction fuel as [|k IH]; intros zones page; cbn [credential_zones_loop]; solve_keeps. }
  unfold list_credential_zones. solve_keeps.
Qed.
Lemma sys_verify_credential user id : Keeps R (verify_credential user id).
Proof. unfold verify_credential, verify_upstream. solve_keeps. Qed.
Lemma sys_register_credential user label type token key email :
  Keeps R (register_credential user label type token key email).
Proof. unfold register_credential. solve_keeps. Qed.
Hint Resolve sys_credential_zones sys_verify_credential
  sys_register_credential : keeps.

Lemma sys_validate c cache auth rs : Keeps R (validate_rules_loop c cache auth rs).
Proof.
  revert cache auth. induction rs as [|r rs IH]; intros cache auth; simpl; [solve_keeps|].
  unfold _resolve_zone_name. solve_keeps.
Qed.
Hint Resolve sys_validate : keeps.
Lemma sys_generate : Keeps R generate_scoped_token.
Proof.
  assert (Hs : forall k, Keeps R (_generate_random_string k)).
  { induction k; simpl; unfold secrets_choice; solve_keeps. }
  unfold generate_scoped_token. solve_keeps.
Qed.
Hint Resolve sys_generate : keeps.
(** A mint, when its rows are added under [R]. *)
Lemma sys_mint_token user name credential rs expires :
  (forall id g n, Keeps R (
     _ ← sess_modify (set_tokens (fun l => l ++ [new_token id user credential name g (dt_wall <$> expires) n]));
     _ ← flush;
     _ ← for_each rs (add_rule id);
     _ ← commit;
     row ← refresh_row tokens st_id id;
     mret (Minted (st_id row) (st_name row) (g_full g) (st_token_prefix row) (st_status row)
             (st_version row) (st_expires_at row) (st_created_at row)))) ->
  Keeps R (mint_scoped_token user name credential rs expires).
Proof. intros Hrows. unfold mint_scoped_token, _validate_scope_rules. solve_keeps. Qed.
(** *** The endpoints *)

Context `{!FrameMint R, !FrameDelete R, !FrameTokens R, AuthLibs, OidcLibs, Presentation, Pydantic, Router, Framework, ConsoleText}.
Hint Resolve frame_mint frame_delete frame_rotate_token frame_revoke_token frame_resolve_token : keeps.

Lemma sys_require authorization : Keeps R (require_scoped_token authorization).
Proof. unfold require_scoped_token. solve_keeps. Qed.
Hint Resolve sys_require : keeps.

Lemma sys_current_user auth : Keeps R (get_current_user auth).
Proof. unfold get_current_user, decode_jwt. solve_keeps. Qed.
Hint Resolve sys_current_user : keeps.
Lemma sys_create_jwt sub : Keeps R (create_jwt sub).
Proof. unfold create_jwt. solve_keeps. Qed.
Hint Resolve sys_create_jwt : keeps.
Lemma sys_hash_password pw : Keeps R (hash_password pw).
Proof. unfold hash_password. solve_keeps. Qed.
Lemma sys_verify_password pw h : Keeps R (verify_password pw h).
Proof. unfold verify_password. solve_keeps. Qed.
Hint Resolve sys_hash_password sys_verify_password : keeps.

Lemma sys_plain_get url hs : Keeps R (plain_get url hs).
Proof. unfold plain_get. solve_keeps. Qed.
Hint Resolve sys_plain_get : keeps.
(** The key set is replaced only by what its address answered, or forgotten. *)
Lemma steady_fetch_jwks : Keeps steady fetch_jwks.
Proof.
  intros w. split_and!; [|apply fetch_jwks_kept|].
  - pose proof keeps_http_db. revert w. change (Keeps same_db fetch_jwks). unfold fetch_jwks, plain_get. solve_keeps.
  - unfold fetch_jwks, tick, gets, modify, mbind, M_bind. simpl.
    destruct (w_jwks w) as [j at_]; simpl. destruct (_ && _); [by intros l v e|]. unfold plain_get, http, lift, mbind, M_bind.
    destruct (cf_request _ _) as [[r|] c]; simpl; [|by intros ? ? ?].
    destruct (raise_for_status r); simpl; [|by intros ? ? ?]. destruct (response_json r); by intros ? ? ?.
Qed.
Lemma steady_clear_jwks : Keeps steady clear_jwks_cache.
Proof. intros w. split_and!; [done|apply clear_jwks_kept|by intros ? ? ?]. Qed.
Lemma sys_fetch_jwks : Keeps R fetch_jwks.
Proof. apply frame_of_steady, steady_fetch_jwks. Qed.
Lemma sys_clear_jwks : Keeps R clear_jwks_cache.
Proof. apply frame_of_steady, steady_clear_jwks. Qed.
Hint Resolve sys_fetch_jwks sys_clear_jwks : keeps.
Lemma sys_validate_id_token token nonce access code : Keeps R (validate_id_token token nonce access code).
Proof. unfold validate_id_token, _resolve_signing_key, jwks_matches. solve_keeps. Qed.
Lemma sys_consume state : Keeps R (_consume_oauth_state state).
Proof.
  unfold _consume_oauth_state, redis_getdel.
  assert (Hget : forall key, Keeps R (swallow (redis_getdel key) None)).
  { intros. apply frame_of_steady, steady_swallow, steady_redis_getdel. }
  unfold redis_getdel in Hget. solve_keeps.
Qed.
Hint Resolve sys_validate_id_token sys_consume : keeps.
Lemma sys_upsert_user sub email n : Keeps R (upsert_user sub email n).
Proof. unfold upsert_user. solve_keeps. Qed.
Lemma sys_store_consent user tokens n : Keeps R (store_consent user tokens n).
Proof. unfold store_consent, encrypt_given. solve_keeps. Qed.
Hint Resolve sys_upsert_user sys_store_consent : keeps.
Lemma sys_callback code state : Keeps R (handle_cf_oauth_callback code state).
Proof. unfold handle_cf_oauth_callback, exchange_code. solve_keeps. Qed.
Lemma sys_cf_login : Keeps R cf_login.
Proof. unfold cf_login, start_cf_oauth_login, make_pkce, token_urlsafe. solve_keeps. Qed.
Hint Resolve sys_callback sys_cf_login : keeps.

Lemma sys_management c : Keeps R (management_handler c).
Proof.
  destruct c; simpl; unfold register, login, read_me, cf_callback, create_credential,
    get_credentials, list_credentials, remove_credential, post_verify, get_credential_zones,
    list_zone_records, list_credential_zone_records, create_scoped_token, get_scoped_tokens,
    list_scoped_tokens, get_scoped_token, get_scoped_token_detail, post_rotate,
    delete_scoped_token, get_audit_logs, list_audit_logs, answer_404, answer_400; solve_keeps.
Qed.

Lemma sys_record_audit ctx m p dec z rid n t pre post reason st ip :
  Keeps R (_record_audit ctx m p dec z rid n t pre post reason st ip).
Proof. unfold _record_audit, swallow. solve_keeps. Qed.
Hint Resolve sys_record_audit : keeps.
Lemma sys_authorize ctx method zone rid body auth :
  Keeps R (_authorize_by_id ctx method zone rid body auth).
Proof. unfold _authorize_by_id, authorize_dns_request, _fetch_record. solve_keeps. Qed.
Hint Resolve sys_authorize : keeps.
Lemma sys_closure ctx method zone rid body sent auth :
  Keeps R (_authorize_and_forward ctx method zone rid body sent auth).
Proof. unfold _authorize_and_forward. solve_keeps. Qed.
Hint Resolve sys_closure : keeps.
Lemma sys_lock {A} name (m : M A) : Keeps R m -> Keeps R (advisory_lock name m).
Proof.
  intros Hm. apply (keeps_advisory_lock R); [apply sys_tick|intros; apply frame_steady, steady_same; [done|simpl; lia|done|simpl; first [done|by apply prefix_app_r]|apply rules_lost_refl]..|done].
Qed.
Hint Resolve sys_lock : keeps.
Lemma sys_mutate method zone rid body sent ctx rq :
  Keeps R (_mutate_dns_record_by_id method zone rid body sent ctx rq).
Proof.
  assert (Hc : Keeps R engine_connect) by (unfold engine_connect; solve_keeps).
  unfold _mutate_dns_record_by_id, mutation_response. solve_keeps.
Qed.
Hint Resolve sys_mutate : keeps.
Lemma sys_fetch_zones fuel auth params : Keeps R (_fetch_all_zones fuel auth params).
Proof.
  unfold _fetch_all_zones. generalize (@nil json), 1%Z.
  induction fuel as [|fuel IH]; intros zones page; cbn [fetch_all_zones_loop]; solve_keeps.
Qed.
Hint Resolve sys_fetch_zones : keeps.

Lemma sys_proxied authorization c : Keeps R (proxied authorization c).
Proof.
  unfold proxied. destruct c; simpl; unfold list_zones, list_dns_records, create_dns_record,
    get_dns_record, patch_dns_record, put_dns_record, delete_dns_record, authorize_dns_request,
    _unused_fetch_record; solve_keeps.
Qed.

Lemma sys_console argv : Keeps R (main argv).
Proof.
  assert (Hc : Keeps R engine_connect) by (unfold engine_connect; solve_keeps).
  assert (Hddl : Keeps R (_ ← create_all; connection_commit))
    by (unfold create_all, connection_commit; solve_keeps).
  assert (Hping : Keeps R redis_ping).
  { apply frame_of_steady, steady_redis_command. solve_keeps. }
  unfold main. destruct (parse_args argv) as [st|c]; [solve_keeps|].
  destruct c; simpl; unfold init_db_command, init_db, record_schema_version,
    bootstrap_admin_command, discover_scope_command, discover_dns_scope, tail_audit_command,
    health_command, check_database, check_redis; solve_keeps.
Qed.

Lemma sys_readyz : Keeps R readyz.
Proof.
  assert (Hc : Keeps R engine_connect) by (unfold engine_connect; solve_keeps).
  assert (Hping : Keeps R redis_ping).
  { apply frame_of_steady, steady_redis_command. solve_keeps. }
  unfold readyz, check_database, check_redis. solve_keeps.
Qed.

Lemma sys_receive fuel rq : Keeps R (receive fuel rq).
Proof.
  pose proof sys_management. pose proof sys_proxied. pose proof sys_readyz.
  unfold receive, answer_route, serve, call_endpoint, management_endpoint. solve_keeps.
Qed.

(** A call keeps [R] from the moment its session is open. *)
Lemma call_frame c w : R (set_sess (fun _ => w_db w) w) (run_call c w).2.
Proof.
  pose proof sys_receive. pose proof sys_console.
  assert (Hc : Keeps R (run_call c)) by (destruct c; simpl; solve_keeps).
  assert (E : run_call c w = run_call c (set_sess (fun _ => w_db w) w)) by by destruct c.
  rewrite E. apply Hc.
Qed.
End frames.

(** ** Frames of the tables

    A relation that looks at the tables only, and that the edits of a rotation
    and of a revocation keep. *)
Section table_frames.
Context `{Env}.

Class FrameTables (R : relation world) := {
  #[global] frame_tables_frame :: Frame R;
  frame_same : forall w w', same_db w w' -> jwks_kept w w' -> R w w';
  frame_token_update : forall e w, token_update e = true -> R w (set_sess (fun d => perform d e) w);
}.

Context (R : relation world) `{!FrameTables R}.

Lemma frame_of_same {A} (m : M A) : Keeps same_db m -> Keeps jwks_kept m -> Keeps R m.
Proof. intros Hm Hj w. by apply frame_same. Qed.
Lemma sys_rotated_token id g :
  Keeps R (sess_modify (set_tokens (update_where (fun t => bool_decide (st_id t = id)) (rotated_token g)))).
Proof. intros w. by apply (frame_token_update (RotateToken id g)). Qed.
Lemma sys_revoked_token id n :
  Keeps R (sess_modify (set_tokens (update_where (fun t => bool_decide (st_id t = id)) (revoked_token n)))).
Proof. intros w. by apply (frame_token_update (RevokeToken id n)). Qed.
Hint Resolve sys_rotated_token sys_revoked_token sys_tick sys_http sys_db_query sys_rollback sys_commit sys_now
  sys_refresh_row sys_cache_del sys_owned_credential sys_owned_token sys_generate : keeps.

Lemma sys_load_rules t : Keeps R (_load_rules t).
Proof.
  unfold _load_rules, _set_cached_rules.
  assert (Hget : forall key, Keeps R (_get_cached_rules key)).
  { intros. apply frame_of_same; unfold _get_cached_rules, redis_get, swallow, redis_command; solve_keeps. }
  assert (Hset : forall key rs ttl, Keeps R (swallow (redis_set key (JArr rs) ttl) tt)).
  { intros. apply frame_of_same; [apply keeps_swallow_db, keeps_redis_set_db|].
    unfold swallow, redis_set, redis_command. solve_keeps. }
  solve_keeps.
Qed.
Hint Resolve sys_load_rules : keeps.
Lemma sys_resolve full : Keeps R (resolve_scoped_token full).
Proof. unfold resolve_scoped_token, expired. solve_keeps. Qed.
(** A deletion, when that of the row is under [R]. *)
Lemma sys_delete_credential user id :
  (forall c w, R w (set_sess (fun d => perform d (DeleteCredential c)) w)) -> Keeps R (delete_credential user id).
Proof.
  intros Hd. assert (Hrow : forall c, Keeps R (sess_modify (set_credentials
    (delete_where (fun c0 => bool_decide (uc_id c0 = c)))))) by (intros c w; apply Hd).
  unfold delete_credential, revoke_dependent. solve_keeps.
Qed.
Lemma sys_rotate_token user id : Keeps R (rotate_scoped_token user id).
Proof. unfold rotate_scoped_token. solve_keeps. Qed.
Lemma sys_revoke_token user id : Keeps R (revoke_scoped_token user id).
Proof. unfold revoke_scoped_token. solve_keeps. Qed.

#[export] Instance table_frame_tokens : FrameTokens R.
Proof. split; [apply sys_rotate_token|apply sys_revoke_token|apply sys_resolve]. Qed.

(** A mint and a deletion, when every statement is under [R]. *)
Lemma frame_mint_of_edits : (forall e w, R w (set_sess (fun d => perform d e) w)) -> FrameMint R.
Proof.
  intros He user name credential rs expires. apply (sys_mint_token R). intros id g n.
  assert (Ht : forall t, Keeps R (sess_modify (set_tokens (fun l => l ++ [t]))))
    by (intros t w; apply (He (InsertToken t))).
  assert (Hr : forall r, Keeps R (sess_modify (set_rules (fun l => l ++ [r]))))
    by (intros r w; apply (He (InsertRule r))).
  pose proof (sys_flush R). pose proof (sys_new_uuid R). unfold add_rule. solve_keeps.
Qed.
Lemma frame_delete_of_edits : (forall e w, R w (set_sess (fun d => perform d e) w)) -> FrameDelete R.
Proof. intros He user id. apply sys_delete_credential. intros c w. apply He. Qed.
End table_frames.

(** ** Evolutions of the tables

    A preorder [E] on databases, kept by the edits: [Since E] compares the
    tables of any earlier moment with both the committed tables and those of
    the session. *)
Section evolutions.
Context `{Env}.

Definition both (E : relation database) (d0 : database) (w : world) : Prop :=
  E d0 (w_db w) /\ E d0 (w_sess w).
Definition Since (E : relation database) : relation world :=
  fun w w' => forall d0, both E d0 w -> both E d0 w'.

Class Evolution (E : relation database) := {
  #[global] evolution_preorder :: PreOrder E;
  evolution_edit : forall e d, rules_added [e] = [] -> E d (perform d e);
}.

Context (E : relation database) `{!Evolution E}.

#[export] Instance since_preorder : PreOrder (Since E).
Proof. split; [by intros w d0|]. intros w1 w2 w3 H12 H23 d0 Hb. by apply H23, H12. Qed.

Lemma since_edit f w : (forall d, E d (f d)) -> Since E w (set_sess f w).
Proof. intros Hf d0 [Hd Hs]. split; [done|]. simpl. by etrans. Qed.

#[export] Instance since_frame : Frame (Since E).
Proof.
  split.
  - apply _.
  - intros w w' [(Hd & Hs & _) _] d0 [H1 H2]. split; congruence.
  - by intros w d0 [Hd _].
  - by intros w _ d0 [_ Hs].
  - intros e w He. apply since_edit. intros d. apply evolution_edit. by destruct e.
Qed.

#[export] Instance since_tables : FrameTables (Since E).
Proof.
  split; [apply _|..].
  - intros w w' (Hd & Hs & _) _ d0 [H1 H2]. split; congruence.
  - intros e w He. apply since_edit. intros d. apply evolution_edit. by destruct e.
Qed.

#[export] Instance since_delete : FrameDelete (Since E).
Proof.
  intros user id. apply (sys_delete_credential (Since E)).
  intros c w. apply since_edit. intros d. by apply evolution_edit.
Qed.

(** When the evolution does not look at the rules, a mint is some statements. *)
Lemma since_mint : (forall r d, E d (perform d (InsertRule r))) -> FrameMint (Since E).
Proof.
  intros Hrule. apply (frame_mint_of_edits (Since E)). intros e w. apply since_edit. intros d.
  destruct e; try apply Hrule; by apply evolution_edit.
Qed.
End evolutions.

(** ** The evolutions of the program *)

(** No audit row is changed or lost. *)
Definition audits_grow : relation database := fun d d' => audits d `prefix_of` audits d'.

#[export] Instance audits_grow_evolution : Evolution audits_grow.
Proof.
  unfold audits_grow. split.
  - split; [by intros d|]. intros d1 d2 d3. by etrans.
  - intros e d _. apply (perform_leaves e d).
Qed.

(** A token is for life: it keeps its id, owner and credential, its version
    only grows, and once it is not active it never is again. *)
Definition token_follows (t t' : ScopedToken) : Prop :=
  st_id t' = st_id t /\ st_user_id t' = st_user_id t /\
  st_upstream_credential_id t' = st_upstream_credential_id t /\
  (st_version t <= st_version t')%Z /\
  (st_status t ≠ u "active" -> st_status t' ≠ u "active").

Definition tokens_last : relation database := fun d d' =>
  forall t, t ∈ tokens d -> exists t', t' ∈ tokens d' /\ token_follows t t'.

#[export] Instance token_follows_preorder : PreOrder token_follows.
Proof.
  split.
  - intros t. by split_and!.
  - intros t1 t2 t3 (I1 & U1 & C1 & V1 & S1) (I2 & U2 & C2 & V2 & S2).
    split_and!; [congruence..|lia|auto].
Qed.

Lemma tokens_last_update p f d :
  (forall t, token_follows t (f t)) -> tokens_last d (set_tokens (update_where p f) d).
Proof.
  intros Hf t Ht. exists (if p t then f t else t). split; [by apply list_elem_of_fmap; exists t|].
  destruct (p t); [apply Hf|done].
Qed.

#[export] Instance tokens_last_evolution : Evolution tokens_last.
Proof.
  split.
  - split; [intros d t Ht; by exists t|]. intros d1 d2 d3 H12 H23 t (t2 & Ht2 & F12)%H12.
    destruct (H23 t2 Ht2) as (t3 & Ht3 & F23). exists t3. split; [done|by etrans].
  - intros e d _. destruct e; try (intros t0 Ht; by exists t0).
    + intros t0 Ht. exists t0. split; [by apply elem_of_app; left|done].
    + apply tokens_last_update. intros t. split_and!; simpl; [done..|lia|done].
    + apply tokens_last_update. intros t. split_and!; simpl; [done..|lia|done].
Qed.

(** The rules of a token are those it was minted with. *)
Definition scopes_fixed : relation database := fun d d' =>
  forall id, id ∈ st_id <$> tokens d -> id ∈ st_id <$> tokens d' /\ rules_of id d' = rules_of id d.

#[export] Instance scopes_fixed_evolution : Evolution scopes_fixed.
Proof.
  split.
  - split; [by intros d id|]. intros d1 d2 d3 H12 H23 id [Hin Hr]%H12.
    apply H23 in Hin as [Hin Hr']. split; [done|congruence].
  - intros e d He id Hid. destruct e; try done; simpl in *.
    + split; [|done]. rewrite fmap_app. by apply elem_of_app; left.
    + by rewrite update_where_ids.
    + by rewrite update_where_ids.
Qed.

Section scopes.
Context `{Env}.

(** The relation to one earlier moment. *)
Definition SinceAt (d0 : database) : relation world :=
  fun w w' => both scopes_fixed d0 w -> both scopes_fixed d0 w'.

#[export] Instance since_at_preorder d0 : PreOrder (SinceAt d0).
Proof. split; [by intros w Hb|]. intros w1 w2 w3 H12 H23 Hb. auto. Qed.

Lemma since_at {A} d0 (m : M A) : Keeps (Since scopes_fixed) m -> Keeps (SinceAt d0) m.
Proof. intros Hm w. exact (Hm w d0). Qed.

(** Rules of a new token concern no token of that moment. *)
Lemma add_rule_scopes d0 id r :
  id ∉ st_id <$> tokens d0 -> Keeps (SinceAt d0) (add_rule id r).
Proof.
  intros Hnew. unfold add_rule.
  apply keeps_bind; [apply _|apply since_at, (sys_new_uuid (Since scopes_fixed))|]. intros rid.
  apply keeps_bind; [apply _|apply since_at, (sys_now (Since scopes_fixed))|]. intros n.
  intros w [Hd Hs]. split; [done|]. intros id' Hid'. destruct (Hs id' Hid') as [Hin Hr].
  split; [done|]. rewrite <- Hr. unfold rules_of, select_where. simpl.
  rewrite filter_app, fmap_app. rewrite (filter_cons_False _ _ []); [by rewrite app_nil_r|].
  rewrite bool_decide_eq_true. by intros <-.
Qed.

(** A minted id passes the flush only when it is no token's yet. *)
Lemma flushed_id_new d0 w id t :
  both scopes_fixed d0 w -> st_id t = id ->
  constraints_ok env_dialect (w_sess (set_sess (set_tokens (fun l => l ++ [t])) w)) = true ->
  id ∉ st_id <$> tokens d0.
Proof.
  intros [_ Hs] Hid [Hnd _]%constraints_keys%keys_ok_tokens Hin. apply Hs in Hin as [Hin _].
  simpl in Hnd. rewrite fmap_app, NoDup_app in Hnd. destruct Hnd as (_ & Hdisj & _).
  apply (Hdisj id Hin). simpl. rewrite Hid. by left.
Qed.

#[export] Instance scopes_fixed_mint : FrameMint (Since scopes_fixed).
Proof.
  intros user name credential rs expires. apply (sys_mint_token (Since scopes_fixed)).
  intros id g n w d0 Hb. set (t := new_token _ _ _ _ _ _ _).
  assert (Hb1 : both scopes_fixed d0 (set_sess (set_tokens (fun l => l ++ [t])) w))
    by (by apply (since_edit scopes_fixed); [intros d; apply (evolution_edit (InsertToken t))|]).
  pose proof (sys_flush (Since scopes_fixed) _ d0 Hb1) as Hb2.
  unfold mbind, M_bind, sess_modify, modify.
  destruct (flush _) as [[[]|e] w2] eqn:Ef; [|done].
  apply flush_Ok in Ef as (_ & Hc & _).
  pose proof (flushed_id_new d0 w id t Hb eq_refl Hc) as Hnew. revert Hb2. simpl.
  assert (Hrest : Keeps (SinceAt d0) (
    _ ← for_each rs (add_rule id); _ ← commit; row ← refresh_row tokens st_id id;
    mret (Minted (st_id row) (st_name row) (g_full g) (st_token_prefix row) (st_status row)
            (st_version row) (st_expires_at row) (st_created_at row)))).
  { apply keeps_bind; [apply _| |intros _].
    { apply keeps_for_each; [apply _|]. intros r _. by apply add_rule_scopes. }
    apply since_at. pose proof (sys_commit (Since scopes_fixed)).
    pose proof (sys_refresh_row (Since scopes_fixed) tokens st_id id). solve_keeps. }
  apply (Hrest w2).
Qed.
End scopes.

(** The schema's keys hold of what is committed. *)
Section committed_keys.
Context `{Env}.

Definition keys_kept : relation world :=
  fun w w' => keys_ok (w_db w) = true -> keys_ok (w_db w') = true.

#[export] Instance keys_kept_frame : Frame keys_kept.
Proof.
  unfold keys_kept. split; try done.
  - split; [by intros w|]. intros w1 w2 w3. auto.
  - by intros w w' [[-> _] _].
  - intros w Hc _. simpl. by eapply constraints_keys.
Qed.

#[export] Instance keys_kept_tables : FrameTables keys_kept.
Proof. unfold keys_kept. split; [apply _|by intros w w' [-> _]|done]. Qed.

#[export] Instance keys_kept_delete : FrameDelete keys_kept.
Proof. apply (frame_delete_of_edits keys_kept). by intros e w Hk. Qed.
#[export] Instance keys_kept_mint : FrameMint keys_kept.
Proof. apply (frame_mint_of_edits keys_kept). by intros e w Hk. Qed.
End committed_keys.

(** What the process holds as the issuer's key set was fetched from the issuer. *)
Section fetched_keys.
Context `{Env}.

Lemma jwks_kept_edit f w : jwks_kept w (set_sess f w).
Proof. by apply jwks_kept_same. Qed.

#[export] Instance jwks_kept_frame : Frame jwks_kept.
Proof.
  split.
  - apply _.
  - by intros w w' (_ & Hj & _).
  - intros w. apply jwks_kept_edit.
  - intros w _. by apply jwks_kept_same.
  - intros e w _. apply jwks_kept_edit.
Qed.

#[export] Instance jwks_kept_tables : FrameTables jwks_kept.
Proof. split; [apply _|done|]. intros e w _. apply jwks_kept_edit. Qed.

#[export] Instance jwks_kept_delete : FrameDelete jwks_kept.
Proof. apply (frame_delete_of_edits jwks_kept). intros e w. apply jwks_kept_edit. Qed.

#[export] Instance jwks_kept_mint : FrameMint jwks_kept.
Proof. apply (frame_mint_of_edits jwks_kept). intros e w. apply jwks_kept_edit. Qed.
End fetched_keys.

(** ** Any number of calls *)

Section reachability.
Context `{Env, AuthLibs, OidcLibs, Presentation, Pydantic, Router, Framework, ConsoleText}.

Lemma reachable_evolves (E : relation database) `{!Evolution E, !FrameMint (Since E)} w w' :
  reachable w w' -> E (w_db w) (w_db w').
Proof.
  induction 1 as [w|w1 w2 w3 Hstep _ IH]; [done|]. etrans; [|exact IH].
  destruct Hstep as [c ->|E12]; [|by rewrite E12].
  by apply (call_frame (Since E) c w1).
Qed.

Lemma reachable_keys w w' : reachable w w' -> keys_ok (w_db w) = true -> keys_ok (w_db w') = true.
Proof.
  induction 1 as [w|w1 w2 w3 Hstep _ IH]; [done|]. intros Hk. apply IH.
  destruct Hstep as [c ->|E12]; [|by rewrite E12].
  by apply (call_frame keys_kept c w1).
Qed.

#[local] Instance tokens_last_mint : FrameMint (Since tokens_last).
Proof. apply (since_mint tokens_last). intros r d t Ht. by exists t. Qed.

#[local] Instance audits_grow_mint : FrameMint (Since audits_grow).
Proof. apply (since_mint audits_grow). intros r d. by unfold audits_grow. Qed.

(** No call, however it ends, puts anything else than a key set answered by the
    issuer where [validate_id_token] looks for one; a new process has none. *)
Lemma call_keeps_jwks c w : jwks_fetched w -> jwks_fetched (run_call c w).2.
Proof. intros Hw. apply (call_frame jwks_kept c w). by apply (jwks_kept_edit (fun _ => w_db w)). Qed.

(** C11: a token that is not active is dead for good: whatever calls follow one
    another, by whomever and in whatever order, with the cache lost or the
    process restarted in between, no string is ever again resolved to that token. *)
Theorem revocation_is_permanent t w w' full ctx w2 :
  keys_ok (w_db w) = true -> t ∈ tokens (w_db w) -> st_status t ≠ u "active" ->
  reachable w w' ->
  (open_session ≫= fun _ => resolve_scoped_token full) w' = (Ok (Some ctx), w2) ->
  st_id (ctx_token ctx) ≠ st_id t.
Proof.
  intros Hk Ht Hst Hreach Hrun Heq.
  apply M_bind_Ok in Hrun as ([] & w1 & [= <-] & Hrun).
  apply resolve_inv in Hrun as [[Hin _ _ Hact _ _ _] _]. simpl in Hin.
  destruct (reachable_evolves tokens_last _ _ Hreach t Ht) as (t' & Ht' & Hid & _ & _ & _ & Hst').
  assert (E : ctx_token ctx = t').
  { eapply (NoDup_fmap_inj st_id); [|exact Hin|exact Ht'|congruence].
    by apply keys_ok_tokens, (reachable_keys w). }
  apply Hst'; [done|congruence].
Qed.

(** What a token may do is settled when it is minted: through any calls it
    remains a row of the table with the same id, owner and credential and a
    version that only grows, and its rules are exactly those it had. *)
Theorem token_scope_is_fixed t w w' :
  t ∈ tokens (w_db w) -> reachable w w' ->
  (exists t', t' ∈ tokens (w_db w') /\ token_follows t t') /\
  rules_of (st_id t) (w_db w') = rules_of (st_id t) (w_db w).
Proof.
  intros Ht Hreach. split.
  - exact (reachable_evolves tokens_last _ _ Hreach t Ht).
  - apply (reachable_evolves scopes_fixed _ _ Hreach). by apply list_elem_of_fmap_2.
Qed.

(** The audit log is append-only: no sequence of calls changes, reorders or
    removes a committed entry. *)
Theorem audit_log_append_only w w' :
  reachable w w' -> audits (w_db w) `prefix_of` audits (w_db w').
Proof. apply (reachable_evolves audits_grow). Qed.
End reachability.
