(* ===== verification/Tenancy.v ===== *)
(** * Tenants stay apart

    An active token works with a credential of its owner: no call, by whoever
    it is made, ever lets a string be authenticated with the credential of
    somebody else. The deletion of a credential (which leaves its tokens behind
    where foreign keys are not enforced) and the flush in the middle of a mint
    are what makes this an invariant of the running system and not of one
    function. *)

From S2P Require Import Prelude PyStr Json Scope Models World Envelopes Crypto Cache Locks.
From S2P Require Import OAuthCf Upstream Security AuditLogs OAuthService ProxyAuth Credentials.
From S2P Require Import Schemas Tokens Management Authorizer ListFilter ProxyDns App Server Console Statements System.

(** ** The invariant *)

Definition has_credential (id user : pystr) (d : database) : Prop :=
  exists c, c ∈ credentials d /\ uc_id c = id /\ uc_user_id c = user.

Definition tenants_apart (d : database) : Prop :=
  forall t, t ∈ tokens d -> st_status t = u "active" ->
  has_credential (st_upstream_credential_id t) (st_user_id t) d.

#[export] Instance tenants_apart_dec d : base.Decision (tenants_apart d).
Proof.
  refine (cast_if (decide (Forall (fun t => st_status t = u "active" ->
    Exists (fun c => uc_id c = st_upstream_credential_id t /\ uc_user_id c = st_user_id t)
      (credentials d)) (tokens d)))); abstract (
    rewrite Forall_forall in *; unfold tenants_apart, has_credential; setoid_rewrite <- Exists_exists;
    tauto).
Defined.

Section tenancy.
Context `{Env}.

(** It holds of what is committed and of what the session sees. *)
Definition apart (w : world) : Prop := tenants_apart (w_db w) /\ tenants_apart (w_sess w).
Definition apart_kept : relation world := fun w w' => apart w -> apart w'.

#[export] Instance apart_kept_preorder : PreOrder apart_kept.
Proof. split; [by intros w Hw|]. intros w1 w2 w3 H12 H23 Hw. by apply H23, H12. Qed.

Lemma apart_edit f w :
  (tenants_apart (w_sess w) -> tenants_apart (f (w_sess w))) -> apart_kept w (set_sess f w).
Proof. intros Hf [Hd Hs]. split; [done|]. by apply Hf. Qed.

Lemma apart_update_tokens p f d :
  (forall t, st_upstream_credential_id (f t) = st_upstream_credential_id t /\
     st_user_id (f t) = st_user_id t /\ (st_status (f t) = u "active" -> st_status t = u "active")) ->
  tenants_apart d -> tenants_apart (set_tokens (update_where p f) d).
Proof.
  intros Hf Hd t' (t & -> & Ht)%list_elem_of_fmap Hact. simpl in *. destruct (p t); [|by apply Hd].
  destruct (Hf t) as (-> & -> & Ha). apply Hd; auto.
Qed.

Lemma apart_update_credentials p f d :
  (forall c, uc_id (f c) = uc_id c /\ uc_user_id (f c) = uc_user_id c) ->
  tenants_apart d -> tenants_apart (set_credentials (update_where p f) d).
Proof.
  intros Hf Hd t Ht Hact. destruct (Hd t Ht Hact) as (c & Hc & Hid & Huser). exists (if p c then f c else c).
  split; [by apply list_elem_of_fmap; exists c|].
  destruct (p c); [|done]. destruct (Hf c) as [-> ->]. done.
Qed.

#[export] Instance apart_kept_frame : Frame apart_kept.
Proof.
  split.
  - apply _.
  - intros w w' [(Hd & Hs & _) _] [H1 H2]. split; [by rewrite Hd|by rewrite Hs].
  - by intros w [Hd _].
  - by intros w _ [_ Hs].
  - intros e w He. apply apart_edit. destruct e; try done; try by apply apart_update_credentials.
    intros Hd t Ht Hact. destruct (Hd t Ht Hact) as (c' & Hc & E).
    exists c'. split; [|done]. by apply elem_of_app; left.
Qed.

#[export] Instance apart_kept_tables : FrameTables apart_kept.
Proof.
  split; [apply _|intros w w' (Hd & Hs & _) _ [H1 H2]; split; [by rewrite Hd|by rewrite Hs]|].
  intros e w He. apply apart_edit. destruct e; try done; apply apart_update_tokens; intros t; by split_and!.
Qed.

(** A step whose run is known, and what follows it. *)
Lemma apart_bind {A B} (m : M A) (f : A -> M B) w :
  Keeps apart_kept m -> apart w ->
  (forall a w', m w = (Ok a, w') -> apart w' -> apart (f a w').2) -> apart ((m ≫= f) w).2.
Proof.
  intros Hm Hw Hf. specialize (Hm w Hw). unfold mbind, M_bind.
  destruct (m w) as [[a|e] w'] eqn:E; [by apply Hf|done].
Qed.

(** *** Deletion: no active token refers to what is deleted *)

Lemma apart_deleted id d d' : tenants_apart d -> deleted id d d' -> tenants_apart d'.
Proof.
  intros Hd [Hf E] t' Ht' Hact. apply list_elem_of_lookup in Ht' as [i Hi].
  destruct (Forall2_lookup_r _ _ _ _ _ Hf Hi) as (t & Ht%list_elem_of_lookup_2 & Hkey & Hrev & Hsame).
  destruct (decide (st_id t ∈ st_id <$> dependent_tokens id d)) as [Hin|Hout].
  { rewrite (proj1 (Hrev Hin)) in Hact. by vm_compute in Hact. }
  rewrite (Hsame Hout) in *. clear Hsame. destruct (Hd t Ht Hact) as (c & Hc & Hid & Huser).
  exists c. split_and!; [|done|done]. rewrite E. apply list_elem_of_filter.
  split; [|done]. rewrite bool_decide_eq_false, Hid.
  intros Hcred. apply Hout, list_elem_of_fmap_2, list_elem_of_filter. split; [|done].
  by rewrite andb_true_iff, !bool_decide_eq_true.
Qed.

#[export] Instance apart_kept_delete : FrameDelete apart_kept.
Proof.
  intros user id w Hw. unfold delete_credential.
  apply apart_bind; [apply (sys_owned_credential apart_kept)|done|].
  intros c w1 (_ & Hid & _ & _)%get_owned_credential_Ok Hw1.
  apply apart_bind; [apply (sys_db_query apart_kept)|done|].
  intros ds w2 (_ & -> & ->)%db_query_Ok [Hd Hs]. rename w1 into v.
  match goal with |- context [for_each ?ds revoke_dependent] =>
    destruct (revoke_loop_run ds (set_tick S v)) as (w3 & E3 & Ht & Hs3 & Hd3) end.
  rewrite (bind_step _ _ _ _ _ E3).
  destruct (cache_del_run [oauth_at_key id; zones_key id] w3) as (w4 & E4 & (Hd4 & Hs4 & _) & _).
  rewrite (bind_step _ _ _ _ _ E4), (bind_step _ _ _ tt _ (proj2 (sess_modify_Ok _ _ _ _) eq_refl)).
  apply (sys_commit apart_kept). split; simpl; [by rewrite Hd4, Hd3|].
  apply (apart_deleted id (w_sess v)); [done|]. rewrite Hs4, Hid. split; [done|]. by rewrite Hs3.
Qed.

(** *** Minting: the credential is the owner's, and still there at the end *)

Lemma frame_generate : KeepsOk auth_frame generate_scoped_token.
Proof.
  assert (Hs : forall k, KeepsOk auth_frame (_generate_random_string k))
    by (induction k; simpl; unfold secrets_choice; solve_keeps_ok).
  unfold generate_scoped_token. solve_keeps_ok.
Qed.

Lemma frame_new_uuid : KeepsOk auth_frame _new_uuid.
Proof. unfold _new_uuid. solve_keeps_ok. Qed.

Lemma has_credential_frame id user w w' :
  auth_frame w w' -> has_credential id user (w_sess w) -> has_credential id user (w_sess w').
Proof.
  intros Hf (c & Hc & <- & <-).
  assert (Hin : (uc_id c, uc_user_id c) ∈
    (fun c => (uc_id c, uc_user_id c)) <$> credentials (w_sess w')).
  { rewrite (frame_keys _ _ Hf). by apply (list_elem_of_fmap_2 (fun c => (uc_id c, uc_user_id c))). }
  apply list_elem_of_fmap in Hin as (c' & E & Hc'). exists c'. split; [done|]. split; congruence.
Qed.

(** A step of a mint before its rows are added. *)
Lemma mint_bind {A B} id user (m : M A) (f : A -> M B) w :
  Keeps apart_kept m -> KeepsOk auth_frame m ->
  apart w -> has_credential id user (w_sess w) ->
  (forall a w', apart w' -> has_credential id user (w_sess w') -> apart (f a w').2) ->
  apart ((m ≫= f) w).2.
Proof.
  intros Hm Hok Hw Hc Hf. apply apart_bind; [done..|]. intros a w' E Hw'. apply Hf; [done|].
  eapply has_credential_frame; [|done]. by eapply Hok.
Qed.

Lemma apart_add_token t w :
  apart w -> has_credential (st_upstream_credential_id t) (st_user_id t) (w_sess w) ->
  apart (set_sess (set_tokens (fun l => l ++ [t])) w).
Proof.
  intros Hw Hc. apply (apart_edit _ w); [|done]. intros Hs t' Ht' Hact. simpl in Ht'.
  apply elem_of_app in Ht' as [Ht'|E%list_elem_of_singleton]; [by apply Hs|by rewrite E].
Qed.

#[export] Instance apart_kept_mint : FrameMint apart_kept.
Proof.
  intros user name credential rs expires w Hw. unfold mint_scoped_token.
  apply apart_bind; [apply (sys_owned_credential apart_kept)|done|].
  intros c w1 (Hin & Hid & Huser & Ew1)%get_owned_credential_Ok Hw1.
  assert (Hc : has_credential credential user (w_sess w1)) by (rewrite Ew1; by exists c).
  apply mint_bind with credential user; try done.
  { unfold _validate_scope_rules. pose proof (sys_validate apart_kept). solve_keeps. }
  { apply frame_validate. }
  intros [] w2 Hw2 Hc2. apply mint_bind with credential user; try done.
  { apply (sys_generate apart_kept). }
  { apply frame_generate. }
  intros g w3 Hw3 Hc3. apply mint_bind with credential user; try done.
  { apply (sys_new_uuid apart_kept). }
  { apply frame_new_uuid. }
  intros id w4 Hw4 Hc4. apply mint_bind with credential user; try done.
  { apply (sys_now apart_kept). }
  { apply frame_now. }
  intros n w5 Hw5 Hc5.
  rewrite (bind_step _ _ _ tt _ (proj2 (sess_modify_Ok _ _ _ _) eq_refl)).
  match goal with |- apart (?m ?w6).2 => assert (Hk : Keeps apart_kept m) end.
  { assert (Hr : forall f, Keeps apart_kept (sess_modify (set_rules f)))
      by (intros f w'; by apply apart_edit).
    pose proof (sys_flush apart_kept). pose proof (sys_commit apart_kept).
    pose proof (sys_new_uuid apart_kept). pose proof (sys_now apart_kept).
    pose proof (fun A => @sys_refresh_row _ apart_kept _ A). unfold add_rule. solve_keeps. }
  apply Hk. by apply apart_add_token.
Qed.
End tenancy.

(** ** The running system *)

Section tenancy_properties.
Context `{Env, AuthLibs, OidcLibs, Presentation, Pydantic, Router, Framework, ConsoleText}.

Lemma reachable_apart w w' :
  reachable w w' -> tenants_apart (w_db w) -> tenants_apart (w_db w').
Proof.
  induction 1 as [w|w1 w2 w3 Hstep _ IH]; [done|]. intros Hw. apply IH.
  destruct Hstep as [c ->|E12]; [|by rewrite E12].
  by apply (call_frame apart_kept c w1).
Qed.

(** C10: tenants stay apart: from tables in which active tokens use credentials
    of their owners (empty tables, for one), through any calls one after
    another by any users, whatever they pass as identifiers, a string only
    ever authenticates as a token together with a credential that belongs to
    the owner of the token. *)
Theorem tenants_stay_apart w w' full ctx w2 :
  keys_ok (w_db w) = true -> tenants_apart (w_db w) -> reachable w w' ->
  (open_session ≫= fun _ => resolve_scoped_token full) w' = (Ok (Some ctx), w2) ->
  uc_user_id (ctx_credential ctx) = st_user_id (ctx_token ctx).
Proof.
  intros Hk Hap Hreach Hrun. apply M_bind_Ok in Hrun as ([] & w1 & [= <-] & Hrun).
  apply resolve_inv in Hrun as [[Ht _ _ Hact _ Hc Hid] _]. simpl in Ht, Hc.
  destruct (reachable_apart _ _ Hreach Hap _ Ht Hact) as (c & Hin & Ec & <-). f_equal.
  eapply (NoDup_fmap_inj uc_id); [|exact Hc|exact Hin|congruence].
  by apply keys_ok_tokens, (reachable_keys w).
Qed.
End tenancy_properties.
