(* ===== verification/Caching.v ===== *)
(** * The cached rules of tokens are never stale

    [coherent] of [ProxyAuth] is what an authentication needs of the cache. Here
    it is an invariant of the running system: every call keeps it, as long as
    the generator does not draw the lookup id of an earlier token again, whose
    cached rules might still be there. So the rules a request is authorised by
    are those its token was minted with. *)

From S2P Require Import Prelude PyStr Json Scope Models World Envelopes Crypto Cache Locks.
From S2P Require Import OAuthCf Upstream Security AuditLogs OAuthService ProxyAuth Credentials.
From S2P Require Import Schemas Tokens Management Authorizer ListFilter ProxyDns App Server Console Statements System.

(** ** What the generator draws *)

Section draws.
Context `{Env}.

(** The [n] characters drawn from the tick [t] on. *)
Fixpoint random_string (t n : nat) : pystr :=
  match n with
  | O => []
  | S n =>
      let k := N.of_nat (length _TOKEN_ALPHABET) in
      default 0%N (_TOKEN_ALPHABET !! N.to_nat (random_index t k mod k)) :: random_string (S t) n
  end.

Definition lookup_at (t : nat) : pystr := random_string t _LOOKUP_ID_LEN.

(** The lookup ids that may have been drawn before the tick [t]. *)
Definition drawn (t : nat) (l : pystr) : Prop := exists k, k < t /\ l = lookup_at k.

Lemma drawn_later t t' l : t <= t' -> drawn t l -> drawn t' l.
Proof. intros Ht (k & Hk & ->). exists k. split; [lia|done]. Qed.

Lemma generate_string_draws n w :
  _generate_random_string n w = (Ok (random_string (w_tick w) n), set_tick (Nat.add n) w).
Proof.
  revert w. induction n as [|n IH]; intros w; [by destruct w|]. cbn [_generate_random_string].
  unfold secrets_choice, tick, mbind, M_bind. cbn [fst snd]. unfold mret, M_ret. rewrite IH.
  cbn [w_tick set_tick]. f_equal. unfold set_tick. f_equal. simpl. lia.
Qed.

Lemma generate_draws w g w' :
  generate_scoped_token w = (Ok g, w') ->
  g_lookup_id g = lookup_at (w_tick w) /\ exists n, 0 < n /\ w' = set_tick (Nat.add n) w.
Proof.
  unfold generate_scoped_token. intros (l & w1 & E1 & (s & w2 & E2 & Hrun)%M_bind_Ok)%M_bind_Ok.
  rewrite generate_string_draws in E1, E2. injection E1 as <- <-. injection E2 as <- <-.
  apply M_bind_Ok in Hrun as (h & w3 & [_ ->]%lift_Ok & [-> ->]%ret_Ok). split; [done|].
  exists (_LOOKUP_ID_LEN + _SECRET_LEN)%nat. split; [vm_compute; lia|done].
Qed.
End draws.

(** ** The invariant *)

Section invariant.
Context `{Env}.

Record cache_sound (w : world) : Prop := CacheSound {
  sound_keys : keys_ok (w_db w) = true;
  sound_coherent : coherent (w_db w) (w_redis w);
  sound_tokens : forall t, t ∈ tokens (w_db w) -> drawn (w_tick w) (st_lookup_id t);
  sound_cached : forall l v e, w_redis w !! rules_key l v = Some e -> drawn (w_tick w) l;
}.

(** No change of tokens or rules is pending. *)
Definition clean (w : world) : Prop :=
  tokens (w_sess w) = tokens (w_db w) /\ rules (w_sess w) = rules (w_db w).

(** Every token of [d'] was there with the same cached rules, has a new version,
    or has a lookup id nothing is cached under. *)
Definition cache_follows (d d' : database) (r : gmap pystr redis_entry) : Prop :=
  forall t', t' ∈ tokens d' ->
    (exists t, t ∈ tokens d /\ st_lookup_id t' = st_lookup_id t /\ st_id t' = st_id t /\
       (st_version t' = st_version t /\ rules_of (st_id t) d' = rules_of (st_id t) d \/
        (st_version t < st_version t')%Z)) \/
    forall v, r !! rules_key (st_lookup_id t') v = None.

Lemma coherent_follows d d' r : cache_follows d d' r -> coherent d r -> coherent d' r.
Proof.
  intros Hf Hc t' v e Ht' He. destruct (Hf t' Ht') as [(t & Ht & El & Ei & Hcase)|Hn]; [|congruence].
  rewrite El in He. destruct (Hc t v e Ht He) as [Hv Hval].
  destruct Hcase as [[Ev Er]|Hlt]; (split; [lia|]); intros ->; [|lia].
  rewrite Ei, Er. apply Hval. lia.
Qed.

Lemma rules_of_eq id d d' : rules d' = rules d -> rules_of id d' = rules_of id d.
Proof. unfold rules_of. by intros ->. Qed.

Lemma sound_steady w w' : steady w w' -> cache_sound w -> cache_sound w'.
Proof.
  intros ((Hd & _) & [Ht _] & Hl) [Hk Hc Htok Hcached]. split; rewrite ?Hd.
  - done.
  - intros t v e Hin He. by apply Hc, Hl.
  - intros t Hin. eapply drawn_later; [done|auto].
  - intros l v e He%Hl. eapply drawn_later; [done|eauto].
Qed.

(** What is committed may be edited as long as the cache follows. *)
Lemma sound_commit d w :
  keys_ok d = true -> cache_follows (w_db w) d (w_redis w) ->
  (forall t, t ∈ tokens d -> drawn (w_tick w) (st_lookup_id t)) ->
  cache_sound w -> cache_sound (set_db d w).
Proof.
  intros Hk Hf Ht [_ Hc _ Hcached]. split; simpl; [done| |done|done]. by eapply coherent_follows.
Qed.

Lemma sound_same_tables d w :
  tokens d = tokens (w_db w) -> rules d = rules (w_db w) -> keys_ok d = true ->
  cache_sound w -> cache_sound (set_db d w).
Proof.
  intros Et Er Hk Hs. apply sound_commit; [done|..|done].
  - intros t Ht. left. exists t. rewrite <- Et. split_and!; [done..|]. left.
    split; [done|]. by apply rules_of_eq.
  - rewrite Et. apply Hs.
Qed.

Lemma follows_lost d d' r r' : rules_lost r r' -> cache_follows d d' r -> cache_follows d d' r'.
Proof.
  intros Hl Hf t' Ht'. destruct (Hf t' Ht') as [Hc|Hn]; [by left|right]. intros v.
  destruct (r' !! _) as [e|] eqn:E; [|done]. apply Hl in E. congruence.
Qed.

Lemma coherent_lost d r r' : rules_lost r r' -> coherent d r -> coherent d r'.
Proof. intros Hl Hc t v e Ht He. by apply Hc, Hl. Qed.
End invariant.

(** ** Every call keeps it *)

Section kept.
Context `{Env}.

(** Up to the tick [horizon], no lookup id is drawn twice. *)
Variable horizon : nat.
Hypothesis distinct_draws :
  forall i j, i < horizon -> j < horizon -> lookup_at i = lookup_at j -> i = j.

Definition settled (w : world) : Prop := clean w /\ cache_sound w.
Definition caches_kept : relation world := fun w w' =>
  w_tick w <= w_tick w' /\ (w_tick w' <= horizon -> settled w -> settled w').

#[export] Instance caches_kept_preorder : PreOrder caches_kept.
Proof.
  split; [by intros w|]. intros w1 w2 w3 [T1 H1] [T2 H2]. split; [lia|].
  intros Ht Hw. apply H2; [done|]. apply H1; [lia|done].
Qed.

Lemma kept_sess f w :
  (tokens (f (w_sess w)) = tokens (w_sess w)) -> (rules (f (w_sess w)) = rules (w_sess w)) ->
  caches_kept w (set_sess f w).
Proof.
  intros Et Er. split; [done|]. intros _ [[Ct Cr] [Hk Hc Htok Hcached]].
  split; [split; simpl; congruence|by split].
Qed.

#[export] Instance caches_kept_frame : Frame caches_kept.
Proof.
  split.
  - apply _.
  - intros w w' Hs. pose proof Hs as ((Hd & Hss & _) & [Ht _] & _). split; [done|].
    intros _ [[Ct Cr] Hw]. split; [split; by rewrite Hss, Hd|]. by eapply sound_steady.
  - intros w. split; [done|]. intros _ [_ [Hk Hc Htok Hcached]]. split; [done|by split].
  - intros w Hc. split; [done|]. intros _ [[Ct Cr] Hw]. split; [done|].
    apply sound_same_tables; [done..|by eapply constraints_keys|done].
  - intros e w He. by apply kept_sess; destruct e.
Qed.

(** A step whose run is known, and what follows it. *)
Lemma kept_bind {A B} (m : M A) (f : A -> M B) w :
  Keeps caches_kept m -> (forall a w', m w = (Ok a, w') -> caches_kept w' (f a w').2) ->
  caches_kept w ((m ≫= f) w).2.
Proof.
  intros Hm Hf. specialize (Hm w). unfold mbind, M_bind.
  destruct (m w) as [[a|e] w'] eqn:E; [|done]. etrans; [exact Hm|by apply Hf].
Qed.

(** A commit, whichever way it ends. *)
Lemma commit_ends w :
  (exists e, commit w = (Raise e, set_sess (fun _ => w_db w) (set_tick S w))) \/
  commit w = (Ok tt, set_db (w_sess w) (set_tick S w)) /\ constraints_ok env_dialect (w_sess w) = true.
Proof.
  unfold commit, flush, tick, rollback, gets, modify, raise, mbind, M_bind.
  destruct (db_down (w_tick w)); simpl; [left; by eexists|].
  destruct (constraints_ok _ _); simpl; [by right|left; by eexists].
Qed.

Lemma flush_ends w :
  (exists e, flush w = (Raise e, set_sess (fun _ => w_db w) (set_tick S w))) \/
  flush w = (Ok tt, set_tick S w).
Proof.
  unfold flush, tick, rollback, gets, modify, raise, mbind, M_bind.
  destruct (db_down (w_tick w)); simpl; [left; by eexists|].
  destruct (constraints_ok _ _); simpl; [by right|left; by eexists].
Qed.

Lemma kept_rollback w0 w :
  w_db w = w_db w0 -> rules_lost (w_redis w0) (w_redis w) -> w_tick w0 <= w_tick w ->
  caches_kept w0 (set_sess (fun _ => w_db w) w).
Proof.
  intros Ed Er Et. split; [simpl; lia|]. intros _ [_ Hs]. split; [done|]. split; simpl; rewrite ?Ed.
  - apply Hs.
  - eapply coherent_lost; [done|apply Hs].
  - intros t Ht. eapply drawn_later; [done|by eapply sound_tokens].
  - intros l v e He%Er. eapply drawn_later; [done|by eapply sound_cached].
Qed.

(** An edit of the tables and its commit. *)
Lemma kept_edit_commit {A} (w0 w : world) (k : unit -> M A) :
  w_db w = w_db w0 -> rules_lost (w_redis w0) (w_redis w) -> w_tick w0 <= w_tick w ->
  Keeps caches_kept (k tt) ->
  (w_tick w <= horizon -> settled w0 -> keys_ok (w_sess w) = true ->
   cache_follows (w_db w0) (w_sess w) (w_redis w0) /\
   forall t, t ∈ tokens (w_sess w) -> drawn (w_tick w) (st_lookup_id t)) ->
  caches_kept w0 ((commit ≫= k) w).2.
Proof.
  intros Ed Er Et Hk Hedit.
  assert (Hcached : cache_sound w0 -> forall l v e, w_redis w !! rules_key l v = Some e ->
    drawn (S (w_tick w)) l).
  { intros Hs l v e He%Er. eapply drawn_later; [|by eapply sound_cached]. lia. }
  unfold mbind, M_bind. destruct (commit_ends w) as [[e ->]|[-> Hc%constraints_keys]]; simpl.
  - apply (kept_rollback w0 (set_tick S w)); simpl; [done..|lia].
  - etrans; [|apply Hk]. split; [simpl; lia|]. simpl. intros Ht [Hcl Hs]. split; [done|].
    destruct (Hedit ltac:(lia) (conj Hcl Hs) Hc) as [Hf Hd]. split; simpl.
    + done.
    + eapply coherent_follows; [by eapply follows_lost|]. eapply coherent_lost; [done|apply Hs].
    + intros t Hin. eapply drawn_later; [|by apply Hd]. lia.
    + by apply Hcached.
Qed.

Lemma commit_then_ret w : (commit ≫= mret) w = commit w.
Proof. unfold mbind, M_bind. by destruct (commit w) as [[[]|e] w']. Qed.

(** *** Authentications *)

Lemma load_rules_ticks t w : w_tick w <= w_tick (_load_rules t w).2.
Proof.
  set (R := fun w w' : world => w_tick w <= w_tick w').
  assert (PreOrder R) by (split; intros ?; unfold R; [|intros ??]; lia).
  assert (Ht : Keeps R tick) by (intros v; unfold R; simpl; lia).
  assert (Hm : forall f, Keeps R (modify (set_redis f))) by (intros f v; unfold R; simpl; lia).
  assert (Hk : Keeps R (_load_rules t)); [|apply Hk].
  unfold _load_rules, _get_cached_rules, _set_cached_rules, swallow, redis_get, redis_set, redis_command,
    db_query. solve_keeps.
Qed.

Lemma load_rules_kept t w : t ∈ tokens (w_sess w) -> caches_kept w (_load_rules t w).2.
Proof.
  intros Hin. split; [apply load_rules_ticks|]. pose proof (load_rules_ticks t w) as Htick.
  intros _ [[Ct Cr] Hs]. revert Htick. unfold _load_rules, mbind, M_bind.
  destruct (get_cached_rules_run (rules_key (st_lookup_id t) (st_version t)) w) as (j & -> & _).
  assert (Hsteady : forall n, cache_sound (set_tick (Nat.add n) w)).
  { intros n. eapply sound_steady; [|done]. apply steady_same; [done|simpl; lia|done|done|apply rules_lost_refl]. }
  destruct j; try (intros _; split; [done|exact (Hsteady 1)]).
  unfold db_query, mbind, M_bind, tick. simpl.
  destruct (db_down _); [intros _; split; [done|exact (Hsteady 2)]|]. simpl.
  destruct (set_cached_rules_run (rules_key (st_lookup_id t) (st_version t))
    (_rule_to_cache_dict <$> rules_of (st_id t) (w_sess w)) (rules_cache_ttl env_settings)
    (set_tick S (set_tick S w))) as (w2 & -> & Hd & Hss & Hr). simpl in *. intros Htick.
  split; [split; by rewrite Hss, Hd|]. destruct (Hsteady 2) as [Hk Hc Htok Hcached]. simpl in *.
  rewrite Ct in Hin. split; rewrite ?Hd.
  - done.
  - destruct Hr as [->|[x ->]]; [done|]. apply coherent_set; [by apply keys_lookup_unique|done| |done].
    simpl. by rewrite (rules_of_eq _ (w_db w) (w_sess w)).
  - intros t' Ht'. eapply drawn_later; [|by apply Hs]. lia.
  - intros l v e He. apply (drawn_later (w_tick w)); [lia|].
    destruct Hr as [Hr|[x Hr]]; rewrite Hr in He; [by eapply Hs|].
    apply lookup_insert_Some in He as [[Hkey _]|[_ He]]; [|by eapply Hs].
    apply rules_key_inj in Hkey as [<- _]. by apply Hs.
Qed.

Lemma resolve_kept full : Keeps caches_kept (resolve_scoped_token full).
Proof.
  intros w. unfold resolve_scoped_token. destruct (parse_scoped_token full) as [[l x]|]; [|done].
  apply kept_bind; [apply (sys_db_query caches_kept)|]. intros rows w1 (_ & -> & ->)%db_query_Ok.
  apply kept_bind; [apply keeps_lift, _|]. intros row w2 [Hrow ->]%lift_Ok.
  destruct row as [t|]; [|done]. apply scalar_one_or_none_Some in Hrow as [Hin _].
  apply kept_bind; [apply keeps_lift, _|]. intros verified w3 [_ ->]%lift_Ok.
  destruct (negb verified); [done|]. destruct (negb _); [done|].
  apply kept_bind.
  { pose proof (sys_now caches_kept). unfold expired. solve_keeps. }
  intros late w4 (Hs & _)%expired_run. destruct late; [done|].
  apply kept_bind; [apply (sys_db_query caches_kept)|]. intros crows w5 (_ & -> & ->)%db_query_Ok.
  apply kept_bind; [apply keeps_lift, _|]. intros crow w6 [_ ->]%lift_Ok.
  destruct crow as [c|]; [|done].
  assert (Hk : caches_kept (set_tick S w4) (_load_rules t (set_tick S w4)).2)
    by (apply load_rules_kept; simpl; by rewrite Hs).
  unfold mbind, M_bind. by destruct (_load_rules t (set_tick S w4)) as [[rs|e] w7].
Qed.

(** *** Rotations and revocations *)

(** Each token that is updated gets a new version or a lookup id nothing is
    cached under. *)
Lemma follows_update p f w r :
  clean w ->
  (forall t, st_id (f t) = st_id t /\ st_lookup_id (f t) = st_lookup_id t /\
      (st_version t < st_version (f t))%Z \/
     forall v, r !! rules_key (st_lookup_id (f t)) v = None) ->
  cache_follows (w_db w) (set_tokens (update_where p f) (w_sess w)) r.
Proof.
  intros [Ct Cr] Hf t' (t & Ht & ->)%update_where_elem. rewrite Ct in Ht. destruct (p t).
  - destruct (Hf t) as [(Hid & Hl & Hv)|Hn]; [left|by right].
    exists t. split_and!; [done..|by right].
  - left. exists t. split_and!; [done..|]. left. split; [done|]. by apply rules_of_eq.
Qed.

Lemma revoke_kept user id : Keeps caches_kept (revoke_scoped_token user id).
Proof.
  intros w. unfold revoke_scoped_token.
  apply kept_bind; [apply (sys_owned_token caches_kept)|]. intros t w1 _.
  apply kept_bind; [apply (sys_now caches_kept)|]. intros n w2 _.
  rewrite (bind_step _ _ _ tt _ (proj2 (sess_modify_Ok _ _ _ _) eq_refl)).
  apply kept_edit_commit; [done|apply rules_lost_refl|done|apply (sys_cache_del caches_kept)|].
  intros _ [[Ct Cr] Hs] _. split.
  - apply follows_update; [done|]. intros t'. left. split_and!; [done..|simpl; lia].
  - intros t' (t0 & Ht0 & ->)%update_where_elem. rewrite Ct in Ht0.
    case_bool_decide; exact (sound_tokens _ Hs _ Ht0).
Qed.

(** A lookup id that is drawn now has never been cached under. *)
Lemma fresh_uncached w v :
  w_tick w < horizon -> cache_sound w -> w_redis w !! rules_key (lookup_at (w_tick w)) v = None.
Proof.
  intros Ht [_ _ _ Hcached]. destruct (w_redis w !! _) as [e|] eqn:E; [|done].
  destruct (Hcached _ _ _ E) as (k & Hk & Heq). apply distinct_draws in Heq; lia.
Qed.

Lemma rotate_kept user id : Keeps caches_kept (rotate_scoped_token user id).
Proof.
  intros w. unfold rotate_scoped_token.
  apply kept_bind; [apply (sys_owned_token caches_kept)|]. intros t w1 _.
  destruct (generate_scoped_token w1) as [[g|e] w2] eqn:Eg; cycle 1.
  { rewrite (bind_raise _ _ _ _ _ Eg). pose proof (sys_generate caches_kept w1) as Hg.
    by rewrite Eg in Hg. }
  rewrite (bind_step _ _ _ _ _ Eg). apply generate_draws in Eg as (Hl & n & Hn & ->).
  rewrite (bind_step _ _ _ tt _ (proj2 (sess_modify_Ok _ _ _ _) eq_refl)).
  apply kept_edit_commit; [done|apply rules_lost_refl|simpl; lia| |].
  { pose proof (sys_cache_del caches_kept). pose proof (fun A => @sys_refresh_row _ caches_kept _ A).
    solve_keeps. }
  simpl. intros Ht [[Ct Cr] Hs] _. split.
  - apply (follows_update _ (rotated_token g) w1); [done|]. intros t'. right. intros v. simpl. rewrite Hl.
    apply fresh_uncached; [lia|done].
  - intros t' (t0 & Ht0 & ->)%update_where_elem. rewrite Ct in Ht0. case_bool_decide; simpl.
    + rewrite Hl. exists (w_tick w1). split; [lia|done].
    + eapply drawn_later; [|by apply Hs]. lia.
Qed.

#[export] Instance caches_kept_tokens : FrameTokens caches_kept.
Proof. split; [apply rotate_kept|apply revoke_kept|apply resolve_kept]. Qed.

(** *** Deletions *)

Lemma revoke_loop_steady ts w :
  let w' := (for_each ts revoke_dependent w).2 in
  w_tick w <= w_tick w' /\ rules_lost (w_redis w) (w_redis w').
Proof.
  set (R := fun w w' : world => w_tick w <= w_tick w' /\ rules_lost (w_redis w) (w_redis w')).
  assert (PreOrder R).
  { split; [intros v; split; [lia|apply rules_lost_refl]|].
    intros v1 v2 v3 [T1 L1] [T2 L2]. split; [lia|]. intros l x e He. by apply L1, L2. }
  assert (Hn : Keeps R now) by (intros v; split; [simpl; lia|apply rules_lost_refl]).
  assert (Hm : forall f, Keeps R (sess_modify f)) by (intros f v; split; [simpl; lia|apply rules_lost_refl]).
  assert (Hc : forall keys, Keeps R (cache_del keys)) by (intros keys v; by destruct (steady_cache_del keys v) as (_ & [T _] & L)).
  assert (Hk : Keeps R (for_each ts revoke_dependent)); [|apply Hk].
  apply keeps_for_each; [apply _|]. intros t _. unfold revoke_dependent. solve_keeps.
Qed.

Lemma follows_deleted id w d' :
  clean w -> deleted id (w_sess w) d' -> cache_follows (w_db w) d' (w_redis w).
Proof.
  intros [Ct Cr] [Hf E] t' Ht'. left. apply list_elem_of_lookup in Ht' as [i Hi].
  destruct (Forall2_lookup_r _ _ _ _ _ Hf Hi) as (t & Ht%list_elem_of_lookup_2 & Hkey & Hrev & Hsame).
  unfold token_key in Hkey. rewrite Ct in Ht. exists t. split_and!; [done|congruence..|].
  destruct (decide (st_id t ∈ st_id <$> dependent_tokens id (w_sess w))) as [Hin|Hout].
  - right. by apply Hrev.
  - left. rewrite (Hsame Hout). split; [done|]. apply rules_of_eq. by rewrite E.
Qed.

#[export] Instance caches_kept_delete : FrameDelete caches_kept.
Proof.
  intros user id w. unfold delete_credential.
  apply kept_bind; [apply (sys_owned_credential caches_kept)|].
  intros c w1 (_ & Hid & _ & _)%get_owned_credential_Ok.
  apply kept_bind; [apply (sys_db_query caches_kept)|]. intros ds w2 (_ & -> & ->)%db_query_Ok.
  match goal with |- context [for_each ?ds revoke_dependent] =>
    destruct (revoke_loop_run ds (set_tick S w1)) as (w3 & E3 & Ht & Hs3 & Hd3);
    pose proof (revoke_loop_steady ds (set_tick S w1)) as [T3 L3] end.
  rewrite (bind_step _ _ _ _ _ E3). rewrite E3 in T3, L3.
  destruct (cache_del_run [oauth_at_key id; zones_key id] w3) as (w4 & E4 & (Hd4 & Hs4 & _) & _).
  pose proof (steady_cache_del [oauth_at_key id; zones_key id] w3) as (_ & [T4 _] & L4).
  rewrite (bind_step _ _ _ _ _ E4), (bind_step _ _ _ tt _ (proj2 (sess_modify_Ok _ _ _ _) eq_refl)).
  rewrite E4 in T4, L4. simpl in T3, L3, T4, L4, Hd3, Hs3.
  match goal with |- caches_kept _ (commit ?w5).2 => rewrite <- (commit_then_ret w5) end.
  apply kept_edit_commit; simpl.
  - by rewrite Hd4.
  - intros l v e He. by apply L3, L4.
  - lia.
  - apply keeps_ret, _.
  - intros _ [Hcl Hs] _.
    assert (Hdel : deleted id (w_sess w1) (set_credentials
      (delete_where (fun c0 => bool_decide (uc_id c0 = uc_id c))) (w_sess w4))).
    { split; [by rewrite Hs4|]. simpl. rewrite Hs4, Hid. by rewrite Hs3. }
    split; [by apply (follows_deleted id (set_tick S w1))|].
    intros t' Ht'. destruct Hdel as [Hf _]. apply list_elem_of_lookup in Ht' as [i Hi].
    destruct (Forall2_lookup_r _ _ _ _ _ Hf Hi) as (t & Hin%list_elem_of_lookup_2 & Hkey & _).
    destruct Hcl as [Ct _]. simpl in Ct. rewrite Ct in Hin.
    replace (st_lookup_id t') with (st_lookup_id t) by (unfold token_key in Hkey; congruence).
    eapply drawn_later; [|exact (sound_tokens _ Hs _ Hin)]. simpl. lia.
Qed.

(** *** Mints *)

Lemma add_rules_ends id rs w :
  exists rows w', for_each rs (add_rule id) w = (Ok tt, w') /\ Forall2 (added_rule id) rs rows /\
    w_db w' = w_db w /\ w_redis w' = w_redis w /\ w_sess w' = set_rules (fun l => l ++ rows) (w_sess w) /\
    w_tick w <= w_tick w'.
Proof.
  assert (Hw : Within no_event no_exn (for_each rs (add_rule id))).
  { apply within_for_each. intros r _. unfold add_rule, _new_uuid. solve_within. }
  set (R := fun w w' : world => w_tick w <= w_tick w').
  assert (PreOrder R) by (split; intros ?; unfold R; [|intros ??]; lia).
  assert (Hk : Keeps R (for_each rs (add_rule id))).
  { apply keeps_for_each; [apply _|]. intros r _ v. unfold R. simpl. lia. }
  destruct (Hw w) as (_ & _ & _ & He). specialize (Hk w).
  destruct (for_each rs (add_rule id) w) as [[[]|e] w'] eqn:E; [|by destruct (He e eq_refl)].
  apply add_rules_run in E as (rows & Hrows & Hd & Hr & Hs). by exists rows, w'.
Qed.

(** The rules of a new token are no one else's. *)
Lemma follows_mint w t rs rows r :
  clean w -> keys_ok (set_rules (fun l => l ++ rows) (set_tokens (fun l => l ++ [t]) (w_sess w))) = true ->
  Forall2 (added_rule (st_id t)) rs rows -> (forall v, r !! rules_key (st_lookup_id t) v = None) ->
  cache_follows (w_db w) (set_rules (fun l => l ++ rows) (set_tokens (fun l => l ++ [t]) (w_sess w))) r.
Proof.
  intros [Ct Cr] (Hnd & _ & _)%keys_ok_tokens Hrows Hfresh t' [Ht'|Et%list_elem_of_singleton]%elem_of_app;
    [left|right; by rewrite Et]. rewrite Ct in Ht'. exists t'. split_and!; [done..|]. left. split; [done|].
  unfold rules_of, select_where. simpl. rewrite Cr, filter_app, fmap_app.
  replace (filter _ rows) with (@nil ScopeRule); [apply app_nil_r|]. symmetry.
  destruct (filter _ rows) as [|x l] eqn:E; [done|exfalso].
  assert (Hx : x ∈ x :: l) by left. rewrite <- E in Hx.
  apply list_elem_of_filter in Hx as [Hid%bool_decide_eq_true_1 (i & Hi)%list_elem_of_lookup].
  destruct (Forall2_lookup_r _ _ _ _ _ Hrows Hi) as (q & _ & Hq & _).
  simpl in Hnd. rewrite fmap_app, NoDup_app in Hnd. destruct Hnd as (_ & Hdisj & _).
  apply (Hdisj (st_id t')); [rewrite Ct; by apply list_elem_of_fmap_2|]. simpl.
  rewrite <- Hid, Hq. left.
Qed.

#[export] Instance caches_kept_mint : FrameMint caches_kept.
Proof.
  intros user name credential rs expires w. unfold mint_scoped_token.
  apply kept_bind; [apply (sys_owned_credential caches_kept)|]. intros c w1 _.
  apply kept_bind.
  { unfold _validate_scope_rules. pose proof (sys_validate caches_kept). solve_keeps. }
  intros [] w2 _. destruct (generate_scoped_token w2) as [[g|e] w3] eqn:Eg; cycle 1.
  { rewrite (bind_raise _ _ _ _ _ Eg). pose proof (sys_generate caches_kept w2) as Hg. by rewrite Eg in Hg. }
  rewrite (bind_step _ _ _ _ _ Eg). apply generate_draws in Eg as (Hl & n & Hn & ->).
  rewrite (bind_step _new_uuid _ _ _ _ eq_refl), (bind_step now _ _ _ _ eq_refl).
  rewrite (bind_step _ _ _ tt _ (proj2 (sess_modify_Ok _ _ _ _) eq_refl)).
  match goal with |- context [set_sess (set_tokens (fun l => l ++ [?t0]))] => set (t := t0) end.
  match goal with |- context [(flush ≫= _) ?w6] => destruct (flush_ends w6) as [[e E]|E] end.
  { rewrite (bind_raise _ _ _ _ _ E). cbn [snd].
    match goal with |- caches_kept _ (set_sess _ ?v) => apply (kept_rollback w2 v) end;
      [done|apply rules_lost_refl|simpl; lia]. }
  rewrite (bind_step _ _ _ _ _ E). clear E.
  match goal with |- context [(for_each rs _ ≫= _) ?w7] =>
    destruct (add_rules_ends (new_uuid (n + w_tick w2)) rs w7) as (rows & w8 & E & Hrows & Hd & Hr & Hs & Ht) end.
  rewrite (bind_step _ _ _ _ _ E). clear E. simpl in Hd, Hr, Hs, Ht.
  apply kept_edit_commit; [done|rewrite Hr; apply rules_lost_refl|lia| |].
  { pose proof (fun A => @sys_refresh_row _ caches_kept _ A). solve_keeps. }
  intros Hh [Hcl Hsound] Hkeys. rewrite Hs in Hkeys |- *. split.
  - apply (follows_mint w2 t rs rows); [done..|]. intros v. simpl. rewrite Hl.
    apply fresh_uncached; [lia|done].
  - intros t' [Ht'|Et%list_elem_of_singleton]%elem_of_app.
    + destruct Hcl as [Ct _]. rewrite Ct in Ht'. eapply drawn_later; [|exact (sound_tokens _ Hsound _ Ht')]. lia.
    + rewrite Et. simpl. rewrite Hl. exists (w_tick w2). split; [lia|done].
Qed.
End kept.

(** ** Any number of calls *)

Section running.
Context `{Env, AuthLibs, OidcLibs, Presentation, Pydantic, Router, Framework, ConsoleText}.

(** A step that does not put rules into the cache behind the program's back. *)
Inductive cached_step (w w' : world) : Prop :=
| cached_call c : w' = (run_call c w).2 -> cached_step w w'
| cached_outside :
    w_db w' = w_db w -> w_tick w <= w_tick w' -> rules_lost (w_redis w) (w_redis w') -> cached_step w w'.

Definition distinct_until (horizon : nat) : Prop :=
  forall i j, i < horizon -> j < horizon -> lookup_at i = lookup_at j -> i = j.

Lemma cached_step_sound horizon w w' :
  distinct_until horizon -> cached_step w w' ->
  w_tick w <= w_tick w' /\ (w_tick w' <= horizon -> cache_sound w -> cache_sound w').
Proof.
  intros Hh [c ->|Hd Ht Hl].
  - pose proof (caches_kept_tokens horizon Hh). pose proof (caches_kept_mint horizon Hh).
    destruct (call_frame (caches_kept horizon) c w) as [Ht Hk]. split; [done|].
    intros Hle [Hkeys Hc Htok Hcached]. apply Hk; [done|]. split; [done|by split].
  - split; [done|]. intros _ [Hkeys Hc Htok Hcached]. split; rewrite ?Hd; [done|by eapply coherent_lost|..].
    + intros t Hin. eapply drawn_later; [done|auto].
    + intros l v e He%Hl. eapply drawn_later; [done|eauto].
Qed.

Lemma cached_steps_sound horizon w w' :
  distinct_until horizon -> rtc cached_step w w' ->
  w_tick w <= w_tick w' /\ (w_tick w' <= horizon -> cache_sound w -> cache_sound w').
Proof.
  intros Hh. induction 1 as [w|w1 w2 w3 Hstep _ [Ht IH]]; [done|].
  destruct (cached_step_sound horizon _ _ Hh Hstep) as [Ht1 Hk1]. split; [lia|].
  intros Hle Hs. apply IH; [done|]. apply Hk1; [lia|done].
Qed.

Lemma cached_steps_reachable w w' : rtc cached_step w w' -> reachable w w'.
Proof.
  induction 1 as [w|w1 w2 w3 Hstep _ IH]; [done|]. eapply rtc_l; [|exact IH].
  destruct Hstep as [c E|Hd _ _]; [by eapply step_call|by apply step_outside].
Qed.

(** The rules a token is resolved with. *)
Lemma resolved_rules full w ctx w2 :
  cache_sound w -> (open_session ≫= fun _ => resolve_scoped_token full) w = (Ok (Some ctx), w2) ->
  ctx_rules ctx = rules_of (st_id (ctx_token ctx)) (w_db w).
Proof.
  intros [Hk Hc _ _] Hrun. apply M_bind_Ok in Hrun as ([] & w1 & [= <-] & Hrun).
  apply resolve_rules in Hrun as [-> _]; [done|by apply keys_lookup_unique|done].
Qed.

(** C5: authorisation is never by stale rules: from tables and a cache that
    agree (such as empty ones), through any sequence of calls, failures of
    Redis and losses of cached entries, whatever is minted, rotated, revoked or
    deleted in between, the cache agrees with the tables, and a token that was
    there at the start is resolved, under any of its strings, with exactly the
    rules it had then; as long as the generator draws no lookup id twice. *)
Theorem cached_rules_never_stale horizon w w' :
  distinct_until horizon -> cache_sound w -> rtc cached_step w w' -> w_tick w' <= horizon ->
  cache_sound w' /\
  forall full ctx w2 t,
    (open_session ≫= fun _ => resolve_scoped_token full) w' = (Ok (Some ctx), w2) ->
    t ∈ tokens (w_db w) -> st_id (ctx_token ctx) = st_id t ->
    ctx_rules ctx = rules_of (st_id t) (w_db w).
Proof.
  intros Hh Hs Hsteps Hle.
  assert (Hs' : cache_sound w') by by apply (cached_steps_sound horizon w w').
  split; [done|]. intros full ctx w2 t Hrun Ht Hid.
  rewrite (resolved_rules full w' ctx w2 Hs' Hrun), Hid.
  apply (reachable_evolves scopes_fixed w w'); [by apply cached_steps_reachable|].
  by apply list_elem_of_fmap_2.
Qed.
End running.
