(* ===== verification/Transactions.v ===== *)
(** * What a call does to the database, as transactions

    A call of the program reads tables and sends statements ([Statements]) that
    a commit makes one transaction. Every commit of every call of [System] is
    shown to be a well-formed transaction of those statements.

    Calls do not run alone, and isolation is not serialisable: a session works
    on tables it read some time ago, and what it then sends is applied to the
    tables there are. [land] is that effect. From the tables a session read and
    the tables it makes of them, it takes what SQLAlchemy's unit of work sends:
    an INSERT of each row with a new primary key, a DELETE of each that is gone,
    and for each row that is changed an UPDATE, by primary key, of the columns
    that are changed, with the values the session computed. (The one UPDATE that
    is sent as a statement, the fenced rotation of a credential, has a condition
    on the version besides: [Refreshing] is about that.) What
    the commits of any calls keep, landed in any order on any tables, needs no
    isolation. *)

From S2P Require Import Prelude PyStr Json Scope Models World Envelopes Crypto Cache Locks.
From S2P Require Import OAuthCf Upstream Security AuditLogs OAuthService ProxyAuth Credentials.
From S2P Require Import Schemas Tokens Management Authorizer ListFilter ProxyDns App Server Console.
From S2P Require Import Statements System.

(** ** Rows are compared *)

#[export] Instance json_eq_dec : EqDecision json.
Proof.
  refine (fix go x y {struct x} : base.Decision (x = y) := let _ : EqDecision json := @go in
    match x, y with
    | JNull, JNull => left eq_refl
    | JBool a, JBool b => cast_if (decide (a = b))
    | JNum a, JNum b => cast_if (decide (a = b))
    | JStr a, JStr b => cast_if (decide (a = b))
    | JArr a, JArr b => cast_if (decide (a = b))
    | JObj a, JObj b => cast_if (decide (a = b))
    | _, _ => right _
    end); abstract congruence.
Defined.

#[export] Instance AuditLog_eq_dec : EqDecision AuditLog.
Proof. solve_decision. Defined.
#[export] Instance SchemaVersion_eq_dec : EqDecision SchemaVersion.
Proof. solve_decision. Defined.
#[export] Instance database_eq_dec : EqDecision database.
Proof. solve_decision. Defined.

(** ** Landing *)

Lemma filter_all {A} (P : A -> Prop) `{forall x, base.Decision (P x)} l : Forall P l -> filter P l = l.
Proof. induction 1 as [|x l Hx _ IH]; [done|]. by rewrite filter_cons, decide_True, IH. Qed.
Lemma filter_none {A} (P : A -> Prop) `{forall x, base.Decision (P x)} l :
  Forall (fun x => ~ P x) l -> filter P l = [].
Proof. induction 1 as [|x l Hx _ IH]; [done|]. by rewrite filter_cons, decide_False, IH. Qed.

Section landing.
Context {A K : Type} `{EqDecision K} (key : A -> K) (write : A -> A -> A -> A).

(** The row with a primary key. *)
Definition row_with (k : K) (l : list A) : option A := head (filter (fun x => key x = k) l).

(** A row of the present tables, when the session read [a] and made it [b]. *)
Definition land_row (a b : list A) (r : A) : option A :=
  match row_with (key r) a, row_with (key r) b with
  | Some o, Some n => Some (write o n r)
  | Some _, None => None
  | None, _ => Some r
  end.

Definition land_rows (a b d : list A) : list A :=
  omap (land_row a b) d ++ filter (fun n => key n ∉ key <$> a) b.

Lemma row_with_app k l l' :
  row_with k (l ++ l') = match row_with k l with Some x => Some x | None => row_with k l' end.
Proof. unfold row_with. rewrite filter_app. by destruct (filter _ l). Qed.

Lemma row_with_Some k l x : row_with k l = Some x -> x ∈ l /\ key x = k.
Proof.
  unfold row_with. intros Hx. destruct (filter (fun x => key x = k) l) as [|y ys] eqn:E; [done|].
  injection Hx as ->. assert (Hin : x ∈ filter (fun x => key x = k) l) by (rewrite E; left).
  by apply list_elem_of_filter in Hin as [? ?].
Qed.

Lemma row_with_Forall2 (P : A -> A -> Prop) k l l' :
  (forall x y, P x y -> key y = key x) -> Forall2 P l l' ->
  match row_with k l with
  | Some o => exists n, row_with k l' = Some n /\ P o n
  | None => row_with k l' = None
  end.
Proof.
  unfold row_with. intros Hkey. induction 1 as [|x y l l' Hxy Hl IH]; [done|]. rewrite !filter_cons.
  destruct (decide (key x = k)) as [E|E]; simpl.
  - rewrite decide_True by (rewrite <- E; by apply Hkey). by exists y.
  - rewrite decide_False; [done|]. rewrite (Hkey _ _ Hxy). done.
Qed.

Lemma Forall2_keys (P : A -> A -> Prop) l l' :
  (forall x y, P x y -> key y = key x) -> Forall2 P l l' -> key <$> l' = key <$> l.
Proof. intros Hkey. induction 1 as [|x y l l' Hxy _ IH]; [done|]. by rewrite !fmap_cons, IH, (Hkey _ _ Hxy). Qed.

(** Rows that the session only added, or changed by [P]: each row there is
    stays, written at most by such a change, and the new rows are added. *)
Lemma land_rows_moves (P Q : A -> A -> Prop) a l new d :
  (forall x y, P x y -> key y = key x) -> NoDup (key <$> l ++ new) -> Forall2 P a l ->
  (forall r, Q r r) -> (forall o n r, P o n -> key o = key r -> Q r (write o n r)) ->
  exists d', land_rows a (l ++ new) d = d' ++ new /\ Forall2 Q d d'.
Proof.
  intros Hkey Hnd Hl Hrefl Hq. exists (omap (land_row a (l ++ new)) d). split.
  - unfold land_rows. f_equal. rewrite fmap_app, NoDup_app in Hnd. destruct Hnd as (_ & Hdisj & _).
    rewrite <- (Forall2_keys P a l Hkey Hl). rewrite filter_app.
    rewrite (filter_none _ l), (filter_all _ new); [done|apply Forall_forall; intros x Hx..].
    + intros Hin. by apply (Hdisj _ Hin), list_elem_of_fmap_2.
    + intros Hn. by apply Hn, list_elem_of_fmap_2.
  - induction d as [|r d IH]; simpl; [constructor|]. unfold land_row at 1.
    pose proof (row_with_Forall2 P (key r) a l Hkey Hl) as Hr.
    destruct (row_with (key r) a) as [o|] eqn:Eo; [|by constructor].
    destruct Hr as (n & En & Hp). rewrite row_with_app, En. constructor; [|done].
    apply Hq; [done|]. by apply row_with_Some in Eo as [_ ->].
Qed.
End landing.

(** A column: the value the session computed if it changed it. *)
Definition write_column {A B} `{EqDecision B} (f : A -> B) (o n r : A) : B :=
  if decide (f n = f o) then f r else f n.

Definition write_user (o n r : User) : User :=
  let col B `{EqDecision B} (f : User -> B) := write_column f o n r in {|
  u_id := u_id r; u_email := col _ u_email; u_password_hash := col _ u_password_hash;
  u_auth_provider := col _ u_auth_provider; u_cf_sub := col _ u_cf_sub; u_is_active := col _ u_is_active;
  u_created_at := col _ u_created_at; u_updated_at := col _ u_updated_at |}.

Definition write_credential (o n r : UpstreamCredential) : UpstreamCredential :=
  let col B `{EqDecision B} (f : UpstreamCredential -> B) := write_column f o n r in {|
  uc_id := uc_id r; uc_user_id := col _ uc_user_id; uc_label := col _ uc_label;
  uc_cred_type := col _ uc_cred_type; uc_secret_enc := col _ uc_secret_enc;
  uc_access_token_enc := col _ uc_access_token_enc; uc_refresh_token_enc := col _ uc_refresh_token_enc;
  uc_token_expires_at := col _ uc_token_expires_at; uc_oauth_scopes := col _ uc_oauth_scopes;
  uc_key_version := col _ uc_key_version; uc_cred_version := col _ uc_cred_version;
  uc_cf_account_email := col _ uc_cf_account_email; uc_verify_status := col _ uc_verify_status;
  uc_verified_at := col _ uc_verified_at; uc_created_at := col _ uc_created_at |}.

Definition write_token (o n r : ScopedToken) : ScopedToken :=
  let col B `{EqDecision B} (f : ScopedToken -> B) := write_column f o n r in {|
  st_id := st_id r; st_user_id := col _ st_user_id;
  st_upstream_credential_id := col _ st_upstream_credential_id; st_name := col _ st_name;
  st_lookup_id := col _ st_lookup_id; st_token_prefix := col _ st_token_prefix;
  st_token_hash := col _ st_token_hash; st_version := col _ st_version; st_status := col _ st_status;
  st_expires_at := col _ st_expires_at; st_last_used_at := col _ st_last_used_at;
  st_created_at := col _ st_created_at; st_revoked_at := col _ st_revoked_at |}.

(** The rows of the other tables are never changed: as a whole, if at all. *)
Definition write_row {A} `{EqDecision A} : A -> A -> A -> A := write_column (fun x => x).

(** The tables after the statements that make [b] of [a]. *)
Definition apply_delta (a b d : database) : database := Database
  (land_rows u_id write_user (users a) (users b) (users d))
  (land_rows uc_id write_credential (credentials a) (credentials b) (credentials d))
  (land_rows st_id write_token (tokens a) (tokens b) (tokens d))
  (land_rows sr_id write_row (rules a) (rules b) (rules d))
  (land_rows al_id write_row (audits a) (audits b) (audits d))
  (land_rows sv_version write_row (schema_versions a) (schema_versions b) (schema_versions d)).

(** A transaction on the tables there are; one that breaks a constraint is
    rolled back. *)
Definition land `{Env} (d : database) (p : database * database) : database :=
  let d' := apply_delta p.1 p.2 d in if constraints_ok env_dialect d' then d' else d.

(** ** What landing keeps *)

(** What the tables keep of [d]: its audit rows, its tokens and their rules. *)
Record lasting (d d' : database) : Prop := Lasting {
  lasting_audits : audits d `prefix_of` audits d';
  lasting_tokens : forall t, t ∈ tokens d -> exists t', t' ∈ tokens d' /\ token_lives t t';
  lasting_rules : forall id, id ∈ st_id <$> tokens d -> rules_of id d' = rules_of id d;
}.

#[export] Instance lasting_preorder : PreOrder lasting.
Proof.
  split; [by split; [..|intros t Ht; exists t|]|]. intros d1 d2 d3 [A1 T1 R1] [A2 T2 R2]. split.
  - by etrans.
  - intros t (t2 & Ht2 & L2)%T1. destruct (T2 t2 Ht2) as (t3 & Ht3 & L3).
    exists t3. split; [done|by etrans].
  - intros id Hid. rewrite R2, R1; [done..|].
    apply list_elem_of_fmap in Hid as (t & -> & (t2 & Ht2 & <- & _)%T1). by apply list_elem_of_fmap_2.
Qed.

Lemma write_token_lives o n r : token_lives o n -> st_id o = st_id r -> token_lives r (write_token o n r).
Proof.
  intros (Hid & Hu & Hc & Hs) Hr. unfold token_lives, write_token, write_column. simpl.
  rewrite !decide_True by done. split_and!; [done..|]. case_decide; [by left|]. right. naive_solver.
Qed.

Lemma land_rows_added {A} `{EqDecision A} (key : A -> pystr) a new d :
  NoDup (key <$> a ++ new) -> land_rows key write_row a (a ++ new) d = d ++ new.
Proof.
  intros Hnd. destruct (land_rows_moves key write_row eq eq a a new d) as (d' & -> & Hd); try done.
  - by intros x y ->.
  - intros o n r <- _. unfold write_row, write_column. by rewrite decide_True.
  - f_equal. symmetry. by apply list_eq_Forall2, Hd.
Qed.

Lemma keys_ok_logs d : keys_ok d = true -> NoDup (sr_id <$> rules d) /\ NoDup (al_id <$> audits d).
Proof. unfold keys_ok, distinct. rewrite !andb_true_iff, !bool_decide_eq_true. intuition. Qed.

(** A well-formed transaction, landed where no key is broken, leaves the tokens
    that are there, their rules and the audit log alone. *)
Lemma apply_delta_lasting es a d :
  well_formed es -> keys_ok (perform_all es a) = true ->
  keys_ok (apply_delta a (perform_all es a) d) = true -> lasting d (apply_delta a (perform_all es a) d).
Proof.
  destruct (perform_all_leaves es a) as [(l & new & Et & Hl & Hnew) Er [log Ea]].
  generalize (perform_all es a) Et Er Ea. clear Et Er Ea. intros b Et Er Ea Hwf Hb Hd.
  destruct (keys_ok_logs b Hb) as [Hrules Haudits]. apply keys_ok_tokens in Hb as [Htokens _].
  rewrite Er in Hrules. rewrite Ea in Haudits. rewrite Et in Htokens.
  assert (Hkey : forall t t', token_lives t t' -> st_id t' = st_id t) by by intros t t' [].
  destruct (land_rows_moves st_id write_token token_lives token_lives (tokens a) l new (tokens d))
    as (l' & El & Hl'); [done..|by apply write_token_lives|].
  rewrite <- Et in El. split; simpl.
  - rewrite Ea, land_rows_added by done. by apply prefix_app_r.
  - intros t (i & Hi)%list_elem_of_lookup. destruct (Forall2_lookup_l _ _ _ _ _ Hl' Hi) as (t' & Ht' & Hlives).
    exists t'. split; [|done]. rewrite El. apply elem_of_app. left. by eapply list_elem_of_lookup_2.
  - intros id Hid. unfold rules_of, select_where. simpl. rewrite Er, land_rows_added by done.
    rewrite filter_app, fmap_app, (filter_none _ (rules_added es)); [by rewrite app_nil_r|].
    apply keys_ok_tokens in Hd as [Hnd _]. simpl in Hnd. rewrite El, fmap_app, NoDup_app in Hnd.
    destruct Hnd as (_ & Hdisj & _). rewrite (Forall2_keys st_id _ _ _ Hkey Hl'), Hnew in Hdisj.
    eapply Forall_impl; [exact Hwf|]. simpl. intros r Hr Heq%bool_decide_eq_true_1.
    apply (Hdisj id Hid). by rewrite <- Heq.
Qed.

(** ** Every call is a sequence of transactions *)

Section calls.
Context `{Env}.

(** The commits from the tables [d] on are well-formed transactions. *)
Fixpoint transacted (d : database) (cs : list database) : Prop :=
  match cs with
  | [] => True
  | b :: cs' => (exists es, well_formed es /\ b = perform_all es d) /\ constraints_ok env_dialect b = true /\
      transacted b cs'
  end.

(** The tables after the last of the commits. *)
Definition last_of (d : database) (cs : list database) : database := default d (last cs).

Lemma last_of_cons d b cs : last_of d (b :: cs) = last_of b cs.
Proof. unfold last_of. rewrite last_cons. by destruct (last cs). Qed.

Lemma transacted_app d cs cs' : transacted d cs -> transacted (last_of d cs) cs' -> transacted d (cs ++ cs').
Proof.
  revert d. induction cs as [|b cs IH]; intros d; [done|]. rewrite last_of_cons. simpl. intros (He & Hc & Hcs) Hcs'.
  split_and!; auto.
Qed.

Lemma last_of_app d cs cs' : last_of d (cs ++ cs') = last_of (last_of d cs) cs'.
Proof.
  revert d. induction cs as [|b cs IH]; intros d; [done|]. by rewrite <- app_comm_cons, !last_of_cons.
Qed.

Lemma transacted_elem d cs a b :
  transacted d cs -> (a, b) ∈ zip (d :: cs) cs ->
  constraints_ok env_dialect b = true /\ exists es, well_formed es /\ b = perform_all es a.
Proof.
  revert d. induction cs as [|c cs IH]; intros d; simpl; [by intros _ ?%elem_of_nil|].
  intros (He & Hc & Hcs) [[= -> ->]|Hin]%elem_of_cons; [done|by eapply IH].
Qed.

(** What is pending in the session is a well-formed prefix of a transaction. *)
Definition pending (es : transaction) (w : world) : Prop :=
  well_formed es /\ w_sess w = perform_all es (w_db w).

(** Whatever is pending before, some transactions were committed and something
    is pending after. *)
Definition transacts : relation world := fun w w' =>
  forall es, pending es w ->
  exists cs es', w_commits w' = w_commits w ++ cs /\ w_db w' = last_of (w_db w) cs /\
    transacted (w_db w) cs /\ pending es' w'.

#[export] Instance transacts_preorder : PreOrder transacts.
Proof.
  split; [intros w es Hes; exists [], es; by rewrite app_nil_r|].
  intros w1 w2 w3 H12 H23 es (cs & es2 & C1 & D1 & T1 & (cs' & es3 & C2 & D2 & T2 & Hes3)%H23)%H12.
  exists (cs ++ cs'), es3. rewrite C2, C1, <- app_assoc, last_of_app, <- D1. split_and!; [done..| |done].
  apply transacted_app; [done|]. by rewrite <- D1.
Qed.

Lemma transacts_edit e w : rules_added [e] = [] -> transacts w (set_sess (fun d => perform d e) w).
Proof.
  intros He es [Hwf Hes]. exists [], (es ++ [e]). rewrite app_nil_r. split_and!; [done..|]. split.
  - apply well_formed_snoc; [done|by rewrite He].
  - simpl. by rewrite perform_all_snoc, Hes.
Qed.

Lemma transacts_same w w' : same_db w w' -> transacts w w'.
Proof.
  intros (Hd & Hs & Hc) es [Hwf Hes]. exists [], es. rewrite app_nil_r. split_and!; [done..|].
  split; [done|]. by rewrite Hd, Hs.
Qed.

#[export] Instance transacts_frame : Frame transacts.
Proof.
  split.
  - apply _.
  - intros w w' [Hs _]. by apply transacts_same.
  - intros w es _. exists [], []. rewrite app_nil_r. split_and!; [done..|]. split; [apply well_formed_nil|done].
  - intros w Hc es [Hwf Hes]. exists [w_sess w], []. split_and!; [done..| |by split; [apply well_formed_nil|]].
    split_and!; [by exists es|done|done].
  - intros e w He. apply transacts_edit. by destruct e.
Qed.

#[export] Instance transacts_tables : FrameTables transacts.
Proof.
  split; [apply _|by intros w w' Hs _; apply transacts_same|]. intros e w He. apply transacts_edit. by destruct e.
Qed.

#[export] Instance transacts_delete : FrameDelete transacts.
Proof. intros user id. apply (sys_delete_credential transacts). intros c w. by apply transacts_edit. Qed.

(** While the rules of a new token are added, the token is pending. *)
Definition minting (id : pystr) : relation world := fun w w' =>
  forall es, pending es w -> id ∈ minted_ids es ->
  exists es', pending es' w' /\ id ∈ minted_ids es' /\ w_db w' = w_db w /\ w_commits w' = w_commits w.

#[export] Instance minting_preorder id : PreOrder (minting id).
Proof.
  split; [by intros w es; exists es|].
  intros w1 w2 w3 H12 H23 es Hes Hid. destruct (H12 es Hes Hid) as (es2 & Hes2 & Hid2 & E2 & C2).
  destruct (H23 es2 Hes2 Hid2) as (es3 & Hes3 & Hid3 & E3 & C3). exists es3. split_and!; [done..|congruence|congruence].
Qed.

Lemma minting_same id w w' : same_db w w' -> minting id w w'.
Proof.
  intros (Hd & Hs & Hc) es [Hwf Hes] Hid. exists es. split_and!; [|done..]. split; [done|]. by rewrite Hd, Hs.
Qed.

Lemma minting_rule id r : Keeps (minting id) (add_rule id r).
Proof.
  unfold add_rule. apply keeps_bind; [apply _| |intros rid].
  { intros w. by apply minting_same. }
  apply keeps_bind; [apply _| |intros n].
  { intros w. apply minting_same, keeps_now_db. }
  intros w es [Hwf Hes] Hid. set (row := {| sr_id := rid; sr_scoped_token_id := id;
    sr_rule := rule_of_dict r; sr_content_lock := rd_content_lock r; sr_created_at := dt_wall n |}).
  exists (es ++ [InsertRule row]). split_and!; [|rewrite minted_ids_app; by apply elem_of_app; left|done..].
  split; [apply well_formed_snoc; [done|by repeat constructor]|].
  simpl. by rewrite perform_all_snoc, Hes.
Qed.

#[export] Instance transacts_mint : FrameMint transacts.
Proof.
  intros user name credential rs expires. apply (sys_mint_token transacts). intros id g n w es [Hwf Hes].
  set (t := new_token _ _ _ _ _ _ _). unfold mbind, M_bind, sess_modify, modify.
  set (w1 := set_sess (set_tokens (fun l => l ++ [t])) w).
  assert (H1 : pending (es ++ [InsertToken t]) w1).
  { split; [by apply well_formed_snoc|]. simpl. by rewrite perform_all_snoc, Hes. }
  assert (Hid : id ∈ minted_ids (es ++ [InsertToken t])) by (rewrite minted_ids_app; by apply elem_of_app; right; left).
  assert (E1 : w_db w1 = w_db w) by done. assert (C1 : w_commits w1 = w_commits w) by done.
  clearbody w1. clear Hwf Hes. pose proof (sys_flush transacts w1 _ H1) as Hfl.
  destruct (flush w1) as [[[]|e] w2] eqn:Ef; [|rewrite <- E1, <- C1; exact Hfl].
  apply flush_Ok in Ef as (_ & _ & ->). clear Hfl.
  assert (Hr : Keeps (minting id) (for_each rs (add_rule id)))
    by (apply keeps_for_each; [apply _|]; intros r _; apply minting_rule).
  destruct (Hr (set_tick S w1) (es ++ [InsertToken t])) as (es2 & H2 & _ & E2 & C2); [by destruct H1|done|].
  simpl in E2, C2. rewrite <- E1, <- E2, <- C1, <- C2.
  destruct (for_each rs (add_rule id) _) as [[[]|e] w3]; simpl in *; [|exists [], es2; by rewrite app_nil_r].
  assert (Hrest : Keeps transacts (_ ← commit; row ← refresh_row tokens st_id id;
    mret (Minted (st_id row) (st_name row) (g_full g) (st_token_prefix row) (st_status row)
            (st_version row) (st_expires_at row) (st_created_at row)))).
  { pose proof (sys_commit transacts). pose proof (sys_refresh_row transacts tokens st_id id). solve_keeps. }
  exact (Hrest w3 es2 H2).
Qed.
End calls.

(** ** Properties *)

Section transaction_properties.
Context `{Env, AuthLibs, OidcLibs, Presentation, Pydantic, Router, Framework, ConsoleText}.

(** The tables after each commit of a call, and each commit with the tables it
    was computed from. *)
Definition commits_of (c : call) (w : world) : list database :=
  drop (length (w_commits w)) (w_commits (run_call c w).2).
Definition transactions_of (c : call) (w : world) : list (database * database) :=
  zip (w_db w :: commits_of c w) (commits_of c w).

Lemma call_transacted c w :
  transacted (w_db w) (commits_of c w) /\ w_db (run_call c w).2 = last_of (w_db w) (commits_of c w).
Proof.
  unfold commits_of. destruct (call_frame transacts c w []) as (cs & es & Hc & Hd & Ht & _).
  { by split; [apply well_formed_nil|]. }
  simpl in Hc, Hd, Ht. rewrite Hc, drop_app_length. done.
Qed.

(** C15: every call of the program, whatever happens while it runs, changes the
    committed tables by some commits, each of which makes them satisfy the
    constraints of the schema and is a transaction of the statements of
    [edit] alone: INSERT of a user, credential, version, audit row, token or
    rule; UPDATE, by id, of the e-mail of one user, of the columns of a
    verification, a consent or a rotation (and then fenced) of one credential,
    or of a rotation or revocation of one token; DELETE of one credential. And
    rules are only ever added to a token of the same transaction. *)
Theorem calls_are_transactions c w :
  w_db (run_call c w).2 = last_of (w_db w) (commits_of c w) /\
  forall a b, (a, b) ∈ transactions_of c w ->
    constraints_ok env_dialect b = true /\ exists es, well_formed es /\ b = perform_all es a.
Proof.
  destruct (call_transacted c w) as [Ht Hd]. split; [done|]. intros a b. by apply transacted_elem.
Qed.

(** A commit of some call, from whatever tables. *)
Definition of_some_call (p : database * database) : Prop := exists c w, p ∈ transactions_of c w.

Lemma land_lasting d p : of_some_call p -> lasting d (land d p).
Proof.
  destruct p as [a b]. intros (c & w & Hin). unfold land.
  destruct (transacted_elem _ _ a b (proj1 (call_transacted c w)) Hin) as (Hb & es & Hwf & ->).
  destruct (constraints_ok env_dialect (apply_delta _ _ d)) eqn:Hc; [|done].
  simpl in *. apply apply_delta_lasting; [done|by eapply constraints_keys..].
Qed.

Lemma land_keys d p : keys_ok d = true -> keys_ok (land d p) = true.
Proof. intros Hd. unfold land. case_match; [by eapply constraints_keys|done]. Qed.

Lemma land_all_lasting ps d :
  Forall of_some_call ps -> keys_ok d = true ->
  lasting d (foldl land d ps) /\ keys_ok (foldl land d ps) = true.
Proof.
  intros Hps. revert d. induction Hps as [|p ps Hp _ IH]; intros d Hk; simpl; [done|].
  destruct (IH (land d p) (land_keys d p Hk)) as [Hl Hk']. split; [|done].
  etrans; [by apply land_lasting|done].
Qed.

(** C3: isolation is not needed: when the commits of any number of calls, each
    computed from tables its session read at any earlier time, land in any
    order on the tables there are (lost updates, late inserts and deletes of
    rows that were changed meanwhile included), then every token keeps its
    owner, its credential and exactly its rules, a token that is not active
    never authenticates again, and the audit log only grows. *)
Theorem interleaved_calls_safe ps d t w full ctx w2 :
  Forall of_some_call ps -> keys_ok d = true -> t ∈ tokens d -> w_db w = foldl land d ps ->
  lasting d (w_db w) /\
  (st_status t ≠ u "active" ->
   (open_session ≫= fun _ => resolve_scoped_token full) w = (Ok (Some ctx), w2) ->
   st_id (ctx_token ctx) ≠ st_id t).
Proof.
  intros Hps Hk Ht Hw. destruct (land_all_lasting ps d Hps Hk) as [Hl Hk']. rewrite <- Hw in Hl, Hk'.
  split; [done|]. intros Hst Hrun Heq. apply M_bind_Ok in Hrun as ([] & w1 & [= <-] & Hrun).
  apply resolve_inv in Hrun as [[Hin _ _ Hact _ _ _] _]. simpl in Hin.
  destruct (lasting_tokens _ _ Hl t Ht) as (t' & Ht' & Hid & _ & _ & Hst').
  assert (E : ctx_token ctx = t').
  { eapply (NoDup_fmap_inj st_id); [|exact Hin|exact Ht'|congruence]. by apply keys_ok_tokens. }
  rewrite E in Hact. destruct Hst' as [Hst'|Hst']; congruence.
Qed.
End transaction_properties.
