(* ===== verification/Demo.v ===== *)
(** * Concrete environments

    Closed instances of [Env] at which the witnesses evaluate the model: a
    clock that ticks once a second, a reachable Redis and database, locks that
    are granted, counters for the random choices, a reversible cipher, and a
    Cloudflare that answers each request by a given function. *)

From S2P Require Import Prelude PyStr Json Scope Models World Crypto ProxyAuth ProxyDns.

(** [dia]: the database; [tz]: the zone of a loaded [DateTime]; [cf]: Cloudflare;
    [granted]: whether lock requests succeed. *)
Definition demo_env (dia : dialect) (tz : option Z) (granted : bool)
    (cf : http_request -> option http_response) : Env := {|
  env_unicode := ascii_unicode;
  env_dialect := dia;
  env_collation := fun s => lower_char <$> s;
  env_settings := default_settings;
  cf_state := unit;
  cf_request := fun rq s => (cf rq, s);
  clock := fun t => (Z.of_nat t * second)%Z;
  monotonic := fun t => (Z.of_nat t * second)%Z;
  redis_down := fun _ => false;
  db_down := fun _ => false;
  lock_granted := fun _ _ => granted;
  random_index := fun t n => N.of_nat t;
  random_bytes := fun t n => N.of_nat <$> seq t n;
  new_uuid := fun t => u "id-" ++ str_of_Z (Z.of_nat t);
  fernet_encrypt := fun _ p => u "enc:" ++ p;
  fernet_decrypt := fun c => if startswith (u "enc:") c then Some (drop 4 c) else None;
  column_tz := tz;
|}.

(** A Cloudflare that answers every request with the same response. *)
Definition answers (status : Z) (body : json) (_ : http_request) : option http_response :=
  Some (HttpResponse status (Some body)).

(** A world with the given committed tables and nothing else. *)
Definition start `{e : Env} (c : cf_state) (d : database) : world :=
  World 0 d d ∅ c None (JNull, 0%Z) [] [] [].

Definition demo_start dia tz granted cf (d : database) : @world (demo_env dia tz granted cf) :=
  @start (demo_env dia tz granted cf) tt d.

(** ** A small Cloudflare account

    Zone [z1], [example.com], with the records [r1] ([home.example.com], A) and
    [r2] ([mail.example.com], MX). *)

Definition demo_record (id name rtype : pystr) : json := JObj [
  (u "id", JStr id); (u "zone_id", JStr (u "z1"));
  (u "name", JStr name); (u "type", JStr rtype)].

Definition demo_r1 : json := demo_record (u "r1") (u "home.example.com") (u "A").
Definition demo_r2 : json := demo_record (u "r2") (u "mail.example.com") (u "MX").

Definition demo_envelope (result : json) : json := JObj [
  (u "success", JBool true); (u "errors", JArr []); (u "messages", JArr []); (u "result", result);
  (u "result_info", JObj [(u "total_pages", JNum 1)])].

(** Records by id, the records of the zone, the zone itself; the token endpoint
    is not reachable. *)
Definition demo_cf (rq : http_request) : option http_response :=
  let ok j := Some (HttpResponse 200 (Some (demo_envelope j))) in
  if endswith (u "/dns_records/r1") (hq_url rq) then ok demo_r1
  else if endswith (u "/dns_records/r2") (hq_url rq) then ok demo_r2
  else if endswith (u "/dns_records") (hq_url rq) then ok (JArr [demo_r1; demo_r2])
  else if endswith (u "/zones/z1") (hq_url rq) then ok (JObj [(u "name", JStr (u "example.com"))])
  else if endswith (u "/oauth2/token") (hq_url rq) then None
  else Some (HttpResponse 404 (Some (demo_envelope JNull))).

(** May read, write and delete A records named [home.example.com]. *)
Definition demo_rule : rule :=
  Rule (u "z1") (Some (u "home.example.com")) (u "exact") [u "A"] None true true true true.

(** May do anything to the record [r1], whatever its name and type. *)
Definition demo_pinned_rule : rule :=
  Rule (u "z1") None (u "exact") [u "*"] (Some [u "r1"]) true true true true.

Definition demo_credential : UpstreamCredential := {|
  uc_id := u "c1"; uc_user_id := u "u1"; uc_label := u "main"; uc_cred_type := u "token";
  uc_secret_enc := Some (u "enc:secret"); uc_access_token_enc := None; uc_refresh_token_enc := None;
  uc_token_expires_at := None; uc_oauth_scopes := None; uc_key_version := 1; uc_cred_version := 1;
  uc_cf_account_email := None; uc_verify_status := None; uc_verified_at := None; uc_created_at := 0 |}.

Definition demo_user : User := {|
  u_id := u "u1"; u_email := Some (u "a@example.com"); u_password_hash := None;
  u_auth_provider := u "local"; u_cf_sub := None; u_is_active := true; u_created_at := 0;
  u_updated_at := 0 |}.

Definition demo_db : database := Database [demo_user] [demo_credential] [] [] [] [].

(** A token of that user and its string. *)
Definition demo_full : pystr :=
  u "cfsx_ABCDEFGHIJKLMNOP_0123456789012345678901234567890123456789".

Definition demo_token : ScopedToken := {|
  st_id := u "t1"; st_user_id := u "u1"; st_upstream_credential_id := u "c1"; st_name := u "home";
  st_lookup_id := u "ABCDEFGHIJKLMNOP"; st_token_prefix := u "cfsx_ABCDEF";
  st_token_hash := match hash_token demo_full with Ok h => h | Raise _ => [] end;
  st_version := 1; st_status := u "active"; st_expires_at := None; st_last_used_at := None;
  st_created_at := 0; st_revoked_at := None |}.

Definition demo_token_expiring (e : Z) : ScopedToken := {|
  st_id := u "t1"; st_user_id := u "u1"; st_upstream_credential_id := u "c1"; st_name := u "home";
  st_lookup_id := u "ABCDEFGHIJKLMNOP"; st_token_prefix := u "cfsx_ABCDEF";
  st_token_hash := match hash_token demo_full with Ok h => h | Raise _ => [] end;
  st_version := 1; st_status := u "active"; st_expires_at := Some e; st_last_used_at := None;
  st_created_at := 0; st_revoked_at := None |}.

Definition demo_rule_row : ScopeRule := {|
  sr_id := u "s1"; sr_scoped_token_id := u "t1"; sr_rule := demo_rule; sr_content_lock := None;
  sr_created_at := 0 |}.

Definition demo_db_token (t : ScopedToken) : database :=
  Database [demo_user] [demo_credential] [t] [demo_rule_row] [] [].

Definition demo_ctx (rs : list rule) : ProxyAuthContext := Context_ demo_token rs demo_credential.

(** A request with a JSON body. *)
Definition demo_request (body : json) : request :=
  Request (Some (u "127.0.0.1")) [] (Some body) [].

(** The two deployments, with a reachable upstream. *)
Definition lite : Env := demo_env SQLite (Some 0%Z) true demo_cf.
Definition mysql : Env := demo_env MySQL None true demo_cf.

Definition lite_world (d : database) : @world lite := demo_start SQLite (Some 0%Z) true demo_cf d.
Definition mysql_world (d : database) : @world mysql := demo_start MySQL None true demo_cf d.

(** A run that returns, by the value it returns. *)
Lemma run_returns `{Env} {A} (m : M A) w a : (m w).1 = Ok a -> m w = (Ok a, (m w).2).
Proof. destruct (m w). simpl. by intros ->. Qed.
