(* ===== verification/Concurrency.v ===== *)
(** * Concurrent requests and the mutation lock

    The handlers of [routers/proxy_dns.py] run concurrently, in one process or
    several, against one Cloudflare account and one lock service. A session is
    one request with the environment it met; an execution is an interleaving of
    the traces of any number of sessions, finished or not, that the lock
    service admits. The lock closes the window between the fetch of a record
    and the mutation decided on it, except against lock-exempt mutations of the
    same record, and against requests that spell the record otherwise: the lock
    is named by the ids of the path, which go unescaped into the URL that httpx
    parses again. *)

From S2P Require Import Prelude PyStr Json Scope Models World Envelopes Locks Upstream ProxyAuth.
From S2P Require Import Authorizer ProxyDns Demo.

(** ** Sessions *)

(** A proxied request, by endpoint. *)
Inductive call :=
| Patch (zone rid : pystr)
| Put (zone rid : pystr)
| Remove (zone rid : pystr)
| Post (zone : pystr)
| Get (zone rid : pystr)
| ListRecords (fuel : nat) (zone : pystr)
| ListZones (fuel : nat).

Definition handle `{Env} (c : call) (rq : request) (ctx : ProxyAuthContext) : M response :=
  match c with
  | Patch zone rid => patch_dns_record zone rid rq ctx
  | Put zone rid => put_dns_record zone rid rq ctx
  | Remove zone rid => delete_dns_record zone rid rq ctx
  | Post zone => create_dns_record zone rq ctx
  | Get zone rid => get_dns_record zone rid rq ctx
  | ListRecords fuel zone => list_dns_records fuel zone rq ctx
  | ListZones fuel => list_zones fuel rq ctx
  end.

Record session := Session {
  s_env : Env;
  s_start : @world s_env;
  s_request : request;
  s_context : ProxyAuthContext;
  s_call : call;
}.

Definition s_run (s : session) : result response * @world (s_env s) :=
  @handle (s_env s) (s_call s) (s_request s) (s_context s) (s_start s).

(** What the session does outside. *)
Definition s_trace (s : session) : list event :=
  drop (length (w_trace (s_start s))) (w_trace (s_run s).2).

(** A by-id mutation: method, operation, zone and record. *)
Definition target (c : call) : option (pystr * need * pystr * pystr) :=
  match c with
  | Patch zone rid => Some (u "PATCH", Write, zone, rid)
  | Put zone rid => Some (u "PUT", Write, zone, rid)
  | Remove zone rid => Some (u "DELETE", Delete, zone, rid)
  | _ => None
  end.

(** The body that is decided on, and the bytes that are sent. *)
Definition decided_body (c : call) (rq : request) : json :=
  match c with Patch _ _ | Put _ _ => default JNull (rq_json rq) | _ => JNull end.
Definition sent_body (c : call) (rq : request) : option (list N) :=
  match c with Patch _ _ | Put _ _ => Some (rq_body rq) | _ => None end.

Definition s_locking (s : session) (m : pystr) (op : need) (zone rid : pystr) : bool :=
  @locking (s_env s) (s_context s) m zone rid op.

(** ** What a session sends *)

(** The only position of a list at which a property holds. *)
Lemma unique_split {A} (P : A -> Prop) a x b p e q :
  Forall (fun y => ~ P y) a -> Forall (fun y => ~ P y) b ->
  a ++ x :: b = p ++ e :: q -> P e -> p = a /\ e = x /\ q = b.
Proof.
  revert p. induction a as [|y a IH]; intros [|z p] Ha Hb E He; simplify_eq/=; try done.
  - exfalso. rewrite Forall_app, Forall_cons in Hb. by destruct Hb as (_ & ? & _).
  - exfalso. rewrite Forall_cons in Ha. by destruct Ha.
  - rewrite Forall_cons in Ha. destruct Ha as [_ Ha].
    by destruct (IH p Ha Hb) as (-> & -> & ->).
Qed.

Section traces.
Context `{Env}.

(** A by-id mutation: read-only events, then nothing that writes or the
    guarded forward. *)
Definition mutation_trace ctx m op zone rid body content (l : list event) : Prop :=
  exists lr lp auth, l = lr ++ lp /\ Forall read_only_event lr /\
    (quiet lp \/ exists pre res, performed ctx m zone rid body op auth content lp pre res).

Definition lock_events (locked : bool) (name : pystr) : list event :=
  if locked then [EvLock name] else [].

(** What precedes the write of a mutation. *)
Lemma mutation_trace_write ctx m op zone rid body content l p e q :
  mutation_trace ctx m op zone rid body content l -> l = p ++ e :: q -> write_event e ->
  exists lr base base' auth resp pre res name,
    e = EvHttp (forwarded base' m (record_path zone rid) None None content auth) res /\
    p = lr ++ lock_events (locking ctx m zone rid op) name
           ++ [EvHttp (record_get base zone rid auth) (Ok resp)] /\
    (locking ctx m zone rid op = true -> mutation_lock_name zone rid = Ok name) /\
    fetched resp pre /\ cleared ctx m zone rid body op pre.
Proof.
  intros (lr & lp & auth & -> & Hlr & Hlp) E He. apply read_only_quiet in Hlr.
  destruct Hlp as [Hq|(pre & res & g & (base & base' & resp & -> & Hf & Hc) & Hl)].
  - assert (Hall : quiet (lr ++ lp)) by by apply Forall_app.
    rewrite E in Hall. apply Forall_app in Hall as [_ Hall].
    apply Forall_cons in Hall as [Hn _]. done.
  - assert (Hfetch : ~ write_event (EvHttp (record_get base zone rid auth) (Ok resp)))
      by (intros Hn; apply Hn; by left).
    destruct Hl as [[Hlk ->]|(Hlk & name & Hname & ->)]; rewrite Hlk.
    + destruct (unique_split write_event (lr ++ [EvHttp (record_get base zone rid auth) (Ok resp)])
        (EvHttp (forwarded base' m (record_path zone rid) None None content auth) res) [] p e q)
        as (-> & -> & ->); [apply Forall_app; split; [done|by constructor]|constructor|by rewrite <- E, <- app_assoc|done|].
      exists lr, base, base', auth, resp, pre, res, []. by split_and!.
    + destruct (unique_split write_event
        (lr ++ [EvLock name; EvHttp (record_get base zone rid auth) (Ok resp)])
        (EvHttp (forwarded base' m (record_path zone rid) None None content auth) res)
        [EvUnlock name] p e q) as (-> & -> & ->); [| |by rewrite <- E, <- app_assoc|done|].
      * apply Forall_app. split; [done|]. constructor; [by intros []|by constructor].
      * constructor; [by intros []|done].
      * exists lr, base, base', auth, resp, pre, res, name. by split_and!.
Qed.
End traces.

Lemma trace_of `{Env} {A} (m : M A) Q w :
  Emits m Q -> Q (drop (length (w_trace w)) (w_trace (m w).2)) (m w).1.
Proof. intros Hm. destruct (Hm w) as (l & -> & HQ). by rewrite drop_app_length. Qed.

(** A session mutates at most as its by-id call says, or creates one record. *)
Lemma session_mutates s m op zone rid :
  target (s_call s) = Some (m, op, zone, rid) ->
  @mutation_trace (s_env s) (s_context s) m op zone rid
    (decided_body (s_call s) (s_request s)) (sent_body (s_call s) (s_request s)) (s_trace s).
Proof.
  destruct s as [e w rq ctx c]. unfold s_trace, s_run. simpl. intros Ht.
  assert (Hh : forall h, mutation_handler rq m op (decided_body c rq) (sent_body c rq) h ->
    mutation_trace ctx m op zone rid (decided_body c rq) (sent_body c rq)
      (drop (length (w_trace w)) (w_trace (h zone rid rq ctx w).2))).
  { intros h Hh. apply (emits_mutation rq m op _ _ h ctx zone rid) in Hh.
    pose proof (trace_of _ _ w Hh) as (lr & lp & auth & -> & Hlr & Hout).
    exists lr, lp, auth. split_and!; [done|done|].
    destruct (h zone rid rq ctx w).1; [|done].
    destruct Hout as [[? _]|(pre & up & ? & _)]; [by left|right; eauto]. }
  assert (Hnone : mutation_trace ctx m op zone rid (decided_body c rq) (sent_body c rq) []).
  { exists [], [], []. split_and!; [done|constructor|left; constructor]. }
  destruct c; simplify_eq/=; [| |by apply Hh; constructor].
  - destruct (rq_json rq) as [b|] eqn:Eb; [by apply Hh; constructor|].
    unfold patch_dns_record, request_json. rewrite Eb. simpl. by rewrite drop_all.
  - destruct (rq_json rq) as [b|] eqn:Eb; [by apply Hh; constructor|].
    unfold put_dns_record, request_json. rewrite Eb. simpl. by rewrite drop_all.
Qed.

Lemma session_other_writes s e :
  target (s_call s) = None -> e ∈ s_trace s -> write_event e ->
  exists zone base auth res, s_call s = Post zone /\
    e = EvHttp (@create_request (s_env s) base zone (s_request s) auth) res.
Proof.
  destruct s as [env w rq ctx c]. unfold s_trace, s_run. simpl. intros Ht Hin He.
  assert (Hro : forall l, Forall read_only_event l -> e ∉ l).
  { intros l Hl Hel. rewrite Forall_forall in Hl. apply Hl in Hel.
    destruct e; simpl in *; contradiction. }
  destruct c as [| | |zone|zone rid|fuel zone|fuel]; try done; simpl in Hin.
  - destruct (trace_of _ _ w (emits_create ctx zone rq)) as [[Hl _]|(lr & base & auth & res & b & El & Hl & _)].
    + by apply Hro in Hl.
    + rewrite El in Hin. apply elem_of_app in Hin as [Hin|Hin]; [by apply Hro in Hl|].
      apply list_elem_of_singleton in Hin as ->.
      by exists zone, base, auth, res.
  - destruct (trace_of _ _ w (emits_get ctx zone rid rq)) as [Hl _]. by apply Hro in Hl.
  - destruct (trace_of _ _ w (within_list_dns_records fuel zone rq ctx)) as [Hl _]. by apply Hro in Hl.
  - destruct (trace_of _ _ w (within_list_zones fuel rq ctx)) as [Hl _]. by apply Hro in Hl.
Qed.

(** ** Executions *)

Definition proj (i : nat) (T : list (nat * event)) : list event :=
  (filter (fun x => x.1 = i) T).*2.

(** The lock table after an execution, or [None] when a lock is taken that
    another session holds. Only the holder can release. *)
Definition lock_step (L : gmap pystr nat) (x : nat * event) : option (gmap pystr nat) :=
  match x with
  | (i, EvLock n) =>
      match L !! n with
      | None => Some (<[n := i]> L)
      | Some j => if bool_decide (j = i) then Some L else None
      end
  | (i, EvUnlock n) => Some (if bool_decide (L !! n = Some i) then delete n L else L)
  | _ => Some L
  end.

Fixpoint lock_table (L : gmap pystr nat) (T : list (nat * event)) : option (gmap pystr nat) :=
  match T with
  | [] => Some L
  | x :: T' => lock_step L x ≫= fun L' => lock_table L' T'
  end.

(** A path parameter never holds a slash. *)
Definition plain_id (s : pystr) : Prop := 47%N ∉ s.

(** Each session has done a part of its trace, and locks exclude. *)
Record execution (sessions : nat -> session) (T : list (nat * event)) : Prop := Execution {
  exec_routed : forall i m op zone rid, target (s_call (sessions i)) = Some (m, op, zone, rid) ->
    plain_id zone /\ plain_id rid;
  exec_proj : forall i, proj i T `prefix_of` s_trace (sessions i);
  exec_locks : is_Some (lock_table ∅ T);
}.

Lemma proj_app i T U : proj i (T ++ U) = proj i T ++ proj i U.
Proof. unfold proj. by rewrite filter_app, fmap_app. Qed.

Lemma proj_cons_eq i e T : proj i ((i, e) :: T) = e :: proj i T.
Proof. unfold proj. by rewrite filter_cons_True. Qed.

Lemma proj_cons_ne i j e T : j ≠ i -> proj i ((j, e) :: T) = proj i T.
Proof. intros. unfold proj. by rewrite filter_cons_False. Qed.

(** The last event of a session, in the execution. *)
Lemma proj_snoc i T l e :
  proj i T = l ++ [e] -> exists A C, T = A ++ (i, e) :: C /\ proj i A = l /\ proj i C = [].
Proof.
  induction T as [|[j x] T IH] using rev_ind; [by destruct l|].
  rewrite proj_app. destruct (decide (j = i)) as [->|Hj].
  - rewrite proj_cons_eq. intros [<- [= <-]]%app_inj_2; [|done]. by exists T, [].
  - rewrite (proj_cons_ne i j) by done. intros E. cbn in E. rewrite app_nil_r in E.
    destruct (IH E) as (A & C & -> & HA & HC).
    exists A, (C ++ [(j, x)]). split_and!; [by rewrite <- app_assoc|done|].
    rewrite proj_app, HC. by rewrite proj_cons_ne.
Qed.

Lemma lock_table_app L T U : lock_table L (T ++ U) = lock_table L T ≫= fun L' => lock_table L' U.
Proof.
  revert L. induction T as [|x T IH]; intros L; [done|]. simpl.
  destruct (lock_step L x); simpl; [apply IH|done].
Qed.

(** A lock stays with its holder until the holder releases it. *)
Lemma lock_table_keeps i n L U L' :
  lock_table L U = Some L' -> EvUnlock n ∉ proj i U -> L !! n = Some i -> L' !! n = Some i.
Proof.
  revert L. induction U as [|[j e] U IH]; intros L; [by intros [= <-]|].
  cbn [lock_table]. destruct (lock_step L (j, e)) as [L1|] eqn:E1; [|done].
  intros Hrun Hnin Hn. change (lock_table L1 U = Some L') in Hrun.
  apply (IH L1 Hrun).
  - intros Hin. apply Hnin. destruct (decide (j = i)) as [->|Hj].
    + rewrite proj_cons_eq. by right.
    + by rewrite proj_cons_ne.
  - destruct e as [rq res|n'|n']; simplify_eq/=; [done|..].
    + destruct (L !! n') as [k|] eqn:Ek; [by case_bool_decide; simplify_eq|]. simplify_eq.
      rewrite lookup_insert_ne; [done|]. congruence.
    + case_bool_decide as Hk; [|done]. destruct (decide (n' = n)) as [->|Hne].
      * assert (j = i) as -> by congruence. destruct Hnin. rewrite proj_cons_eq. by left.
      * by rewrite lookup_delete_ne.
Qed.

Lemma lock_held i n A U L' :
  lock_table ∅ (A ++ (i, EvLock n) :: U) = Some L' -> EvUnlock n ∉ proj i U -> L' !! n = Some i.
Proof.
  rewrite lock_table_app. destruct (lock_table ∅ A) as [L|]; [|done]. simpl.
  destruct (L !! n) as [j|] eqn:Ej; [case_bool_decide; [subst j|done]|]; simpl; intros Hrun Hnin.
  - by eapply lock_table_keeps.
  - eapply lock_table_keeps; [done|done|]. apply lookup_insert_eq.
Qed.

(** ** A shared Cloudflare account *)

Lemma read_or_write rq res : read_only_request rq \/ write_event (EvHttp rq res).
Proof.
  simpl. unfold read_only_request.
  destruct (decide (hq_method rq = u "GET")); [by left; left|].
  destruct (decide (hq_method rq = u "POST" /\ is_Some (hq_data rq))); [by left; right|].
  right. naive_solver.
Qed.

Section account.
(** Cloudflare as a state machine, the record each of its states shows, and what
    the URLs httpx makes of the given ones address: the record a GET returns, and
    the records a write may change. *)
Context {cf record : Type} (ask : http_request -> cf -> option http_response * cf)
  (shown : cf -> record -> json) (fetches : pystr -> option record) (touches : pystr -> record -> Prop).

Definition reply (a : option http_response) : result http_response :=
  match a with Some r => Ok r | None => Raise TransportError end.

(** The exchanges of an execution are those of one account. *)
Inductive served : cf -> list (nat * event) -> cf -> Prop :=
| ServedNil s : served s [] s
| ServedHttp s i rq T s' :
    served (ask rq s).2 T s' -> served s ((i, EvHttp rq (reply (ask rq s).1)) :: T) s'
| ServedLock s i n T s' : served s T s' -> served s ((i, EvLock n) :: T) s'
| ServedUnlock s i n T s' : served s T s' -> served s ((i, EvUnlock n) :: T) s'.

(** What the proxy relies on: a fetch shows the record it addresses, and a
    record only changes by a writing request that addresses it (a POST to the
    records of a zone only adds to them). *)
Record account_laws : Prop := AccountLaws {
  fetch_shows rq s resp pre x :
    hq_method rq = u "GET" -> fetches (hq_url rq) = Some x ->
    (ask rq s).1 = Some resp -> fetched resp pre -> pre ≠ JNull -> shown s x = pre;
  read_keeps rq s x : read_only_request rq -> shown (ask rq s).2 x = shown s x;
  create_keeps rq base zone s x :
    hq_method rq = u "POST" -> hq_url rq = base ++ records_path zone -> plain_id zone ->
    shown s x ≠ JNull -> shown (ask rq s).2 x = shown s x;
  other_keeps rq s x : hq_method rq ≠ u "POST" -> ~ touches (hq_url rq) x -> shown (ask rq s).2 x = shown s x;
}.

(** In an execution, the requests of session [i] for a record are for [x]; its
    path is one spelling of [x]. *)
Definition spells (i : nat) (T : list (nat * event)) (zone rid : pystr) (x : record) : Prop :=
  forall rq res base, (i, EvHttp rq res) ∈ T -> hq_url rq = base ++ record_path zone rid ->
  fetches (hq_url rq) = Some x.

(** Session [j] sends a write that may change [x]. *)
Definition writes_to (j : nat) (T : list (nat * event)) (x : record) : Prop :=
  exists rq res, (j, EvHttp rq res) ∈ T /\ write_event (EvHttp rq res) /\ touches (hq_url rq) x.

Lemma served_app s T U s' : served s (T ++ U) s' <-> exists s1, served s T s1 /\ served s1 U s'.
Proof.
  split.
  - revert s. induction T as [|x T IH]; intros s; [by exists s; split; [constructor|]|].
    rewrite <- app_comm_cons. intros Hs. inversion Hs; subst;
      match goal with H : served _ (T ++ U) _ |- _ => apply IH in H as (s1 & ? & ?) end;
      exists s1; (split; [by constructor|done]).
  - intros (s1 & HT & HU). induction HT; simpl; [done|constructor; auto..].
Qed.

(** Events that leave a record as it is. *)
Definition leaves (x : record) (e : event) : Prop :=
  forall rq res, e = EvHttp rq res -> forall s, shown s x ≠ JNull -> shown (ask rq s).2 x = shown s x.

Lemma served_leaves s T s' x :
  served s T s' -> (forall i e, (i, e) ∈ T -> leaves x e) -> shown s x ≠ JNull -> shown s' x = shown s x.
Proof.
  induction 1 as [s|s i rq T s' Hs IH|s i n T s' Hs IH|s i n T s' Hs IH]; intros HT Hnn; [done|..].
  - assert (E : shown (ask rq s).2 x = shown s x) by (eapply HT; [by left|done..]).
    rewrite IH; [done|intros j e Hin; eapply HT; by right|by rewrite E].
  - apply IH; [|done]. intros j e Hin. eapply HT. by right.
  - apply IH; [|done]. intros j e Hin. eapply HT. by right.
Qed.
End account.

(** ** Under the lock *)

(** The lock of a session, taken before its last event. *)
Lemma proj_locked i T l n e :
  proj i T = l ++ [EvLock n; e] ->
  exists A C1 C2, T = A ++ (i, EvLock n) :: C1 ++ (i, e) :: C2 /\ proj i C1 = [] /\ proj i C2 = [].
Proof.
  change [EvLock n; e] with ([EvLock n] ++ [e]). rewrite app_assoc.
  intros (B & C2 & -> & HB & HC2)%proj_snoc.
  apply proj_snoc in HB as (A & C1 & -> & _ & HC1).
  exists A, C1, C2. split_and!; [by rewrite <- app_assoc|done|done].
Qed.

Lemma lock_holder i n A C1 e C2 L :
  lock_table ∅ (A ++ (i, EvLock n) :: C1 ++ (i, e) :: C2) = Some L ->
  proj i C1 = [] -> proj i C2 = [] -> e ≠ EvUnlock n -> L !! n = Some i.
Proof.
  intros HL H1 H2 He. eapply lock_held; [done|].
  rewrite proj_app, H1, proj_cons_eq, H2. intros [E|E]%elem_of_cons; [done|by apply elem_of_nil in E].
Qed.

Lemma lock_table_prefix T U : is_Some (lock_table ∅ (T ++ U)) -> is_Some (lock_table ∅ T).
Proof. rewrite lock_table_app. destruct (lock_table ∅ T); [by eexists|by intros []]. Qed.

Section under_lock.
Context {cf record : Type} (ask : http_request -> cf -> option http_response * cf)
  (shown : cf -> record -> json) (fetches : pystr -> option record) (touches : pystr -> record -> Prop).
Context (sessions : nat -> session) (T : list (nat * event)).
Hypothesis laws : account_laws ask shown fetches touches.
Hypothesis exec : execution sessions T.

(** The part of its trace a session has done before one of its events. *)
Lemma session_split A j e B :
  T = A ++ (j, e) :: B -> exists q, s_trace (sessions j) = proj j A ++ e :: q.
Proof.
  intros HT. destruct (exec_proj _ _ exec j) as [q Hq].
  rewrite Hq, HT, proj_app, proj_cons_eq, <- app_assoc. by eexists.
Qed.

(** A write of a mutation, in an execution: its fetch comes before it, and the
    lock before the fetch. *)
Lemma write_after_fetch A j e B m op zone rid :
  T = A ++ (j, e) :: B -> write_event e ->
  target (s_call (sessions j)) = Some (m, op, zone, rid) ->
  exists lr frq resp pre name,
    proj j A = lr ++ lock_events (s_locking (sessions j) m op zone rid) name
                  ++ [EvHttp frq (Ok resp)] /\
    (s_locking (sessions j) m op zone rid = true -> mutation_lock_name zone rid = Ok name) /\
    (hq_method frq = u "GET" /\ exists base, hq_url frq = base ++ record_path zone rid) /\
    fetched resp pre /\
    @cleared (s_env (sessions j)) (s_context (sessions j)) m zone rid
      (decided_body (s_call (sessions j)) (s_request (sessions j))) op pre /\
    exists base rq res, e = EvHttp rq res /\ hq_method rq ≠ u "POST" /\ hq_url rq = base ++ record_path zone rid.
Proof.
  intros HT He Ht. assert (Hm : m ≠ u "POST") by (destruct (s_call (sessions j)); by simplify_eq/=). destruct (session_split A j e B HT) as [q Hq].
  apply session_mutates in Ht.
  destruct (mutation_trace_write _ _ _ _ _ _ _ _ _ _ _ Ht Hq He)
    as (lr & base & base' & auth & resp & pre & res & name & -> & Hp & Hname & Hf & Hc).
  eexists lr, _, resp, pre, name. split_and!; [exact Hp|exact Hname|done|by exists base|done|done|].
  by eexists base', _, res.
Qed.

(** While a session holds the lock of a record after its fetch, no event of
    the others changes the record, when those that may spell it likewise and
    are locked too. *)
Lemma others_leave i n A C1 f D j e B zone rid x :
  T = (A ++ (i, EvLock n) :: C1 ++ (i, f) :: D) ++ (j, e) :: B ->
  proj i C1 = [] -> proj i D = [] -> f ≠ EvUnlock n -> j ≠ i -> mutation_lock_name zone rid = Ok n ->
  (forall zone', s_call (sessions j) = Post zone' -> plain_id zone') ->
  (forall m op zone' rid', target (s_call (sessions j)) = Some (m, op, zone', rid') ->
    writes_to touches j [(j, e)] x ->
    zone' = zone /\ rid' = rid /\ s_locking (sessions j) m op zone' rid' = true) ->
  leaves ask shown x e.
Proof.
  intros HT H1 H2 Hf Hji Hn Hposts Hothers rq res -> s Hnn.
  destruct (read_or_write rq res) as [Hro|Hw]; [by apply (read_keeps _ _ _ _ laws)|].
  destruct (target (s_call (sessions j))) as [[[[m op] z] r]|] eqn:Ht; cycle 1.
  { destruct (session_split _ _ _ _ HT) as [q Hq].
    destruct (session_other_writes (sessions j) (EvHttp rq res) Ht) as (z & base & auth & res' & Ec & [= -> _]);
      [rewrite Hq; set_solver|done|].
    apply (create_keeps _ _ _ _ laws _ base z); [done..|by apply Hposts|done]. }
  destruct (write_after_fetch _ _ _ _ _ _ _ _ HT Hw Ht)
    as (lr & frq & resp & pre & name & Hp & Hname & _ & _ & _ & base & rq' & res' & [= <- <-] & Hpost & Hurl).
  apply (other_keeps _ _ _ _ laws); [done|]. intros Htouch.
  destruct (Hothers _ _ _ _ eq_refl) as (-> & -> & Hlocking); [eexists _, _; split; [by left|done]|].
  rewrite Hlocking in Hp, Hname. specialize (Hname eq_refl).
  assert (name = n) as -> by congruence. apply proj_locked in Hp as (A' & C1' & C2' & HA & H1' & H2').
  pose proof (exec_locks _ _ exec) as HL. rewrite HT in HL. apply lock_table_prefix in HL as [L HL].
  pose proof (lock_holder _ _ _ _ _ _ _ HL H1 H2 Hf) as Hi.
  rewrite HA in HL. assert (L !! n = Some j) by by eapply (lock_holder _ _ _ _ _ _ _ HL H1' H2'). congruence.
Qed.
End under_lock.

(** ** An account with one record

    Its state is the record [r1] of zone [z1], [JNull] once deleted. What follows
    a [#] in a URL is not sent. *)

Definition account_url : pystr := record_path (u "z1") (u "r1").

Fixpoint without_fragment (url : pystr) : pystr :=
  match url with
  | [] => []
  | c :: url' => if (c =? 35)%N then [] else c :: without_fragment url'
  end.

Definition hits (url : pystr) : bool := endswith account_url (without_fragment url).

Definition renamed_r1 : json := demo_record (u "r1") (u "other.example.com") (u "A").

Definition account_ask (rq : http_request) (s : json) : option http_response * json :=
  if negb (hits (hq_url rq))
  then (Some (HttpResponse 404 (Some (demo_envelope JNull))), s)
  else if bool_decide (hq_method rq = u "PATCH")
  then (Some (HttpResponse 200 (Some (demo_envelope renamed_r1))), renamed_r1)
  else if bool_decide (hq_method rq = u "DELETE")
  then (Some (HttpResponse 200 (Some (demo_envelope demo_r1))), JNull)
  else match s with
       | JNull => (Some (HttpResponse 404 (Some (demo_envelope JNull))), s)
       | _ => (Some (HttpResponse 200 (Some (demo_envelope s))), s)
       end.

Definition account_shown (s : json) (_ : unit) : json := s.
Definition account_fetches (url : pystr) : option unit := if hits url then Some tt else None.
Definition account_touches (url : pystr) (_ : unit) : Prop := hits url = true.

Lemma account_is_lawful : account_laws account_ask account_shown account_fetches account_touches.
Proof.
  split.
  - intros rq s resp pre [] Hm Hurl Hans Hf Hnn.
    assert (Hgone : forall v, fetched (HttpResponse 404 v) pre -> pre = JNull)
      by (by intros v [[_ ?]|[[] _]]).
    unfold account_ask in Hans. unfold account_fetches in Hurl. rewrite Hm in Hans.
    destruct (hits _); simpl in Hans; [|done]. unfold account_shown.
    destruct s; simplify_eq/=; [by eapply Hgone in Hf|..];
      destruct Hf as [[? _]|(_ & _ & body & [= <-] & [= <-])]; done.
  - intros rq s [] Hro. unfold account_ask.
    destruct Hro as [-> |[-> _]]; destruct (hits _); simpl; by destruct s.
  - intros rq base zone s [] Hm _ _ _. unfold account_ask. rewrite Hm.
    destruct (hits _); simpl; by destruct s.
  - intros rq s [] _ Hn. unfold account_ask, account_touches in *.
    by destruct (hits _); [destruct Hn|].
Qed.

Lemma without_fragment_app a b : 35%N ∉ a -> without_fragment (a ++ b) = a ++ without_fragment b.
Proof.
  induction a as [|c a IH]; [done|]. intros [Hc Ha]%not_elem_of_cons. simpl.
  rewrite (proj2 (N.eqb_neq c 35)) by congruence. by rewrite IH.
Qed.

(** ** Two sessions *)

Definition race_cf (rq : http_request) : option http_response := (account_ask rq demo_r1).1.

Definition race_session (rs : list rule) (body : json) (c : call) : session :=
  Session (demo_env SQLite (Some 0%Z) true race_cf)
    (demo_start SQLite (Some 0%Z) true race_cf demo_db) (demo_request body) (demo_ctx rs) c.

(** A deletion by a token that may delete the name [home.example.com]. *)
Definition race_delete : session := race_session [demo_rule] JNull (Remove (u "z1") (u "r1")).

(** A renaming by a token pinned to the record, which takes no lock. *)
Definition race_rename (rs : list rule) (rid : pystr) : session :=
  race_session rs (JObj [(u "name", JStr (u "other.example.com"))]) (Patch (u "z1") rid).
Definition race_exempt : session := race_rename [demo_pinned_rule] (u "r1").

(** A renaming by a token that may write any A record of the zone: it takes the
    lock of the record as its request spells it. *)
Definition demo_zone_rule : rule := Rule (u "z1") None (u "exact") [u "A"] None true true true true.
Definition race_alias : session := race_rename [demo_zone_rule] (u "r1#x").

Definition race_sessions (other : session) (i : nat) : session :=
  match i with O => race_delete | _ => other end.

(** The lock and the fetch of the deletion; the whole of the other; the deletion. *)
Definition race_before (other : session) : list (nat * event) :=
  ((fun e => (0, e)) <$> take 2 (s_trace race_delete)) ++
  ((fun e => (1, e)) <$> s_trace other).
Definition race_event : event := default (EvLock []) (s_trace race_delete !! 2).
Definition race_after : list (nat * event) := (fun e => (0, e)) <$> drop 3 (s_trace race_delete).

Lemma proj_other i T : Forall (fun x => x.1 ≠ i) T -> proj i T = [].
Proof.
  induction 1 as [|[j e] T Hj _ IH]; [done|]. by rewrite proj_cons_ne.
Qed.
Lemma proj_same i (l : list event) : proj i ((fun e => (i, e)) <$> l) = l.
Proof. induction l as [|e l IH]; [done|]. rewrite fmap_cons, proj_cons_eq. by f_equal. Qed.
Lemma proj_fmap_ne i j (l : list event) : j ≠ i -> proj i ((fun e => (j, e)) <$> l) = [].
Proof. intros Hj. apply proj_other, Forall_fmap, Forall_true. by intros. Qed.

Lemma plain_check s : bool_decide (47%N ∈ s) = false -> plain_id s.
Proof. apply bool_decide_eq_false_1. Qed.

Lemma race_execution other :
  (forall m op zone rid, target (s_call other) = Some (m, op, zone, rid) -> plain_id zone /\ plain_id rid) ->
  is_Some (lock_table ∅ (race_before other ++ (0, race_event) :: race_after)) ->
  execution (race_sessions other) (race_before other ++ (0, race_event) :: race_after).
Proof.
  intros Hplain Hlocks. split; [|intros i|done].
  - intros [|i]; [|apply Hplain]. intros m op zone rid [= _ _ <- <-]. by split; apply plain_check.
  - change ((0, race_event) :: race_after) with ((fun e => (0, e)) <$> race_event :: drop 3 (s_trace race_delete)).
    unfold race_before. rewrite !proj_app. destruct i as [|[|i]]; simpl race_sessions.
    + rewrite !proj_same, proj_fmap_ne by done. exists []. by vm_compute.
    + rewrite proj_same, !proj_fmap_ne by done. by rewrite app_nil_r.
    + rewrite !proj_fmap_ne by done. by eexists.
Qed.

(** ** Properties *)

Section concurrency_properties.
Context {cf record : Type} (ask : http_request -> cf -> option http_response * cf)
  (shown : cf -> record -> json) (fetches : pystr -> option record) (touches : pystr -> record -> Prop).

(** C4: no window between check and use: in any interleaving of any requests
    that the lock service admits, when a locked mutation is sent, the record it
    addresses, as Cloudflare has it at that moment (not only as it was fetched),
    is one the token may mutate, and its renamed form too, provided every
    other mutation that is sent for that record is locked, and spells it by the
    same ids. *)
Theorem locked_mutation_up_to_date sessions i m op zone rid x T1 e T2 s0 s1 :
  account_laws ask shown fetches touches -> execution sessions (T1 ++ (i, e) :: T2) -> served ask s0 T1 s1 ->
  target (s_call (sessions i)) = Some (m, op, zone, rid) -> spells fetches i T1 zone rid x -> write_event e ->
  s_locking (sessions i) m op zone rid = true ->
  (forall j zone', s_call (sessions j) = Post zone' -> plain_id zone') ->
  (forall j m' op' zone' rid', j ≠ i -> target (s_call (sessions j)) = Some (m', op', zone', rid') ->
    writes_to touches j T1 x ->
    zone' = zone /\ rid' = rid /\ s_locking (sessions j) m' op' zone' rid' = true) ->
  @cleared (s_env (sessions i)) (s_context (sessions i)) m zone rid
    (decided_body (s_call (sessions i)) (s_request (sessions i))) op (shown s1 x).
Proof.
  intros laws exec Hs Ht Hx He Hlocking Hposts Hothers.
  destruct (write_after_fetch _ _ exec _ _ _ _ _ _ _ _ eq_refl He Ht)
    as (lr & frq & resp & pre & name & Hp & Hname & [Hget [base Hurl]] & Hf & Hc & _).
  rewrite Hlocking in Hp. specialize (Hname Hlocking).
  apply proj_locked in Hp as (A & C1 & C2 & -> & H1 & H2).
  assert (Hnn : pre ≠ JNull) by (destruct Hc as [[Hp _] _]; done).
  rewrite app_comm_cons, app_assoc in Hs. apply served_app in Hs as (sa & _ & Hs).
  inversion Hs as [|? ? ? ? ? HC Hans| |]; subst.
  assert (Hshown : shown sa x = pre).
  { eapply (fetch_shows _ _ _ _ laws frq); [done| | |done|done].
    { eapply Hx; [|done]. apply elem_of_app. right. right. apply elem_of_app. right. by left. }
    match goal with H : reply _ = Ok _ |- _ => revert H end.
    destruct (ask frq sa).1; [by intros [= ->]|done]. }
  assert (Hkeep : shown (ask frq sa).2 x = pre) by (rewrite (read_keeps _ _ _ _ laws); [done|by left]).
  rewrite (served_leaves ask shown _ _ _ x HC); rewrite ?Hkeep; [done| |done].
  intros j y Hin. pose proof Hin as Hin'. apply list_elem_of_split in Hin as (D & F & ->).
  rewrite proj_app in H2. apply app_nil in H2 as [HD HF].
  assert (Hji : j ≠ i) by (intros ->; by rewrite proj_cons_eq in HF).
  eapply (others_leave ask shown fetches touches sessions _ laws exec i name A C1 (EvHttp frq (Ok resp)) D j y
    (F ++ (i, e) :: T2)); [|done|done|done|done|done|apply Hposts|].
  - repeat (rewrite <- app_assoc || rewrite <- app_comm_cons). done.
  - intros m' op' zone' rid' Ht' (rq & res & [= <-]%list_elem_of_singleton & Hw & Htouch).
    eapply Hothers; [done|done|]. exists rq, res. split; [|done]. set_solver.
Qed.
End concurrency_properties.

(** *** What overtakes a locked mutation

    The deletion holds the lock and has fetched the record; another session
    renames it; the deletion is sent for a record whose name is out of its
    token's scope. *)
Definition overtakes (other : session) : Prop :=
  execution (race_sessions other) (race_before other ++ (0, race_event) :: race_after) /\
  served account_ask demo_r1 (race_before other) renamed_r1 /\
  s_locking race_delete (u "DELETE") Delete (u "z1") (u "r1") = true /\
  target (s_call race_delete) = Some (u "DELETE", Delete, u "z1", u "r1") /\
  spells account_fetches 0 (race_before other) (u "z1") (u "r1") tt /\ write_event race_event /\
  @cleared (s_env race_delete) (s_context race_delete) (u "DELETE") (u "z1") (u "r1") JNull Delete
    (account_shown demo_r1 tt) /\
  ~ @cleared (s_env race_delete) (s_context race_delete) (u "DELETE") (u "z1") (u "r1") JNull Delete
    (account_shown renamed_r1 tt).

Lemma race_overtakes other :
  execution (race_sessions other) (race_before other ++ (0, race_event) :: race_after) ->
  served account_ask demo_r1 (race_before other) renamed_r1 ->
  spells account_fetches 0 (race_before other) (u "z1") (u "r1") tt -> overtakes other.
Proof.
  intros Hexec Hserved Hspells.
  assert (Hmay : forall name b,
    match_rules [demo_rule] (u "z1") (JStr name) (JStr (u "A")) (JStr (u "r1")) Delete = Ok b ->
    @may ascii_unicode [demo_rule] (u "z1") (u "r1") Delete (demo_record (u "r1") name (u "A")) <-> b = true).
  { intros name b Hb. rewrite (match_rules_authorised _ _ _ _ _ _ _ Hb). split.
    - by intros (n & t & [= <-] & [= <-] & Ha).
    - intros Ha. by exists (JStr name), (JStr (u "A")). }
  split_and!; [done|done|by vm_compute|done|done| |split_and!|].
  - vm_compute. naive_solver.
  - split; [done|]. eexists. split; [done|]. by right.
  - by apply (Hmay (u "home.example.com") true).
  - done.
  - intros (_ & Hm & _). by apply (Hmay (u "other.example.com") false) in Hm; [|by vm_compute].
Qed.

Lemma race_spells other : spells account_fetches 0 (race_before other) (u "z1") (u "r1") tt.
Proof.
  assert (Hall : Forall (fun e => match e with
    | EvHttp rq _ => account_fetches (hq_url rq) = Some tt | _ => True end) (take 2 (s_trace race_delete)))
    by (vm_compute; repeat constructor).
  rewrite Forall_forall in Hall. intros rq res base Hin _.
  apply elem_of_app in Hin as [Hin|Hin]; apply list_elem_of_fmap in Hin as (e & [= <-] & Hin).
  by apply Hall in Hin.
Qed.

(** A token pinned to the record renames it without taking the lock. *)
Theorem exempt_rename_overtakes : overtakes race_exempt.
Proof.
  apply race_overtakes; [apply race_execution| |apply race_spells].
  - intros m op zone rid [= _ _ <- <-]. by split; apply plain_check.
  - by vm_compute; eexists.
  - vm_compute. repeat constructor.
Qed.

(** Both lock, but by the ids as they are written: a request for [r1#x], which
    httpx sends as one for [r1], takes another lock. *)
Theorem aliased_rename_overtakes :
  overtakes race_alias /\
  target (s_call race_alias) = Some (u "PATCH", Write, u "z1", u "r1#x") /\
  s_locking race_alias (u "PATCH") Write (u "z1") (u "r1#x") = true.
Proof.
  split; [|by vm_compute].
  apply race_overtakes; [apply race_execution| |apply race_spells].
  - intros m op zone rid [= _ _ <- <-]. by split; apply plain_check.
  - by vm_compute; eexists.
  - vm_compute. repeat constructor.
Qed.
