(* ===== verification/LocalLocks.v ===== *)
(** * The process-local locks of [db/locks.py]

    Without MySQL, [advisory_lock] waits for an [asyncio.Lock] of a dictionary
    of the process, with a timeout. Here the locks are modelled as CPython's
    asyncio implements them: a flag, and a queue of futures that are woken one
    at a time and cancelled when the timeout fires. Tasks enter, wait, resume,
    give up and release in any order, as the event loop schedules them. That
    these locks exclude is what [execution] of [Concurrency] asks of a lock
    service. *)

From stdpp Require Import functions.
From S2P Require Import Prelude PyStr Json Scope Models World Locks Concurrency.

(** ** [asyncio.Lock] *)

(** The future a waiter awaits: not done, given a result, or cancelled. *)
Inductive future := Pending | Woken | Cancelled.

#[export] Instance future_eq_dec : EqDecision future.
Proof. solve_decision. Defined.

(** The queue holds the task that awaits each future. *)
Record Lock := MkLock { _locked : bool; _waiters : list (nat * future) }.

Definition new_lock : Lock := MkLock false [].

Definition future_cancelled (w : nat * future) : bool := bool_decide (w.2 = Cancelled).

(** [acquire] without waiting: the lock is free and everyone in the queue has
    been cancelled. *)
Definition acquire_now (l : Lock) : option Lock :=
  if negb (_locked l) && forallb future_cancelled (_waiters l)
  then Some (MkLock true (_waiters l)) else None.

Definition enqueue (i : nat) (l : Lock) : Lock :=
  MkLock (_locked l) (_waiters l ++ [(i, Pending)]).

Definition dequeue (i : nat) (l : Lock) : Lock :=
  MkLock (_locked l) (delete_where (fun w => bool_decide (w.1 = i)) (_waiters l)).

Definition _wake_up_first (l : Lock) : Lock :=
  match _waiters l with
  | (i, Pending) :: ws => MkLock (_locked l) ((i, Woken) :: ws)
  | _ => l
  end.

Definition release (l : Lock) : result Lock :=
  if _locked l then Ok (_wake_up_first (MkLock false (_waiters l)))
  else Raise (RuntimeError (u "Lock is not acquired.")).

(** [acquire] after its future was given a result. *)
Definition resume_acquire (i : nat) (l : Lock) : Lock := MkLock true (_waiters (dequeue i l)).

(** [acquire] when [CancelledError] is raised at its [await]. *)
Definition resume_cancelled (i : nat) (l : Lock) : Lock :=
  let l' := dequeue i l in if _locked l' then l' else _wake_up_first l'.

(** The timeout cancels a future that is not done. *)
Definition cancel_future (i : nat) (l : Lock) : Lock :=
  MkLock (_locked l)
    ((fun w => if bool_decide (w = (i, Pending)) then (i, Cancelled) else w) <$> _waiters l).

(** ** The dictionary and the tasks *)

Definition _get_process_local_lock (name : pystr) (locks : gmap pystr Lock)
    : Lock * gmap pystr Lock :=
  match locks !! name with
  | Some lock => (lock, locks)
  | None => (new_lock, <[name := new_lock]> locks)
  end.

(** Where a task is in [advisory_lock]; [expired] once its timeout has fired. *)
Inductive phase :=
| Outside
| Waiting (name : pystr) (expired : bool)
| Inside (name : pystr).

Fixpoint future_of (i : nat) (ws : list (nat * future)) : option future :=
  match ws with
  | [] => None
  | (j, f) :: ws => if decide (j = i) then Some f else future_of i ws
  end.

(** The locks, the tasks, and what the tasks did outside so far. *)
Record process := Process {
  p_locks : gmap pystr Lock;
  p_tasks : nat -> phase;
  p_log : list (nat * event);
}.

Definition initial : process := Process ∅ (fun _ => Outside) [].

(** A task enters the context manager, and takes the lock or waits; its
    timeout fires; the holder leaves the context manager; a task that does not
    wait exchanges with the outside. *)
Inductive moves (p : process) : process -> Prop :=
| move_acquire i n l locks l' :
    p_tasks p i = Outside ->
    _get_process_local_lock n (p_locks p) = (l, locks) -> acquire_now l = Some l' ->
    moves p (Process (<[n := l']> locks) (<[i := Inside n]> (p_tasks p))
                     (p_log p ++ [(i, EvLock n)]))
| move_wait i n l locks :
    p_tasks p i = Outside ->
    _get_process_local_lock n (p_locks p) = (l, locks) -> acquire_now l = None ->
    moves p (Process (<[n := enqueue i l]> locks) (<[i := Waiting n false]> (p_tasks p)) (p_log p))
| move_timeout i n l :
    p_tasks p i = Waiting n false -> p_locks p !! n = Some l ->
    moves p (Process (<[n := cancel_future i l]> (p_locks p))
                     (<[i := Waiting n true]> (p_tasks p)) (p_log p))
| move_release i n l l' :
    p_tasks p i = Inside n -> p_locks p !! n = Some l -> release l = Ok l' ->
    moves p (Process (<[n := l']> (p_locks p)) (<[i := Outside]> (p_tasks p))
                     (p_log p ++ [(i, EvUnlock n)]))
| move_exchange i rq res :
    (forall n expired, p_tasks p i ≠ Waiting n expired) ->
    moves p (Process (p_locks p) (p_tasks p) (p_log p ++ [(i, EvHttp rq res)])).

(** What the event loop has already scheduled: a task whose future has a
    result takes the lock, one whose timeout has fired raises
    [LockUnavailable]. *)
Inductive resumes (p : process) : process -> Prop :=
| resume_granted i n l :
    p_tasks p i = Waiting n false -> p_locks p !! n = Some l ->
    future_of i (_waiters l) = Some Woken ->
    resumes p (Process (<[n := resume_acquire i l]> (p_locks p)) (<[i := Inside n]> (p_tasks p))
                       (p_log p ++ [(i, EvLock n)]))
| resume_refused i n l :
    p_tasks p i = Waiting n true -> p_locks p !! n = Some l ->
    resumes p (Process (<[n := resume_cancelled i l]> (p_locks p)) (<[i := Outside]> (p_tasks p))
                       (p_log p)).

Definition local_step (p p' : process) : Prop := moves p p' \/ resumes p p'.

(** ** What the queue of a lock is like *)

Definition woken (ws : list (nat * future)) : Prop := Woken ∈ ws.*2.

Record lock_ok (l : Lock) : Prop := LockOk {
  ok_distinct : NoDup (_waiters l).*1;
  ok_tail : ~ woken (tail (_waiters l));
  ok_locked : _locked l = true -> ~ woken (_waiters l);
  (** no wakeup is lost: the lock is free and tasks wait only if the first
      of them is already scheduled *)
  ok_head : forall i f ws, _locked l = false -> _waiters l = (i, f) :: ws -> f ≠ Pending;
}.

Lemma woken_cons i f ws : woken ((i, f) :: ws) <-> f = Woken \/ woken ws.
Proof. unfold woken. rewrite fmap_cons, elem_of_cons. naive_solver. Qed.

Lemma woken_tail ws : woken (tail ws) -> woken ws.
Proof. destruct ws as [|[i f] ws]; [done|]. rewrite woken_cons. by right. Qed.

Lemma woken_delete p ws : woken (delete_where p ws) -> woken ws.
Proof.
  unfold woken, delete_where. intros (w & -> & [_ Hin]%list_elem_of_filter)%list_elem_of_fmap.
  by apply list_elem_of_fmap_2.
Qed.

Lemma delete_tail p ws : woken (tail (delete_where p ws)) -> woken (tail ws).
Proof.
  destruct ws as [|w ws]; [done|]. unfold delete_where. rewrite filter_cons.
  case_decide; simpl; [apply (woken_delete p)|]. intros Hw%woken_tail. by apply (woken_delete p) in Hw.
Qed.

Lemma distinct_delete p (ws : list (nat * future)) : NoDup ws.*1 -> NoDup (delete_where p ws).*1.
Proof.
  intros Hd. eapply sublist_NoDup; [exact Hd|]. apply fmap_sublist, sublist_filter.
Qed.

Lemma all_cancelled ws :
  forallb future_cancelled ws = true -> ~ woken ws.
Proof.
  induction ws as [|[i f] ws IH]; simpl; [by intros _ ?%elem_of_nil|].
  rewrite andb_true_iff, woken_cons. unfold future_cancelled at 1. simpl.
  intros [->%bool_decide_eq_true_1 Ha] [[=]|Hw]. by apply IH.
Qed.

Lemma future_of_None i ws : future_of i ws = None <-> i ∉ ws.*1.
Proof.
  induction ws as [|[j f] ws IH]; simpl; [split; [|done]; by intros _ ?%elem_of_nil|].
  rewrite not_elem_of_cons. case_decide; naive_solver.
Qed.

Lemma future_of_elem i f ws : future_of i ws = Some f -> (i, f) ∈ ws.
Proof.
  induction ws as [|[j g] ws IH]; simpl; [done|].
  case_decide as Hj; [intros [= ->]; subst; by left|]. intros H%IH. by right.
Qed.

Lemma future_of_app i ws ws' :
  future_of i (ws ++ ws') = match future_of i ws with Some f => Some f | None => future_of i ws' end.
Proof. induction ws as [|[j f] ws IH]; simpl; [done|]. by case_decide. Qed.

Lemma future_of_delete i j ws :
  future_of i (delete_where (fun w => bool_decide (w.1 = j)) ws) =
  if decide (i = j) then None else future_of i ws.
Proof.
  unfold delete_where. induction ws as [|[k f] ws IH]; simpl; [by case_decide|].
  rewrite filter_cons. simpl. destruct (decide (k = j)) as [->|Hk].
  - rewrite bool_decide_eq_true_2, decide_False by done. rewrite IH. repeat case_decide; naive_solver.
  - rewrite bool_decide_eq_false_2, decide_True by done. simpl. rewrite IH. repeat case_decide; naive_solver.
Qed.

Lemma new_lock_ok : lock_ok new_lock.
Proof. split; simpl; [constructor|..]; try done; intros; by intros ?%elem_of_nil. Qed.

Lemma acquire_now_inv l l' : acquire_now l = Some l' ->
  _locked l = false /\ ~ woken (_waiters l) /\ l' = MkLock true (_waiters l).
Proof.
  unfold acquire_now. destruct (_locked l); simpl; [done|].
  destruct (forallb _ _) eqn:Ea; [|done]. intros [= <-]. split_and!; [done|by apply all_cancelled|done].
Qed.

Lemma acquire_now_ok l l' : lock_ok l -> acquire_now l = Some l' -> lock_ok l'.
Proof. by intros [] (_ & Hw & ->)%acquire_now_inv. Qed.

Lemma enqueue_ok i l :
  lock_ok l -> acquire_now l = None -> future_of i (_waiters l) = None -> lock_ok (enqueue i l).
Proof.
  intros [Hd Ht Hl Hh] Hn Hi%future_of_None. destruct l as [k ws]. unfold enqueue. split; simpl in *.
  - rewrite fmap_app, NoDup_app. split_and!; [done| |apply NoDup_singleton].
    intros j Hj ->%list_elem_of_singleton. done.
  - destruct ws as [|w ws]; simpl in *; [by intros ?%elem_of_nil|].
    unfold woken. rewrite fmap_app, elem_of_app. intros [Hw|Hw%list_elem_of_singleton]; done.
  - intros Hk. unfold woken. rewrite fmap_app, elem_of_app.
    intros [Hw|Hw%list_elem_of_singleton]; [by apply Hl|done].
  - intros j f ws' Hk E. destruct ws as [|w ws]; [subst; done|].
    simpl in E. injection E as -> <-. by eapply Hh.
Qed.

Lemma wake_ok l :
  NoDup (_waiters l).*1 -> ~ woken (tail (_waiters l)) -> _locked l = false -> lock_ok (_wake_up_first l).
Proof.
  destruct l as [k [|[i []] ws]]; simpl; intros Hd Ht ->; split; simpl; try done; naive_solver.
Qed.

Lemma release_ok l l' : lock_ok l -> release l = Ok l' -> lock_ok l'.
Proof.
  unfold release. intros [Hd Ht Hl _]. destruct (_locked l) eqn:El; [|done].
  intros [= <-]. by apply wake_ok.
Qed.

Lemma cancel_future_ok i l : lock_ok l -> lock_ok (cancel_future i l).
Proof.
  intros [Hd Ht Hl Hh]. destruct l as [k ws]. unfold cancel_future. simpl in *.
  set (g := fun w : nat * future => if bool_decide (w = (i, Pending)) then (i, Cancelled) else w).
  assert (Hw : forall l, woken (g <$> l) -> woken l).
  { induction l as [|[j f] l IH]; [done|]. rewrite fmap_cons. unfold g at 1.
    case_bool_decide; rewrite !woken_cons; naive_solver. }
  assert (Hg : forall l, (g <$> l).*1 = l.*1).
  { intros l. rewrite <- list_fmap_compose. apply list_fmap_ext. intros ? [j f] _.
    unfold g. simpl. case_bool_decide; naive_solver. }
  split; simpl; [by rewrite Hg| |intros Hk ?%Hw; by apply Hl|].
  - destruct ws as [|w ws]; simpl in *; [done|]. by intros ?%Hw.
  - intros j f ws' Hk. destruct ws as [|[j' f'] ws]; [done|]. rewrite fmap_cons. unfold g at 1.
    case_bool_decide; intros [= <- <- <-]; [done|]. by eapply Hh.
Qed.

Lemma resume_cancelled_ok i l : lock_ok l -> lock_ok (resume_cancelled i l).
Proof.
  intros [Hd Ht Hl Hh]. unfold resume_cancelled. simpl.
  assert (Hd' := distinct_delete (fun w => bool_decide (w.1 = i)) _ Hd).
  destruct (_locked l) eqn:El.
  - split; simpl; [done|by intros ?%delete_tail|by intros _ ?%woken_delete; apply Hl|congruence].
  - apply wake_ok; simpl; try done. by intros ?%delete_tail.
Qed.

Lemma resume_acquire_ok i l :
  lock_ok l -> future_of i (_waiters l) = Some Woken -> lock_ok (resume_acquire i l).
Proof.
  intros [Hd Ht Hl Hh] Hi. assert (Hno : ~ woken (delete_where (fun w => bool_decide (w.1 = i)) (_waiters l))).
  { destruct (_waiters l) as [|[j f] ws]; [done|]. simpl in Hi, Ht. unfold delete_where. rewrite filter_cons. simpl.
    destruct (decide (j = i)) as [->|Hj].
    - rewrite bool_decide_eq_true_2, decide_False by done. by intros ?%woken_delete.
    - destruct Ht. apply future_of_elem in Hi. unfold woken. by apply (list_elem_of_fmap_2 snd) in Hi. }
  split; simpl; [by apply distinct_delete| |done|done]. intros ?%woken_tail. done.
Qed.

(** ** The invariant of the process *)

Definition lock_of (n : pystr) (p : process) : Lock := default new_lock (p_locks p !! n).

(** What a task is doing and its future in the queue of [n] agree. *)
Definition in_queue (n : pystr) (t : phase) : option future -> Prop := fun o =>
  match t with
  | Waiting n' expired =>
      if decide (n' = n)
      then o = Some Woken \/ o = Some (if expired : bool then Cancelled else Pending)
      else o = None
  | _ => o = None
  end.

(** The log is that of a lock service that excludes, and its holders are the
    tasks inside. *)
Record table_fits (p : process) (L : gmap pystr nat) : Prop := TableFits {
  fits_log : lock_table ∅ (p_log p) = Some L;
  fits_tasks n i : L !! n = Some i <-> p_tasks p i = Inside n;
  fits_locks n : _locked (lock_of n p) = true <-> is_Some (L !! n);
}.

Record consistent (p : process) : Prop := Consistent {
  con_lock n : lock_ok (lock_of n p);
  con_queue n i : in_queue n (p_tasks p i) (future_of i (_waiters (lock_of n p)));
  con_table : exists L, table_fits p L;
}.

(** What a step on the lock [n] by the task [i] does to locks and tasks. *)
Record updated (n : pystr) (i : nat) (l : Lock) (t : phase) (p p' : process) : Prop := Updated {
  up_lock m : lock_of m p' = if decide (m = n) then l else lock_of m p;
  up_tasks : p_tasks p' = <[i := t]> (p_tasks p);
}.

Lemma lock_of_get n p l locks :
  _get_process_local_lock n (p_locks p) = (l, locks) ->
  l = lock_of n p /\ forall m l', default new_lock (<[n := l']> locks !! m) =
    if decide (m = n) then l' else lock_of m p.
Proof.
  unfold _get_process_local_lock, lock_of. intros E.
  assert (El : l = default new_lock (p_locks p !! n)) by (destruct (p_locks p !! n); naive_solver).
  split; [done|]. intros m l'. case_decide as Hm; [subst m; by rewrite lookup_insert_eq|].
  rewrite lookup_insert_ne by done.
  destruct (p_locks p !! n); simplify_eq; [done|]. by rewrite lookup_insert_ne.
Qed.

Lemma lock_of_insert n m l locks tasks log p :
  locks = p_locks p ->
  lock_of m (Process (<[n := l]> locks) tasks log) = if decide (m = n) then l else lock_of m p.
Proof.
  intros ->. unfold lock_of. simpl. case_decide as Hm; [subst m; by rewrite lookup_insert_eq|].
  by rewrite lookup_insert_ne.
Qed.

(** A task in [advisory_lock] is in the queue of that lock only. *)
Definition concerns (n : pystr) (t : phase) : Prop :=
  forall m o, m ≠ n -> in_queue m t o <-> o = None.

Lemma concerns_outside n : concerns n Outside.
Proof. done. Qed.
Lemma concerns_inside n : concerns n (Inside n).
Proof. done. Qed.
Lemma concerns_waiting n expired : concerns n (Waiting n expired).
Proof. intros m o Hm. simpl. by rewrite decide_False. Qed.
#[local] Hint Resolve concerns_outside concerns_inside concerns_waiting : core.

Lemma queue_update n i l t p p' :
  updated n i l t p p' ->
  (forall m j, in_queue m (p_tasks p j) (future_of j (_waiters (lock_of m p)))) ->
  concerns n (p_tasks p i) -> concerns n t ->
  in_queue n t (future_of i (_waiters l)) ->
  (forall j, j ≠ i -> in_queue n (p_tasks p j) (future_of j (_waiters l))) ->
  forall m j, in_queue m (p_tasks p' j) (future_of j (_waiters (lock_of m p'))).
Proof.
  intros [Hl Ht] Hq Hold Hnew Hi Hothers m j. rewrite Hl, Ht. specialize (Hq m j).
  destruct (decide (j = i)) as [->|Hj].
  - rewrite fn_lookup_insert. destruct (decide (m = n)) as [->|Hm]; [done|].
    apply Hnew; [done|]. by apply Hold in Hq.
  - rewrite fn_lookup_insert_ne by done. case_decide; [subst m; auto|done].
Qed.

Lemma table_taken n i l p p' L :
  updated n i l (Inside n) p p' -> table_fits p L ->
  _locked (lock_of n p) = false -> _locked l = true -> (forall m, p_tasks p i ≠ Inside m) ->
  p_log p' = p_log p ++ [(i, EvLock n)] -> table_fits p' (<[n := i]> L).
Proof.
  intros [Hl Ht] [Hlog Htasks Hlocks] Hfree Hheld Hout El.
  assert (Hn : L !! n = None).
  { apply eq_None_not_Some. rewrite <- Hlocks. congruence. }
  split.
  - rewrite El, lock_table_app, Hlog. simpl. by rewrite Hn.
  - intros m j. rewrite Ht. destruct (decide (j = i)) as [->|Hj].
    + rewrite fn_lookup_insert. destruct (decide (m = n)) as [->|Hm].
      * by rewrite lookup_insert_eq.
      * rewrite lookup_insert_ne, Htasks by done. specialize (Hout m). split; congruence.
    + rewrite fn_lookup_insert_ne by done. destruct (decide (m = n)) as [->|Hm].
      * rewrite lookup_insert_eq, <- Htasks, Hn. split; congruence.
      * by rewrite lookup_insert_ne, Htasks.
  - intros m. rewrite Hl. case_decide as Hm; [subst m; rewrite lookup_insert_eq; split; [by eexists|done]|].
    by rewrite lookup_insert_ne.
Qed.

Lemma table_left n i l t p p' L :
  updated n i l t p p' -> table_fits p L ->
  p_tasks p i = Inside n -> _locked l = false -> (forall m, t ≠ Inside m) ->
  p_log p' = p_log p ++ [(i, EvUnlock n)] -> table_fits p' (delete n L).
Proof.
  intros [Hl Ht] [Hlog Htasks Hlocks] Hin Hfree Hout El.
  assert (Hn : L !! n = Some i) by by apply Htasks.
  split.
  - rewrite El, lock_table_app, Hlog. simpl. by rewrite Hn, bool_decide_eq_true_2.
  - intros m j. rewrite Ht. destruct (decide (j = i)) as [->|Hj].
    + rewrite fn_lookup_insert, lookup_delete_Some, Htasks. specialize (Hout m). split; [intros [? ?]|]; congruence.
    + rewrite fn_lookup_insert_ne, lookup_delete_Some, <- Htasks by done. split; [by intros []|]. intros Hj'. split; congruence.
  - intros m. rewrite Hl. case_decide as Hm.
    + subst m. rewrite lookup_delete_eq, Hfree. split; [done|by intros []].
    + by rewrite lookup_delete_ne.
Qed.

Lemma table_same n i l t p p' L :
  updated n i l t p p' -> table_fits p L ->
  _locked l = _locked (lock_of n p) -> (forall m, p_tasks p i ≠ Inside m) ->
  (forall m, t ≠ Inside m) -> p_log p' = p_log p -> table_fits p' L.
Proof.
  intros [Hl Ht] [Hlog Htasks Hlocks] Hsame Hold Hnew El. split; [by rewrite El|..].
  - intros m j. rewrite Ht, Htasks. destruct (decide (j = i)) as [->|Hj].
    + rewrite fn_lookup_insert. specialize (Hold m). specialize (Hnew m). split; congruence.
    + by rewrite fn_lookup_insert_ne.
  - intros m. rewrite Hl, <- Hlocks. case_decide; [subst; by rewrite Hsame|done].
Qed.

(** ** Every step keeps it *)

Lemma dequeued n i l p :
  consistent p -> l = lock_of n p ->
  future_of i (_waiters (dequeue i l)) = None /\
  forall j, j ≠ i -> in_queue n (p_tasks p j) (future_of j (_waiters (dequeue i l))).
Proof.
  intros Hc ->. simpl. split; [by rewrite future_of_delete, decide_True|].
  intros j Hj. rewrite future_of_delete, decide_False by done. apply (con_queue _ Hc).
Qed.

(** Waking the first waiter fits whatever the queue fitted. *)
Lemma wake_in_queue n t j l :
  in_queue n t (future_of j (_waiters l)) -> in_queue n t (future_of j (_waiters (_wake_up_first l))).
Proof.
  destruct l as [k [|[i []] ws]]; simpl; try done. destruct (decide (i = j)); [|done].
  unfold in_queue. destruct t as [|m b|]; try done. destruct (decide (m = n)); [|done]. naive_solver.
Qed.

Lemma wake_locked l : _locked (_wake_up_first l) = _locked l.
Proof. by destruct l as [k [|[i []] ws]]. Qed.

Lemma cancelled_in_queue i j l :
  future_of j (_waiters (cancel_future i l)) =
  if decide (j = i) then (fun f => if decide (f = Pending) then Cancelled else f) <$> future_of j (_waiters l)
  else future_of j (_waiters l).
Proof.
  destruct l as [k ws]. simpl. induction ws as [|[m f] ws IH]; simpl; [by case_decide|].
  destruct (decide (m = j)) as [->|Hm].
  - destruct (decide (j = i)) as [->|Hj]; simpl.
    + destruct f; [rewrite bool_decide_eq_true_2 by done|rewrite bool_decide_eq_false_2 by done..];
        simpl; by rewrite decide_True.
    + rewrite bool_decide_eq_false_2 by congruence. simpl. by rewrite decide_True.
  - case_bool_decide as E; [injection E as -> ->|]; simpl; by rewrite decide_False.
Qed.

Lemma consistent_initial : consistent initial.
Proof.
  split; [intros n; apply new_lock_ok|done|]. exists ∅. split; [done|..].
  - intros n i. by rewrite lookup_empty.
  - intros n. rewrite lookup_empty. split; [done|by intros []].
Qed.

Lemma update_known n i l t log p :
  updated n i l t p (Process (<[n := l]> (p_locks p)) (<[i := t]> (p_tasks p)) log).
Proof. split; [|done]. intros m. by apply lock_of_insert. Qed.

Lemma update_got n i l l' locks t log p :
  _get_process_local_lock n (p_locks p) = (l, locks) ->
  l = lock_of n p /\
  updated n i l' t p (Process (<[n := l']> locks) (<[i := t]> (p_tasks p)) log).
Proof. intros [-> Hl]%lock_of_get. split; [done|]. split; [|done]. intros m. apply Hl. Qed.

Lemma lock_of_known n p l : p_locks p !! n = Some l -> l = lock_of n p.
Proof. unfold lock_of. by intros ->. Qed.

Lemma lock_ok_update n i l t p p' :
  updated n i l t p p' -> consistent p -> lock_ok l -> forall m, lock_ok (lock_of m p').
Proof. intros [Hl _] Hc Hok m. rewrite Hl. case_decide; [done|apply (con_lock _ Hc)]. Qed.

Lemma outside_unqueued n i p :
  consistent p -> p_tasks p i = Outside -> future_of i (_waiters (lock_of n p)) = None.
Proof. intros Hc Hi. pose proof (con_queue _ Hc n i) as Hq. by rewrite Hi in Hq. Qed.

Lemma consistent_acquire p i n l locks l' :
  consistent p -> p_tasks p i = Outside ->
  _get_process_local_lock n (p_locks p) = (l, locks) -> acquire_now l = Some l' ->
  consistent (Process (<[n := l']> locks) (<[i := Inside n]> (p_tasks p)) (p_log p ++ [(i, EvLock n)])).
Proof.
  intros Hc Hi Hget Hacq.
  destruct (update_got n i l l' locks (Inside n) (p_log p ++ [(i, EvLock n)]) p Hget) as [-> Hu].
  pose proof (acquire_now_inv _ _ Hacq) as (Hfree & _ & ->). destruct (con_table _ Hc) as [L HL].
  split.
  - eapply lock_ok_update; [done|done|]. eapply acquire_now_ok; [apply (con_lock _ Hc)|done].
  - eapply queue_update; [done|apply (con_queue _ Hc)|by rewrite Hi|done| |].
    + by apply outside_unqueued.
    + intros j _. apply (con_queue _ Hc).
  - eexists. eapply table_taken; [done|done|done|done|by rewrite Hi|done].
Qed.

Lemma consistent_wait p i n l locks :
  consistent p -> p_tasks p i = Outside ->
  _get_process_local_lock n (p_locks p) = (l, locks) -> acquire_now l = None ->
  consistent (Process (<[n := enqueue i l]> locks) (<[i := Waiting n false]> (p_tasks p)) (p_log p)).
Proof.
  intros Hc Hi Hget Hacq.
  destruct (update_got n i l (enqueue i l) locks (Waiting n false) (p_log p) p Hget) as [-> Hu].
  pose proof (outside_unqueued n i p Hc Hi) as Hout. destruct (con_table _ Hc) as [L HL].
  split.
  - eapply lock_ok_update; [done|done|]. by apply enqueue_ok; [apply (con_lock _ Hc)|..].
  - eapply queue_update; [done|apply (con_queue _ Hc)|by rewrite Hi|done| |].
    + simpl. rewrite future_of_app, Hout. simpl. rewrite !decide_True by done. by right.
    + intros j Hj. simpl. rewrite future_of_app. simpl. rewrite (decide_False (P := i = j)) by done.
      pose proof (con_queue _ Hc n j) as Hq. by destruct (future_of j _).
  - exists L. eapply table_same; [done|done|done|by rewrite Hi|done|done].
Qed.

Lemma consistent_timeout p i n l :
  consistent p -> p_tasks p i = Waiting n false -> p_locks p !! n = Some l ->
  consistent (Process (<[n := cancel_future i l]> (p_locks p))
                      (<[i := Waiting n true]> (p_tasks p)) (p_log p)).
Proof.
  intros Hc Hi ->%lock_of_known. pose proof (update_known n i (cancel_future i (lock_of n p))
    (Waiting n true) (p_log p) p) as Hu. destruct (con_table _ Hc) as [L HL]. split.
  - eapply lock_ok_update; [done|done|]. apply cancel_future_ok, (con_lock _ Hc).
  - eapply queue_update; [done|apply (con_queue _ Hc)|by rewrite Hi|done| |].
    + rewrite cancelled_in_queue, decide_True by done. pose proof (con_queue _ Hc n i) as Hq.
      rewrite Hi in Hq. simpl in *. rewrite decide_True in * by done.
      destruct Hq as [->| ->]; simpl; naive_solver.
    + intros j Hj. rewrite cancelled_in_queue, decide_False by done. apply (con_queue _ Hc).
  - exists L. eapply table_same; [done|done|done|by rewrite Hi|done|done].
Qed.

Lemma consistent_release p i n l l' :
  consistent p -> p_tasks p i = Inside n -> p_locks p !! n = Some l -> release l = Ok l' ->
  consistent (Process (<[n := l']> (p_locks p)) (<[i := Outside]> (p_tasks p))
                      (p_log p ++ [(i, EvUnlock n)])).
Proof.
  intros Hc Hi ->%lock_of_known Hrel.
  pose proof (update_known n i l' Outside (p_log p ++ [(i, EvUnlock n)]) p) as Hu.
  destruct (con_table _ Hc) as [L HL].
  pose proof (release_ok _ _ (con_lock _ Hc n) Hrel) as Hok.
  unfold release in Hrel. destruct (_locked _); [|done]. injection Hrel as <-. split.
  - by eapply lock_ok_update.
  - eapply queue_update; [done|apply (con_queue _ Hc)|by rewrite Hi|done| |].
    + apply wake_in_queue. simpl. pose proof (con_queue _ Hc n i) as Hq. by rewrite Hi in Hq.
    + intros j _. apply wake_in_queue, (con_queue _ Hc).
  - eexists. eapply table_left; [done|done|done|by rewrite wake_locked|done|done].
Qed.

Lemma consistent_granted p i n l :
  consistent p -> p_tasks p i = Waiting n false -> p_locks p !! n = Some l ->
  future_of i (_waiters l) = Some Woken ->
  consistent (Process (<[n := resume_acquire i l]> (p_locks p)) (<[i := Inside n]> (p_tasks p))
                      (p_log p ++ [(i, EvLock n)])).
Proof.
  intros Hc Hi ->%lock_of_known Hw.
  pose proof (update_known n i (resume_acquire i (lock_of n p)) (Inside n)
    (p_log p ++ [(i, EvLock n)]) p) as Hu.
  destruct (con_table _ Hc) as [L HL], (dequeued n i _ p Hc eq_refl) as [Hnone Hothers]. split.
  - eapply lock_ok_update; [done|done|]. by apply resume_acquire_ok; [apply (con_lock _ Hc)|].
  - eapply queue_update; [done|apply (con_queue _ Hc)|by rewrite Hi|done|done|done].
  - eexists. eapply table_taken; [done|done| |done|by rewrite Hi|done].
    apply not_true_is_false. intros Hk. apply (ok_locked _ (con_lock _ Hc n) Hk).
    apply future_of_elem in Hw. by apply (list_elem_of_fmap_2 snd) in Hw.
Qed.

Lemma consistent_refused p i n l :
  consistent p -> p_tasks p i = Waiting n true -> p_locks p !! n = Some l ->
  consistent (Process (<[n := resume_cancelled i l]> (p_locks p)) (<[i := Outside]> (p_tasks p))
                      (p_log p)).
Proof.
  intros Hc Hi ->%lock_of_known.
  pose proof (update_known n i (resume_cancelled i (lock_of n p)) Outside (p_log p) p) as Hu.
  destruct (con_table _ Hc) as [L HL], (dequeued n i _ p Hc eq_refl) as [Hnone Hothers].
  assert (Hq : forall t j, in_queue n t (future_of j (_waiters (dequeue i (lock_of n p)))) ->
    in_queue n t (future_of j (_waiters (resume_cancelled i (lock_of n p))))).
  { intros t j Hj. unfold resume_cancelled. case_match; [done|]. by apply wake_in_queue. }
  split.
  - eapply lock_ok_update; [done|done|]. apply resume_cancelled_ok, (con_lock _ Hc).
  - eapply queue_update; [done|apply (con_queue _ Hc)|by rewrite Hi|done|by apply Hq|].
    intros j Hj. apply Hq. auto.
  - exists L. eapply table_same; [done|done| |by rewrite Hi|done|done].
    unfold resume_cancelled. case_match; [done|]. by rewrite wake_locked.
Qed.

Lemma table_exchange L i rq res T :
  lock_table ∅ T = Some L -> lock_table ∅ (T ++ [(i, EvHttp rq res)]) = Some L.
Proof. intros E. by rewrite lock_table_app, E. Qed.

Lemma consistent_step p p' : local_step p p' -> consistent p -> consistent p'.
Proof.
  intros [Hm|Hr] Hc.
  - destruct Hm; eauto using consistent_acquire, consistent_wait, consistent_timeout, consistent_release.
    destruct (con_table _ Hc) as [L [Hlog Ht Hl]]. split; [apply (con_lock _ Hc)|apply (con_queue _ Hc)|].
    exists L. split; [by apply table_exchange|done|done].
  - destruct Hr; eauto using consistent_granted, consistent_refused.
Qed.

Lemma consistent_reached p p' : rtc local_step p p' -> consistent p -> consistent p'.
Proof. induction 1; eauto using consistent_step. Qed.

Lemma reached_consistent p : rtc local_step initial p -> consistent p.
Proof. intros Hr. eapply consistent_reached; [done|apply consistent_initial]. Qed.

(** ** Waiting ends *)

Lemma queue_task n p i f ws :
  consistent p -> _waiters (lock_of n p) = (i, f) :: ws ->
  exists expired, p_tasks p i = Waiting n expired /\
    (f = Woken \/ f = if expired then Cancelled else Pending).
Proof.
  intros Hc E. pose proof (con_queue _ Hc n i) as Hq. rewrite E in Hq. simpl in Hq.
  rewrite decide_True in Hq by done. destruct (p_tasks p i) as [|m b|m]; try done.
  simpl in Hq. case_decide; [subst m|done]. exists b. split; [done|]. naive_solver.
Qed.

Lemma queue_known n p w ws : _waiters (lock_of n p) = w :: ws -> p_locks p !! n = Some (lock_of n p).
Proof. unfold lock_of. by destruct (p_locks p !! n). Qed.

Lemma waiting_queued n p i expired :
  consistent p -> p_tasks p i = Waiting n expired -> _waiters (lock_of n p) ≠ [].
Proof.
  intros Hc Hi E. pose proof (con_queue _ Hc n i) as Hq. rewrite Hi, E in Hq. simpl in Hq.
  rewrite decide_True in Hq by done. naive_solver.
Qed.

Lemma resume_cancelled_free i l :
  _locked l = false -> resume_cancelled i l = _wake_up_first (dequeue i l).
Proof. unfold resume_cancelled. simpl. by intros ->. Qed.

Lemma wake_length l : length (_waiters (_wake_up_first l)) = length (_waiters l).
Proof. by destruct l as [k [|[i []] ws]]. Qed.

(** A free lock with waiters: the first of them can go on. *)
Lemma head_resumes n p i f ws :
  consistent p -> _locked (lock_of n p) = false -> _waiters (lock_of n p) = (i, f) :: ws ->
  exists p', resumes p p' /\ ((exists j, p_tasks p' j = Inside n) \/
    _locked (lock_of n p') = false /\ length (_waiters (lock_of n p')) <= length ws).
Proof.
  intros Hc Hfree E. pose proof (queue_known _ _ _ _ E) as Hget.
  destruct (queue_task _ _ _ _ _ Hc E) as ([] & Hi & Hf).
  - eexists. split; [by eapply resume_refused|]. right.
    rewrite (lock_of_insert _ _ _ _ _ _ p), decide_True by done.
    rewrite resume_cancelled_free, wake_locked, wake_length by done. split; [done|].
    simpl. rewrite E. unfold delete_where.
    rewrite filter_cons, decide_False by (simpl; by rewrite bool_decide_eq_true_2). apply length_filter.
  - pose proof (ok_head _ (con_lock _ Hc n) _ _ _ Hfree E) as Hnp.
    destruct Hf as [->|Hf]; [|done]. eexists. split; [eapply (resume_granted p i)|].
    + done.
    + done.
    + rewrite E. simpl. by rewrite decide_True.
    + left. exists i. simpl. apply fn_lookup_insert.
Qed.

Lemma queue_drains k n p :
  consistent p -> length (_waiters (lock_of n p)) <= k ->
  exists p', rtc resumes p p' /\ consistent p' /\
    ((exists j, p_tasks p' j = Inside n) \/ _waiters (lock_of n p') = []).
Proof.
  revert p. induction k as [|k IH]; intros p Hc Hk.
  { exists p. split_and!; [done|done|]. right. destruct (_waiters _); [done|simpl in Hk; lia]. }
  destruct (_locked (lock_of n p)) eqn:El.
  { destruct (con_table _ Hc) as [L HL]. pose proof (proj1 (fits_locks _ _ HL n) El) as [j Hj].
    apply (fits_tasks _ _ HL) in Hj.
    exists p. split_and!; [done|done|left; by exists j]. }
  destruct (_waiters (lock_of n p)) as [|[i f] ws] eqn:E; [exists p; split_and!; [done|done|by right]|].
  destruct (head_resumes _ _ _ _ _ Hc El E) as (p' & Hr & [Hin|[Hfree Hlen]]);
    assert (Hc' : consistent p') by (eapply consistent_step; [by right|done]).
  - exists p'. split_and!; [by eapply rtc_once|done|by left].
  - destruct (IH p' Hc') as (p2 & Hr2 & Hc2 & Hend); [simpl in Hk; lia|].
    exists p2. split_and!; [by eapply rtc_l|done|done].
Qed.

(** ** Properties *)

(** C6: the locks of the process are a lock service as the proxy needs one:
    whatever tasks enter, wait, time out and leave, in whatever order, at most
    one task is inside the section of a name; what they did is an execution in
    which locks exclude, with the tasks inside as holders, so that every
    theorem on executions holds of it; and the release of a holder never
    raises. *)
Theorem local_locks_exclude p :
  rtc local_step initial p ->
  (forall n i j, p_tasks p i = Inside n -> p_tasks p j = Inside n -> i = j) /\
  (exists L, lock_table ∅ (p_log p) = Some L /\
     forall n i, L !! n = Some i <-> p_tasks p i = Inside n) /\
  (forall n i, p_tasks p i = Inside n -> exists l', release (lock_of n p) = Ok l') /\
  (forall sessions,
     (forall i m op zone rid, target (s_call (sessions i)) = Some (m, op, zone, rid) ->
        plain_id zone /\ plain_id rid) ->
     (forall i, proj i (p_log p) `prefix_of` s_trace (sessions i)) -> execution sessions (p_log p)).
Proof.
  intros Hc%reached_consistent. destruct (con_table _ Hc) as [L [Hlog Ht Hl]]. split_and!.
  - intros n i j Hi%Ht Hj%Ht. congruence.
  - by exists L.
  - intros n i Hi%Ht. unfold release. rewrite (proj2 (Hl n)) by by eexists. by eexists.
  - intros sessions Hroute Hproj. split; [done|done|by exists L].
Qed.

(** C7: nobody waits for ever on a free lock: whenever tasks wait for a name,
    running what the event loop has already scheduled, and nothing else,
    brings some task inside or leaves nobody waiting; and a task that arrives
    does not overtake one that waits and has not timed out. *)
Theorem no_lost_wakeup p n :
  rtc local_step initial p ->
  (exists p', rtc resumes p p' /\
     ((exists j, p_tasks p' j = Inside n) \/ forall j expired, p_tasks p' j ≠ Waiting n expired)) /\
  (forall i, p_tasks p i = Waiting n false -> acquire_now (lock_of n p) = None).
Proof.
  intros Hc%reached_consistent. split.
  - destruct (queue_drains _ n p Hc (le_n _)) as (p' & Hr & Hc' & [Hin|E]);
      exists p'; (split; [done|]); [by left|right].
    intros j expired Hj. by apply (waiting_queued _ _ _ _ Hc' Hj).
  - intros i Hi. destruct (acquire_now (lock_of n p)) as [l|] eqn:E; [|done]. exfalso.
    pose proof (con_queue _ Hc n i) as Hq. rewrite Hi in Hq. simpl in Hq. rewrite decide_True in Hq by done.
    unfold acquire_now in E. destruct (negb _); simpl in E; [|done]. destruct (forallb _ _) eqn:Ea; [|done].
    rewrite forallb_forall in Ea.
    destruct Hq as [Hq|Hq]; apply future_of_elem, list_elem_of_In, Ea in Hq; done.
Qed.

(** ** Two tasks and one record

    The first takes the lock and the second waits; the first leaves, and the
    second goes on or has timed out in the meantime. *)

Definition lock_one : pystr := u "m1".

Definition one_waits : process :=
  Process {[ lock_one := MkLock true [(1, Pending)] ]}
    (<[1 := Waiting lock_one false]> (<[0 := Inside lock_one]> (fun _ => Outside))) [(0, EvLock lock_one)].

Lemma one_waits_reached : rtc local_step initial one_waits.
Proof.
  eapply rtc_l; [left; by eapply (move_acquire _ 0 lock_one)|].
  eapply rtc_l; [left; by eapply (move_wait _ 1 lock_one)|]. apply rtc_refl.
Qed.

Lemma local_locks_exclude_witness :
  p_tasks one_waits 0 = Inside lock_one /\
  exists l', release (lock_of lock_one one_waits) = Ok l'.
Proof.
  split; [reflexivity|].
  apply (proj1 (proj2 (proj2 (local_locks_exclude one_waits one_waits_reached))) lock_one 0). reflexivity.
Defined.

Lemma no_lost_wakeup_witness :
  exists p, rtc local_step initial p /\ p_tasks p 1 = Waiting lock_one true /\
  _locked (lock_of lock_one p) = false /\
  exists p', rtc resumes p p' /\ ((exists j, p_tasks p' j = Inside lock_one) \/
    forall j expired, p_tasks p' j ≠ Waiting lock_one expired).
Proof.
  eexists. split; [|split; [|split; [|apply (no_lost_wakeup _ lock_one)]]].
  1, 4: transitivity one_waits; [apply one_waits_reached|];
    eapply rtc_l; [left; by eapply (move_timeout _ 1 lock_one)|];
    eapply rtc_l; [left; by eapply (move_release _ 0 lock_one)|]; apply rtc_refl.
  - reflexivity.
  - reflexivity.
Defined.
