(* ===== verification/Witnesses.v ===== *)
(** * The theorems at work

    Each lemma applies a theorem of the library at a concrete input where its
    hypotheses hold: the small account of [Demo], a token with one rule, and
    the requests of its owner. *)

From stdpp Require Import sorting.
From S2P Require Import Prelude PyStr Json JsonText Scope Models World Sha256 Envelopes Crypto.
From S2P Require Import Cache Locks OAuthCf Upstream AuditLogs ProxyAuth Credentials Tokens.
From S2P Require Import Authorizer ListFilter ProxyDns Demo Concurrency.

#[local] Existing Instance lite.

(** ** Proxied operations *)

Definition patch_content : json := JObj [(u "content", JStr (u "192.0.2.1"))].
Definition patch_world : world := lite_world demo_db.
Definition patch_run :=
  patch_dns_record (u "z1") (u "r1") (demo_request patch_content) (demo_ctx [demo_rule]) patch_world.

Lemma mutation_confined_witness :
  patch_run.1 = Ok (JSONResponse 200 (demo_envelope demo_r1)) /\ length (w_trace patch_run.2) = 4 /\
  exists lr lp, w_trace patch_run.2 = [] ++ lr ++ lp /\ Forall read_only_event lr /\
    (quiet lp \/ exists auth pre res,
      performed (demo_ctx [demo_rule]) (u "PATCH") (u "z1") (u "r1") patch_content Write auth
        (Some []) lp pre res).
Proof.
  split; [by vm_compute|]. split; [by vm_compute|].
  apply (mutation_confined (demo_request patch_content) (u "PATCH") Write patch_content (Some [])
    patch_dns_record (demo_ctx [demo_rule]) (u "z1") (u "r1") patch_world patch_run.1 patch_run.2).
  - by apply (handle_patch (demo_request patch_content)).
  - unfold patch_run. by destruct (patch_dns_record _ _ _ _ _).
Defined.

Lemma mutation_answers_witness :
  let resp := JSONResponse 200 (demo_envelope demo_r1) in
  exists lr lp auth, w_trace patch_run.2 = [] ++ lr ++ lp /\ Forall read_only_event lr /\
    (resp = lock_refused /\ lp = [] /\ locking (demo_ctx [demo_rule]) (u "PATCH") (u "z1") (u "r1") Write = true /\
       (exists name t, mutation_lock_name (u "z1") (u "r1") = Ok name /\
          w_tick patch_world <= t /\ t < w_tick patch_run.2 /\ lock_granted t name = false)
     \/ exists g, bracketed (demo_ctx [demo_rule]) (u "PATCH") (u "z1") (u "r1") Write g lp /\
          ProxyDns.served (demo_ctx [demo_rule]) (u "PATCH") (u "z1") (u "r1") patch_content Write auth
            (Some []) g resp).
Proof.
  apply (mutation_answers (demo_request patch_content) (u "PATCH") Write patch_content (Some [])
    patch_dns_record (demo_ctx [demo_rule]) (u "z1") (u "r1") patch_world
    (JSONResponse 200 (demo_envelope demo_r1)) patch_run.2).
  - by apply (handle_patch (demo_request patch_content)).
  - apply run_returns. by vm_compute.
Defined.

Definition create_body : json :=
  JObj [(u "type", JStr (u "A")); (u "name", JStr (u "home.example.com"))].
Definition create_run :=
  create_dns_record (u "z1") (demo_request create_body) (demo_ctx [demo_rule]) patch_world.

Lemma create_confined_witness :
  create_run.1 = Ok (JSONResponse 200 (demo_envelope (JArr [demo_r1; demo_r2]))) /\
  exists l, w_trace create_run.2 = [] ++ l /\
    create_outcome (demo_ctx [demo_rule]) (u "z1") (demo_request create_body) l create_run.1.
Proof.
  split; [by vm_compute|].
  apply (create_confined (demo_ctx [demo_rule]) (u "z1") (demo_request create_body) patch_world).
  unfold create_run. by destruct (create_dns_record _ _ _ _).
Defined.

Definition get_run rid :=
  get_dns_record (u "z1") rid (demo_request JNull) (demo_ctx [demo_rule]) patch_world.

(** [r1] is shown, [r2] and a record that does not exist get one answer. *)
Lemma get_reveals_only_readable_witness :
  (get_run (u "r2")).1 = Ok record_hidden /\ (get_run (u "r3")).1 = Ok record_hidden /\
  exists l, w_trace (get_run (u "r1")).2 = [] ++ l /\ Forall read_only_event l /\
    (cf_ok demo_r1 = record_hidden \/
     exists lr base auth up pre,
       l = lr ++ [EvHttp (record_get base (u "z1") (u "r1") auth) (Ok up)] /\ fetched up pre /\
       present (u "z1") pre /\ may [demo_rule] (u "z1") (u "r1") Read pre /\ cf_ok demo_r1 = cf_ok pre).
Proof.
  split; [by vm_compute|]. split; [by vm_compute|].
  apply (get_reveals_only_readable (demo_ctx [demo_rule]) (u "z1") (u "r1") (demo_request JNull)
    patch_world (cf_ok demo_r1) (get_run (u "r1")).2).
  unfold get_run. apply run_returns. by vm_compute.
Defined.

Definition list_run :=
  list_dns_records 3 (u "z1") (demo_request JNull) (demo_ctx [demo_rule]) patch_world.

Lemma list_dns_records_scoped_witness :
  exists page per_page rest kept l,
    _pop_pagination [] = Ok (page, per_page, rest) /\
    w_trace list_run.2 = [] ++ l /\ Forall read_only_event l /\
    page_response [demo_r1] 1 20 = page_response kept page per_page /\
    (~ in_zone_rules (demo_ctx [demo_rule]) (u "z1") -> l = [] /\ kept = []) /\
    (in_zone_rules (demo_ctx [demo_rule]) (u "z1") -> exists lr lp auth all,
       l = lr ++ lp /\ pages (u "z1") (Some rest) auth 1 lp all /\ kept `sublist_of` all /\
       forall record, record ∈ kept <-> record ∈ all /\ readable [demo_rule] (u "z1") record).
Proof.
  apply (list_dns_records_scoped 3 (u "z1") (demo_request JNull) (demo_ctx [demo_rule]) patch_world).
  apply run_returns. by vm_compute.
Defined.

(** ** The decision layer *)

Lemma match_rules_decides_witness :
  exists nm, normalized (JStr (u "Home.Example.com.")) = Ok nm /\
    (true = true <-> exists r, r ∈ [demo_rule] /\
       grants r (u "z1") nm (JStr (u "A")) (JStr (u "r1")) Write).
Proof.
  apply (match_rules_decides [demo_rule] (u "z1") (JStr (u "Home.Example.com.")) (JStr (u "A"))
    (JStr (u "r1")) Write true).
  by vm_compute.
Defined.

Lemma match_rules_total_witness :
  exists b, match_rules [demo_rule] (u "z1") (JStr (u "Mail.Example.com.")) (JStr (u "A"))
              (JStr (u "r1")) Write = Ok b.
Proof.
  apply (match_rules_total [demo_rule] (u "z1") (u "Mail.Example.com.") (u "mail.example.com")).
  - intros r [->|?%elem_of_nil]%elem_of_cons; [|done]. intros p [= <-].
    exists (u "home.example.com"). by vm_compute.
  - by vm_compute.
  - by vm_compute.
Defined.

Lemma wildcard_pattern_confined_witness :
  exists ct, normalize_fqdn (u "a.Example.com") = Ok ct /\
    endswith (char_dot :: u "example.com") ct = true.
Proof.
  apply (wildcard_pattern_confined (u "*.example.com") (u "example.com") (u "example.com")
    (u "a.Example.com") [] [u "example"; u "com"]).
  - split; try by vm_compute.
    + by repeat (constructor; [by vm_compute|]); constructor.
    + by repeat (constructor; [by vm_compute|]); constructor.
    + intros s' c E. apply (f_equal last) in E. rewrite last_snoc in E. vm_compute in E.
      by injection E as <-.
  - by vm_compute.
  - by vm_compute.
  - by vm_compute.
  - by intros ?%elem_of_nil.
  - vm_compute. lia.
  - by vm_compute.
Defined.

Definition rename_body : json := JObj [(u "name", JStr (u "evil.example.com"))].
Definition demo_fetch : pystr -> option pystr -> M json := fun _ _ => mret demo_r1.

(** A rename out of scope is refused with 403. *)
Lemma authorize_by_id_decides_witness :
  exists pre, demo_fetch (u "z1") (Some (u "r1")) patch_world = (Ok pre, patch_world) /\
    by_id_decision [demo_rule] (u "z1") (u "r1") Write true true pre rename_body
      (Decision false true (Some insufficient_scope) demo_r1).
Proof.
  apply (authorize_by_id_decides [demo_rule] (u "PATCH") (u "z1") (u "r1") Write rename_body demo_fetch
    patch_world); [done|done|by vm_compute].
Defined.

Lemma authorize_create_decides_witness :
  patch_world = patch_world /\ exists name rtype,
    py_get (py_or create_body (JObj [])) (u "name") = Ok name /\
    py_get (py_or create_body (JObj [])) (u "type") = Ok rtype /\
    (true = true <-> exists nm r, normalized name = Ok nm /\ r ∈ [demo_rule] /\
       grants r (u "z1") nm rtype JNull Create /\
       (record_ids r = None \/ record_ids r = Some [])) /\
    Decision true false None JNull = Decision true false None JNull.
Proof.
  apply (authorize_create_decides [demo_rule] (u "POST") (u "z1") None create_body demo_fetch
    patch_world (Decision true false None JNull) patch_world); [by vm_compute|by vm_compute].
Defined.

Lemma exempt_mutation_always_allowed_witness :
  allowed (Decision true false None demo_r1) = true.
Proof.
  apply (exempt_mutation_always_allowed [demo_pinned_rule] (u "PATCH") (u "z1") (u "r1") Write
    rename_body demo_r1 (Decision true false None demo_r1)).
  - by eexists.
  - by vm_compute.
  - done.
  - split; [done|]. exists (JStr (u "z1")). split; [by vm_compute|by right].
Defined.

Lemma filter_keeps_readable_witness :
  [demo_r1] `sublist_of` [demo_r1; demo_r2] /\
  forall record, record ∈ [demo_r1] <->
    record ∈ [demo_r1; demo_r2] /\ readable [demo_rule] (u "z1") record.
Proof. apply (filter_keeps_readable [demo_r1; demo_r2] [demo_rule] (u "z1") [demo_r1]). by vm_compute. Defined.

Lemma pages_partition_witness :
  concat ((fun p => (paginate_and_result_info [demo_r1; demo_r2; demo_r1] p 2).1) <$> seqZ 1 2) =
    [demo_r1; demo_r2; demo_r1].
Proof. apply (pages_partition [demo_r1; demo_r2; demo_r1] 2). lia. Defined.

(** ** Tokens *)

Definition auth_world : world := lite_world (demo_db_token demo_token).

Lemma empty_cache_coherent (d : database) : coherent d ∅.
Proof. by intros t v e _ Hl%lookup_empty_Some. Qed.

Lemma generated_token_roundtrip_witness :
  exists g w', generate_scoped_token auth_world = (Ok g, w') /\
    parse_scoped_token (g_full g) = Some (g_lookup_id g, g_secret g) /\
    verify_token (g_full g) (g_token_hash g) = Ok true /\
    length (g_lookup_id g) = 16 /\ length (g_secret g) = 40.
Proof. apply (generated_token_roundtrip auth_world); by vm_compute. Defined.

Definition resolve_run := resolve_scoped_token demo_full auth_world.

Lemma resolve_scoped_token_sound_witness :
  resolved demo_full auth_world (demo_ctx [demo_rule]) /\
  (cache_coherent auth_world ->
     [demo_rule] = rules_of (u "t1") (w_sess auth_world) /\ cache_coherent resolve_run.2).
Proof.
  apply (resolve_scoped_token_sound demo_full auth_world (demo_ctx [demo_rule]) resolve_run.2).
  - apply run_returns. by vm_compute.
  - by intros t t' ->%list_elem_of_singleton ->%list_elem_of_singleton.
Defined.

Lemma resolve_equals_reference_witness :
  (resolve_scoped_token demo_full auth_world).1 = Ok (Some (demo_ctx [demo_rule])) /\
  (resolve_scoped_token demo_full auth_world).1 =
    resolve_reference (w_sess auth_world) (DT (clock (S (w_tick auth_world))) (Some 0%Z)) demo_full.
Proof.
  split; [by vm_compute|]. apply (resolve_equals_reference demo_full auth_world); [done| |].
  - by intros t t' ->%list_elem_of_singleton ->%list_elem_of_singleton.
  - apply empty_cache_coherent.
Defined.

Lemma naive_expiry_raises_witness :
  (@resolve_scoped_token mysql demo_full
     (mysql_world (demo_db_token (demo_token_expiring 4102444800000000)))).1 = Raise TypeError.
Proof.
  apply (@naive_expiry_raises mysql demo_full (u "ABCDEFGHIJKLMNOP")
    (u "0123456789012345678901234567890123456789") (demo_token_expiring 4102444800000000)
    4102444800000000); by vm_compute.
Defined.

(** A request to mint: read access to one name. *)
Definition mint_rules : list rule_dict := [
  RuleDict (u "z1") (Some (u "home.example.com")) None [u "A"] None (Some true) None None None None].
Definition mint_run_lite :=
  mint_scoped_token (u "u1") (u "reader") (u "c1") mint_rules None patch_world.
Definition the_minted : minted :=
  match mint_run_lite.1 with Ok m => m | Raise _ => Minted [] [] [] [] [] 0 None 0 end.
Definition minted_world : world := lite_world (w_db mint_run_lite.2).

Lemma mint_returns : mint_run_lite = (Ok the_minted, mint_run_lite.2).
Proof. apply run_returns. by vm_compute. Qed.

Lemma minted_token_resolves_witness :
  exists ctx, (resolve_scoped_token (m_token the_minted) minted_world).1 = Ok (Some ctx) /\
    st_id (ctx_token ctx) = m_id the_minted /\ st_user_id (ctx_token ctx) = u "u1" /\
    ctx_rules ctx = rule_of_dict <$> mint_rules /\
    uc_id (ctx_credential ctx) = u "c1" /\ uc_user_id (ctx_credential ctx) = u "u1".
Proof.
  apply (minted_token_resolves (u "u1") (u "reader") (u "c1") mint_rules None patch_world the_minted
    mint_run_lite.2 minted_world).
  - by vm_compute.
  - by vm_compute.
  - done.
  - by intros r ?%elem_of_nil.
  - apply run_returns. by vm_compute.
  - done.
  - apply empty_cache_coherent.
  - intros e He. discriminate He.
Defined.

Lemma minted_rules_scoped_witness :
  mint_rules ≠ [] /\ exists l, w_trace mint_run_lite.2 = [] ++ l /\ Forall (rule_ok l) mint_rules.
Proof.
  apply (minted_rules_scoped (u "u1") (u "reader") (u "c1") mint_rules None patch_world the_minted
    mint_run_lite.2).
  apply run_returns. by vm_compute.
Defined.

Definition revoke_run := revoke_scoped_token (u "u1") (u "t1") auth_world.

(** After revoking [t1] another token still resolves; it is not [t1]. *)
Definition other_full : pystr := u "cfsx_PONMLKJIHGFEDCBA_0123456789012345678901234567890123456789".
Definition other_token : ScopedToken := {|
  st_id := u "t2"; st_user_id := u "u1"; st_upstream_credential_id := u "c1"; st_name := u "other";
  st_lookup_id := u "PONMLKJIHGFEDCBA"; st_token_prefix := u "cfsx_PONMLK";
  st_token_hash := match hash_token other_full with Ok h => h | Raise _ => [] end;
  st_version := 1; st_status := u "active"; st_expires_at := None; st_last_used_at := None;
  st_created_at := 0; st_revoked_at := None |}.
Definition two_db : database :=
  Database [demo_user] [demo_credential] [demo_token; other_token] [demo_rule_row] [] [].
Definition two_world : world := lite_world two_db.
Definition revoke_two := revoke_scoped_token (u "u1") (u "t1") two_world.
Definition after_revoke : world := lite_world (w_db revoke_two.2).

Lemma revoked_token_never_resolves_witness :
  (resolve_scoped_token demo_full after_revoke).1 = Ok None /\ u "t2" ≠ u "t1".
Proof.
  split; [by vm_compute|].
  apply (revoked_token_never_resolves (u "u1") (u "t1") two_world revoke_two.2 other_full after_revoke
    (Context_ other_token [] demo_credential) (resolve_scoped_token other_full after_revoke).2).
  - apply run_returns. by vm_compute.
  - by vm_compute.
  - done.
  - apply run_returns. by vm_compute.
Defined.

Definition rotate_run := rotate_scoped_token (u "u1") (u "t1") auth_world.
Definition the_rotated : rotated :=
  match rotate_run.1 with Ok r => r | Raise _ => Rotated [] [] [] 0 end.
Definition after_rotate : world := lite_world (w_db rotate_run.2).
Definition rotated_ctx : ProxyAuthContext :=
  match (resolve_scoped_token (r_token the_rotated) after_rotate).1 with
  | Ok (Some c) => c
  | _ => demo_ctx []
  end.


Lemma revoke_keeps_cache_coherent_witness : cache_coherent revoke_run.2.
Proof.
  apply (revoke_keeps_cache_coherent (u "u1") (u "t1") auth_world).
  - by vm_compute.
  - apply empty_cache_coherent.
  - apply run_returns. by vm_compute.
Defined.

(** ** Credentials *)

Definition register_run := register_credential (u "u1") (u "second") (u "global_key") None
  (Some (u "k3y\")) (Some (u "a@example.com")) patch_world.
Definition the_registered : UpstreamCredential :=
  match register_run.1 with Ok c => c | Raise _ => demo_credential end.

Lemma demo_cipher (t : nat) (p : pystr) : fernet_decrypt (fernet_encrypt t p) = Some p.
Proof.
  change (fernet_decrypt (fernet_encrypt t p)) with
    (if startswith (u "enc:") (u "enc:" ++ p) then Some (drop 4 (u "enc:" ++ p)) else None).
  assert (startswith (u "enc:") (u "enc:" ++ p) = true) as -> by (apply bool_decide_eq_true; by exists p).
  done.
Qed.

Lemma registered_credential_headers_witness :
  the_registered ∈ credentials (w_db register_run.2) /\ uc_user_id the_registered = u "u1" /\
  uc_label the_registered = u "second" /\ uc_cred_type the_registered = u "global_key" /\
  resolve_upstream_auth the_registered patch_world =
    (Ok [(u "X-Auth-Email", u "a@example.com"); (u "X-Auth-Key", u "k3y\")], patch_world).
Proof.
  apply (registered_credential_headers (u "u1") (u "second") (u "global_key") None
    (Some (u "k3y\")) (Some (u "a@example.com")) patch_world the_registered register_run.2 patch_world).
  - apply demo_cipher.
  - intros s [= <-]. by repeat constructor.
  - intros s [= <-]. by repeat constructor.
  - apply run_returns. by vm_compute.
Defined.

Definition delete_run := delete_credential (u "u1") (u "c1") auth_world.

Lemma delete_credential_cascades_witness :
  exists w', delete_credential (u "u1") (u "c1") auth_world = (Ok tt, w') /\
    credentials (w_db w') =
      delete_where (fun c' => bool_decide (uc_id c' = u "c1")) (credentials (w_sess auth_world)) /\
    Forall2 (revoked_step (st_id <$> dependent_tokens (u "c1") (w_sess auth_world)))
      (tokens (w_sess auth_world)) (tokens (w_db w')) /\
    forall t, t ∈ tokens (w_db w') -> st_upstream_credential_id t = u "c1" ->
      st_status t ≠ u "active".
Proof.
  apply (delete_credential_cascades (u "u1") (u "c1") demo_credential auth_world);
    [done|done|done|by vm_compute].
Defined.

Lemma delete_used_credential_fails_witness :
  exists w', @delete_credential mysql (u "u1") (u "c1") (mysql_world (demo_db_token demo_token)) =
      (Raise IntegrityError, w') /\
    @w_db mysql w' = @w_db mysql (mysql_world (demo_db_token demo_token)).
Proof.
  apply (@delete_used_credential_fails mysql (u "u1") (u "c1") demo_token
    (mysql_world (demo_db_token demo_token))); [done|done|by left|done|by exists demo_credential].
Defined.

(** ** Upstream *)

Definition demo_auth : headers := [(u "Authorization", u "Bearer secret")].
Definition forward_run := forward_request (u "GET") (u "/client/v4/zones/z1")
  (Some [(u "AUTHORIZATION", u "Bearer mine"); (u "Accept", u "*/*")]) None None demo_auth patch_world.

Lemma forward_request_pinned_witness :
  client_pinned forward_run.2 /\
  (w_trace forward_run.2 = w_trace patch_world /\ (exists e, forward_run.1 = Raise e) \/
   exists base hs, cloudflare_origin base /\
     w_trace forward_run.2 = w_trace patch_world ++
       [EvHttp (HttpRequest (u "GET") (base ++ u "/client/v4/zones/z1") hs None None None) forward_run.1] /\
     (forall k v, dict_get k demo_auth = Some v -> dict_get k hs = Some v) /\
     (forall k, dict_get k demo_auth = None -> lower k ∈ _STRIPPED_AUTH_HEADERS -> dict_get k hs = None)).
Proof.
  apply (forward_request_pinned (u "GET") (u "/client/v4/zones/z1")
    (Some [(u "AUTHORIZATION", u "Bearer mine"); (u "Accept", u "*/*")]) None None demo_auth patch_world).
  - by intros base [=].
  - apply NoDup_singleton.
  - unfold forward_run. by destruct (forward_request _ _ _ _ _ _).
Defined.

Definition records_run := list_all_records 3 (u "z1") None demo_auth patch_world.

Lemma list_all_records_pages_witness :
  exists l, w_trace records_run.2 = w_trace patch_world ++ l /\
    pages (u "z1") None demo_auth 1 l [demo_r1; demo_r2].
Proof.
  apply (list_all_records_pages 3 (u "z1") None demo_auth patch_world).
  apply run_returns. by vm_compute.
Defined.

(** The account announces one page everywhere. *)
Lemma demo_bounded : bounded_pages 1.
Proof.
  intros rq r page items [s Hs]. simpl in Hs.
  assert (Hp : forall j, hs_status r = 200%Z \/ hs_status r = 404%Z -> hs_json r = Some (demo_envelope j) ->
    parse_page page r = Ok (items, false) -> (page < 1)%Z).
  { intros j Hst Hj. unfold parse_page, raise_for_status, response_json. rewrite Hj.
    destruct Hst as [Hst|Hst]; rewrite Hst; [|done]. simpl.
    destruct (py_iter _) as [its|]; simpl; [|done].
    destruct (1 <=? page)%Z eqn:E; simpl; [done|]. apply Z.leb_gt in E. by intros _. }
  unfold demo_cf in Hs. repeat case_if; simplify_eq; eapply Hp; eauto.
Qed.

Lemma list_all_records_terminates_witness :
  (list_all_records 1 (u "z1") None demo_auth patch_world).1 ≠ Raise OutOfFuel.
Proof.
  apply (list_all_records_terminates 1 1 (u "z1") None demo_auth patch_world);
    [apply demo_bounded|done|done].
Defined.

(** ** Locks, cache, audit *)

Definition locked_demo := advisory_lock (u "m1") (raise (A:=unit) TypeError) patch_world.

Lemma advisory_lock_brackets_witness :
  locked_demo.1 = Raise TypeError /\ w_trace locked_demo.2 = [EvLock (u "m1"); EvUnlock (u "m1")] /\
  ((locked_demo.1 = Raise (LockUnavailable (lock_message (u "m1"))) \/
    locked_demo.1 = Raise OperationalError) /\
     w_trace locked_demo.2 = w_trace patch_world /\ w_locks locked_demo.2 = w_locks patch_world \/
   exists w1 rb w2, raise TypeError w1 = (rb, w2) /\
     w_locks w1 = u "m1" :: w_locks patch_world /\ w_trace w1 = w_trace patch_world ++ [EvLock (u "m1")] /\
     w_db w1 = w_db patch_world /\ w_sess w1 = w_sess patch_world /\
     w_locks locked_demo.2 = delete_where (fun n => bool_decide (n = u "m1")) (w_locks w2) /\
     w_trace locked_demo.2 = w_trace w2 ++ [EvUnlock (u "m1")] /\
     w_db locked_demo.2 = w_db w2 /\ w_sess locked_demo.2 = w_sess w2 /\
     (locked_demo.1 = rb \/ env_dialect = MySQL /\ locked_demo.1 = Raise OperationalError)).
Proof.
  split; [by vm_compute|]. split; [by vm_compute|].
  apply (advisory_lock_brackets (u "m1") (raise (A:=unit) TypeError) patch_world
    locked_demo.1 locked_demo.2).
  unfold locked_demo. by destruct (advisory_lock _ _ _).
Defined.

Lemma cache_set_get_witness :
  (cache_get_json (u "zones:c1") (cache_set_json (u "zones:c1") (JArr [JNum 1]) 300 patch_world).2).1 =
    Ok (if redis_down 1 then JNull
        else if (clock 1 <? clock 0 + 300 * second)%Z then JArr [JNum 1] else JNull).
Proof. apply (cache_set_get (u "zones:c1") (JArr [JNum 1]) 300 patch_world); [lia|done]. Defined.

Definition demo_audit : audit_fields := AuditFields (u "GET") (u "/x") (u "deny") (Some (u "u1"))
  (Some (u "t1")) None None None JNull JNull JNull JNull None None None None.
Definition audit_run := write_audit demo_audit patch_world.

Lemma write_audit_appends_witness :
  let entry := audit_row (new_uuid 0) (clock 1) demo_audit in
  let added := set_audits (fun l => l ++ [entry]) (w_db patch_world) in
  (w_db audit_run.2 = w_db patch_world \/ w_db audit_run.2 = added) /\
  forall row, audit_run.1 = Ok row -> row = entry /\ w_db audit_run.2 = added.
Proof.
  apply (write_audit_appends demo_audit patch_world audit_run.1 audit_run.2); [done|].
  unfold audit_run. by destruct (write_audit _ _).
Defined.

Definition audited_world : world := lite_world (w_db audit_run.2).


(** ** Concurrent requests *)

(** A locked deletion, a read by another token between its fetch and its
    request, and any number of locked mutations that have not begun. *)
Definition calm_sessions (i : nat) : session :=
  match i with
  | 0 => race_delete
  | 1 => race_session [demo_pinned_rule] JNull (Get (u "z1") (u "r1"))
  | _ => race_session [demo_rule] JNull (Patch (u "z1") (u "r1"))
  end.
Definition calm_before : list (nat * event) :=
  ((fun e => (0, e)) <$> take 2 (s_trace race_delete)) ++
  ((fun e => (1, e)) <$> s_trace (calm_sessions 1)).

Lemma calm_execution : execution calm_sessions (calm_before ++ (0, race_event) :: race_after).
Proof.
  split.
  - intros i m op zone rid Ht.
    assert (E : zone = u "z1" /\ rid = u "r1")
      by (revert Ht; destruct i as [|[|i]]; simpl; intros; by simplify_eq).
    destruct E as [-> ->]. by split; apply plain_check.
  - intros [|[|i]]; [by exists []; vm_compute|by exists []; vm_compute|].
    rewrite proj_other; [by eexists|]. apply Forall_app. split.
    + apply Forall_app. split; apply Forall_fmap, Forall_true; intros; simpl; lia.
    + constructor; [simpl; lia|]. apply Forall_fmap, Forall_true; intros; simpl; lia.
  - by vm_compute; eexists.
Qed.

Lemma locked_mutation_up_to_date_witness :
  length calm_before = 3 /\ write_event race_event /\
  @cleared (s_env race_delete) (demo_ctx [demo_rule]) (u "DELETE") (u "z1") (u "r1") JNull Delete
    (account_shown demo_r1 tt).
Proof.
  assert (Hw : write_event race_event) by (vm_compute; naive_solver).
  split; [by vm_compute|]. split; [done|].
  apply (locked_mutation_up_to_date account_ask account_shown account_fetches account_touches calm_sessions 0
    (u "DELETE") Delete (u "z1") (u "r1") tt calm_before race_event race_after demo_r1 demo_r1).
  - apply account_is_lawful.
  - apply calm_execution.
  - vm_compute. repeat constructor.
  - done.
  - apply (race_spells (calm_sessions 1)).
  - done.
  - by vm_compute.
  - by intros [|[|j]] zone Hp.
  - intros [|[|j]] m op zone rid Hj Ht _; vm_compute in Ht; simplify_eq; by vm_compute.
Defined.
