(* ===== verification/LoginWitnesses.v ===== *)
(** * The login and management theorems at work

    Closed instances of the libraries (a JWT codec, a password hash, an OIDC
    codec), and the theorems on logins, sessions and the management handlers
    applied to them. *)

From S2P Require Import Prelude PyStr Json Scope Models World Sha256 Encoding Envelopes Crypto.
From S2P Require Import Cache OAuthCf Upstream Security AuditLogs OAuthService ProxyAuth.
From S2P Require Import Credentials Tokens Schemas Management ProxyDns App Demo.

(** ** Libraries *)

Definition code_Z (z : Z) : list N := [if (z <? 0)%Z then 1%N else 0%N; Z.abs_N z].
Definition decode_Z (s a : N) : Z := if (s =? 1)%N then (- Z.of_N a)%Z else Z.of_N a.

(** The expiry, the secret after its length, the subject. *)
Definition demo_jwt (c : jwt_claims) (secret : pystr) : pystr :=
  code_Z (dt_wall (jc_exp c)) ++ N.of_nat (length secret) :: secret ++ jc_sub c.

Definition demo_jwt_decode (t : Z) (token secret : pystr) : result json :=
  match token with
  | s :: a :: n :: rest =>
      if bool_decide (take (N.to_nat n) rest = secret) && (t <? decode_Z s a)%Z
      then Ok (JObj [(u "sub", JStr (drop (N.to_nat n) rest))])
      else Raise PyJWTError
  | _ => Raise PyJWTError
  end.

#[local] Instance demo_libs : AuthLibs := {|
  argon2_hash := fun _ pw => u "argon2:" ++ pw;
  argon2_verify := fun h pw =>
    if bool_decide (h = u "argon2:" ++ pw) then Ok true else Raise VerifyMismatchError;
  jwt_encode := demo_jwt;
  jwt_decode := demo_jwt_decode;
|}.

(** Every id token is signed with the key [k1] by subject [cf-1]. *)
Definition demo_claims : json := JObj [
  (u "sub", JStr (u "cf-1")); (u "email", JStr (u "b@example.com")); (u "nonce", JStr (u "n"))].

#[local] Instance demo_oidc : OidcLibs := {|
  rsa_key := json;
  unverified_header := fun _ => Ok (JObj [(u "alg", JStr (u "RS256")); (u "kid", JStr (u "k1"))]);
  rsa_from_jwk := fun k => Ok k;
  rs256_decode := fun _ _ _ _ _ _ => Ok demo_claims;
  py_str := fun _ => [];
|}.

#[local] Instance demo_presentation : Presentation := {|
  iso_datetime := fun d => str_of_Z (dt_wall d);
  library_text := fun _ => [];
|}.

#[local] Existing Instance lite.

Lemma decode_code_Z z : decode_Z (if (z <? 0)%Z then 1%N else 0%N) (Z.abs_N z) = z.
Proof. unfold decode_Z. destruct (Z.ltb_spec z 0); simpl; rewrite N2Z.inj_abs_N; lia. Qed.

Lemma demo_jwt_run t c secret :
  jwt_decode t (jwt_encode c secret) secret =
    if (t <? dt_wall (jc_exp c))%Z then Ok (JObj [(u "sub", JStr (jc_sub c))]) else Raise PyJWTError.
Proof.
  change (jwt_decode t (jwt_encode c secret) secret)
    with (demo_jwt_decode t (demo_jwt c secret) secret).
  unfold demo_jwt_decode, demo_jwt, code_Z. cbn [app].
  rewrite decode_code_Z, Nat2N.id, take_app_length, drop_app_length.
  by rewrite bool_decide_eq_true_2.
Qed.

Lemma demo_jwt_lawful : jwt_lawful.
Proof.
  intros c secret t t0 ttl _ Hexp _. rewrite demo_jwt_run, Hexp. simpl. split; intros Ht.
  - eexists. destruct (Z.ltb_spec t (t0 + ttl * second)); [done|]. unfold second in *. lia.
  - destruct (Z.ltb_spec t (t0 + ttl * second)); [lia|done].
Qed.

Lemma demo_argon2_lawful : argon2_lawful.
Proof.
  intros t pw. simpl. split; [by rewrite bool_decide_eq_true_2|].
  intros pw' Hne. rewrite bool_decide_eq_false_2; [done|]. intros E. apply Hne. by simplify_list_eq.
Qed.

(** ** Accounts *)

Definition empty_world : world := lite_world empty_database.
Definition joe : pystr := u "joe@example.com".
Definition register_run := register (Register joe (u "pw")) empty_world.
Abbreviation registered_world := (register_run.2).
Definition registered_data : json :=
  match register_run.1 with Ok (JSONResponse _ (JObj [_; _; (_, d)])) => d | _ => JNull end.

Lemma registered_user_logs_in_witness :
  (u "pw" = u "pw" -> exists token,
     (login (Login joe (u "pw")) registered_world).1 = Ok (logged_in token)) /\
  (u "pw" ≠ u "pw" -> (login (Login joe (u "pw")) registered_world).1 = Ok bad_login).
Proof.
  apply (registered_user_logs_in (Register joe (u "pw")) empty_world registered_data registered_world
    registered_world (u "pw")); [apply demo_argon2_lawful|done| |done].
  apply run_returns. by vm_compute.
Defined.

Definition login_run := login (Login joe (u "pw")) registered_world.
Definition login_data : json :=
  match login_run.1 with Ok (JSONResponse _ (JObj [_; _; (_, d)])) => d | _ => JNull end.

Lemma login_authenticates_witness :
  exists token x, login_data = TokenResponse token /\
    (get_current_user (Some token) login_run.2).1 = Ok x /\ x ∈ users (w_sess registered_world) /\
    (exists e, u_email x = Some e /\ column_key env_dialect e = column_key env_dialect joe) /\
    exists h, u_password_hash x = Some h /\ argon2_verify h (u "pw") = Ok true.
Proof.
  apply (login_authenticates (Login joe (u "pw")) registered_world login_data login_run.2 login_run.2);
    [apply demo_jwt_lawful|done| | | | |done|done|].
  - intros i j Hij. simpl. unfold second. lia.
  - by vm_compute.
  - vm_compute. by intros x [->|?%elem_of_nil]%elem_of_cons.
  - apply run_returns. by vm_compute.
  - by vm_compute.
Defined.

Definition login_token : pystr :=
  match dict_get (u "access_token") (match login_data with JObj d => d | _ => [] end) with
  | Some (JStr t) => t
  | _ => []
  end.
Definition me_run := get_current_user (Some login_token) login_run.2.
Definition joe_user : User := match me_run.1 with Ok x => x | Raise _ => demo_user end.

Lemma current_user_sound_witness :
  user_of_token login_run.2 (Some login_token) joe_user /\ w_sess me_run.2 = w_sess login_run.2.
Proof.
  apply (current_user_sound (Some login_token) login_run.2 joe_user me_run.2).
  apply run_returns. by vm_compute.
Defined.

(** Another user asking for the token [t1] and the credential [c1]. *)
Definition foreign_world : world := lite_world (demo_db_token demo_token).

Lemma foreign_resource_404_witness :
  let missing what id := make_response 404 (u what ++ repr id ++ u " not found") JNull in
  Forall (fun m => m foreign_world = (Ok (missing "scoped token " (u "t1")), set_tick S foreign_world))
    [get_scoped_token (u "t1") joe_user; post_rotate (u "t1") joe_user;
     delete_scoped_token (u "t1") joe_user] /\
  Forall (fun m => m foreign_world =
            (Ok (missing "upstream credential " (u "t1")), set_tick S foreign_world))
    [remove_credential (u "t1") joe_user; post_verify (u "t1") joe_user;
     get_credential_zones 1 (u "t1") joe_user;
     list_zone_records 1 (u "t1") (u "z1") None None joe_user].
Proof.
  apply (foreign_resource_404 1 (u "t1") (u "z1") None None joe_user foreign_world); [done| |].
  - intros t ->%list_elem_of_singleton _. by vm_compute.
  - intros c ->%list_elem_of_singleton _. by vm_compute.
Defined.

(** ** Logins with Cloudflare *)

(** An issuer that publishes one key and exchanges every code. *)
Definition demo_issuer (rq : http_request) : option http_response :=
  if endswith (u "/jwks.json") (hq_url rq)
  then Some (HttpResponse 200 (Some (JObj [(u "keys", JArr [JObj [(u "kid", JStr (u "k1"))]])])))
  else if endswith (u "/oauth2/token") (hq_url rq)
  then Some (HttpResponse 200 (Some (JObj [
         (u "id_token", JStr (u "id.token")); (u "access_token", JStr (u "at-1"));
         (u "refresh_token", JStr (u "rt-1")); (u "expires_in", JNum 3600);
         (u "scope", JStr (u "openid"))])))
  else None.

Definition issuer : Env := demo_env SQLite (Some 0%Z) true demo_issuer.

Definition issuer_world (d : database) (redis : gmap pystr redis_entry) : @world issuer :=
  @World issuer 0 d d redis tt None (JNull, 0%Z) [] [] [].

Definition the_id_token : json := JStr (u "id.token").
Definition validate_run :=
  @validate_id_token issuer demo_oidc the_id_token (JStr (u "n")) (JStr (u "at-1")) (JStr (u "code"))
    (issuer_world demo_db ∅).


(** A login in progress under the state [s]. *)
Definition login_started : gmap pystr redis_entry :=
  {[ oauth_state_key (u "s") := RedisEntry
       (Some (JObj [(u "verifier", JStr (u "v")); (u "nonce", JStr (u "n"))])) None ]}.
Definition callback_run :=
  @handle_cf_oauth_callback issuer demo_libs demo_oidc (u "code") (u "s")
    (issuer_world demo_db login_started).

Lemma oauth_state_single_use_witness :
  @w_trace issuer callback_run.2 ≠ [] /\
  ((callback_run.1 = Raise state_refused /\
      @w_trace issuer callback_run.2 = [] /\ @w_db issuer callback_run.2 = demo_db) \/
   exists w2', @handle_cf_oauth_callback issuer demo_libs demo_oidc (u "other") (u "s") callback_run.2 =
       (Raise state_refused, w2') /\
     @w_trace issuer w2' = @w_trace issuer callback_run.2 /\
     @w_db issuer w2' = @w_db issuer callback_run.2).
Proof.
  split; [by vm_compute|].
  apply (@oauth_state_single_use issuer demo_libs demo_oidc (u "code") (u "other") (u "s")
    (issuer_world demo_db login_started) callback_run.1 callback_run.2 callback_run.2); [|done].
  unfold callback_run. by destruct (handle_cf_oauth_callback _ _ _).
Defined.

Lemma oauth_email_taken_witness :
  exists w', @upsert_user issuer (u "cf-1") (JStr (u "a@example.com")) (DT 0 (Some 0%Z))
      (issuer_world demo_db ∅) = (Raise IntegrityError, w') /\
    @w_db issuer w' = demo_db /\ @w_sess issuer w' = demo_db.
Proof.
  apply (@oauth_email_taken issuer (u "cf-1") (u "a@example.com") (DT 0 (Some 0%Z)) demo_user
    (issuer_world demo_db ∅)); [done|by left|done|].
  by intros z ->%list_elem_of_singleton.
Defined.

(** ** Routing *)

#[local] Instance demo_router : Router := {|
  dispatch := fun routes method path =>
    rt_endpoint <$> head (select_where (full_match method path) routes);
|}.

Lemma proxy_routing_witness :
  (forall method rest, method ∈ _BULK_METHODS -> has_char 10 rest = false -> exists e,
     dispatch create_app method (u "/client/v4/" ++ rest) = Some e /\ e ∈ proxy_endpoints) /\
  (forall method, dispatch create_app method (u "/client/v4/a" ++ 10%N :: u "b") = None) /\
  (forall zone, zone ≠ [] -> has_char 47 zone = false ->
   Forall (fun '(name, blocked) =>
     let to method := dispatch create_app method (under (records_path zone) name) in
     to (u "POST") = Some blocked /\ to (u "GET") = Some E_get_dns_record /\
     to (u "PATCH") = Some E_patch_dns_record /\ to (u "PUT") = Some E_put_dns_record /\
     to (u "DELETE") = Some E_delete_dns_record)
   [(u "batch", E_blocked_batch); (u "import", E_blocked_import); (u "export", E_blocked_export)]) /\
  (forall method path, method ∉ _BULK_METHODS ->
     dispatch create_app method path = None \/
     method = u "HEAD" /\ exists e, dispatch create_app method path = Some e /\ e ∈ docs_endpoints).
Proof. apply (@proxy_routing demo_router). by intros routes method path. Defined.

Definition linked_user : User := match callback_run.1 with Ok (x, _) => x | Raise _ => demo_user end.
Definition linked_jwt : pystr := match callback_run.1 with Ok (_, t) => t | Raise _ => [] end.

Lemma oauth_login_links_account_witness :
  u_email linked_user = Some (u "b@example.com") /\
  @completed_login issuer demo_libs demo_oidc (u "code") (u "s") (issuer_world demo_db login_started)
    linked_user linked_jwt callback_run.2.
Proof.
  split; [by vm_compute|].
  apply (@oauth_login_links_account issuer demo_libs demo_oidc (u "code") (u "s")
    (issuer_world demo_db login_started) linked_user linked_jwt callback_run.2).
  unfold callback_run. apply run_returns. by vm_compute.
Defined.
