(* ===== verification/ServerWitnesses.v ===== *)
(** * Schemas, raw requests and concurrent refreshes at work

    A pydantic that reads nothing but the declared types (and the texts it
    must), a framework that binds the parameters of a template segment by
    segment, and the theorems on requests applied to them. *)

From S2P Require Import Prelude PyStr Json Scope Models World Envelopes Schemas Crypto Cache Locks.
From S2P Require Import OAuthCf Upstream Security OAuthService ProxyAuth Credentials Tokens.
From S2P Require Import Management Authorizer ProxyDns App Server Demo Witnesses LoginWitnesses.
From S2P Require Import Refreshing.

#[local] Existing Instances lite demo_libs demo_oidc demo_presentation demo_router.

(** ** Libraries *)

(** A datetime as the code of its fields. *)
Definition demo_iso (d : datetime) : pystr :=
  code_Z (dt_wall d) ++ match dt_tz d with Some z => code_Z z | None => [] end.

Definition demo_lax (j : json) : option datetime :=
  match j with
  | JStr [s; a] => Some (DT (decode_Z s a) None)
  | JStr [s; a; s'; a'] => Some (DT (decode_Z s a) (Some (decode_Z s' a')))
  | _ => None
  end.

Lemma demo_lax_iso d : demo_lax (JStr (demo_iso d)) = Some d.
Proof. destruct d as [w [z|]]; unfold demo_iso, code_Z; simpl; by rewrite !decode_code_Z. Qed.

#[export] Instance demo_pydantic : Pydantic := {|
  other_bool := fun _ => None;
  other_int := fun j => match j with JStr s => match py_int s with Ok n => Some n | _ => None end | _ => None end;
  lax_datetime := demo_lax;
|}.

Fixpoint bindings (template path : list pystr) : list (pystr * pystr) :=
  match template, path with
  | t :: template', p :: path' =>
      if startswith (u "{") t then (removelast (tail t), p) :: bindings template' path'
      else bindings template' path'
  | _, _ => []
  end.

#[export] Instance demo_framework : Framework := {|
  http_bearer := fun header =>
    match partition_at char_space (default [] header) with
    | (scheme, _, c :: token) => if bool_decide (lower scheme = u "bearer") then Some (c :: token) else None
    | _ => None
    end;
  read_body := fun rq => match rq_json rq with Some j => Payload j | None => Malformed end;
  path_params := fun template path => bindings (split 47 template) (split 47 path);
  error_report := fun _ => JArr [];
  framework_page := fun _ _ => JSONResponse 200 JNull;
  unmatched := fun _ => JSONResponse 404 (JObj [(u "detail", JStr (u "Not Found"))]);
|}.

(** ** Schemas *)

Definition demo_mint_request : ScopedTokenCreateRequest :=
  TokenCreate (u "home") (u "c1") (Some (DT 7 (Some 0%Z)))
    [RuleRequest (u "z1") None (u "exact") [u "A"] (Some [u "r1"]) true false true false None].

Lemma mint_request_roundtrip_witness :
  ScopedTokenCreateRequest_of (ScopedTokenCreateRequest_json demo_iso demo_mint_request) =
    Some demo_mint_request.
Proof. apply mint_request_roundtrip. apply demo_lax_iso. Defined.

(** A rule that asks to write. *)
Definition asks_to_write : list (pystr * json) := [
  (u "zone_id", JStr (u "z1")); (u "record_types", JArr [JStr (u "A")]); (u "allow_write", JBool true)].
Definition writing_rule : ScopeRuleRequest :=
  RuleRequest (u "z1") None (u "exact") [u "A"] None true false true false None.

Lemma permissions_are_asked_for_witness :
  exists d v, JObj asks_to_write = JObj d /\ dict_get (permission Write) d = Some v /\ as_bool v = Some true.
Proof. apply (permissions_are_asked_for (JObj asks_to_write) writing_rule Write); by vm_compute. Defined.

(** ** Raw requests *)

Definition bearer (token : pystr) : option pystr := Some (u "Bearer " ++ token).

(** The PATCH of a record, from the socket on: the token of the small account
    renames nothing and is let through. *)
Definition patch_request : incoming :=
  Incoming (u "PATCH") (u "/client/v4/zones/z1/dns_records/r1") (bearer demo_full)
    (demo_request patch_content).
Definition granted_world : world := lite_world (demo_db_token demo_token).

Example patch_request_granted :
  (receive 3 patch_request granted_world).1 = Ok (Answer (JSONResponse 200 (demo_envelope demo_r1))) /\
  length (w_trace (receive 3 patch_request granted_world).2) = 4 /\
  path_param E_patch_dns_record (u "record_id") patch_request = u "r1".
Proof. by vm_compute. Qed.

Lemma requests_answered_in_shape_witness :
  exists l, w_trace (receive 3 patch_request granted_world).2 = w_trace granted_world ++ l /\
    ((receive 3 patch_request granted_world).1 = Raise OutOfFuel \/
     exists a, (receive 3 patch_request granted_world).1 = Ok a /\ shaped patch_request l a).
Proof. apply requests_answered_in_shape. by intros routes method path. Defined.

(** Somebody lists the tokens without logging in. *)
Definition list_request : incoming :=
  Incoming (u "GET") (u "/api/v1/scoped-tokens") None (demo_request JNull).

Lemma management_needs_user_witness :
  let w0 := set_sess (fun _ => w_db granted_world) granted_world in
  (exists x, user_of_token w0 (credentials_of list_request) x) \/
  untouched w0 (receive 3 list_request granted_world).2 /\
  (malformed E_list_scoped_tokens list_request = true /\
     (receive 3 list_request granted_world).1 = Ok (Answer (invalid list_request)) \/
   undecodable E_list_scoped_tokens list_request = true /\
     (receive 3 list_request granted_world).1 =
       Ok (Answer (handle_exception (in_path list_request) parsing_error)) \/
   exists x, (get_current_user (credentials_of list_request) w0).1 = Raise x /\
     (receive 3 list_request granted_world).1 =
       if is_Exception x then Ok (Answer (handle_exception (in_path list_request) x)) else Raise x).
Proof.
  apply (management_needs_user 3 E_list_scoped_tokens); [by vm_compute|].
  by repeat (first [left; done|right]).
Defined.

(** ** Concurrent refreshes *)

Definition oauth_row : UpstreamCredential := {|
  uc_id := u "c2"; uc_user_id := u "u1"; uc_label := u "cloudflare-oauth"; uc_cred_type := u "oauth";
  uc_secret_enc := None; uc_access_token_enc := Some (u "enc:access");
  uc_refresh_token_enc := Some (u "enc:refresh"); uc_token_expires_at := None;
  uc_oauth_scopes := None; uc_key_version := 1; uc_cred_version := 1;
  uc_cf_account_email := None; uc_verify_status := None; uc_verified_at := None; uc_created_at := 0 |}.

Lemma waiter_trades_again_witness :
  exists s, @raced mysql false (Refreshing.start oauth_row) s /\
    log s = [Trade (Some (u "enc:refresh"));
             Rotated (Some (u "enc:refresh")) (Some (u "enc:next"));
             Trade (Some (u "enc:refresh"))].
Proof. by apply (@waiter_trades_again mysql oauth_row (u "refresh") (u "enc:next")). Defined.

Lemma stale_consent_is_overwritten_witness :
  exists s, @raced mysql false (Refreshing.start oauth_row) s /\
    log s = [Trade (Some (u "enc:refresh"));
             Rotated (Some (u "enc:refresh")) (Some (u "enc:next"));
             Consented true (Some (u "enc:consent"));
             Trade (Some (u "enc:next"));
             Rotated (Some (u "enc:next")) (Some (u "enc:last"))] /\
    uc_refresh_token_enc (committed s) = Some (u "enc:last").
Proof.
  by apply (@stale_consent_is_overwritten mysql oauth_row (u "refresh") (u "next") (u "enc:next")
    (u "enc:last") (u "enc:consent") None).
Defined.

(** A rotation from start to end. *)
Definition after_rotation : race :=
  Race (fenced oauth_row (u "enc:a") (u "enc:next") None oauth_row) None ∅
    [Trade (Some (u "enc:refresh")); Rotated (Some (u "enc:refresh")) (Some (u "enc:next"))].

Lemma rotation_race repopulates : @raced mysql repopulates (Refreshing.start oauth_row) after_rotation.
Proof.
  eapply rtc_l; [by apply (@race_load mysql _ _ 0)|].
  eapply rtc_l; [apply (@race_lock mysql _ _ 0 oauth_row); [done|by intros _]|].
  eapply rtc_l; [apply (@race_trade mysql _ _ 0 oauth_row 0 (u "refresh") (u "enc:a") (u "enc:next") None);
    [by destruct repopulates|by apply not_valid_without_expiry|done]|].
  eapply rtc_l; [by apply (@race_store mysql _ _ 0 oauth_row (u "enc:a") (u "enc:next") None)|].
  match goal with |- rtc _ ?s _ => replace s with after_rotation; [apply rtc_refl|] end.
  by vm_compute.
Qed.

Lemma refresh_chain_witness :
  chain (Some (u "enc:refresh")) (log after_rotation) (Some (u "enc:next")).
Proof.
  apply (@refresh_chain mysql false oauth_row after_rotation); [apply rotation_race|].
  by repeat constructor.
Defined.

Lemma row_lock_trades_current_witness :
  traded_chain (Some (u "enc:refresh")) (log after_rotation) (Some (u "enc:next")).
Proof. apply (@row_lock_trades_current mysql oauth_row after_rotation); [done|apply rotation_race]. Defined.
