(* ===== verification/ApiRuns.v ===== *)
(** * The documented errors, reproduced

    One request per error example of the routes, sent to the small account of
    [Demo]: the answer is the example, status and body. *)

From S2P Require Import Prelude PyStr Json Scope Models World Envelopes Schemas Crypto Cache Locks.
From S2P Require Import OAuthCf Upstream Security OAuthService ProxyAuth Credentials Tokens.
From S2P Require Import Management Authorizer ProxyDns App Server Documented Demo Witnesses.
From S2P Require Import LoginWitnesses ServerWitnesses.

#[local] Existing Instances demo_libs demo_oidc demo_presentation demo_router.

(** The account, with a lock service that grants or refuses. *)
Definition account (granted : bool) : Env := demo_env SQLite (Some 0%Z) granted demo_cf.

Definition account_world (granted : bool) : @world (account granted) :=
  demo_start SQLite (Some 0%Z) granted demo_cf (demo_db_token demo_token).

Definition answered (granted : bool) (rq : incoming) : result answer :=
  (@receive (account granted) _ _ _ _ _ _ 3 rq (account_world granted)).1.

(** What the user of the account presents to the management API. *)
Definition session_jwt : pystr :=
  match (@create_jwt (account true) _ (u "u1") (account_world true)).1 with Ok t => t | Raise _ => [] end.

Definition with_query (query : list (pystr * pystr)) : request := Request None query None [].

(** A request of the logged-in user, and one with the token of the account. *)
Definition managed (method path : string) (body : json) : incoming :=
  Incoming (u method) (u "/api/v1" ++ u path) (bearer session_jwt) (demo_request body).
Definition proxied_to (method path : string) (body : json) : incoming :=
  Incoming (u method) (u "/client/v4" ++ u path) (bearer demo_full) (demo_request body).

Definition moved : json := JObj [fld "name" (txt "evil.example.com")].
Definition edited : json := JObj [fld "content" (txt "5.6.7.8")].
Definition replaced (name : string) : json := JObj [
  fld "name" (txt name); fld "type" (txt "A"); fld "content" (txt "5.6.7.8")].
Definition minted_under (credential : string) : json := JObj [
  fld "name" (txt "staging"); fld "upstream_credential_id" (txt credential);
  fld "scope_rules" (JArr [JObj [fld "zone_id" (txt "z1"); fld "record_types" (JArr [txt "A"])]])].
Definition credentials_sent : json := JObj [fld "email" (txt "a@example.com"); fld "password" (txt "pw")].

(** ** One request per documented error *)

(** Every endpoint but [E_read_me], whose example is in another envelope. *)
Definition endpoints_with_errors : list endpoint := [
  E_register; E_login; E_cf_callback;
  E_create_credential; E_delete_credential; E_verify_credential; E_credential_zones;
  E_credential_zone_records; E_mint_scoped_token; E_get_scoped_token; E_rotate_scoped_token;
  E_revoke_scoped_token; E_verify_token; E_create_dns_record; E_get_dns_record; E_patch_dns_record;
  E_put_dns_record; E_delete_dns_record; E_blocked_batch; E_blocked_import; E_blocked_export; E_catch_all].

Definition documented_errors : list (endpoint * (Z * json)) :=
  e ← endpoints_with_errors; x ← error_examples e; [(e, x)].

(** The requests, in the same order, with the verdict of the lock service. *)
Definition provoking : list (bool * incoming) := [
  (true, Incoming (u "POST") (u "/api/v1/auth/register") None (demo_request credentials_sent));
  (true, Incoming (u "POST") (u "/api/v1/auth/login") None (demo_request credentials_sent));
  (true, Incoming (u "GET") (u "/api/v1/auth/cf/callback") None
           (with_query [(u "code", u "c"); (u "state", u "replayed")]));
  (true, managed "POST" "/upstream-credentials"
           (JObj [fld "label" (txt "dns"); fld "cred_type" (txt "token")]));
  (true, managed "DELETE" "/upstream-credentials/c9" JNull);
  (true, managed "POST" "/upstream-credentials/c9/verify" JNull);
  (true, managed "GET" "/upstream-credentials/c9/zones" JNull);
  (true, managed "GET" "/upstream-credentials/c9/zones/z1/records" JNull);
  (true, managed "POST" "/scoped-tokens" (minted_under "c1"));
  (true, managed "POST" "/scoped-tokens" (minted_under "c9"));
  (true, managed "GET" "/scoped-tokens/t9" JNull);
  (true, managed "POST" "/scoped-tokens/t9/rotate" JNull);
  (true, managed "DELETE" "/scoped-tokens/t9" JNull);
  (true, Incoming (u "GET") (u "/client/v4/user/tokens/verify") None (demo_request JNull));
  (true, proxied_to "POST" "/zones/z1/dns_records" (replaced "evil.example.com"));
  (true, proxied_to "GET" "/zones/z1/dns_records/r2" JNull);
  (true, proxied_to "PATCH" "/zones/z1/dns_records/r1" moved);
  (true, proxied_to "PATCH" "/zones/z1/dns_records/r2" edited);
  (false, proxied_to "PATCH" "/zones/z1/dns_records/r1" moved);
  (true, proxied_to "PUT" "/zones/z1/dns_records/r1" (replaced "evil.example.com"));
  (true, proxied_to "PUT" "/zones/z1/dns_records/r2" (replaced "home.example.com"));
  (false, proxied_to "PUT" "/zones/z1/dns_records/r1" (replaced "home.example.com"));
  (true, proxied_to "DELETE" "/zones/z1/dns_records/r2" JNull);
  (false, proxied_to "DELETE" "/zones/z1/dns_records/r1" JNull);
  (true, proxied_to "POST" "/zones/z1/dns_records/batch" JNull);
  (true, proxied_to "POST" "/zones/z1/dns_records/import" JNull);
  (true, proxied_to "POST" "/zones/z1/dns_records/export" JNull);
  (true, proxied_to "GET" "/accounts" JNull)].

(** The endpoints of a resource of the user, whose 404 names the resource. *)
Definition names_resource (e : endpoint) (status : Z) : bool :=
  (status =? 404)%Z && bool_decide (e ∈ user_endpoints).

(** A request that reaches the endpoint and is answered as the example. *)
Definition provokes (x : endpoint * (Z * json)) (run : bool * incoming) : Prop :=
  let '(e, (status, body)) := x in
  dispatch create_app (in_method run.2) (in_path run.2) = Some e /\
  exists r, answered run.1 run.2 = Ok (Answer r) /\ status_code r = status /\
    as_documented e r = true /\ (names_resource e status = false -> content r = body).

Lemma provoking_all : Forall2 provokes documented_errors provoking.
Proof.
  unfold provoking. let l := eval vm_compute in documented_errors in change documented_errors with l.
  repeat (apply Forall2_cons; split; [|]); [..|by constructor];
    (split; [by vm_compute|]; eexists; split; [by vm_compute|]; by vm_compute).
Qed.

(** For every example of an error that a route declares, of either API, some
    request that is routed to that endpoint is answered so, with that status and
    those fields, and with that very body except where a resource is missing,
    whose id the message names. The one exception is the 401 of [/me], documented
    as [{"detail": ...}]. *)
Lemma documented_errors_occur e status body :
  e ≠ E_read_me -> (status, body) ∈ error_examples e ->
  exists granted rq r, dispatch create_app (in_method rq) (in_path rq) = Some e /\
    answered granted rq = Ok (Answer r) /\ status_code r = status /\ as_documented e r = true /\
    (names_resource e status = false -> content r = body).
Proof.
  intros He Hx.
  assert (Hin : (e, (status, body)) ∈ documented_errors).
  { apply list_elem_of_bind. exists e. split.
    - apply list_elem_of_bind. exists (status, body). split; [by left|done].
    - apply (bool_decide_unpack (e ∈ endpoints_with_errors)). destruct e; try done;
        vm_compute in Hx; by apply elem_of_nil in Hx. }
  apply list_elem_of_lookup in Hin as [i Hi].
  destruct (Forall2_lookup_l _ _ _ _ _ provoking_all Hi) as ([granted rq] & _ & Hd & r & Ha).
  by exists granted, rq, r.
Qed.

(** ** What the documentation leaves out *)

(** Without a session, [/me] answers the management envelope and not the
    documented [{"detail": ...}]. *)
Lemma me_error_undocumented :
  exists r, answered true (Incoming (u "GET") (u "/api/v1/auth/me") None (demo_request JNull)) =
    Ok (Answer r) /\ status_code r = 401%Z /\ fields (content r) = [u "status"; u "message"; u "data"] /\
    as_documented E_read_me r = false /\
    error_examples E_read_me = [(401%Z, JObj [fld "detail" (txt "Not authenticated")])].
Proof. eexists. split; [by vm_compute|]. by vm_compute. Qed.

(** ** Witnesses *)

Lemma management_answers_documented_witness :
  exists r, answered true (managed "GET" "/scoped-tokens/t1" JNull) = Ok (Answer r) /\
    (as_documented E_get_scoped_token r = true \/
     r = @invalid _ (managed "GET" "/scoped-tokens/t1" JNull) \/
     exists x, (@call_endpoint (account true) _ _ _ _ _ 3 E_get_scoped_token
       (managed "GET" "/scoped-tokens/t1" JNull) (set_sess (fun _ => w_db (account_world true)) (account_world true))).1
       = Raise x /\ is_Exception x = true /\
       r = handle_exception (in_path (managed "GET" "/scoped-tokens/t1" JNull)) x /\
       @escapes (account true) _ _ E_get_scoped_token (managed "GET" "/scoped-tokens/t1" JNull)
         (set_sess (fun _ => w_db (account_world true)) (account_world true)) x).
Proof.
  eexists. split; [vm_compute; reflexivity|].
  apply (@management_answers_documented (account true) _ _ _ _ _ _ 3 _ _ (account_world true));
    [by vm_compute|by vm_compute; repeat first [left; done|right]|by vm_compute].
Defined.
