(* ===== verification/SystemWitnesses.v ===== *)
(** * The theorems on the whole system at work

    Sequences of calls on the small account, and a mutation that goes
    through. *)

From S2P Require Import Prelude PyStr Json Scope Models World Envelopes Crypto Cache Locks.
From S2P Require Import Upstream AuditLogs ProxyAuth Credentials Tokens Management Authorizer.
From S2P Require Import ProxyDns Progress App Server Console System Tenancy Caching Transactions.
From S2P Require Import Demo Witnesses LoginWitnesses ServerWitnesses ApiRuns.

#[local] Existing Instances lite demo_libs demo_oidc demo_presentation demo_router.
#[local] Instance demo_console : ConsoleText := {| isoformat := fun d => str_of_Z (dt_wall d); isatty := false;
  other_argv := fun _ => usage_error |}.

(** The token [t1] is revoked, [t2] verifies itself, the cache is lost. *)
Definition verify_call : call := CallRequest 0
  (Incoming (u "GET") (u "/client/v4/user/tokens/verify") (bearer other_full) (demo_request JNull)).
Definition patched_call : call := CallRequest 0
  (Incoming (u "PATCH") (u "/client/v4/zones/z1/dns_records/r1") (bearer other_full)
    (demo_request patch_content)).
Abbreviation after_verify := (run_call verify_call after_revoke).2.
Abbreviation after_patch := (run_call patched_call after_verify).2.
Abbreviation after_calls := (set_redis (fun _ => ∅) after_patch).

Lemma flushed_redis_db w : w_db (set_redis (fun _ => ∅) w) = w_db w.
Proof. done. Qed.

Lemma after_calls_reachable : reachable after_revoke after_calls.
Proof.
  refine (rtc_l _ _ _ _ (step_call _ _ verify_call eq_refl) _).
  refine (rtc_l _ _ _ _ (step_call _ _ patched_call eq_refl) _).
  exact (rtc_once _ _ (step_outside _ _ (flushed_redis_db _))).
Qed.

Definition revoked_t1 : ScopedToken := default demo_token (head (tokens (w_db after_revoke))).
Definition resolve_other :=
  (open_session ≫= fun _ => resolve_scoped_token other_full) after_calls.

Lemma revocation_is_permanent_witness :
  st_id revoked_t1 = u "t1" /\ u "t2" ≠ st_id revoked_t1.
Proof.
  split; [by vm_compute|].
  apply (revocation_is_permanent revoked_t1 after_revoke after_calls other_full
    (Context_ other_token [] demo_credential) resolve_other.2).
  - by vm_compute.
  - vm_compute. by left.
  - by vm_compute.
  - apply after_calls_reachable.
  - unfold resolve_other. apply run_returns. by vm_compute.
Defined.

Lemma tenants_stay_apart_witness :
  uc_user_id demo_credential = st_user_id other_token.
Proof.
  apply (tenants_stay_apart after_revoke after_calls other_full
    (Context_ other_token [] demo_credential) resolve_other.2).
  - by vm_compute.
  - apply (bool_decide_eq_true_1 (tenants_apart (w_db after_revoke))). by vm_compute.
  - apply after_calls_reachable.
  - unfold resolve_other. apply run_returns. by vm_compute.
Defined.

Lemma token_scope_is_fixed_witness :
  (exists t', t' ∈ tokens (w_db after_calls) /\ token_follows revoked_t1 t') /\
  rules_of (st_id revoked_t1) (w_db after_calls) = rules_of (st_id revoked_t1) (w_db after_revoke).
Proof.
  apply (token_scope_is_fixed revoked_t1 after_revoke after_calls).
  - vm_compute. by left.
  - apply after_calls_reachable.
Defined.

(** The refused PATCH of [t2], which has no rule, is in the log. *)
Lemma audit_log_append_only_witness :
  length (audits (w_db after_calls)) = 1 /\
  audits (w_db after_revoke) `prefix_of` audits (w_db after_calls).
Proof.
  split; [by vm_compute|].
  apply (audit_log_append_only after_revoke after_calls), after_calls_reachable.
Defined.

(** ** The cache *)

(** The token verifies itself, which caches its rules. *)
Definition uncached_world : world := set_tick (fun _ => 1) granted_world.
Definition cached_call_t1 : call := CallRequest 0
  (Incoming (u "GET") (u "/client/v4/user/tokens/verify") (bearer demo_full) (demo_request JNull)).
Abbreviation cached_world := (run_call cached_call_t1 uncached_world).2.

Lemma demo_draws_distinct : distinct_until 60.
Proof.
  assert (Hnd : NoDup (lookup_at <$> seq 0 60))
    by (apply (bool_decide_eq_true_1 (NoDup (lookup_at <$> seq 0 60))); by vm_compute).
  intros i j Hi Hj E. apply (NoDup_lookup _ i j (lookup_at i) Hnd); rewrite list_lookup_fmap, lookup_seq_lt by done;
    simpl; by rewrite ?E.
Qed.

Lemma uncached_world_sound : cache_sound uncached_world.
Proof.
  split.
  - by vm_compute.
  - apply empty_cache_coherent.
  - intros t ->%list_elem_of_singleton. exists 0. split; [simpl; lia|by vm_compute].
  - intros l v e He. change ((∅ : gmap pystr redis_entry) !! rules_key l v = Some e) in He.
    by rewrite lookup_empty in He.
Qed.

Lemma cached_rules_never_stale_witness :
  is_Some (w_redis cached_world !! rules_key (u "ABCDEFGHIJKLMNOP") 1) /\
  cache_sound cached_world /\
  forall full ctx w2 t,
    (open_session ≫= fun _ => resolve_scoped_token full) cached_world = (Ok (Some ctx), w2) ->
    t ∈ tokens (w_db uncached_world) -> st_id (ctx_token ctx) = st_id t ->
    ctx_rules ctx = rules_of (st_id t) (w_db uncached_world).
Proof.
  split; [by vm_compute; eexists|].
  apply (cached_rules_never_stale 60 uncached_world cached_world).
  - apply demo_draws_distinct.
  - apply uncached_world_sound.
  - exact (rtc_once _ _ (cached_call _ _ cached_call_t1 eq_refl)).
  - apply Nat.leb_le. by vm_compute.
Defined.

(** ** Interleaved transactions *)

(** The user revokes [t1]; another of his requests, which had read the tables
    before that, rotates it. *)
Definition revoke_call : call := CallRequest 0 (managed "DELETE" "/scoped-tokens/t1" JNull).
Definition rotate_call : call := CallRequest 0 (managed "POST" "/scoped-tokens/t1/rotate" JNull).
Definition revoked_tables : database := foldl land two_db (transactions_of revoke_call two_world).
Abbreviation stale_rotation := (transactions_of rotate_call two_world).
Definition after_rotation_landed : world := lite_world (foldl land revoked_tables stale_rotation).
Definition landed_t1 : ScopedToken := default demo_token (head (tokens revoked_tables)).
Definition resolve_landed :=
  (open_session ≫= fun _ => resolve_scoped_token other_full) after_rotation_landed.

(** Landed where it was computed, a commit gives what it computed. *)
Example land_own :
  forallb (fun p => bool_decide (land p.1 p = p.2))
    (transactions_of revoke_call two_world ++ stale_rotation) = true /\
  length (transactions_of revoke_call two_world) = 1 /\ length stale_rotation = 1.
Proof. by vm_compute. Qed.

(** The rotation lands on the revoked row: a new string, still revoked, and no
    newer version than the revocation gave it. *)
Example stale_rotation_lands :
  (fun t => (st_id t, st_status t, st_version t)) <$> tokens (w_db after_rotation_landed) =
    [(u "t1", u "revoked", 2%Z); (u "t2", u "active", 1%Z)] /\
  st_lookup_id <$> tokens (w_db after_rotation_landed) ≠ st_lookup_id <$> tokens revoked_tables.
Proof. by vm_compute. Qed.

Lemma stale_rotation_of_call : Forall of_some_call stale_rotation.
Proof. apply Forall_forall. intros p Hp. eexists _, _. exact Hp. Qed.

Lemma interleaved_calls_safe_witness :
  lasting revoked_tables (w_db after_rotation_landed) /\ u "t2" ≠ st_id landed_t1.
Proof.
  destruct (interleaved_calls_safe stale_rotation revoked_tables landed_t1 after_rotation_landed
    other_full (Context_ other_token [] demo_credential) resolve_landed.2) as [Hl Hdead].
  - apply stale_rotation_of_call.
  - by vm_compute.
  - vm_compute. by left.
  - done.
  - split; [exact Hl|]. apply Hdead; [by vm_compute|]. unfold resolve_landed. apply run_returns. by vm_compute.
Defined.

(** ** A mutation that goes through *)

#[local] Instance lite_calm : Calm.
Proof. split; [done|done|by vm_compute]. Qed.

Definition secret_headers : headers := [(u "Authorization", u "Bearer secret")].
Definition lock_of_r1 : pystr :=
  match mutation_lock_name (u "z1") (u "r1") with Ok n => n | Raise _ => [] end.

Lemma endswith_app a b : endswith b (a ++ b) = true.
Proof. apply bool_decide_eq_true_2. by exists a. Qed.

(** Whatever base it is sent to, a request for [r1] is answered with it. *)
Lemma r1_answers method sent :
  upstream_answers (fun base => forwarded base method (record_path (u "z1") (u "r1")) None None sent
    secret_headers) (HttpResponse 200 (Some (demo_envelope demo_r1))).
Proof.
  intros base s. change (cf_request ?rq s) with (demo_cf rq, s). unfold demo_cf, forwarded. simpl fst.
  cbn [hq_url]. change (record_path (u "z1") (u "r1"))
    with (u "/client/v4/zones/z1" ++ u "/dns_records/r1").
  by rewrite app_assoc, endswith_app.
Qed.

Lemma mutation_goes_through_witness :
  (patch_dns_record (u "z1") (u "r1") (demo_request patch_content) (demo_ctx [demo_rule]) patch_world).1 =
    Ok (JSONResponse 200 (demo_envelope demo_r1)).
Proof.
  apply (mutation_goes_through (demo_request patch_content) (u "PATCH") Write patch_content (Some [])
    patch_dns_record (demo_ctx [demo_rule]) (u "z1") (u "r1") secret_headers patch_world
    (resolve_upstream_auth demo_credential patch_world).2
    (HttpResponse 200 (Some (demo_envelope demo_r1))) demo_r1 (Decision true true None demo_r1)
    (HttpResponse 200 (Some (demo_envelope demo_r1))) (demo_envelope demo_r1) lock_of_r1).
  - by apply (handle_patch (demo_request patch_content)).
  - apply run_returns. by vm_compute.
  - by vm_compute.
  - apply (r1_answers (u "GET") None).
  - right. split; [done|]. split; [done|]. by eexists.
  - by vm_compute.
  - done.
  - apply (r1_answers (u "PATCH") (Some [])).
  - done.
Defined.
